(** * ni_string: a model of the dynamic string buffer of nini

    The development embeds the C sources [ni_string.h] and [ni_string.c]
    (with the allocator facade of [ni_malloc.c]) and checks the properties
    the specification states about them.

    Conventions of the embedding:
    - the platform is the 64-bit one ([LONG_MAX == LLONG_MAX]): [size_t]
      and [uint64_t] are 64 bits wide, [int] and [unsigned int] 32 bits;
      unsigned arithmetic is written with its wrap-around;
    - a byte is a [byte] of the standard library, a region of memory a
      [list byte];
    - a string handle is a record holding the identity of the heap block,
      the flags byte [s[-1]], the [len] and [alloc] header fields and the
      bytes that start at [s[0]] and run to the end of the block;
    - the allocator is a state: a counter of blocks, the trace of the
      calls made so far and the content uninitialised memory shows;
    - an out-of-bounds access, a failed [assert], a [free] of a pointer
      that is not the start of a block and a read past the end of a C
      string are faults: the computation stops there.  The allocator never
      returns NULL (the default out-of-memory handler aborts). *)

From Stdlib Require Import ZArith Lia Strings.Byte Strings.String.
From stdpp Require Import base list gmap.

Local Open Scope Z_scope.

(** ** Machine integers *)

Definition to_size (z : Z) : Z := z mod 2 ^ 64.
Definition to_uint (z : Z) : Z := z mod 2 ^ 32.
Definition to_u16 (z : Z) : Z := z mod 2 ^ 16.
Definition to_u8 (z : Z) : Z := z mod 2 ^ 8.

(** The largest size of an object: [SSIZE_MAX]. *)
Abbreviation SSIZE_MAX := (2 ^ 63 - 1) (only parsing).

(** ** Bytes *)

#[global] Instance byte_eq_dec : EqDecision byte := Byte.byte_eq_dec.

Definition byte_to_Z (b : byte) : Z := Z.of_N (Byte.to_N b).

Definition byte_of_Z (z : Z) : byte :=
  default x00 (Byte.of_N (Z.to_N (z mod 256))).

Definition zlength {A} (l : list A) : Z := Z.of_nat (length l).

(** A C string is given by the bytes of its memory; it ends before the
    first zero byte, or with the list when there is none (the terminator
    then follows the list). *)
Fixpoint c_str (l : list byte) : list byte :=
  match l with
  | [] => []
  | c :: l' => if decide (c = x00) then [] else c :: c_str l'
  end.

Definition strlen (l : list byte) : Z := zlength (c_str l).

(** ** Faults, the allocator state and the monad of the embedding *)

Inductive fault : Type :=
| OutOfBounds
| AssertionFailed
| InvalidFree
| BadVarArg
| ReadPastEnd.

Inductive alloc_ev : Type :=
| EvMalloc (b : Z) (size : Z)
| EvRealloc (b : Z) (size : Z)
| EvFree (b : Z).

Record heap : Type := Heap {
  next_blk : Z;
  events : list alloc_ev;
  junk : nat -> byte
}.

Inductive outcome (A : Type) : Type :=
| Ok (a : A) (h : heap)
| Fault (f : fault).

Arguments Ok {A} a h.
Arguments Fault {A} f.

Definition M (A : Type) : Type := heap -> outcome A.

Definition ret {A} (a : A) : M A := fun h => Ok a h.

Definition bind {A B} (c : M A) (k : A -> M B) : M B :=
  fun h => match c h with
           | Ok a h' => k a h'
           | Fault f => Fault f
           end.

Definition raise {A} (f : fault) : M A := fun _ => Fault f.

Notation "'let*' x := c 'in' k" := (bind c (fun x => k))
  (at level 10, x pattern, c at level 100, k at level 200).

(** A memory access that may leave the region. *)
Definition mem {A} (o : option A) : M A :=
  match o with
  | Some a => ret a
  | None => raise OutOfBounds
  end.

Definition assert (b : bool) : M unit :=
  if b then ret tt else raise AssertionFailed.

(** ** Memory regions *)

Definition mem_store (b : list byte) (i : Z) (v : byte) : option (list byte) :=
  if bool_decide (0 <= i < zlength b)
  then Some (<[Z.to_nat i := v]> b) else None.

(** [memcpy(dst + off, src, n)] *)
Definition memcpy (dst : list byte) (off : Z) (src : list byte) (n : Z)
  : option (list byte) :=
  if bool_decide (0 <= off /\ 0 <= n /\ off + n <= zlength dst /\ n <= zlength src)
  then Some (take (Z.to_nat off) dst ++ take (Z.to_nat n) src
             ++ drop (Z.to_nat (off + n)) dst)
  else None.

(** [memset(dst + off, v, n)] *)
Definition memset (dst : list byte) (off : Z) (v : byte) (n : Z)
  : option (list byte) :=
  if bool_decide (0 <= off /\ 0 <= n /\ off + n <= zlength dst)
  then Some (take (Z.to_nat off) dst ++ replicate (Z.to_nat n) v
             ++ drop (Z.to_nat (off + n)) dst)
  else None.

(** [memmove(s, s + from, n)], source and destination in one region *)
Definition memmove (s : list byte) (from : Z) (n : Z) : option (list byte) :=
  if bool_decide (0 <= from /\ 0 <= n /\ from + n <= zlength s)
  then Some (take (Z.to_nat n) (drop (Z.to_nat from) s)
             ++ drop (Z.to_nat n) s)
  else None.

(** ** The allocator facade: [ni_malloc], [ni_realloc], [ni_free] *)

Record ptr : Type := Ptr { p_blk : Z; p_off : Z }.

Definition fresh_bytes (h : heap) (n : Z) : list byte :=
  map (junk h) (seq 0 (Z.to_nat n)).

Definition log (e : alloc_ev) (h : heap) : heap :=
  {| next_blk := next_blk h; events := events h ++ [e]; junk := junk h |}.

(** [ni_malloc(size)]: a fresh block whose bytes are not initialised. *)
Definition ni_malloc (size : Z) : M (ptr * list byte) := fun h =>
  Ok (Ptr (next_blk h) 0, fresh_bytes h size)
     {| next_blk := next_blk h + 1;
        events := events h ++ [EvMalloc (next_blk h) size];
        junk := junk h |}.

(** [ni_realloc(ptr, size)]: the block at [ptr] holds [hdr] bytes of header
    (kept in the fields of the handle) followed by [data]; the result is
    the data part of the resized block, which keeps the old bytes up to
    the smaller of the two sizes.  A NULL [ptr] allocates. *)
Definition ni_realloc (p : option ptr) (hdr : Z) (data : list byte) (size : Z)
  : M (ptr * list byte) :=
  match p with
  | None =>
      let* (q, raw) := ni_malloc size in
      ret (q, drop (Z.to_nat hdr) raw)
  | Some q =>
      if p_off q =? 0
      then fun h =>
        Ok (q, take (Z.to_nat (size - hdr)) (data ++ fresh_bytes h (size - hdr)))
           (log (EvRealloc (p_blk q) size) h)
      else raise InvalidFree
  end.

(** [ni_free(ptr)]: nothing for NULL; [free] accepts only the start of a
    block. *)
Definition ni_free (p : option ptr) : M unit :=
  match p with
  | None => ret tt
  | Some q =>
      if p_off q =? 0
      then fun h => Ok tt (log (EvFree (p_blk q)) h)
      else raise InvalidFree
  end.

Definition ni_string_malloc (size : Z) : M (ptr * list byte) := ni_malloc size.
Definition ni_string_realloc := ni_realloc.
Definition ni_string_ptr_free (p : option ptr) : M unit := ni_free p.

(** ** The header codec ([ni_string.h]) *)

(** The macros of the header, as the abbreviations they are. *)
Abbreviation NI_STRING_MAX_PREALLOC := (1024 * 1024) (only parsing).
Abbreviation NI_STRING_TYPE_5 := 0 (only parsing).
Abbreviation NI_STRING_TYPE_8 := 1 (only parsing).
Abbreviation NI_STRING_TYPE_16 := 2 (only parsing).
Abbreviation NI_STRING_TYPE_32 := 3 (only parsing).
Abbreviation NI_STRING_TYPE_64 := 4 (only parsing).
Abbreviation NI_STRING_TYPE_MASK := 7 (only parsing).
Abbreviation NI_STRING_TYPE_BITS := 3 (only parsing).

Record ni_string : Type := NiString {
  blk : Z;              (* the heap block that holds header and data *)
  flags : Z;            (* s[-1] *)
  hdr_len : Z;          (* sh->len, types 8 to 64 *)
  hdr_alloc : Z;        (* sh->alloc, types 8 to 64 *)
  buf : list byte       (* s[0], s[1], ... to the end of the block *)
}.

Definition with_flags (s : ni_string) (f : Z) : ni_string :=
  NiString (blk s) f (hdr_len s) (hdr_alloc s) (buf s).
Definition with_len (s : ni_string) (l : Z) : ni_string :=
  NiString (blk s) (flags s) l (hdr_alloc s) (buf s).
Definition with_alloc (s : ni_string) (a : Z) : ni_string :=
  NiString (blk s) (flags s) (hdr_len s) a (buf s).
Definition with_buf (s : ni_string) (b : list byte) : ni_string :=
  NiString (blk s) (flags s) (hdr_len s) (hdr_alloc s) b.

Definition NI_STRING_TYPE_5_LEN (f : Z) : Z := Z.shiftr f NI_STRING_TYPE_BITS.

Definition sds_type (s : ni_string) : Z := Z.land (flags s) NI_STRING_TYPE_MASK.

Definition ni_string_len (s : ni_string) : Z :=
  match sds_type s with
  | 0 => NI_STRING_TYPE_5_LEN (flags s)
  | 1 | 2 | 3 | 4 => hdr_len s
  | _ => 0
  end.

Definition ni_string_avail (s : ni_string) : Z :=
  match sds_type s with
  | 0 => 0
  | 1 | 2 => to_size (hdr_alloc s - hdr_len s)
  | 3 => to_uint (hdr_alloc s - hdr_len s)
  | 4 => to_size (hdr_alloc s - hdr_len s)
  | _ => 0
  end.

Definition ni_string_set_len (s : ni_string) (newlen : Z) : ni_string :=
  match sds_type s with
  | 0 => with_flags s
           (to_u8 (Z.lor NI_STRING_TYPE_5 (Z.shiftl newlen NI_STRING_TYPE_BITS)))
  | 1 => with_len s (to_u8 newlen)
  | 2 => with_len s (to_u16 newlen)
  | 3 => with_len s (to_uint newlen)
  | 4 => with_len s (to_size newlen)
  | _ => s
  end.

Definition ni_string_alloc (s : ni_string) : Z :=
  match sds_type s with
  | 0 => NI_STRING_TYPE_5_LEN (flags s)
  | 1 | 2 | 3 | 4 => hdr_alloc s
  | _ => 0
  end.

Definition ni_string_set_alloc (s : ni_string) (newlen : Z) : ni_string :=
  match sds_type s with
  | 0 => s
  | 1 => with_alloc s (to_u8 newlen)
  | 2 => with_alloc s (to_u16 newlen)
  | 3 => with_alloc s (to_uint newlen)
  | 4 => with_alloc s (to_size newlen)
  | _ => s
  end.

(** ** Creation and the growth engine ([ni_string.c]) *)

Definition ni_string_hdr_size (type : Z) : Z :=
  match Z.land type NI_STRING_TYPE_MASK with
  | 0 => 1
  | 1 => 3
  | 2 => 5
  | 3 => 9
  | 4 => 17
  | _ => 0
  end.

Definition ni_string_req_type (ni_string_size : Z) : Z :=
  if ni_string_size <? 2 ^ 5 then NI_STRING_TYPE_5
  else if ni_string_size <? 2 ^ 8 then NI_STRING_TYPE_8
  else if ni_string_size <? 2 ^ 16 then NI_STRING_TYPE_16
  else if ni_string_size <? 2 ^ 32 then NI_STRING_TYPE_32
  else NI_STRING_TYPE_64.

(** The pointer the handle is ([s]) and the start of its block
    ([s - hdr_size], [ni_string_alloc_ptr]). *)
Definition handle_ptr (s : ni_string) : ptr :=
  Ptr (blk s) (ni_string_hdr_size (flags s)).

Definition ni_string_alloc_ptr (s : ni_string) : ptr :=
  Ptr (blk s) (ni_string_hdr_size (flags s) - ni_string_hdr_size (flags s)).

(** The [init] argument of [ni_string_new_len]. *)
Inductive init_src : Type :=
| InitNoInit                    (* NI_STRING_NOINIT *)
| InitNull                      (* NULL: zero bytes *)
| InitData (d : list byte).

Definition ni_string_new_len (init : init_src) (initlen : Z) : M ni_string :=
  let type := ni_string_req_type initlen in
  let type := if (type =? NI_STRING_TYPE_5) && (initlen =? 0)
              then NI_STRING_TYPE_8 else type in
  let hdrlen := ni_string_hdr_size type in
  let* (sh, raw) := ni_string_malloc (to_size (hdrlen + initlen + 1)) in
  let raw := match init with
             | InitNull => replicate (length raw) x00
             | _ => raw
             end in
  let data := drop (Z.to_nat hdrlen) raw in
  let s := match type with
           | 0 => NiString (p_blk sh)
                    (to_u8 (Z.lor type (Z.shiftl initlen NI_STRING_TYPE_BITS)))
                    0 0 data
           | 1 => NiString (p_blk sh) type (to_u8 initlen) (to_u8 initlen) data
           | 2 => NiString (p_blk sh) type (to_u16 initlen) (to_u16 initlen) data
           | 3 => NiString (p_blk sh) type (to_uint initlen) (to_uint initlen) data
           | _ => NiString (p_blk sh) type (to_size initlen) (to_size initlen) data
           end in
  let* b := match init with
            | InitData d =>
                if initlen =? 0 then ret (buf s)
                else mem (memcpy (buf s) 0 d initlen)
            | _ => ret (buf s)
            end in
  let* b := mem (mem_store b initlen x00) in
  ret (with_buf s b).

Definition ni_string_empty : M ni_string := ni_string_new_len (InitData []) 0.

(** [ni_string_new(init)] for a non-NULL C string. *)
Definition ni_string_new (init : list byte) : M ni_string :=
  ni_string_new_len (InitData init) (strlen init).


Definition ni_string_clear (s : ni_string) : M ni_string :=
  let s := ni_string_set_len s 0 in
  let* b := mem (mem_store (buf s) 0 x00) in
  ret (with_buf s b).

Definition ni_string_make_room_for (s : ni_string) (addlen : Z) : M ni_string :=
  let avail := ni_string_avail s in
  let oldtype := sds_type s in
  if avail >=? addlen then ret s
  else
    let len := ni_string_len s in
    let sh := ni_string_alloc_ptr s in
    let newlen := to_size (len + addlen) in
    let newlen := if newlen <? NI_STRING_MAX_PREALLOC
                  then to_size (newlen * 2)
                  else to_size (newlen + NI_STRING_MAX_PREALLOC) in
    let type := ni_string_req_type newlen in
    let type := if type =? NI_STRING_TYPE_5 then NI_STRING_TYPE_8 else type in
    let hdrlen := ni_string_hdr_size type in
    let* s :=
      if oldtype =? type then
        let* (newsh, data) :=
          ni_string_realloc (Some sh) hdrlen (buf s) (to_size (hdrlen + newlen + 1)) in
        ret (NiString (p_blk newsh) (flags s) (hdr_len s) (hdr_alloc s) data)
      else
        let* (newsh, raw) := ni_string_malloc (to_size (hdrlen + newlen + 1)) in
        let* data := mem (memcpy (drop (Z.to_nat hdrlen) raw) 0 (buf s) (to_size (len + 1))) in
        let* _ := ni_string_ptr_free (Some sh) in
        let s := NiString (p_blk newsh) type 0 0 data in
        ret (ni_string_set_len s len) in
    ret (ni_string_set_alloc s newlen).

Definition ni_string_remove_free_space (s : ni_string) : M ni_string :=
  let oldtype := sds_type s in
  let oldhdrlen := ni_string_hdr_size oldtype in
  let len := ni_string_len s in
  let avail := ni_string_avail s in
  let sh := ni_string_alloc_ptr s in
  if avail =? 0 then ret s
  else
    let type := ni_string_req_type len in
    let hdrlen := ni_string_hdr_size type in
    let* s :=
      if (oldtype =? type) || (type >? NI_STRING_TYPE_8) then
        let* (newsh, data) :=
          ni_string_realloc (Some sh) oldhdrlen (buf s) (to_size (oldhdrlen + len + 1)) in
        ret (NiString (p_blk newsh) (flags s) (hdr_len s) (hdr_alloc s) data)
      else
        let* (newsh, raw) := ni_string_malloc (to_size (hdrlen + len + 1)) in
        let* data := mem (memcpy (drop (Z.to_nat hdrlen) raw) 0 (buf s) (to_size (len + 1))) in
        let* _ := ni_string_ptr_free (Some sh) in
        let s := NiString (p_blk newsh) type 0 0 data in
        ret (ni_string_set_len s len) in
    ret (ni_string_set_alloc s len).

(** The bytes the string holds: [s[0 .. len)]. *)
Definition content (s : ni_string) : list byte :=
  take (Z.to_nat (ni_string_len s)) (buf s).

(** The byte at an offset of the data. *)
Definition byte_at (s : ni_string) (i : Z) : option byte :=
  if 0 <=? i then buf s !! Z.to_nat i else None.

(** A handle the library can have produced: a known header type, header
    fields within their width with [len <= alloc], a data region that
    holds [alloc] bytes and the terminator, and a terminator after the
    [len] bytes of content. *)
Definition field_bound (type : Z) : Z :=
  match type with
  | 1 => 2 ^ 8
  | 2 => 2 ^ 16
  | 3 => 2 ^ 32
  | _ => 2 ^ 63
  end.

Definition valid (s : ni_string) : Prop :=
  0 <= flags s < 256 /\
  0 <= sds_type s <= 4 /\
  (sds_type s <> 0 ->
     0 <= hdr_len s /\ hdr_len s <= hdr_alloc s /\
     hdr_alloc s < field_bound (sds_type s)) /\
  ni_string_alloc s < zlength (buf s) /\
  byte_at s (ni_string_len s) = Some x00.

(** ** Length adjustment and the mutation API *)

Definition to_ssize (z : Z) : Z := (z + 2 ^ 63) mod 2 ^ 64 - 2 ^ 63.
Definition to_int (z : Z) : Z := (z + 2 ^ 31) mod 2 ^ 32 - 2 ^ 31.

(** [ni_string_incr_len]: the assertion of each case, the update of the
    length and the store of the terminator at the new end. *)
Definition ni_string_incr_len (s : ni_string) (incr : Z) : M ni_string :=
  let* (s, len) :=
    match sds_type s with
    | 0 =>
        let oldlen := NI_STRING_TYPE_5_LEN (flags s) in
        let* _ := assert ((incr >? 0) && (oldlen + incr <? 32)
                          || (incr <? 0) && (oldlen >=? to_uint (- incr))) in
        ret (with_flags s
               (to_u8 (Z.lor NI_STRING_TYPE_5
                         (Z.shiftl (oldlen + incr) NI_STRING_TYPE_BITS))),
             to_size (oldlen + incr))
    | 1 =>
        let* _ := assert ((incr >=? 0) && (hdr_alloc s - hdr_len s >=? incr)
                          || (incr <? 0) && (hdr_len s >=? to_uint (- incr))) in
        let l := to_u8 (hdr_len s + incr) in
        ret (with_len s l, l)
    | 2 =>
        let* _ := assert ((incr >=? 0) && (hdr_alloc s - hdr_len s >=? incr)
                          || (incr <? 0) && (hdr_len s >=? to_uint (- incr))) in
        let l := to_u16 (hdr_len s + incr) in
        ret (with_len s l, l)
    | 3 =>
        let* _ := assert ((incr >=? 0)
                            && (to_uint (hdr_alloc s - hdr_len s) >=? to_uint incr)
                          || (incr <? 0) && (hdr_len s >=? to_uint (- incr))) in
        let l := to_uint (hdr_len s + incr) in
        ret (with_len s l, l)
    | 4 =>
        let* _ := assert ((incr >=? 0)
                            && (to_size (hdr_alloc s - hdr_len s) >=? to_size incr)
                          || (incr <? 0) && (hdr_len s >=? to_size (- incr))) in
        let l := to_size (hdr_len s + incr) in
        ret (with_len s l, l)
    | _ => ret (s, 0)
    end in
  let* b := mem (mem_store (buf s) len x00) in
  ret (with_buf s b).

Definition ni_string_grow_zero (s : ni_string) (len : Z) : M ni_string :=
  let curlen := ni_string_len s in
  if len <=? curlen then ret s
  else
    let* s := ni_string_make_room_for s (to_size (len - curlen)) in
    let* b := mem (memset (buf s) curlen x00 (to_size (len - curlen + 1))) in
    ret (ni_string_set_len (with_buf s b) len).

(** [ni_string_cat_len(s, t, len)]: [t] is the memory the source pointer
    reaches. *)
Definition ni_string_cat_len (s : ni_string) (t : list byte) (len : Z)
  : M ni_string :=
  let curlen := ni_string_len s in
  let* s := ni_string_make_room_for s len in
  let* b := mem (memcpy (buf s) curlen t len) in
  let s := ni_string_set_len (with_buf s b) (to_size (curlen + len)) in
  let* b := mem (mem_store (buf s) (to_size (curlen + len)) x00) in
  ret (with_buf s b).

Definition ni_string_cat (s : ni_string) (t : list byte) : M ni_string :=
  ni_string_cat_len s t (strlen t).

Definition ni_string_cat_ni_string (s t : ni_string) : M ni_string :=
  ni_string_cat_len s (buf t) (ni_string_len t).

Definition ni_string_cpy_len (s : ni_string) (t : list byte) (len : Z)
  : M ni_string :=
  let* s := if ni_string_alloc s <? len
            then ni_string_make_room_for s (to_size (len - ni_string_len s))
            else ret s in
  let* b := mem (memcpy (buf s) 0 t len) in
  let* b := mem (mem_store b len x00) in
  ret (ni_string_set_len (with_buf s b) len).

Definition ni_string_cpy (s : ni_string) (t : list byte) : M ni_string :=
  ni_string_cpy_len s t (strlen t).

(** ** Integer to decimal conversion *)

Abbreviation NI_STRING_LLSTR_SIZE := 21%nat (only parsing).

(** The [do ... while (v)] loop: the digits, least significant first.  The
    buffer the callers pass has [NI_STRING_LLSTR_SIZE] bytes, which bounds
    the number of rounds. *)
Fixpoint ll2str_digits (fuel : nat) (v : Z) : list byte :=
  match fuel with
  | O => []
  | S fuel' =>
      byte_of_Z (48 + v mod 10)
      :: (if v / 10 =? 0 then [] else ll2str_digits fuel' (v / 10))
  end.

(** The loop that reverses the string in place, [s] and [p] being the
    offsets of the two pointers. *)
Fixpoint ll2str_reverse (fuel : nat) (b : list byte) (s p : nat) : list byte :=
  match fuel with
  | O => b
  | S fuel' =>
      if bool_decide (s < p)%nat then
        match b !! s, b !! p with
        | Some aux, Some y =>
            ll2str_reverse fuel' (<[p := aux]> (<[s := y]> b)) (S s) (pred p)
        | _, _ => b
        end
      else b
  end.

(** [ni_string_ll2str]: the bytes written before the terminator (their
    number is the value returned). *)
Definition ni_string_ll2str (value : Z) : list byte :=
  let v := to_size (if value <? 0 then - value else value) in
  let b := ll2str_digits NI_STRING_LLSTR_SIZE v in
  let b := if value <? 0 then b ++ ["-"%byte] else b in
  ll2str_reverse (length b) b 0 (pred (length b)).

Definition ni_string_ull2str (v : Z) : list byte :=
  let b := ll2str_digits NI_STRING_LLSTR_SIZE v in
  ll2str_reverse (length b) b 0 (pred (length b)).

Definition ni_string_from_longlong (value : Z) : M ni_string :=
  let buf := ni_string_ll2str value in
  ni_string_new_len (InitData buf) (zlength buf).

(** ** The formatting engine *)

(** [vsnprintf(buf, buflen, fmt, ap)] of the C library: [out] is the text
    the format and its arguments produce; at most [buflen - 1] bytes of it
    are stored, followed by a zero byte. *)
Definition vsnprintf (buf : list byte) (buflen : Z) (out : list byte)
  : option (list byte) :=
  let n := Z.min (zlength out) (buflen - 1) in
  match memcpy buf 0 out n with
  | Some b => mem_store b n x00
  | None => None
  end.

(** The loop of [ni_string_cat_vprintf]: format into the buffer, and start
    again with a heap buffer of twice the size while the last but one byte
    has been overwritten.  [heapbuf] is the buffer when it is not the
    static one.  The size doubles, so that the length of the text bounds
    the number of rounds. *)
Fixpoint cat_vprintf_loop (fuel : nat) (out : list byte) (buf : list byte)
  (heapbuf : option ptr) (buflen : Z) : M (list byte * option ptr) :=
  let* buf := mem (mem_store buf (buflen - 2) x00) in
  let* buf := mem (vsnprintf buf buflen out) in
  if bool_decide (buf !! Z.to_nat (buflen - 2) = Some x00)
  then ret (buf, heapbuf)
  else
    match fuel with
    | O => ret (buf, heapbuf)
    | S fuel' =>
        let* _ := ni_string_ptr_free heapbuf in
        let buflen := to_size (buflen * 2) in
        let* (p, buf) := ni_string_malloc buflen in
        cat_vprintf_loop fuel' out buf (Some p) buflen
    end.

(** [ni_string_cat_vprintf(s, fmt, ap)]: [fmt] is the format and [out] the
    text the C library makes of it and the arguments. *)
Definition ni_string_cat_vprintf (s : ni_string) (fmt : list byte)
  (out : list byte) : M ni_string :=
  let buflen := to_size (strlen fmt * 2) in
  let* (buf, heapbuf, buflen) :=
    if buflen >? 1024 then
      let* (p, buf) := ni_string_malloc buflen in ret (buf, Some p, buflen)
    else
      fun h => Ok (fresh_bytes h 1024, None, 1024) h in
  let* (buf, heapbuf) :=
    cat_vprintf_loop (length out) out buf heapbuf buflen in
  let* t := ni_string_cat s buf in
  let* _ := ni_string_ptr_free heapbuf in
  ret t.

Definition ni_string_cat_printf (s : ni_string) (fmt : list byte)
  (out : list byte) : M ni_string :=
  ni_string_cat_vprintf s fmt out.

(** The variadic arguments of [ni_string_cat_fmt], each with the type the
    caller passed it with. *)
Inductive fmt_arg : Type :=
| ArgStr (t : list byte)        (* char*: a C string *)
| ArgNi (t : ni_string)         (* ni_string *)
| ArgInt (v : Z)                (* int *)
| ArgLL (v : Z)                 (* long long *)
| ArgUInt (v : Z)               (* unsigned int *)
| ArgULL (v : Z).               (* unsigned long long *)

(** The common end of the cases that append [l] bytes of [str]. *)
Definition cat_fmt_bytes (s : ni_string) (i : Z) (str : list byte) (l : Z)
  : M ni_string :=
  let* s := if ni_string_avail s <? l
            then ni_string_make_room_for s l else ret s in
  let* b := mem (memcpy (buf s) i str l) in
  ni_string_incr_len (with_buf s b) l.

(** The common end of the cases that append one byte. *)
Definition cat_fmt_char (s : ni_string) (i : Z) (c : byte) : M ni_string :=
  let* b := mem (mem_store (buf s) i c) in
  ni_string_incr_len (with_buf s b) 1.

(** The loop of [ni_string_cat_fmt]: [f] is the memory from the byte of
    the format the loop is at, [ap] the arguments not consumed yet, [i] the
    offset of the next byte to write.  The format ends at its first zero
    byte, and the region [f] may go on after it; the memory after the
    region is taken to hold zero bytes, so that a region without a zero
    byte has its terminator right after its last byte.  The byte after a
    percent sign is read and stepped over whatever it is: when it is the
    terminator, the loop stores it as any other byte, goes on with the
    memory after it and returns at the next zero byte. *)
Fixpoint cat_fmt_loop (f : list byte) (ap : list fmt_arg) (s : ni_string)
  (i : Z) : M ni_string :=
  match f with
  | [] =>
      let* b := mem (mem_store (buf s) i x00) in
      ret (with_buf s b)
  | c :: f' =>
      if bool_decide (c = x00) then
        let* b := mem (mem_store (buf s) i x00) in
        ret (with_buf s b)
      else
        let* s := if ni_string_avail s =? 0
                  then ni_string_make_room_for s 1 else ret s in
        if bool_decide (c = "%"%byte) then
          match f' with
          | [] =>
              (* [next] is the terminator, with a zero byte after it *)
              let* s := cat_fmt_char s i x00 in
              cat_fmt_loop f' ap s (i + 1)
          | next :: f'' =>
              if bool_decide (next = "s"%byte) then
                match ap with
                | ArgStr str :: ap' =>
                    let l := strlen str in
                    let* s := cat_fmt_bytes s i str l in
                    cat_fmt_loop f'' ap' s (i + l)
                | ArgNi str :: ap' =>
                    let l := strlen (buf str) in
                    let* s := cat_fmt_bytes s i (buf str) l in
                    cat_fmt_loop f'' ap' s (i + l)
                | _ => raise BadVarArg
                end
              else if bool_decide (next = "S"%byte) then
                match ap with
                | ArgNi str :: ap' =>
                    let l := ni_string_len str in
                    let* s := cat_fmt_bytes s i (buf str) l in
                    cat_fmt_loop f'' ap' s (i + l)
                | _ => raise BadVarArg
                end
              else if bool_decide (next = "i"%byte) then
                match ap with
                | ArgInt v :: ap' =>
                    let buf := ni_string_ll2str (to_int v) in
                    let l := zlength buf in
                    let* s := cat_fmt_bytes s i buf l in
                    cat_fmt_loop f'' ap' s (i + l)
                | _ => raise BadVarArg
                end
              else if bool_decide (next = "I"%byte) then
                match ap with
                | ArgLL v :: ap' =>
                    let buf := ni_string_ll2str (to_ssize v) in
                    let l := zlength buf in
                    let* s := cat_fmt_bytes s i buf l in
                    cat_fmt_loop f'' ap' s (i + l)
                | _ => raise BadVarArg
                end
              else if bool_decide (next = "u"%byte) then
                match ap with
                | ArgUInt v :: ap' =>
                    let buf := ni_string_ull2str (to_uint v) in
                    let l := zlength buf in
                    let* s := cat_fmt_bytes s i buf l in
                    cat_fmt_loop f'' ap' s (i + l)
                | _ => raise BadVarArg
                end
              else if bool_decide (next = "U"%byte) then
                match ap with
                | ArgULL v :: ap' =>
                    let buf := ni_string_ull2str (to_size v) in
                    let l := zlength buf in
                    let* s := cat_fmt_bytes s i buf l in
                    cat_fmt_loop f'' ap' s (i + l)
                | _ => raise BadVarArg
                end
              else
                let* s := cat_fmt_char s i next in
                cat_fmt_loop f'' ap s (i + 1)
          end
        else
          let* s := cat_fmt_char s i c in
          cat_fmt_loop f' ap s (i + 1)
  end.

Definition ni_string_cat_fmt (s : ni_string) (fmt : list byte)
  (ap : list fmt_arg) : M ni_string :=
  let initlen := ni_string_len s in
  cat_fmt_loop fmt ap s initlen.

(** ** Trimming and ranges *)

(** [strchr(cset, c) != NULL]: the terminator of [cset] counts. *)
Definition strchr (cset : list byte) (c : byte) : bool :=
  bool_decide (c = x00) || bool_decide (c ∈ c_str cset).

(** [while (sp <= end && strchr(cset, *sp)) sp++], over the bytes from
    [sp] to [end]. *)
Fixpoint trim_left (cset : list byte) (bytes : list byte) (sp : Z) : Z :=
  match bytes with
  | [] => sp
  | c :: bytes' =>
      if strchr cset c then trim_left cset bytes' (sp + 1) else sp
  end.

(** [while (ep > sp && strchr(cset, *ep)) ep--], over the bytes from [ep]
    down to [sp + 1]. *)
Fixpoint trim_right (cset : list byte) (bytes_down : list byte) (ep : Z) : Z :=
  match bytes_down with
  | [] => ep
  | c :: bytes' =>
      if strchr cset c then trim_right cset bytes' (ep - 1) else ep
  end.

(** [ni_string_trim]: the two loops read bytes of [s[0 .. len)] only; the
    model asks that all of them lie in the region. *)
Definition ni_string_trim (s : ni_string) (cset : list byte) : M ni_string :=
  let len0 := ni_string_len s in
  let end_ := len0 - 1 in
  let* _ := mem (if len0 <=? zlength (buf s) then Some tt else None) in
  let sp := trim_left cset (take (Z.to_nat len0) (buf s)) 0 in
  let ep := trim_right cset
              (rev (drop (Z.to_nat (sp + 1)) (take (Z.to_nat len0) (buf s))))
              end_ in
  let len := if sp >? ep then 0 else to_size (ep - sp + 1) in
  let* b := if sp =? 0 then ret (buf s)
            else mem (memmove (buf s) sp len) in
  let* b := mem (mem_store b len x00) in
  ret (ni_string_set_len (with_buf s b) len).

Definition ni_string_range (s : ni_string) (start end_ : Z) : M ni_string :=
  let len := ni_string_len s in
  if len =? 0 then ret s
  else
    let start :=
      if start <? 0 then
        let start := to_ssize (len + start) in
        if start <? 0 then 0 else start
      else start in
    let end_ :=
      if end_ <? 0 then
        let end_ := to_ssize (len + end_) in
        if end_ <? 0 then 0 else end_
      else end_ in
    let newlen := if start >? end_ then 0 else to_size (end_ - start + 1) in
    let '(start, end_, newlen) :=
      if negb (newlen =? 0) then
        if start >=? to_ssize len then (start, end_, 0)
        else if end_ >=? to_ssize len then
          let end_ := to_ssize (len - 1) in
          (start, end_, if start >? end_ then 0 else to_size (end_ - start + 1))
        else (start, end_, newlen)
      else (0, end_, newlen) in
    let* b := if negb (start =? 0) && negb (newlen =? 0)
              then mem (memmove (buf s) start newlen) else ret (buf s) in
    let* b := mem (mem_store b newlen x00) in
    ret (ni_string_set_len (with_buf s b) newlen).

(** ** Tokenizers *)






(** *** The escaped representation *)

Definition isprint (c : byte) : bool :=
  (32 <=? byte_to_Z c) && (byte_to_Z c <=? 126).

Definition isspace (c : byte) : bool :=
  bool_decide (c ∈ [x20; x09; x0a; x0b; x0c; x0d]).

Definition hex_char (d : Z) : byte :=
  if d <? 10 then byte_of_Z (48 + d) else byte_of_Z (97 + (d - 10)).

(** The texts [vsnprintf] makes of the three formats [ni_string_cat_repr]
    uses: a backslash and [%c], [%c] alone, and a backslash, [x] and
    [%02x]. *)
Definition printf_backslash_c (c : byte) : list byte := [x5c; c].
Definition printf_c (c : byte) : list byte := [c].
Definition printf_x02x (c : byte) : list byte :=
  [x5c; "x"%byte; hex_char (byte_to_Z c / 16); hex_char (byte_to_Z c mod 16)].

Definition cat_repr_char (s : ni_string) (c : byte) : M ni_string :=
  if bool_decide (c = x5c) || bool_decide (c = x22) then
    ni_string_cat_printf s [x5c; "%"%byte; "c"%byte] (printf_backslash_c c)
  else if bool_decide (c = x0a) then ni_string_cat_len s [x5c; "n"%byte] 2
  else if bool_decide (c = x0d) then ni_string_cat_len s [x5c; "r"%byte] 2
  else if bool_decide (c = x09) then ni_string_cat_len s [x5c; "t"%byte] 2
  else if bool_decide (c = x07) then ni_string_cat_len s [x5c; "a"%byte] 2
  else if bool_decide (c = x08) then ni_string_cat_len s [x5c; "b"%byte] 2
  else if isprint c then
    ni_string_cat_printf s ["%"%byte; "c"%byte] (printf_c c)
  else
    ni_string_cat_printf s
      [x5c; "x"%byte; "%"%byte; "0"%byte; "2"%byte; "x"%byte] (printf_x02x c).

(** [while (len--) { ... p++; }] *)
Fixpoint cat_repr_loop (len : nat) (p : list byte) (s : ni_string)
  : M ni_string :=
  match len with
  | O => ret s
  | S len' =>
      match p with
      | [] => raise OutOfBounds
      | c :: p' =>
          let* s := cat_repr_char s c in
          cat_repr_loop len' p' s
      end
  end.

Definition ni_string_cat_repr (s : ni_string) (p : list byte) (len : Z)
  : M ni_string :=
  let* s := ni_string_cat_len s [x22] 1 in
  let* s := cat_repr_loop (Z.to_nat len) p s in
  ni_string_cat_len s [x22] 1.

(** *** The splitter of quoted arguments *)

Definition is_hex_digit (c : byte) : bool :=
  let c := byte_to_Z c in
  (48 <=? c) && (c <=? 57) || (97 <=? c) && (c <=? 102)
  || (65 <=? c) && (c <=? 70).

Definition hex_digit_to_int (c : byte) : Z :=
  let c := byte_to_Z c in
  if (48 <=? c) && (c <=? 57) then c - 48
  else if (97 <=? c) && (c <=? 102) then c - 97 + 10
  else if (65 <=? c) && (c <=? 70) then c - 65 + 10
  else 0.

(** The vector of arguments: NULL, or its block and the tokens stored. *)
Definition arg_vector : Type := option (ptr * list ni_string).

Definition vector_items (vector : arg_vector) : list ni_string :=
  match vector with Some (_, items) => items | None => [] end.

Definition vector_ptr (vector : arg_vector) : option ptr :=
  match vector with Some (p, _) => Some p | None => None end.

(** The label [err]: the tokens, from the last one down, the vector and
    the token under construction are passed to [ni_string_ptr_free]. *)
Fixpoint free_tokens (tokens_down : list ni_string) : M unit :=
  match tokens_down with
  | [] => ret tt
  | t :: rest =>
      let* _ := ni_string_ptr_free (Some (handle_ptr t)) in
      free_tokens rest
  end.

Definition split_args_err (vector : arg_vector) (current : option ni_string)
  : M (option (list ni_string) * Z) :=
  let* _ := free_tokens (rev (vector_items vector)) in
  let* _ := ni_string_ptr_free (vector_ptr vector) in
  let* _ := match current with
            | Some c => ni_string_ptr_free (Some (handle_ptr c))
            | None => ret tt
            end in
  ret (None, 0).

(** "add the token to the vector" *)
Definition split_args_push (vector : arg_vector) (argc : Z)
  (current : ni_string) : M arg_vector :=
  let* (p, _) := ni_string_realloc (vector_ptr vector) 0 []
                   (to_size ((argc + 1) * 8)) in
  ret (Some (p, vector_items vector ++ [current])).

(** "Even on empty input string return something not NULL." *)
Definition split_args_return (vector : arg_vector) (argc : Z)
  : M (option (list ni_string) * Z) :=
  match vector with
  | Some (_, items) => ret (Some items, argc)
  | None => let* _ := ni_string_malloc 8 in ret (Some [], argc)
  end.

(** The character a backslash escape in double quotes stands for. *)
Definition unescape (x : byte) : byte :=
  if bool_decide (x = "n"%byte) then x0a
  else if bool_decide (x = "r"%byte) then x0d
  else if bool_decide (x = "t"%byte) then x09
  else if bool_decide (x = "b"%byte) then x08
  else if bool_decide (x = "a"%byte) then x07
  else x.

(** Where the scan of the line is: between tokens, or in a token outside
    quotes, in double quotes or in single quotes. *)
Inductive scan_mode : Type := Blank | Plain | InQ | InSQ.

(** The two nested loops of [ni_string_split_args], [p] being the rest of
    the line before its terminator.  [current] is the token under
    construction, created when the token starts. *)
Fixpoint split_args_loop (p : list byte) (m : scan_mode)
  (current : option ni_string) (vector : arg_vector) (argc : Z)
  : M (option (list ni_string) * Z) :=
  let append (c : byte) (k : ni_string -> M (option (list ni_string) * Z)) :=
    match current with
    | Some cur => let* cur := ni_string_cat_len cur [c] 1 in k cur
    | None => raise OutOfBounds
    end in
  let finish (k : arg_vector -> M (option (list ni_string) * Z)) :=
    match current with
    | Some cur => let* vector := split_args_push vector argc cur in k vector
    | None => raise OutOfBounds
    end in
  match p with
  | [] =>
      match m with
      | Blank => split_args_return vector argc
      | Plain => finish (fun vector => split_args_return vector (argc + 1))
      | InQ | InSQ => split_args_err vector current
      end
  | c :: p' =>
      let plain (current : ni_string) :=
        if bool_decide (c ∈ [x20; x0a; x0d; x09]) then
          let* vector := split_args_push vector argc current in
          split_args_loop p' Blank None vector (argc + 1)
        else if bool_decide (c = x22) then
          split_args_loop p' InQ (Some current) vector argc
        else if bool_decide (c = x27) then
          split_args_loop p' InSQ (Some current) vector argc
        else
          let* current := ni_string_cat_len current [c] 1 in
          split_args_loop p' Plain (Some current) vector argc in
      match m with
      | Blank =>
          if isspace c then split_args_loop p' Blank current vector argc
          else
            let* current := ni_string_empty in
            plain current
      | Plain =>
          match current with
          | Some current => plain current
          | None => raise OutOfBounds
          end
      | InQ =>
          let closing (next_ok : bool) :=
            if next_ok then
              finish (fun vector =>
                split_args_loop p' Blank None vector (argc + 1))
            else split_args_err vector current in
          let literal :=
            append c (fun cur =>
              split_args_loop p' InQ (Some cur) vector argc) in
          match p' with
          | x :: p'' =>
              let escape :=
                append (unescape x) (fun cur =>
                  split_args_loop p'' InQ (Some cur) vector argc) in
              match p'' with
              | h1 :: h2 :: p4 =>
                  if bool_decide (c = x5c) && bool_decide (x = "x"%byte)
                     && is_hex_digit h1 && is_hex_digit h2
                  then
                    let byte := byte_of_Z (hex_digit_to_int h1 * 16
                                           + hex_digit_to_int h2) in
                    append byte (fun cur =>
                      split_args_loop p4 InQ (Some cur) vector argc)
                  else if bool_decide (c = x5c) then escape
                  else if bool_decide (c = x22) then closing (isspace x)
                  else literal
              | _ =>
                  if bool_decide (c = x5c) then escape
                  else if bool_decide (c = x22) then closing (isspace x)
                  else literal
              end
          | [] =>
              if bool_decide (c = x22) then closing true else literal
          end
      | InSQ =>
          let closing (next_ok : bool) :=
            if next_ok then
              finish (fun vector =>
                split_args_loop p' Blank None vector (argc + 1))
            else split_args_err vector current in
          let literal :=
            append c (fun cur =>
              split_args_loop p' InSQ (Some cur) vector argc) in
          match p' with
          | x :: p'' =>
              if bool_decide (c = x5c) && bool_decide (x = x27) then
                append x27 (fun cur =>
                  split_args_loop p'' InSQ (Some cur) vector argc)
              else if bool_decide (c = x27) then closing (isspace x)
              else literal
          | [] =>
              if bool_decide (c = x27) then closing true else literal
          end
      end
  end.

(** [ni_string_split_args(line, argc)]: the array returned (NULL is
    [None]) and the value of [*argc] after the call. *)
Definition ni_string_split_args (line : list byte)
  : M (option (list ni_string) * Z) :=
  split_args_loop (c_str line) Blank None None 0.

(** A heap to run examples on. *)
Definition heap0 : heap := Heap 1 [] (fun _ => xaa).

Definition bytes (s : string) : list byte := list_byte_of_string s.

(** ** The other operations of [ni_string.h] and [ni_string.c] *)

(** [ni_string_inc_len] of the header: the length field grows by [inc],
    within its width. *)
Definition ni_string_inc_len (s : ni_string) (inc : Z) : ni_string :=
  match sds_type s with
  | 0 =>
      let newlen := to_u8 (NI_STRING_TYPE_5_LEN (flags s) + inc) in
      with_flags s
        (to_u8 (Z.lor NI_STRING_TYPE_5 (Z.shiftl newlen NI_STRING_TYPE_BITS)))
  | 1 => with_len s (to_u8 (hdr_len s + inc))
  | 2 => with_len s (to_u16 (hdr_len s + inc))
  | 3 => with_len s (to_uint (hdr_len s + inc))
  | 4 => with_len s (to_size (hdr_len s + inc))
  | _ => s
  end.

Definition ni_string_dup (s : ni_string) : M ni_string :=
  ni_string_new_len (InitData (buf s)) (ni_string_len s).

(** [ni_string_update_len]: [strlen] reads the region up to its first zero
    byte; a region without one is read past its end. *)
Definition ni_string_update_len (s : ni_string) : M ni_string :=
  let* reallen := if bool_decide (x00 ∈ buf s) then ret (strlen (buf s))
                  else raise ReadPastEnd in
  ret (ni_string_set_len s reallen).

Definition ni_string_alloc_size (s : ni_string) : Z :=
  let alloc := ni_string_alloc s in
  to_size (ni_string_hdr_size (flags s) + alloc + 1).

(** [tolower] and [toupper] in the C locale. *)
Definition tolower (c : byte) : byte :=
  if (65 <=? byte_to_Z c) && (byte_to_Z c <=? 90)
  then byte_of_Z (byte_to_Z c + 32) else c.

Definition toupper (c : byte) : byte :=
  if (97 <=? byte_to_Z c) && (byte_to_Z c <=? 122)
  then byte_of_Z (byte_to_Z c - 32) else c.

(** [for (j = 0; j < len; j++) s[j] = f(s[j])], [n] rounds being left. *)
Fixpoint case_loop (f : byte -> byte) (n : nat) (j : Z) (b : list byte)
  : M (list byte) :=
  match n with
  | O => ret b
  | S n' =>
      let* c := mem (b !! Z.to_nat j) in
      let* b := mem (mem_store b j (f c)) in
      case_loop f n' (j + 1) b
  end.

Definition ni_string_tolower (s : ni_string) : M ni_string :=
  let len := ni_string_len s in
  let* b := case_loop tolower (Z.to_nat len) 0 (buf s) in
  ret (with_buf s b).

Definition ni_string_toupper (s : ni_string) : M ni_string :=
  let len := ni_string_len s in
  let* b := case_loop toupper (Z.to_nat len) 0 (buf s) in
  ret (with_buf s b).

(** [memcmp(a, b, n)]: the difference of the first two bytes that differ,
    as [unsigned char]; the caller looks at its sign. *)
Fixpoint memcmp (a b : list byte) (n : nat) {struct n} : option Z :=
  match n with
  | O => Some 0
  | S n' =>
      match a, b with
      | x :: a', y :: b' =>
          if bool_decide (x = y) then memcmp a' b' n'
          else Some (byte_to_Z x - byte_to_Z y)
      | _, _ => None
      end
  end.

Definition ni_string_cmp (s1 s2 : ni_string) : M Z :=
  let l1 := ni_string_len s1 in
  let l2 := ni_string_len s2 in
  let minlen := if l1 <? l2 then l1 else l2 in
  let* cmp := mem (memcmp (buf s1) (buf s2) (Z.to_nat minlen)) in
  if cmp =? 0 then ret (if l1 >? l2 then 1 else if l1 <? l2 then -1 else 0)
  else ret cmp.

(** The inner loop of [ni_string_map_chars] on the byte [c] of the string:
    the first [from[i]] equal to [c] gives [to[i]]. *)
Fixpoint map_chars_inner (c : byte) (from to : list byte) (i : nat) (n : nat)
  : option byte :=
  match n with
  | O => Some c
  | S n' =>
      match from !! i with
      | None => None
      | Some f =>
          if bool_decide (c = f) then to !! i
          else map_chars_inner c from to (S i) n'
      end
  end.

Fixpoint map_chars_loop (from to : list byte) (setlen : Z) (n : nat) (j : Z)
  (b : list byte) : M (list byte) :=
  match n with
  | O => ret b
  | S n' =>
      let* c := mem (b !! Z.to_nat j) in
      let* c' := mem (map_chars_inner c from to 0 (Z.to_nat setlen)) in
      let* b := mem (mem_store b j c') in
      map_chars_loop from to setlen n' (j + 1) b
  end.

Definition ni_string_map_chars (s : ni_string) (from to : list byte)
  (setlen : Z) : M ni_string :=
  let l := ni_string_len s in
  let* b := map_chars_loop from to setlen (Z.to_nat l) 0 (buf s) in
  ret (with_buf s b).

(** [ni_string_join]: [argv] is an array of C strings. *)
Fixpoint join_loop (n : nat) (j : Z) (argv : list (list byte)) (argc : Z)
  (sep : list byte) (join : ni_string) : M ni_string :=
  match n with
  | O => ret join
  | S n' =>
      let* a := mem (argv !! Z.to_nat j) in
      let* join := ni_string_cat join a in
      let* join := if negb (j =? to_int (argc - 1))
                   then ni_string_cat join sep else ret join in
      join_loop n' (to_int (j + 1)) argv argc sep join
  end.

Definition ni_string_join (argv : list (list byte)) (argc : Z)
  (sep : list byte) : M ni_string :=
  let* join := ni_string_empty in
  join_loop (Z.to_nat argc) 0 argv argc sep join.

(** [ni_string_join_ni_string]: [argv] is an array of strings of the
    library. *)
Fixpoint join_ni_string_loop (n : nat) (j : Z) (argv : list ni_string)
  (argc : Z) (sep : list byte) (seplen : Z) (join : ni_string) : M ni_string :=
  match n with
  | O => ret join
  | S n' =>
      let* a := mem (argv !! Z.to_nat j) in
      let* join := ni_string_cat_ni_string join a in
      let* join := if negb (j =? to_int (argc - 1))
                   then ni_string_cat_len join sep seplen else ret join in
      join_ni_string_loop n' (to_int (j + 1)) argv argc sep seplen join
  end.

Definition ni_string_join_ni_string (argv : list ni_string) (argc : Z)
  (sep : list byte) (seplen : Z) : M ni_string :=
  let* join := ni_string_empty in
  join_ni_string_loop (Z.to_nat argc) 0 argv argc sep seplen join.



(** ** Definitions the statements use *)

(** The capacity [ni_string_make_room_for] asks for: twice the length
    needed below one megabyte, one megabyte more than it from there on. *)
Definition grown_len (len addlen : Z) : Z :=
  if len + addlen <? NI_STRING_MAX_PREALLOC
  then 2 * (len + addlen) else len + addlen + NI_STRING_MAX_PREALLOC.

(** The header type of a string that has grown: never type 5. *)
Definition grown_type (newlen : Z) : Z :=
  if ni_string_req_type newlen =? NI_STRING_TYPE_5
  then NI_STRING_TYPE_8 else ni_string_req_type newlen.

(** The check of [valid], as a function. *)
Definition validb (s : ni_string) : bool :=
  (0 <=? flags s) && (flags s <? 256)
  && (0 <=? sds_type s) && (sds_type s <=? 4)
  && ((sds_type s =? 0)
      || (0 <=? hdr_len s) && (hdr_len s <=? hdr_alloc s)
         && (hdr_alloc s <? field_bound (sds_type s)))
  && (ni_string_alloc s <? zlength (buf s))
  && bool_decide (byte_at s (ni_string_len s) = Some x00).

(** The statement that [ni_string_clear] leaves the capacity of the
    handle as it was and turns all of it into spare capacity. *)
Definition clear_keeps_capacity (s : ni_string) (h : heap) : Prop :=
  exists s',
    ni_string_clear s h = Ok s' h /\
    ni_string_len s' = 0 /\ byte_at s' 0 = Some x00 /\
    handle_ptr s' = handle_ptr s /\ sds_type s' = sds_type s /\
    ni_string_alloc s' = ni_string_alloc s /\
    ni_string_avail s' = ni_string_alloc s.

(** Two handles to instantiate the statements with: the string "foo" with
    a type-8 header and ten bytes of capacity, and with a type-5 header. *)
Definition example_wide : ni_string :=
  NiString 1 1 3 10 (bytes "foo" ++ replicate 8 x00).

Definition example_type5 : ni_string :=
  NiString 1 24 0 0 (bytes "foo" ++ [x00]).

(** The statement that [ni_string_remove_free_space] leaves the smallest
    header type that can hold the length. *)
Definition shrink_gives_minimal_type (s : ni_string) (h : heap) : Prop :=
  exists s' h',
    ni_string_remove_free_space s h = Ok s' h' /\
    content s' = content s /\ ni_string_len s' = ni_string_len s /\
    ni_string_alloc s' = ni_string_len s' /\
    sds_type s' = ni_string_req_type (ni_string_len s').

(** A handle with a type-32 header whose length fits a type-16 one: what
    is left of [ni_string_new_len(NULL, 300)] after
    [ni_string_make_room_for(s, 40000)], which moves it to a type-32
    header, [ni_string_remove_free_space(s)] and
    [ni_string_range(s, 0, 279)]. *)
Definition example_type32 : ni_string :=
  NiString 2 3 280 300 (replicate 301 x00).

(** Whether [ni_string_remove_free_space] keeps the header of the handle:
    the smallest type for the length is the type it has, or is larger than
    type 8. *)
Definition shrink_keeps (s : ni_string) : bool :=
  (sds_type s =? ni_string_req_type (ni_string_len s))
  || (ni_string_req_type (ni_string_len s) >? NI_STRING_TYPE_8).


(** The range of a byte sequence as the specification words it: negative
    indices count from the end, [start] is clamped to [0, len), [end] to
    [-1, len), and the bytes from [start] to [end] are kept. *)
Definition clamp (lo hi x : Z) : Z := Z.max lo (Z.min hi x).

Definition sub_range_clamped (x : list byte) (start end_ : Z) : list byte :=
  let len := zlength x in
  let start := clamp 0 (len - 1) (if start <? 0 then len + start else start) in
  let end_ := clamp (-1) (len - 1) (if end_ <? 0 then len + end_ else end_) in
  if start >? end_ then []
  else take (Z.to_nat (end_ - start + 1)) (drop (Z.to_nat start) x).

(** The range [ni_string_range] keeps: negative indices count from the
    end, an index still negative after that becomes 0, an [end] at or
    after the length becomes the last offset, and the bytes from [start] to
    [end] are kept, none when [start] is after [end]. *)
Definition sub_range (x : list byte) (start end_ : Z) : list byte :=
  let len := zlength x in
  let start := if start <? 0 then Z.max 0 (len + start) else start in
  let end_ := if end_ <? 0 then Z.max 0 (len + end_) else Z.min end_ (len - 1) in
  if start >? end_ then []
  else take (Z.to_nat (end_ - start + 1)) (drop (Z.to_nat start) x).

(** The statement that [ni_string_range] keeps the range the
    specification words. *)
Definition range_clamps (s : ni_string) (start end_ : Z) (h : heap) : Prop :=
  exists s',
    ni_string_range s start end_ h = Ok s' h /\
    content s' = sub_range_clamped (content s) start end_.

(** The string "ciao" as [ni_string_new] makes it. *)
Definition example_ciao : ni_string :=
  NiString 1 32 0 0 (bytes "ciao" ++ [x00]).

(** The requests the growth engine serves without wrap-around: the length
    asked for and a megabyte more are sizes of objects. *)
Definition fits (n : Z) : Prop := n + NI_STRING_MAX_PREALLOC <= SSIZE_MAX.


(** A pointer [ni_free] accepts: NULL or the start of a block. *)
Definition heap_ptr_ok (p : option ptr) : Prop :=
  match p with Some q => p_off q = 0 | None => True end.


(** ** Decimal numerals *)

Definition digit_char (d : Z) : byte := byte_of_Z (48 + d).

(** The digits of a natural number, the most significant first. *)
Fixpoint decimal_digits (fuel : nat) (v : Z) : list byte :=
  match fuel with
  | O => []
  | S fuel' =>
      (if v <? 10 then [] else decimal_digits fuel' (v / 10))
      ++ [digit_char (v mod 10)]
  end.

(** The decimal numeral of an integer of at most 21 digits. *)
Definition decimal (v : Z) : list byte :=
  if v <? 0 then "-"%byte :: decimal_digits 21 (- v) else decimal_digits 21 v.

(** Reading a numeral back: the value of a digit, of a sequence of digits
    and of an optional minus sign followed by digits. *)
Definition digit_value (c : byte) : option Z :=
  let z := byte_to_Z c in
  if (48 <=? z) && (z <=? 57) then Some (z - 48) else None.

Fixpoint digits_value (acc : Z) (l : list byte) : option Z :=
  match l with
  | [] => Some acc
  | c :: l' =>
      match digit_value c with
      | Some d => digits_value (10 * acc + d) l'
      | None => None
      end
  end.

Definition decimal_value (l : list byte) : option Z :=
  match l with
  | [] => None
  | c :: l' =>
      if bool_decide (c = "-"%byte) then
        match l' with
        | [] => None
        | _ => option_map Z.opp (digits_value 0 l')
        end
      else digits_value 0 l
  end.

(** A numeral without redundant characters: no leading zero but for the
    numeral 0, and no minus sign in front of a zero. *)
Definition canonical (l : list byte) : bool :=
  match l with
  | [] => false
  | c :: l' =>
      if bool_decide (c = "-"%byte) then
        match l' with
        | [] => false
        | d :: _ => negb (bool_decide (d = "0"%byte))
        end
      else negb (bool_decide (c = "0"%byte)) || bool_decide (l' = [])
  end.

(** ** The format of [ni_string_cat_fmt], as the specification words it *)

(** The bytes a format and its arguments stand for: the verbs are [%s] (a
    C string), [%S] (a string of the library), [%i] and [%I] (32 and 64-bit
    signed integers), [%u] and [%U] (32 and 64-bit unsigned integers); a
    percent sign followed by any other character stands for that
    character, which makes [%%] a percent sign; every other character
    stands for itself.  The format is read in the memory [f] up to its
    terminator, the first zero byte or the end of [f]; the byte after a
    percent sign is not looked at as a terminator: a zero byte there
    stands for itself, and the format goes on after it.  There is no
    result when an argument is missing or of another type than the verb
    asks for. *)
Fixpoint fmt_spec (f : list byte) (ap : list fmt_arg) : option (list byte) :=
  match f with
  | [] => Some []
  | c :: f' =>
      if bool_decide (c = x00) then Some []
      else if bool_decide (c = "%"%byte) then
        match f' with
        | [] => (x00 ::.) <$> fmt_spec f' ap
        | next :: f'' =>
            if bool_decide (next = "s"%byte) then
              match ap with
              | ArgStr t :: ap' => (c_str t ++.) <$> fmt_spec f'' ap'
              | ArgNi t :: ap' => (c_str (buf t) ++.) <$> fmt_spec f'' ap'
              | _ => None
              end
            else if bool_decide (next = "S"%byte) then
              match ap with
              | ArgNi t :: ap' => (content t ++.) <$> fmt_spec f'' ap'
              | _ => None
              end
            else if bool_decide (next = "i"%byte) then
              match ap with
              | ArgInt v :: ap' => (decimal (to_int v) ++.) <$> fmt_spec f'' ap'
              | _ => None
              end
            else if bool_decide (next = "I"%byte) then
              match ap with
              | ArgLL v :: ap' => (decimal (to_ssize v) ++.) <$> fmt_spec f'' ap'
              | _ => None
              end
            else if bool_decide (next = "u"%byte) then
              match ap with
              | ArgUInt v :: ap' => (decimal (to_uint v) ++.) <$> fmt_spec f'' ap'
              | _ => None
              end
            else if bool_decide (next = "U"%byte) then
              match ap with
              | ArgULL v :: ap' => (decimal (to_size v) ++.) <$> fmt_spec f'' ap'
              | _ => None
              end
            else (next ::.) <$> fmt_spec f'' ap
        end
      else (c ::.) <$> fmt_spec f' ap
  end.

(** An argument the caller may pass: a string of the library is a valid
    handle. *)
Definition arg_ok (a : fmt_arg) : Prop :=
  match a with
  | ArgNi t => valid t
  | _ => True
  end.

(** A bound of the number of bytes an argument stands for, and of the
    bytes a format and its arguments stand for. *)
Definition arg_size (a : fmt_arg) : Z :=
  match a with
  | ArgStr t => zlength t
  | ArgNi t => zlength (buf t)
  | _ => 22
  end.

Fixpoint args_size (ap : list fmt_arg) : Z :=
  match ap with
  | [] => 0
  | a :: ap' => arg_size a + args_size ap'
  end.

Definition fmt_bound (f : list byte) (ap : list fmt_arg) : Z :=
  zlength f + args_size ap.

(** The loop of [ni_string_cat_fmt], run on [s] from its end, refines
    [fmt_spec]: it appends what [fmt_spec] gives, and stops at the read of
    the argument where [fmt_spec] gives nothing. *)
Definition cat_fmt_refines (f : list byte) (ap : list fmt_arg)
  (s : ni_string) (h : heap) : Prop :=
  match fmt_spec f ap with
  | Some out =>
      exists s' h',
        cat_fmt_loop f ap s (ni_string_len s) h = Ok s' h' /\ valid s' /\
        content s' = content s ++ out
  | None => exists e, cat_fmt_loop f ap s (ni_string_len s) h = Fault e
  end.

(** The handle [ni_string_new("--")] returns, and the format and the
    arguments of the test of the repository. *)
Definition example_dashes : ni_string := NiString 1 16 0 0 (bytes "--" ++ [x00]).



(** ** The mutating operations, as one family *)

(** A call of a mutating operation, with its arguments. *)
Inductive mutation : Type :=
| CatLen (t : list byte) (len : Z)
| Cat (t : list byte)
| CatNiString (t : ni_string)
| CpyLen (t : list byte) (len : Z)
| Cpy (t : list byte)
| GrowZero (len : Z)
| Trim (cset : list byte)
| Range (start end_ : Z)
| IncrLen (incr : Z)
| CatFmt (fmt : list byte) (ap : list fmt_arg)
| CatPrintf (fmt out : list byte)
| MakeRoomFor (addlen : Z)
| RemoveFreeSpace.

Definition mutate (m : mutation) (s : ni_string) : M ni_string :=
  match m with
  | CatLen t len => ni_string_cat_len s t len
  | Cat t => ni_string_cat s t
  | CatNiString t => ni_string_cat_ni_string s t
  | CpyLen t len => ni_string_cpy_len s t len
  | Cpy t => ni_string_cpy s t
  | GrowZero len => ni_string_grow_zero s len
  | Trim cset => ni_string_trim s cset
  | Range start end_ => ni_string_range s start end_
  | IncrLen incr => ni_string_incr_len s incr
  | CatFmt fmt ap => ni_string_cat_fmt s fmt ap
  | CatPrintf fmt out => ni_string_cat_printf s fmt out
  | MakeRoomFor addlen => ni_string_make_room_for s addlen
  | RemoveFreeSpace => ni_string_remove_free_space s
  end.

(** The arguments a caller may pass: a length is within the bytes it
    counts, a string of the library is a valid handle, an index is a
    [ssize_t], and the sizes asked for are sizes of objects. *)
Definition in_range (m : mutation) (s : ni_string) : Prop :=
  match m with
  | CatLen t len => 0 <= len <= zlength t /\ fits (ni_string_len s + len)
  | Cat t => fits (ni_string_len s + strlen t)
  | CatNiString t => valid t /\ fits (ni_string_len s + ni_string_len t)
  | CpyLen t len => 0 <= len <= zlength t /\ fits len
  | Cpy t => fits (strlen t)
  | GrowZero len => fits len
  | Trim _ => True
  | Range start end_ =>
      - 2 ^ 63 <= start < 2 ^ 63 /\ - 2 ^ 63 <= end_ < 2 ^ 63
  | IncrLen incr => - 2 ^ 63 <= incr < 2 ^ 63 /\ zlength (buf s) <= 2 ^ 63
  | CatFmt fmt ap =>
      Forall arg_ok ap /\
      fits (ni_string_len s + fmt_bound fmt ap + 1)
  | CatPrintf fmt out =>
      zlength fmt < 2 ^ 62 /\ zlength out < 2 ^ 62 /\
      fits (ni_string_len s + strlen out)
  | MakeRoomFor addlen => 0 <= addlen /\ fits (ni_string_len s + addlen)
  | RemoveFreeSpace => True
  end.

(** Where the call is known to return: [ni_string_incr_len] asserts its
    precondition, and [ni_string_cat_fmt] reads its format. *)
Definition accepted (m : mutation) (s : ni_string) : Prop :=
  match m with
  | IncrLen incr =>
      1 <= sds_type s <= 4 /\
      (0 <= incr <= ni_string_avail s \/ (incr < 0 /\ - incr <= ni_string_len s))
  | CatFmt fmt ap => fmt_spec fmt ap <> None
  | _ => True
  end.

(** ** Splitting at a separator, on lists *)

(** [sep] is at the start of [s]. *)
Definition starts_with (sep s : list byte) : bool :=
  bool_decide (take (length sep) s = sep).

(** The scan from left to right: where the separator starts, the span
    [cur] before it is a token and the scan goes on after the separator;
    the span left at the end is the last token.  [n] bounds the number of
    steps: the length of [s] is enough. *)
Fixpoint split_spec (n : nat) (sep s cur : list byte) : list (list byte) :=
  match n, s with
  | S n', c :: s' =>
      if starts_with sep s
      then cur :: split_spec n' sep (drop (length sep) s) []
      else split_spec n' sep s' (cur ++ [c])
  | _, _ => [cur ++ s]
  end.

Definition split (sep s : list byte) : list (list byte) :=
  split_spec (length s) sep s [].

(** The number of occurrences of the separator that do not overlap, in the
    same scan. *)
Fixpoint occurrences_scan (n : nat) (sep s : list byte) : Z :=
  match n, s with
  | S n', c :: s' =>
      if starts_with sep s
      then 1 + occurrences_scan n' sep (drop (length sep) s)
      else occurrences_scan n' sep s'
  | _, _ => 0
  end.


(** The tokens, with the separator between them. *)
Fixpoint joined (sep : list byte) (toks : list (list byte)) : list byte :=
  match toks with
  | [] => []
  | [t] => t
  | t :: rest => t ++ sep ++ joined sep rest
  end.

(** The bytes of [s] from offset [a] up to [b], [b] excluded. *)
Definition span (s : list byte) (a b : Z) : list byte :=
  take (Z.to_nat (b - a)) (drop (Z.to_nat a) s).

(** ** The escaped representation, on lists *)

(** What stands for a byte between the quotes: a backslash before a
    backslash or a double quote, the short escapes of newline, carriage
    return, tab, bell and backspace, the byte itself when it prints, and a
    backslash, [x] and two hexadecimal digits for any other byte. *)
Definition repr_char (c : byte) : list byte :=
  if bool_decide (c = x5c) || bool_decide (c = x22) then [x5c; c]
  else if bool_decide (c = x0a) then [x5c; "n"%byte]
  else if bool_decide (c = x0d) then [x5c; "r"%byte]
  else if bool_decide (c = x09) then [x5c; "t"%byte]
  else if bool_decide (c = x07) then [x5c; "a"%byte]
  else if bool_decide (c = x08) then [x5c; "b"%byte]
  else if isprint c then [c]
  else [x5c; "x"%byte; hex_char (byte_to_Z c / 16); hex_char (byte_to_Z c mod 16)].

Definition repr_body (x : list byte) : list byte := concat (map repr_char x).

Definition escaped_repr (x : list byte) : list byte :=
  [x22] ++ repr_body x ++ [x22].

(** The calls that build the line of two escaped strings with a space
    between them. *)
Definition repr_line (x y : list byte) : M ni_string :=
  let* s := ni_string_empty in
  let* s := ni_string_cat_repr s x (zlength x) in
  let* s := ni_string_cat_len s [x20] 1 in
  ni_string_cat_repr s y (zlength y).

(** What a test of the repository looks at: the bytes and the length of
    the string a sequence of calls leaves, run on [heap0]. *)
Definition observe (c : M ni_string) : option (list byte * Z) :=
  match c heap0 with
  | Ok s _ => Some (content s, ni_string_len s)
  | Fault _ => None
  end.

(** ** Reference functions for the other operations *)

(** The byte [ni_string_map_chars] puts for [c]: that of [to] at the first
    place where [from] has [c], and [c] itself when [from] has it at no
    place. *)
Fixpoint translate (from to : list byte) (c : byte) : byte :=
  match from, to with
  | f :: from', t :: to' =>
      if bool_decide (c = f) then t else translate from' to' c
  | _, _ => c
  end.

(** The order of two byte strings: that of the first bytes that differ, as
    [unsigned char]; a proper prefix comes first. *)
Fixpoint lex_compare (a b : list byte) : comparison :=
  match a, b with
  | [], [] => Eq
  | [], _ :: _ => Lt
  | _ :: _, [] => Gt
  | x :: a', y :: b' =>
      match byte_to_Z x ?= byte_to_Z y with
      | Eq => lex_compare a' b'
      | c => c
      end
  end.




(** The number of values the length field of a header type holds: five
    bits of the flags byte for type 5, the width of [len] otherwise. *)
Definition len_modulus (type : Z) : Z :=
  match type with
  | 0 => 2 ^ 5
  | 1 => 2 ^ 8
  | 2 => 2 ^ 16
  | 3 => 2 ^ 32
  | _ => 2 ^ 64
  end.

(** ** The statistics of [ni_malloc.c]

    [ni_malloc], [ni_realloc] and [ni_free] keep the counter [used_memory]
    that [ni_malloc_used_memory] reports.  With [HAVE_MALLOC_SIZE] the
    amount is what [malloc_usable_size] says of the block, which is the
    C library's choice: a parameter here, by block and size asked for. *)
Section statistics.

Variable malloc_usable_size : Z -> Z -> Z.

(** The macros round [_n] up to a multiple of [sizeof(long)] and then
    move the counter by [__n], their argument. *)
Definition update_ni_malloc_stat_alloc (n : Z) (used_memory : Z) : Z :=
  let n' := if Z.land n (8 - 1) =? 0 then n
            else to_size (n + (8 - Z.land n (8 - 1))) in
  to_size (used_memory + n).

Definition update_ni_malloc_stat_free (n : Z) (used_memory : Z) : Z :=
  let n' := if Z.land n (8 - 1) =? 0 then n
            else to_size (n + (8 - Z.land n (8 - 1))) in
  to_size (used_memory - n).

(** The counter, and what [malloc_usable_size] says of each block that is
    allocated. *)
Record malloc_stat : Type := MallocStat {
  used_memory : Z;
  usable : gmap Z Z
}.

Definition stat0 : malloc_stat := MallocStat 0 ∅.

(** What a call does to the statistics.  [malloc] gives a block that is
    not allocated; [realloc] and [free] of a block that is not allocated
    are undefined. *)
Definition ni_malloc_stat (b size : Z) (st : malloc_stat)
  : option malloc_stat :=
  match usable st !! b with
  | Some _ => None
  | None =>
      let n := malloc_usable_size b size in
      Some (MallocStat (update_ni_malloc_stat_alloc n (used_memory st))
                       (<[b := n]> (usable st)))
  end.

Definition ni_realloc_stat (b size : Z) (st : malloc_stat)
  : option malloc_stat :=
  match usable st !! b with
  | None => None
  | Some oldsize =>
      let n := malloc_usable_size b size in
      Some (MallocStat
              (update_ni_malloc_stat_alloc n
                 (update_ni_malloc_stat_free oldsize (used_memory st)))
              (<[b := n]> (usable st)))
  end.

Definition ni_free_stat (b : Z) (st : malloc_stat) : option malloc_stat :=
  match usable st !! b with
  | None => None
  | Some oldsize =>
      Some (MallocStat (update_ni_malloc_stat_free oldsize (used_memory st))
                       (delete b (usable st)))
  end.

Definition account (e : alloc_ev) (st : malloc_stat) : option malloc_stat :=
  match e with
  | EvMalloc b size => ni_malloc_stat b size st
  | EvRealloc b size => ni_realloc_stat b size st
  | EvFree b => ni_free_stat b st
  end.

(** The statistics after the calls of a log. *)
Fixpoint replay (evs : list alloc_ev) (st : malloc_stat)
  : option malloc_stat :=
  match evs with
  | [] => Some st
  | e :: evs =>
      match account e st with
      | Some st => replay evs st
      | None => None
      end
  end.

(** [ni_malloc_used_memory()] after the calls the heap has logged. *)
Definition ni_malloc_used_memory (h : heap) : option Z :=
  used_memory <$> replay (events h) stat0.

End statistics.

(** The usable sizes of the allocated blocks, added up. *)
Definition live_total (m : gmap Z Z) : Z :=
  map_fold (fun _ n acc => n + acc) 0 m.


(** ** The doubly linked list ([ni_list.h], [ni_list.c])

    A node is a cell of the node heap at its address; NULL is [None].
    Values are the [void *] the caller stores, as numbers.  A list is
    passed as the record its pointer designates, and comes back as
    written to.  Reading or writing through NULL or through the address of
    a node that was freed has no result. *)

Record ni_list_node : Type := ListNode {
  n_prev : option Z;
  n_next : option Z;
  n_value : Z
}.

Record ni_list_iter : Type := ListIter {
  it_next : option Z;
  it_direction : Z
}.

(** The methods of a list: [dup] gives the copy of a value, NULL being
    [None]; [free] is known by the values it is called with; [match]
    compares a value with a key. *)
Record ni_list : Type := NiList {
  l_head : option Z;
  l_tail : option Z;
  l_dup : option (Z -> option Z);
  l_free : bool;
  l_match : option (Z -> Z -> bool);
  l_len : Z
}.

Abbreviation AL_START_HEAD := 0 (only parsing).
Abbreviation AL_START_TAIL := 1 (only parsing).

(** The nodes that are allocated, the address of the next one, and the
    values the [free] method was called with, in the order of the calls. *)
Record list_heap : Type := ListHeap {
  nodes : gmap Z ni_list_node;
  next_node : Z;
  released : list Z
}.

Definition L (A : Type) : Type := list_heap -> option (A * list_heap).

Definition lret {A} (a : A) : L A := fun h => Some (a, h).

Definition lbind {A B} (c : L A) (k : A -> L B) : L B := fun h =>
  match c h with
  | Some (a, h') => k a h'
  | None => None
  end.

Notation "'do*' x := c 'in' k" := (lbind c (fun x => k))
  (at level 10, x pattern, c at level 100, k at level 200).

Definition lfail {A} : L A := fun _ => None.

(** [*p] *)
Definition load (p : option Z) : L ni_list_node := fun h =>
  match p with
  | Some a =>
      match nodes h !! a with
      | Some n => Some (n, h)
      | None => None
      end
  | None => None
  end.

Definition store (p : option Z) (n : ni_list_node) : L unit := fun h =>
  match p with
  | Some a =>
      match nodes h !! a with
      | Some _ => Some (tt, ListHeap (<[a := n]> (nodes h)) (next_node h)
                                     (released h))
      | None => None
      end
  | None => None
  end.

(** [p->prev = v], [p->next = v] *)
Definition set_prev (p : option Z) (v : option Z) : L unit :=
  do* n := load p in store p (ListNode v (n_next n) (n_value n)).

Definition set_next (p : option Z) (v : option Z) : L unit :=
  do* n := load p in store p (ListNode (n_prev n) v (n_value n)).

(** [ni_malloc] of a node: the fields of the node are written by
    the caller before they are read. *)
Definition node_malloc : L Z := fun h =>
  Some (next_node h,
        ListHeap (<[next_node h := ListNode None None 0]> (nodes h))
                 (next_node h + 1) (released h)).

(** [ni_free(node)] *)
Definition node_free (p : option Z) : L unit := fun h =>
  match p with
  | Some a =>
      match nodes h !! a with
      | Some _ => Some (tt, ListHeap (delete a (nodes h)) (next_node h)
                                     (released h))
      | None => None
      end
  | None => Some (tt, h)
  end.

(** [lst->free(value)] *)
Definition call_free (v : Z) : L unit := fun h =>
  Some (tt, ListHeap (nodes h) (next_node h) (released h ++ [v])).

Definition with_ends (lst : ni_list) (hd tl : option Z) (len : Z) : ni_list :=
  NiList hd tl (l_dup lst) (l_free lst) (l_match lst) len.

Definition ni_list_create : L ni_list :=
  lret (NiList None None None false None 0).

(** [while (len--)] of [ni_list_empty], [n] rounds being left. *)
Fixpoint empty_loop (n : nat) (lst : ni_list) (current : option Z) : L unit :=
  match n with
  | O => lret tt
  | S n' =>
      do* nd := load current in
      let next := n_next nd in
      do* _ := if l_free lst then call_free (n_value nd) else lret tt in
      do* _ := node_free current in
      empty_loop n' lst next
  end.

Definition ni_list_empty (lst : ni_list) : L ni_list :=
  let current := l_head lst in
  let len := l_len lst in
  do* _ := empty_loop (Z.to_nat len) lst current in
  lret (with_ends lst None None 0).

(** The list itself is freed with the nodes: nothing of it comes back. *)
Definition ni_list_release (lst : ni_list) : L unit :=
  do* _ := ni_list_empty lst in lret tt.

Definition ni_list_add_node_head (lst : ni_list) (val : Z) : L ni_list :=
  do* node := node_malloc in
  if l_len lst =? 0 then
    do* _ := store (Some node) (ListNode None None val) in
    lret (with_ends lst (Some node) (Some node) (to_size (l_len lst + 1)))
  else
    do* _ := store (Some node) (ListNode None (l_head lst) val) in
    do* _ := set_prev (l_head lst) (Some node) in
    lret (with_ends lst (Some node) (l_tail lst) (to_size (l_len lst + 1))).

Definition ni_list_add_node_tail (lst : ni_list) (val : Z) : L ni_list :=
  do* node := node_malloc in
  if l_len lst =? 0 then
    do* _ := store (Some node) (ListNode None None val) in
    lret (with_ends lst (Some node) (Some node) (to_size (l_len lst + 1)))
  else
    do* _ := store (Some node) (ListNode (l_tail lst) None val) in
    do* _ := set_next (l_tail lst) (Some node) in
    lret (with_ends lst (l_head lst) (Some node) (to_size (l_len lst + 1))).

Definition ni_list_insert_node (lst : ni_list) (old_nd : Z) (val : Z)
  (after : bool) : L ni_list :=
  do* node := node_malloc in
  do* old := load (Some old_nd) in
  do* lst :=
    if after then
      do* _ := store (Some node) (ListNode (Some old_nd) (n_next old) val) in
      lret (if bool_decide (l_tail lst = Some old_nd)
            then with_ends lst (l_head lst) (Some node) (l_len lst)
            else lst)
    else
      do* _ := store (Some node) (ListNode (n_prev old) (Some old_nd) val) in
      lret (if bool_decide (l_head lst = Some old_nd)
            then with_ends lst (Some node) (l_tail lst) (l_len lst)
            else lst) in
  do* nd := load (Some node) in
  do* _ := match n_prev nd with
           | Some p => set_next (Some p) (Some node)
           | None => lret tt
           end in
  do* nd := load (Some node) in
  do* _ := match n_next nd with
           | Some p => set_prev (Some p) (Some node)
           | None => lret tt
           end in
  lret (with_ends lst (l_head lst) (l_tail lst) (to_size (l_len lst + 1))).

Definition ni_list_del_node (lst : ni_list) (nd : Z) : L ni_list :=
  do* n := load (Some nd) in
  do* lst := match n_prev n with
             | Some p =>
                 do* _ := set_next (Some p) (n_next n) in lret lst
             | None =>
                 lret (with_ends lst (n_next n) (l_tail lst) (l_len lst))
             end in
  do* n := load (Some nd) in
  do* lst := match n_next n with
             | Some p =>
                 do* _ := set_prev (Some p) (n_prev n) in lret lst
             | None =>
                 lret (with_ends lst (l_head lst) (n_prev n) (l_len lst))
             end in
  do* n := load (Some nd) in
  do* _ := if l_free lst then call_free (n_value n) else lret tt in
  do* _ := node_free (Some nd) in
  lret (with_ends lst (l_head lst) (l_tail lst) (to_size (l_len lst - 1))).

(** An iterator that is a local variable of the caller is the record its
    pointer designates, and comes back as written to. *)
Definition ni_list_rewind (lst : ni_list) : ni_list_iter :=
  ListIter (l_head lst) AL_START_HEAD.

Definition ni_list_rewind_tail (lst : ni_list) : ni_list_iter :=
  ListIter (l_tail lst) AL_START_TAIL.

Definition ni_list_next (iter : ni_list_iter)
  : L (option Z * ni_list_iter) :=
  let current := it_next iter in
  match current with
  | Some _ =>
      do* n := load current in
      if it_direction iter =? AL_START_HEAD
      then lret (current, ListIter (n_next n) (it_direction iter))
      else lret (current, ListIter (n_prev n) (it_direction iter))
  | None => lret (current, iter)
  end.

(** [while ((node = ni_list_next(&iter)) != NULL)] of [ni_list_dup]; the
    loop has no result when the rounds run out. *)
Fixpoint dup_loop (fuel : nat) (copy : ni_list) (iter : ni_list_iter)
  : L (option ni_list) :=
  match fuel with
  | O => lfail
  | S fuel' =>
      do* (node, iter) := ni_list_next iter in
      match node with
      | None => lret (Some copy)
      | Some _ =>
          do* n := load node in
          match l_dup copy with
          | Some dup =>
              match dup (n_value n) with
              | None =>
                  do* _ := ni_list_release copy in lret None
              | Some value =>
                  do* copy := ni_list_add_node_tail copy value in
                  dup_loop fuel' copy iter
              end
          | None =>
              do* copy := ni_list_add_node_tail copy (n_value n) in
              dup_loop fuel' copy iter
          end
      end
  end.

Definition ni_list_dup (fuel : nat) (org : ni_list) : L (option ni_list) :=
  do* copy := ni_list_create in
  let copy := NiList (l_head copy) (l_tail copy) (l_dup org) (l_free org)
                     (l_match org) (l_len copy) in
  dup_loop fuel copy (ni_list_rewind org).

Fixpoint search_loop (fuel : nat) (lst : ni_list) (key : Z)
  (iter : ni_list_iter) : L (option Z) :=
  match fuel with
  | O => lfail
  | S fuel' =>
      do* (node, iter) := ni_list_next iter in
      match node with
      | None => lret None
      | Some _ =>
          do* n := load node in
          match l_match lst with
          | Some matches =>
              if matches (n_value n) key then lret node
              else search_loop fuel' lst key iter
          | None =>
              if key =? n_value n then lret node
              else search_loop fuel' lst key iter
          end
      end
  end.

Definition ni_list_search_key (fuel : nat) (lst : ni_list) (key : Z)
  : L (option Z) :=
  search_loop fuel lst key (ni_list_rewind lst).

(** [while (idx-- && nd) nd = nd->next] (or [nd->prev]), [n] being
    [idx]. *)
Fixpoint index_loop (n : nat) (forward : bool) (nd : option Z)
  : L (option Z) :=
  match n with
  | O => lret nd
  | S n' =>
      match nd with
      | None => lret nd
      | Some _ =>
          do* x := load nd in
          index_loop n' forward (if forward then n_next x else n_prev x)
      end
  end.

Definition ni_list_index (lst : ni_list) (idx : Z) : L (option Z) :=
  if idx <? 0 then
    let idx := to_ssize (to_ssize (- idx) - 1) in
    index_loop (Z.to_nat idx) false (l_tail lst)
  else
    index_loop (Z.to_nat idx) true (l_head lst).

Definition ni_list_rotate (lst : ni_list) : L ni_list :=
  let tail := l_tail lst in
  if l_len lst <=? 1 then lret lst
  else
    do* t := load tail in
    let lst := with_ends lst (l_head lst) (n_prev t) (l_len lst) in
    do* _ := set_next (l_tail lst) None in
    do* _ := set_prev (l_head lst) tail in
    do* _ := set_prev tail None in
    do* _ := set_next tail (l_head lst) in
    lret (with_ends lst tail (l_tail lst) (l_len lst)).

(** [ni_list_join(l, o)] for two lists that are not the same one. *)
Definition ni_list_join (l o : ni_list) : L (ni_list * ni_list) :=
  do* _ := match l_head o with
           | Some _ => set_prev (l_head o) (l_tail l)
           | None => lret tt
           end in
  do* l := match l_tail l with
           | Some _ =>
               do* _ := set_next (l_tail l) (l_head o) in lret l
           | None => lret (with_ends l (l_head o) (l_tail l) (l_len l))
           end in
  let l := match l_tail o with
           | Some _ => with_ends l (l_head l) (l_tail o) (l_len l)
           | None => l
           end in
  let l := with_ends l (l_head l) (l_tail l) (to_size (l_len l + l_len o)) in
  lret (l, with_ends o None None 0).

(** A heap without nodes. *)
Definition list_heap0 : list_heap := ListHeap ∅ 1 [].

(** *** Iterators in blocks of their own

    [ni_list_get_iterator] takes the iterator from the allocator of the
    nodes: [next_node] is the address of the next block of either kind.
    The iterators that are allocated are kept by their addresses, beside
    the nodes. *)
Record iter_heap : Type := IterHeap {
  lheap : list_heap;
  iters : gmap Z ni_list_iter
}.

Definition LI (A : Type) : Type := iter_heap -> option (A * iter_heap).

Definition iret {A} (a : A) : LI A := fun h => Some (a, h).

Definition ibind {A B} (c : LI A) (k : A -> LI B) : LI B := fun h =>
  match c h with
  | Some (a, h') => k a h'
  | None => None
  end.

Notation "'do+' x := c 'in' k" := (ibind c (fun x => k))
  (at level 10, x pattern, c at level 100, k at level 200).

Definition ifail {A} : LI A := fun _ => None.

(** A call that reads and writes nodes only. *)
Definition lift {A} (c : L A) : LI A := fun h =>
  match c (lheap h) with
  | Some (a, lh) => Some (a, IterHeap lh (iters h))
  | None => None
  end.

(** [ni_malloc(sizeof(ni_list_iter))]: [ni_malloc] returns a block or
    does not return (the handler it calls when [malloc] fails aborts), so
    the pointer is never NULL; the fields of the iterator are written by
    the caller before they are read. *)
Definition iter_malloc : LI (option Z) := fun h =>
  let a := next_node (lheap h) in
  Some (Some a,
        IterHeap (ListHeap (nodes (lheap h)) (a + 1) (released (lheap h)))
                 (<[a := ListIter None 0]> (iters h))).

(** [*iter] *)
Definition iter_load (p : option Z) : LI ni_list_iter := fun h =>
  match p with
  | Some a =>
      match iters h !! a with
      | Some it => Some (it, h)
      | None => None
      end
  | None => None
  end.

Definition iter_store (p : option Z) (it : ni_list_iter) : LI unit := fun h =>
  match p with
  | Some a =>
      match iters h !! a with
      | Some _ => Some (tt, IterHeap (lheap h) (<[a := it]> (iters h)))
      | None => None
      end
  | None => None
  end.

(** [iter->next = v], [iter->direction = d] *)
Definition iter_set_next (p : option Z) (v : option Z) : LI unit :=
  do+ it := iter_load p in iter_store p (ListIter v (it_direction it)).

Definition iter_set_direction (p : option Z) (d : Z) : LI unit :=
  do+ it := iter_load p in iter_store p (ListIter (it_next it) d).

Definition ni_list_get_iterator (lst : ni_list) (direction : Z)
  : LI (option Z) :=
  do+ iter := iter_malloc in
  match iter with
  | None => iret None
  | Some _ =>
      do+ _ := if direction =? AL_START_HEAD
               then iter_set_next iter (l_head lst)
               else iter_set_next iter (l_tail lst) in
      do+ _ := iter_set_direction iter direction in
      iret iter
  end.

(** [ni_free(iter)] *)
Definition ni_list_release_iterator (iter : option Z) : LI unit := fun h =>
  match iter with
  | Some a =>
      match iters h !! a with
      | Some _ => Some (tt, IterHeap (lheap h) (delete a (iters h)))
      | None => None
      end
  | None => Some (tt, h)
  end.

(** A call [f(iter)] with the pointer to an allocated iterator: what [f]
    writes to the iterator is written to its block. *)
Definition at_iter {A} (p : option Z)
  (f : ni_list_iter -> L (A * ni_list_iter)) : LI A :=
  do+ it := iter_load p in
  do+ (a, it') := lift (f it) in
  do+ _ := iter_store p it' in
  iret a.

(** The loop of the comment of [ni_list_next],
    [while ((node = ni_list_next(iter)) != NULL)], for an iterator that
    [ni_list_get_iterator] returned, with the values of the nodes it
    meets; it has no result when the rounds run out. *)
Fixpoint visit (fuel : nat) (iter : option Z) : LI (list Z) :=
  match fuel with
  | O => ifail
  | S fuel' =>
      do+ node := at_iter iter ni_list_next in
      match node with
      | None => iret []
      | Some _ =>
          do+ n := lift (load node) in
          do+ rest := visit fuel' iter in
          iret (n_value n :: rest)
      end
  end.

(** The same loop for an iterator that is a local variable, as
    [ni_list_rewind] and [ni_list_rewind_tail] set it. *)
Fixpoint visit_local (fuel : nat) (iter : ni_list_iter) : L (list Z) :=
  match fuel with
  | O => lfail
  | S fuel' =>
      do* (node, iter) := ni_list_next iter in
      match node with
      | None => lret []
      | Some _ =>
          do* n := load node in
          do* rest := visit_local fuel' iter in
          lret (n_value n :: rest)
      end
  end.

(** A list of two nodes with a [free] method, to run examples on. *)
Definition example_nodes : list_heap :=
  ListHeap (<[2 := ListNode (Some 1) None 20]>
              (<[1 := ListNode None (Some 2) 10]> ∅)) 3 [].

Definition example_list : ni_list :=
  NiList (Some 1) (Some 2) None true None 2.

(** The same list with a [dup] method that gives up at the value 20. *)
Definition example_dup_list : ni_list :=
  NiList (Some 1) (Some 2)
         (Some (fun v => if v =? 20 then None else Some (v + 100)))
         true None 2.

(** The nodes of [cells] (addresses and values) are linked in this order
    from [cur] to [lst]: the first has [pv] for its [prev], the last has
    [nx] for its [next]. *)
Fixpoint dlseg (m : gmap Z ni_list_node) (pv cur : option Z)
  (cells : list (Z * Z)) (lst nx : option Z) : Prop :=
  match cells with
  | [] => cur = nx /\ lst = pv
  | (a, v) :: rest =>
      cur = Some a /\
      exists n, m !! a = Some (ListNode pv n v) /\
                dlseg m (Some a) n rest lst nx
  end.

(** The list is made of the nodes of [cells], from the head to the tail,
    and [len] is their number, an [unsigned long]. *)
Definition is_list (h : list_heap) (l : ni_list) (cells : list (Z * Z))
  : Prop :=
  dlseg (nodes h) None (l_head l) cells (l_tail l) None /\
  (l_len l = zlength cells /\ zlength cells < 2 ^ 64) /\
  NoDup cells.*1.

(** The addresses the heap has yet to hand out hold no node. *)
Definition heap_ok (h : list_heap) : Prop :=
  forall a, next_node h <= a -> nodes h !! a = None.

(** The nodes at other addresses than [A] are the same in the two
    heaps. *)
Definition same_outside (A : list Z) (h h' : list_heap) : Prop :=
  forall a, a ∉ A -> nodes h' !! a = nodes h !! a.

Definition same_methods (l l' : ni_list) : Prop :=
  l_dup l' = l_dup l /\ l_free l' = l_free l /\ l_match l' = l_match l.

(** The node at an index: from the head for 0 and above, from the tail
    for a negative one. *)
Definition index_spec (cells : list (Z * Z)) (idx : Z) : option Z :=
  if idx <? 0 then
    if - idx <=? zlength cells
    then cells.*1 !! Z.to_nat (zlength cells + idx) else None
  else cells.*1 !! Z.to_nat idx.

(** The test [ni_list_search_key] makes of a value: the [match] method
    when there is one, the same pointer otherwise. *)
Definition matches_key (lst : ni_list) (key v : Z) : bool :=
  match l_match lst with
  | Some matches => matches v key
  | None => key =? v
  end.

(** The first node whose value passes the test. *)
Fixpoint first_match (lst : ni_list) (key : Z) (cells : list (Z * Z))
  : option Z :=
  match cells with
  | [] => None
  | (a, v) :: rest =>
      if matches_key lst key v then Some a else first_match lst key rest
  end.

(** The value [ni_list_dup] stores for a value: that of the [dup] method
    when there is one, the same pointer otherwise. *)
Definition dup_value (lst : ni_list) (v : Z) : option Z :=
  match l_dup lst with
  | Some dup => dup v
  | None => Some v
  end.

(** The nodes of a copy: new ones from the address [a] on, with the
    values [dup_value] gives. *)
Fixpoint copied (lst : ni_list) (a : Z) (cells : list (Z * Z))
  : list (Z * Z) :=
  match cells with
  | [] => []
  | (_, v) :: rest => (a, default v (dup_value lst v)) :: copied lst (a + 1) rest
  end.

(** What a call that returns a list leaves: the list is made of
    [cells'], the [free] method was called with [calls], the nodes at
    [freed] are no more, and the nodes at other addresses than [touched]
    are as they were. *)
Definition returns_list (r : option (ni_list * list_heap)) (h : list_heap)
  (lst : ni_list) (cells' : list (Z * Z)) (calls freed touched : list Z)
  : Prop :=
  exists lst' h',
    r = Some (lst', h') /\ is_list h' lst' cells' /\ heap_ok h' /\
    released h' = released h ++ calls /\
    (forall a, a ∈ freed -> nodes h' !! a = None) /\
    same_methods lst lst' /\ same_outside touched h h'.
(** ** Properties *)

Arguments to_size : simpl never.
Arguments to_uint : simpl never.
Arguments to_u16 : simpl never.
Arguments to_u8 : simpl never.

Lemma to_size_small z : 0 <= z < 2 ^ 64 -> to_size z = z.
Proof. intros H. unfold to_size. apply Z.mod_small. exact H. Qed.

Lemma to_uint_small z : 0 <= z < 2 ^ 32 -> to_uint z = z.
Proof. intros H. unfold to_uint. apply Z.mod_small. exact H. Qed.

Lemma to_u16_small z : 0 <= z < 2 ^ 16 -> to_u16 z = z.
Proof. intros H. unfold to_u16. apply Z.mod_small. exact H. Qed.

Lemma to_u8_small z : 0 <= z < 2 ^ 8 -> to_u8 z = z.
Proof. intros H. unfold to_u8. apply Z.mod_small. exact H. Qed.

Lemma zlength_nonneg {A} (l : list A) : 0 <= zlength l.
Proof. unfold zlength. lia. Qed.

Lemma zlength_app {A} (l k : list A) : zlength (l ++ k) = zlength l + zlength k.
Proof. unfold zlength. rewrite length_app. lia. Qed.

Lemma zlength_take {A} (l : list A) n :
  0 <= n <= zlength l -> zlength (take (Z.to_nat n) l) = n.
Proof. unfold zlength. intros H. rewrite length_take. lia. Qed.

Lemma zlength_fresh h n : 0 <= n -> zlength (fresh_bytes h n) = n.
Proof.
  intros H. unfold zlength, fresh_bytes.
  rewrite length_map, length_seq. lia.
Qed.

(** *** The header types *)


Lemma sds_type_cases s :
  valid s ->
  sds_type s = 0 \/ sds_type s = 1 \/ sds_type s = 2 \/ sds_type s = 3 \/
  sds_type s = 4.
Proof. intros (_ & H & _). lia. Qed.

Lemma req_type_cases n :
  (ni_string_req_type n = 0 /\ n < 2 ^ 5) \/
  (ni_string_req_type n = 1 /\ 2 ^ 5 <= n < 2 ^ 8) \/
  (ni_string_req_type n = 2 /\ 2 ^ 8 <= n < 2 ^ 16) \/
  (ni_string_req_type n = 3 /\ 2 ^ 16 <= n < 2 ^ 32) \/
  (ni_string_req_type n = 4 /\ 2 ^ 32 <= n).
Proof.
  unfold ni_string_req_type.
  repeat match goal with
         | |- context [?a <? ?b] => destruct (Z.ltb_spec a b)
         end; cbn; lia.
Qed.

Lemma land7 f : Z.land f 7 = f mod 8.
Proof. change 7 with (Z.ones 3). rewrite Z.land_ones by lia. reflexivity. Qed.

Lemma shiftr3 f : Z.shiftr f 3 = f / 8.
Proof. rewrite Z.shiftr_div_pow2 by lia. reflexivity. Qed.

Lemma shiftl3 l : Z.shiftl l 3 = l * 8.
Proof. rewrite Z.shiftl_mul_pow2 by lia. reflexivity. Qed.

Lemma sds_type_mod s : sds_type s = flags s mod 8.
Proof. unfold sds_type. apply land7. Qed.

Lemma len_wide s : 1 <= sds_type s <= 4 -> ni_string_len s = hdr_len s.
Proof.
  intros H. unfold ni_string_len.
  destruct (sds_type s) as [|[[|[]|]|[|[]|]|]|]; try lia; reflexivity.
Qed.

Lemma alloc_wide s : 1 <= sds_type s <= 4 -> ni_string_alloc s = hdr_alloc s.
Proof.
  intros H. unfold ni_string_alloc.
  destruct (sds_type s) as [|[[|[]|]|[|[]|]|]|]; try lia; reflexivity.
Qed.

Lemma len_type5 s : sds_type s = 0 -> ni_string_len s = flags s / 8.
Proof.
  intros H. unfold ni_string_len. rewrite H.
  unfold NI_STRING_TYPE_5_LEN. apply shiftr3.
Qed.

Lemma alloc_type5 s : sds_type s = 0 -> ni_string_alloc s = flags s / 8.
Proof.
  intros H. unfold ni_string_alloc. rewrite H.
  unfold NI_STRING_TYPE_5_LEN. apply shiftr3.
Qed.

Lemma avail_type5 s : sds_type s = 0 -> ni_string_avail s = 0.
Proof. intros H. unfold ni_string_avail. rewrite H. reflexivity. Qed.

Lemma field_bound_le t : 0 < field_bound t <= 2 ^ 63.
Proof. unfold field_bound. destruct t as [|[[|[]|]|[|[]|]|]|]; lia. Qed.

(** In a valid handle the length is at most the capacity, and both are
    sizes of objects. *)
Lemma valid_bounds s :
  valid s ->
  0 <= ni_string_len s /\ ni_string_len s <= ni_string_alloc s /\
  ni_string_alloc s < 2 ^ 63.
Proof.
  intros (Hf & Ht & Hw & Hb & Hz).
  destruct (decide (sds_type s = 0)) as [E|E].
  - rewrite len_type5, alloc_type5 by exact E.
    pose proof (Z.div_pos (flags s) 8). 
    assert (flags s / 8 < 32) by (apply Z.div_lt_upper_bound; lia). lia.
  - rewrite len_wide, alloc_wide by lia.
    destruct (Hw E) as (? & ? & ?).
    pose proof (field_bound_le (sds_type s)). lia.
Qed.

Lemma avail_wide s :
  valid s -> 1 <= sds_type s <= 4 ->
  ni_string_avail s = hdr_alloc s - hdr_len s.
Proof.
  intros (Hf & Ht & Hw & Hb & Hz) H.
  destruct Hw as (H0 & H1 & H2); [lia|].
  unfold ni_string_avail.
  destruct (sds_type s) as [|[[|[]|]|[|[]|]|]|]; try lia; cbn in H2.
  all: first [apply to_uint_small | apply to_size_small]; lia.
Qed.

(** Spare capacity is capacity minus length, for every header type. *)
Lemma avail_eq s :
  valid s -> ni_string_avail s = ni_string_alloc s - ni_string_len s.
Proof.
  intros Hv. destruct (sds_type_cases s Hv) as [E|E].
  - rewrite avail_type5, alloc_type5, len_type5 by exact E. lia.
  - rewrite avail_wide, alloc_wide, len_wide by (assumption || lia). lia.
Qed.

Lemma set_len_wide s l :
  1 <= sds_type s <= 4 -> 0 <= l < field_bound (sds_type s) ->
  ni_string_set_len s l = with_len s l.
Proof.
  intros H Hl. unfold ni_string_set_len.
  destruct (sds_type s) as [|[[|[]|]|[|[]|]|]|]; try lia; cbn in Hl; f_equal.
  all: first [apply to_u8_small | apply to_u16_small
             | apply to_uint_small | apply to_size_small]; lia.
Qed.

Lemma set_alloc_wide s l :
  1 <= sds_type s <= 4 -> 0 <= l < field_bound (sds_type s) ->
  ni_string_set_alloc s l = with_alloc s l.
Proof.
  intros H Hl. unfold ni_string_set_alloc.
  destruct (sds_type s) as [|[[|[]|]|[|[]|]|]|]; try lia; cbn in Hl; f_equal.
  all: first [apply to_u8_small | apply to_u16_small
             | apply to_uint_small | apply to_size_small]; lia.
Qed.

Lemma set_len_type5 s l :
  sds_type s = 0 -> 0 <= l < 32 ->
  ni_string_set_len s l = with_flags s (l * 8).
Proof.
  intros H Hl. unfold ni_string_set_len. rewrite H.
  f_equal. rewrite Z.lor_0_l, shiftl3. apply to_u8_small. lia.
Qed.

Lemma set_alloc_type5 s l : sds_type s = 0 -> ni_string_set_alloc s l = s.
Proof. intros H. unfold ni_string_set_alloc. rewrite H. reflexivity. Qed.

Lemma type5_flags l : 0 <= l -> (l * 8) mod 8 = 0 /\ l * 8 / 8 = l.
Proof. intros H. split; [apply Z.mod_mul; lia | apply Z.div_mul; lia]. Qed.

(** *** Memory regions and the growth engine *)

Lemma bind_ok {A B} (c : M A) (k : A -> M B) h a h' :
  c h = Ok a h' -> bind c k h = k a h'.
Proof. intros H. unfold bind. rewrite H. reflexivity. Qed.

Lemma grown_type_bound n :
  0 <= n < 2 ^ 63 -> 1 <= grown_type n <= 4 /\ n < field_bound (grown_type n).
Proof.
  intros H. unfold grown_type.
  destruct (req_type_cases n) as [(E & ?)|[(E & ?)|[(E & ?)|[(E & ?)|(E & ?)]]]];
    rewrite E; cbn; lia.
Qed.

Lemma hdr_size_wide t : 1 <= t <= 4 -> 3 <= ni_string_hdr_size t <= 17.
Proof.
  intros H. assert (t = 1 \/ t = 2 \/ t = 3 \/ t = 4) as [->|[->|[->| ->]]] by lia;
    match goal with
    | |- context [ni_string_hdr_size ?t] =>
        let v := eval vm_compute in (ni_string_hdr_size t) in
        change (ni_string_hdr_size t) with v
    end; lia.
Qed.

Lemma lookup_take_succ {A} (l k : list A) n :
  0 <= n -> take (Z.to_nat (n + 1)) l = take (Z.to_nat (n + 1)) k ->
  l !! Z.to_nat n = k !! Z.to_nat n.
Proof.
  intros Hn H.
  assert (Hlk : forall m : list A,
             m !! Z.to_nat n = take (Z.to_nat (n + 1)) m !! Z.to_nat n).
  { intros m. rewrite lookup_take. destruct (decide _); [reflexivity|lia]. }
  rewrite (Hlk l), (Hlk k), H. reflexivity.
Qed.

Lemma valid_wide b f l a d :
  1 <= Z.land f 7 <= 4 -> 0 <= f < 256 ->
  0 <= l <= a -> a < field_bound (Z.land f 7) -> a < zlength d ->
  d !! Z.to_nat l = Some x00 ->
  valid (NiString b f l a d).
Proof.
  intros Ht Hf Hl Ha Hd Hz.
  assert (Hty : sds_type (NiString b f l a d) = Z.land f 7) by reflexivity.
  unfold valid. rewrite Hty, len_wide, alloc_wide by (rewrite Hty; lia).
  cbn [flags hdr_len hdr_alloc buf]. unfold byte_at. cbn [buf].
  destruct (Z.leb_spec 0 l); [|lia]. repeat split; try lia. exact Hz.
Qed.

Lemma valid_wide_inv s :
  valid s -> 1 <= sds_type s <= 4 ->
  0 <= flags s < 256 /\ 0 <= hdr_len s <= hdr_alloc s /\
  hdr_alloc s < field_bound (sds_type s) /\ hdr_alloc s < zlength (buf s) /\
  buf s !! Z.to_nat (hdr_len s) = Some x00.
Proof.
  intros (Hf & Hty & Hw & Hb & Hz) Ht.
  rewrite alloc_wide in Hb by lia. rewrite len_wide in Hz by lia.
  destruct Hw as (H0 & H1 & H2); [lia|].
  unfold byte_at in Hz. destruct (Z.leb_spec 0 (hdr_len s)); [|lia].
  repeat split; try lia. exact Hz.
Qed.

Lemma valid_terminator s :
  valid s -> buf s !! Z.to_nat (ni_string_len s) = Some x00.
Proof.
  intros Hv. pose proof (valid_bounds s Hv) as (H0 & _).
  destruct Hv as (_ & _ & _ & _ & Hz). unfold byte_at in Hz.
  destruct (Z.leb_spec 0 (ni_string_len s)); [exact Hz|lia].
Qed.

Lemma valid_buf_length s : valid s -> ni_string_alloc s < zlength (buf s).
Proof. intros (_ & _ & _ & Hb & _). exact Hb. Qed.

Lemma memcpy_ok dst off src n :
  0 <= off -> 0 <= n -> off + n <= zlength dst -> n <= zlength src ->
  memcpy dst off src n =
    Some (take (Z.to_nat off) dst ++ take (Z.to_nat n) src
          ++ drop (Z.to_nat (off + n)) dst).
Proof. intros. unfold memcpy. rewrite bool_decide_eq_true_2; [reflexivity|lia]. Qed.

Lemma memcpy_ok0 dst src n :
  0 <= n -> n <= zlength dst -> n <= zlength src ->
  memcpy dst 0 src n =
    Some (take (Z.to_nat n) src ++ drop (Z.to_nat n) dst).
Proof. intros. rewrite memcpy_ok by lia. reflexivity. Qed.

Lemma mem_store_ok b i v :
  0 <= i < zlength b -> mem_store b i v = Some (<[Z.to_nat i := v]> b).
Proof. intros. unfold mem_store. rewrite bool_decide_eq_true_2; [reflexivity|lia]. Qed.

Lemma zlength_drop {A} (l : list A) n :
  0 <= n <= zlength l -> zlength (drop (Z.to_nat n) l) = zlength l - n.
Proof. unfold zlength. intros H. rewrite length_drop. lia. Qed.

Lemma land7_small t : 0 <= t < 8 -> Z.land t 7 = t.
Proof. intros H. rewrite land7. apply Z.mod_small. lia. Qed.

Lemma make_room_for_noop s addlen h :
  addlen <= ni_string_avail s -> ni_string_make_room_for s addlen h = Ok s h.
Proof.
  intros H. unfold ni_string_make_room_for.
  destruct (Z.geb_spec (ni_string_avail s) addlen); [reflexivity | lia].
Qed.

Lemma make_room_for_grow s addlen h :
  valid s -> ni_string_avail s < addlen ->
  ni_string_len s + addlen + NI_STRING_MAX_PREALLOC <= SSIZE_MAX ->
  let newlen := grown_len (ni_string_len s) addlen in
  let type := grown_type newlen in
  let size := ni_string_hdr_size type + newlen + 1 in
  exists s' h',
    ni_string_make_room_for s addlen h = Ok s' h' /\
    valid s' /\
    sds_type s' = type /\
    ni_string_len s' = ni_string_len s /\
    ni_string_alloc s' = newlen /\
    take (Z.to_nat (ni_string_len s + 1)) (buf s') =
      take (Z.to_nat (ni_string_len s + 1)) (buf s) /\
    next_blk h <= next_blk h' /\ junk h' = junk h /\
    (if sds_type s =? type
     then blk s' = blk s /\ events h' = events h ++ [EvRealloc (blk s) size]
     else blk s' = next_blk h /\
          events h' = events h ++ [EvMalloc (next_blk h) size; EvFree (blk s)]).
Proof.
  intros Hv Hav Hsz newlen type size.
  pose proof (valid_bounds s Hv) as (Hl0 & Hla & Hab).
  pose proof (avail_eq s Hv) as Hae.
  assert (Hnl : ni_string_len s + addlen <= newlen /\ newlen < 2 ^ 63).
  { subst newlen. unfold grown_len.
    destruct (Z.ltb_spec (ni_string_len s + addlen) (1024 * 1024)); lia. }
  destruct (grown_type_bound newlen) as (Ht & Hfb); [lia|].
  fold type in Ht, Hfb.
  unfold ni_string_make_room_for.
  destruct (Z.geb_spec (ni_string_avail s) addlen) as [?|_]; [lia|].
  rewrite (to_size_small (ni_string_len s + addlen)) by (lia).
  match goal with |- context [if ?c then to_size ?a else to_size ?b] =>
    replace (if c then to_size a else to_size b) with newlen end.
  2:{ subst newlen. unfold grown_len.
      destruct (Z.ltb_spec (ni_string_len s + addlen) NI_STRING_MAX_PREALLOC);
        rewrite to_size_small; lia. }
  fold (grown_type newlen). fold type.
  pose proof (hdr_size_wide type Ht) as Hh.
  assert (Hsize : to_size (ni_string_hdr_size type + newlen + 1) = size).
  { subst size. apply to_size_small. lia. }
  rewrite Hsize.
  assert (Hlen1 : to_size (ni_string_len s + 1) = ni_string_len s + 1).
  { apply to_size_small. lia. }
  rewrite Hlen1.
  pose proof (valid_terminator s Hv) as Hz.
  pose proof (valid_buf_length s Hv) as Hb.
  destruct (Z.eqb_spec (sds_type s) type) as [E|E].
  - (* the header keeps its width: realloc *)
    destruct (valid_wide_inv s Hv) as (Hf & Hw & Hw2 & _ & _); [lia|].
    unfold ni_string_realloc, ni_realloc, ni_string_alloc_ptr, bind, ret; cbn.
    rewrite Z.sub_diag; cbn.
    replace (size - ni_string_hdr_size type) with (newlen + 1) by (subst size; lia).
    set (data := take _ _).
    set (s1 := NiString _ _ _ _ _).
    assert (Ht1 : sds_type s1 = sds_type s) by reflexivity.
    assert (Hd : zlength data = newlen + 1).
    { subst data. apply zlength_take. rewrite zlength_app, zlength_fresh by lia.
      pose proof (zlength_nonneg (buf s)). lia. }
    assert (Hpre : take (Z.to_nat (ni_string_len s + 1)) data
                   = take (Z.to_nat (ni_string_len s + 1)) (buf s)).
    { subst data. rewrite take_take, take_app_le.
      - f_equal. lia.
      - unfold zlength in Hb. lia. }
    rewrite (set_alloc_wide s1) by (rewrite Ht1, E; lia).
    unfold with_alloc, s1; cbn [blk flags hdr_len hdr_alloc buf].
    set (s' := NiString _ _ _ _ _).
    assert (Ht' : sds_type s' = type) by exact E.
    assert (Hl' : ni_string_len s' = ni_string_len s).
    { rewrite !len_wide by lia. reflexivity. }
    rewrite (len_wide s) in Hz, Hpre, Hnl by lia.
    eexists _, _. split; [reflexivity|].
    split; [|split; [|split; [|split; [|split; [|split; [|split]]]]]].
    + apply valid_wide; fold (sds_type s); rewrite ?E; try lia.
      rewrite <- Hz. apply lookup_take_succ; [lia|]. exact Hpre.
    + exact Ht'.
    + exact Hl'.
    + rewrite alloc_wide by lia. reflexivity.
    + rewrite len_wide by lia. exact Hpre.
    + cbn. lia.
    + reflexivity.
    + cbn. split; reflexivity.
  - (* the header changes width: a new block, copy, free *)
    unfold ni_string_malloc, ni_malloc, ni_string_ptr_free, ni_free,
      ni_string_alloc_ptr, bind, ret; cbn.
    set (d0 := drop _ (fresh_bytes h size)).
    assert (Hd0 : zlength d0 = newlen + 1).
    { subst d0. rewrite zlength_drop; rewrite zlength_fresh; subst size; lia. }
    rewrite memcpy_ok0 by (unfold zlength in *; lia). cbn.
    rewrite Z.sub_diag; cbn.
    set (data := _ ++ _).
    assert (Hd : zlength data = newlen + 1).
    { subst data. rewrite zlength_app, zlength_take, zlength_drop
        by (unfold zlength in *; lia). lia. }
    assert (Hpre : take (Z.to_nat (ni_string_len s + 1)) data
                   = take (Z.to_nat (ni_string_len s + 1)) (buf s)).
    { subst data. rewrite take_app_le, take_take.
      - f_equal. lia.
      - rewrite length_take. unfold zlength in *. lia. }
    set (s1 := NiString _ _ _ _ _).
    assert (Ht1 : sds_type s1 = type) by (apply land7_small; lia).
    rewrite (set_len_wide s1) by (rewrite Ht1; lia).
    rewrite set_alloc_wide by (change (sds_type (with_len s1 _)) with (sds_type s1);
      rewrite Ht1; lia).
    unfold with_alloc, with_len, s1; cbn [blk flags hdr_len hdr_alloc buf].
    set (s' := NiString _ _ _ _ _).
    assert (Ht' : sds_type s' = type) by exact Ht1.
    eexists _, _. split; [reflexivity|].
    split; [|split; [|split; [|split; [|split; [|split; [|split]]]]]].
    + apply valid_wide; rewrite ?(land7_small type) by lia; try lia.
      rewrite <- Hz. apply lookup_take_succ; [lia|]. exact Hpre.
    + exact Ht'.
    + rewrite len_wide by lia. reflexivity.
    + rewrite alloc_wide by lia. reflexivity.
    + exact Hpre.
    + cbn. lia.
    + reflexivity.
    + cbn. split; [reflexivity|]. rewrite <- app_assoc. reflexivity.
Qed.

(** *** Valid handles *)

Lemma validb_valid s : validb s = true -> valid s.
Proof.
  unfold validb, valid. intros H.
  repeat (apply andb_prop in H; destruct H as [H ?]).
  repeat match goal with
         | H : (_ <=? _) = true |- _ => apply Z.leb_le in H
         | H : (_ <? _) = true |- _ => apply Z.ltb_lt in H
         | H : bool_decide _ = true |- _ => apply bool_decide_eq_true_1 in H
         end.
  repeat split; try lia; try assumption.
  all: intros Hne; match goal with H : (_ || _) = true |- _ =>
        apply orb_prop in H; destruct H as [H|H] end;
       [apply Z.eqb_eq in H; lia|];
       repeat (apply andb_prop in H; destruct H as [H ?]);
       repeat match goal with
         | H : (_ <=? _) = true |- _ => apply Z.leb_le in H
         | H : (_ <? _) = true |- _ => apply Z.ltb_lt in H
         end; lia.
Qed.

Lemma hdr_size_type s :
  ni_string_hdr_size (flags s) = ni_string_hdr_size (sds_type s).
Proof.
  unfold ni_string_hdr_size, sds_type.
  rewrite !land7, Z.mod_mod by lia. reflexivity.
Qed.

Lemma valid_type5 b f l a d :
  f mod 8 = 0 -> 0 <= f < 256 -> f / 8 < zlength d ->
  d !! Z.to_nat (f / 8) = Some x00 ->
  valid (NiString b f l a d).
Proof.
  intros Ht Hf Hd Hz.
  assert (Hty : sds_type (NiString b f l a d) = 0).
  { rewrite sds_type_mod. exact Ht. }
  unfold valid. rewrite Hty, len_type5, alloc_type5 by exact Hty.
  cbn [flags hdr_len hdr_alloc buf]. unfold byte_at. cbn [buf].
  pose proof (Z.div_pos f 8).
  destruct (Z.leb_spec 0 (f / 8)); [|lia]. repeat split; try lia. exact Hz.
Qed.

Lemma valid_type5_inv s :
  valid s -> sds_type s = 0 ->
  0 <= flags s < 256 /\ flags s mod 8 = 0 /\ 0 <= flags s / 8 < 32 /\
  flags s / 8 < zlength (buf s) /\
  buf s !! Z.to_nat (flags s / 8) = Some x00.
Proof.
  intros Hv Ht.
  pose proof (valid_bounds s Hv) as (H0 & _).
  pose proof (valid_terminator s Hv) as Hz.
  pose proof (valid_buf_length s Hv) as Hb.
  destruct Hv as (Hf & _).
  rewrite len_type5 in * by exact Ht. rewrite alloc_type5 in * by exact Ht.
  rewrite sds_type_mod in Ht.
  assert (flags s / 8 < 32) by (apply Z.div_lt_upper_bound; lia).
  repeat split; try lia; assumption.
Qed.

Lemma zlength_insert {A} (l : list A) i x : zlength (<[i := x]> l) = zlength l.
Proof. unfold zlength. rewrite length_insert. reflexivity. Qed.


(** *** [ni_string_clear] *)

Lemma ni_string_clear_spec s h :
  valid s ->
  exists s',
    ni_string_clear s h = Ok s' h /\ valid s' /\
    blk s' = blk s /\ sds_type s' = sds_type s /\
    handle_ptr s' = handle_ptr s /\
    ni_string_len s' = 0 /\ byte_at s' 0 = Some x00 /\
    (sds_type s <> 0 ->
       ni_string_alloc s' = ni_string_alloc s /\
       ni_string_avail s' = ni_string_alloc s) /\
    (sds_type s = 0 -> ni_string_alloc s' = 0 /\ ni_string_avail s' = 0).
Proof.
  intros Hv. pose proof (valid_buf_length s Hv) as Hb.
  pose proof (valid_bounds s Hv) as (Hl0 & Hla & Hab).
  unfold ni_string_clear.
  destruct (sds_type_cases s Hv) as [E|E].
  - destruct (valid_type5_inv s Hv E) as (Hf & Hm & Hd & _ & _).
    rewrite set_len_type5 by (exact E || lia).
    unfold with_flags, bind, mem, ret; cbn [buf].
    rewrite mem_store_ok by lia.
    unfold with_buf; cbn [blk flags hdr_len hdr_alloc buf].
    change (0 * 8) with 0. change (Z.to_nat 0) with 0%nat.
    set (s' := NiString _ _ _ _ _).
    assert (Ht' : sds_type s' = 0) by reflexivity.
    assert (Hv' : valid s').
    { apply valid_type5; change (0 / 8) with 0;
        rewrite ?zlength_insert; try reflexivity; try lia.
      apply list_lookup_insert_eq. unfold zlength in Hb. lia. }
    exists s'. split; [reflexivity|]. split; [exact Hv'|].
    repeat split.
    + rewrite Ht', E. reflexivity.
    + unfold handle_ptr. rewrite !hdr_size_type, Ht', E. reflexivity.
    + unfold byte_at. cbn. apply list_lookup_insert_eq. unfold zlength in Hb. lia.
    + intros; lia.
    + intros; lia.
  - assert (Hw : 1 <= sds_type s <= 4) by lia.
    destruct (valid_wide_inv s Hv Hw) as (Hf & Hl & Hfb & Hd & _).
    rewrite set_len_wide by (pose proof (field_bound_le (sds_type s)); lia).
    unfold with_len, bind, mem, ret; cbn [buf].
    rewrite mem_store_ok by lia.
    unfold with_buf; cbn [blk flags hdr_len hdr_alloc buf].
    change (Z.to_nat 0) with 0%nat.
    set (s' := NiString _ _ _ _ _).
    assert (Ht' : sds_type s' = sds_type s) by reflexivity.
    assert (Hv' : valid s').
    { apply valid_wide; fold (sds_type s); try lia.
      - rewrite zlength_insert. lia.
      - apply list_lookup_insert_eq. unfold zlength in Hd. lia. }
    exists s'. split; [reflexivity|]. split; [exact Hv'|].
    rewrite (avail_eq s' Hv'), (len_wide s'), (alloc_wide s'), (alloc_wide s) by lia.
    repeat split; try lia.
    + unfold byte_at. cbn. apply list_lookup_insert_eq. unfold zlength in Hd. lia.
    + cbn. lia.
Qed.

(** [ni_string_new("foo")] makes a type-5 string. *)
Lemma ni_string_new_foo :
  ni_string_new (bytes "foo") heap0 =
    Ok example_type5 (Heap 2 [EvMalloc 1 5] (junk heap0)).
Proof. vm_compute. reflexivity. Qed.

(** C10, as stated, fails on the type-5 string [ni_string_new("foo")]:
    its capacity reads 3 before [ni_string_clear] and 0 after it, and
    nothing is left as spare capacity. *)
Lemma clear_type5_capacity_not_kept :
  valid example_type5 /\
  ni_string_new (bytes "foo") heap0 =
    Ok example_type5 (Heap 2 [EvMalloc 1 5] (junk heap0)) /\
  ~ clear_keeps_capacity example_type5 (Heap 2 [EvMalloc 1 5] (junk heap0)).
Proof.
  split; [apply validb_valid; reflexivity|]. split; [exact ni_string_new_foo|].
  intros (s' & Hc & _ & _ & _ & _ & Ha & _).
  destruct (ni_string_clear_spec example_type5
              (Heap 2 [EvMalloc 1 5] (junk heap0))) as (s1 & Hc1 & _ & _ & _ & _ & _ & _ & _ & H5);
    [apply validb_valid; reflexivity|].
  rewrite Hc in Hc1. injection Hc1 as <-.
  destruct H5 as (H5 & _); [reflexivity|].
  rewrite H5 in Ha. vm_compute in Ha. discriminate Ha.
Qed.

(** C10 (amended): for every valid handle [ni_string_clear] succeeds
    without a call to the allocator (the heap is the one before), the block,
    the header type and the handle pointer are unchanged, the length is 0
    and the byte at offset 0 is zero; for the header types 8 to 64 the
    [alloc] field is unchanged and all of it is spare capacity; for the
    type 5, which has no [alloc] field, the capacity read back is 0 and
    there is no spare capacity. *)
Theorem ni_string_clear_frame s h :
  valid s ->
  exists s',
    ni_string_clear s h = Ok s' h /\ valid s' /\
    blk s' = blk s /\ sds_type s' = sds_type s /\
    handle_ptr s' = handle_ptr s /\
    ni_string_len s' = 0 /\ byte_at s' 0 = Some x00 /\
    (sds_type s <> 0 ->
       ni_string_alloc s' = ni_string_alloc s /\
       ni_string_avail s' = ni_string_alloc s) /\
    (sds_type s = 0 -> ni_string_alloc s' = 0 /\ ni_string_avail s' = 0).
Proof. apply ni_string_clear_spec. Qed.

Lemma ni_string_clear_frame_witness :
  valid example_wide /\
  exists s',
    ni_string_clear example_wide heap0 = Ok s' heap0 /\ valid s' /\
    blk s' = blk example_wide /\ sds_type s' = sds_type example_wide /\
    handle_ptr s' = handle_ptr example_wide /\
    ni_string_len s' = 0 /\ byte_at s' 0 = Some x00 /\
    (sds_type example_wide <> 0 ->
       ni_string_alloc s' = ni_string_alloc example_wide /\
       ni_string_avail s' = ni_string_alloc example_wide) /\
    (sds_type example_wide = 0 ->
       ni_string_alloc s' = 0 /\ ni_string_avail s' = 0).
Proof.
  split; [apply validb_valid; reflexivity|].
  apply (ni_string_clear_frame example_wide heap0).
  apply validb_valid; reflexivity.
Defined.

(** *** [ni_string_incr_len] *)

Lemma assert_true b h : b = true -> assert b h = Ok tt h.
Proof. intros ->. reflexivity. Qed.

(** The case of the header types 8 to 64; the byte at the old end need
    not be zero, as when the caller has written past it. *)
Lemma incr_len_wide_hdr s incr h :
  1 <= sds_type s <= 4 -> 0 <= hdr_len s <= hdr_alloc s ->
  hdr_alloc s < field_bound (sds_type s) -> hdr_alloc s < zlength (buf s) ->
  (0 <= incr <= hdr_alloc s - hdr_len s \/ (incr < 0 /\ - incr <= hdr_len s)) ->
  ni_string_incr_len s incr h =
    Ok (NiString (blk s) (flags s) (hdr_len s + incr) (hdr_alloc s)
          (<[Z.to_nat (hdr_len s + incr) := x00]> (buf s))) h.
Proof.
  intros Hw Hl Hfb Hd Hi.
  assert (Hn : 0 <= hdr_len s + incr <= hdr_alloc s) by lia.
  unfold ni_string_incr_len.
  assert (Hg : forall a k, (0 <= incr -> incr <= a) -> (incr < 0 -> k = - incr) ->
             (incr >=? 0) && (a >=? incr) || (incr <? 0) && (hdr_len s >=? k) = true).
  { intros a k Ha Hk. destruct (Z.geb_spec incr 0).
    - destruct (Z.geb_spec a incr); [reflexivity|lia].
    - destruct (Z.ltb_spec incr 0); [|lia]. rewrite Hk by lia.
      destruct (Z.geb_spec (hdr_len s) (- incr)); [reflexivity|lia]. }
  unfold ni_string_incr_len.
  assert (sds_type s = 1 \/ sds_type s = 2 \/ sds_type s = 3 \/ sds_type s = 4)
    as [E|[E|[E|E]]] by lia; rewrite E in *; cbn in Hfb;
    unfold bind at 1; unfold bind at 1;
    (rewrite assert_true;
     [ unfold ret at 1; cbv beta iota;
       rewrite ?to_u8_small, ?to_u16_small, ?to_uint_small, ?to_size_small by lia;
       unfold with_len, with_buf, bind, mem, ret; cbn [blk flags hdr_len hdr_alloc buf];
       rewrite mem_store_ok by lia; reflexivity
     | ]).
  - apply Hg; [lia|]. intros. apply to_uint_small. lia.
  - apply Hg; [lia|]. intros. apply to_uint_small. lia.
  - rewrite (to_uint_small (hdr_alloc s - hdr_len s)) by lia.
    destruct (Z.le_gt_cases 0 incr).
    + rewrite (to_uint_small incr) by lia. apply Hg; [lia|]. intros. lia.
    + destruct (Z.geb_spec incr 0); [lia|]. destruct (Z.ltb_spec incr 0); [|lia].
      rewrite (to_uint_small (- incr)) by lia.
      destruct (Z.geb_spec (hdr_len s) (- incr)); [reflexivity|lia].
  - rewrite (to_size_small (hdr_alloc s - hdr_len s)) by lia.
    destruct (Z.le_gt_cases 0 incr).
    + rewrite (to_size_small incr) by lia. apply Hg; [lia|]. intros. lia.
    + destruct (Z.geb_spec incr 0); [lia|]. destruct (Z.ltb_spec incr 0); [|lia].
      rewrite (to_size_small (- incr)) by lia.
      destruct (Z.geb_spec (hdr_len s) (- incr)); [reflexivity|lia].
Qed.

Lemma incr_len_wide s incr h :
  valid s -> 1 <= sds_type s <= 4 ->
  (0 <= incr <= ni_string_avail s \/ (incr < 0 /\ - incr <= ni_string_len s)) ->
  ni_string_incr_len s incr h =
    Ok (NiString (blk s) (flags s) (hdr_len s + incr) (hdr_alloc s)
          (<[Z.to_nat (hdr_len s + incr) := x00]> (buf s))) h.
Proof.
  intros Hv Hw Hi.
  destruct (valid_wide_inv s Hv Hw) as (Hf & Hl & Hfb & Hd & _).
  rewrite (avail_eq s Hv), (alloc_wide s Hw), (len_wide s Hw) in Hi.
  apply incr_len_wide_hdr; assumption.
Qed.

(** On a type-5 handle a negative increment within the length is
    accepted too. *)
Lemma incr_len_type5_neg s incr h :
  valid s -> sds_type s = 0 -> incr < 0 -> - incr <= ni_string_len s ->
  ni_string_incr_len s incr h =
    Ok (NiString (blk s) ((flags s / 8 + incr) * 8) (hdr_len s) (hdr_alloc s)
          (<[Z.to_nat (flags s / 8 + incr) := x00]> (buf s))) h.
Proof.
  intros Hv E Hi Hl.
  destruct (valid_type5_inv s Hv E) as (Hf & Hm & Hd & Hb & _).
  rewrite len_type5 in Hl by exact E.
  unfold ni_string_incr_len. rewrite E.
  unfold NI_STRING_TYPE_5_LEN. rewrite shiftr3, shiftl3, Z.lor_0_l.
  unfold bind at 1; unfold bind at 1.
  rewrite assert_true.
  - unfold ret at 1; cbv beta iota.
    rewrite to_u8_small, to_size_small by lia.
    unfold with_flags, with_buf, bind, mem, ret; cbn [blk flags hdr_len hdr_alloc buf].
    rewrite mem_store_ok by lia. reflexivity.
  - rewrite to_uint_small by lia.
    destruct (Z.gtb_spec incr 0); [lia|]. destruct (Z.ltb_spec incr 0); [|lia].
    destruct (Z.geb_spec (flags s / 8) (- incr)); [reflexivity|lia].
Qed.

(** On a type-5 handle the assertion rejects the increment 0. *)
Lemma incr_len_type5_zero s h :
  sds_type s = 0 -> ni_string_incr_len s 0 h = Fault AssertionFailed.
Proof.
  intros E. unfold ni_string_incr_len. rewrite E. reflexivity.
Qed.

(** C9: the call with delta 0 on the type-5 string [ni_string_new("foo")]
    meets the stated precondition (0 <= delta and delta is not larger than
    the spare capacity, which is 0), and the assertion of the type-5 case,
    which asks for [incr > 0] where the other four cases ask for
    [incr >= 0], fails. *)
Theorem incr_len_type5_zero_trips_assertion :
  valid example_type5 /\
  ni_string_new (bytes "foo") heap0 =
    Ok example_type5 (Heap 2 [EvMalloc 1 5] (junk heap0)) /\
  0 <= 0 <= ni_string_avail example_type5 /\
  ni_string_incr_len example_type5 0 (Heap 2 [EvMalloc 1 5] (junk heap0)) =
    Fault AssertionFailed.
Proof.
  split; [apply validb_valid; reflexivity|]. split; [exact ni_string_new_foo|].
  split; [vm_compute; split; discriminate|]. apply incr_len_type5_zero. reflexivity.
Qed.

(** For the header types 8 to 64 the call does what C9 says: within the
    precondition the assertion holds, the length becomes [len + delta], the
    byte at the new end is zero and the allocator is not called. *)
Lemma incr_len_wide_ok s incr h :
  valid s -> 1 <= sds_type s <= 4 ->
  (0 <= incr <= ni_string_avail s \/ (incr < 0 /\ - incr <= ni_string_len s)) ->
  exists s',
    ni_string_incr_len s incr h = Ok s' h /\ valid s' /\
    blk s' = blk s /\ sds_type s' = sds_type s /\
    ni_string_alloc s' = ni_string_alloc s /\
    ni_string_len s' = ni_string_len s + incr /\
    byte_at s' (ni_string_len s + incr) = Some x00 /\
    buf s' = <[Z.to_nat (ni_string_len s + incr) := x00]> (buf s).
Proof.
  intros Hv Hw Hi. rewrite (incr_len_wide s incr h Hv Hw Hi).
  destruct (valid_wide_inv s Hv Hw) as (Hf & Hl & Hfb & Hd & _).
  rewrite (avail_eq s Hv), (alloc_wide s Hw), (len_wide s Hw) in Hi.
  set (s' := NiString _ _ _ _ _).
  assert (Ht' : sds_type s' = sds_type s) by reflexivity.
  assert (Hlk : <[Z.to_nat (hdr_len s + incr) := x00]> (buf s)
                  !! Z.to_nat (hdr_len s + incr) = Some x00).
  { apply list_lookup_insert_eq. unfold zlength in Hd. lia. }
  exists s'. split; [reflexivity|].
  rewrite (len_wide s'), (alloc_wide s'), (len_wide s), (alloc_wide s) by lia.
  split; [|repeat split].
  - apply valid_wide; fold (sds_type s); rewrite ?zlength_insert; try lia.
    exact Hlk.
  - unfold byte_at. destruct (Z.leb_spec 0 (hdr_len s + incr)); [exact Hlk|lia].
Qed.

(** *** The growth policy *)

Lemma take_succ_eq {A} (a b : list A) n :
  0 <= n -> take (Z.to_nat (n + 1)) a = take (Z.to_nat (n + 1)) b ->
  take (Z.to_nat n) a = take (Z.to_nat n) b.
Proof.
  intros Hn H. apply (f_equal (take (Z.to_nat n))) in H.
  rewrite !take_take in H.
  replace (Z.to_nat n `min` Z.to_nat (n + 1))%nat with (Z.to_nat n) in H by lia.
  exact H.
Qed.

(** What every successful call of [ni_string_make_room_for] gives. *)
Lemma make_room_for_ok s addlen h :
  valid s -> 0 <= addlen ->
  ni_string_len s + addlen + NI_STRING_MAX_PREALLOC <= SSIZE_MAX ->
  exists s' h',
    ni_string_make_room_for s addlen h = Ok s' h' /\
    valid s' /\
    ni_string_len s' = ni_string_len s /\
    addlen <= ni_string_avail s' /\
    (0 < addlen -> 1 <= sds_type s' <= 4) /\
    take (Z.to_nat (ni_string_len s + 1)) (buf s') =
      take (Z.to_nat (ni_string_len s + 1)) (buf s).
Proof.
  intros Hv Ha Hsz.
  destruct (Z.le_gt_cases addlen (ni_string_avail s)) as [Hle|Hgt].
  - exists s, h. rewrite make_room_for_noop by exact Hle.
    split; [reflexivity|]. split; [exact Hv|]. split; [reflexivity|].
    split; [exact Hle|]. split; [|reflexivity].
    intros Hp. destruct (sds_type_cases s Hv) as [E|E]; [|lia].
    rewrite avail_type5 in Hle by exact E. lia.
  - destruct (make_room_for_grow s addlen h Hv Hgt Hsz)
      as (s' & h' & Hr & Hv' & Ht' & Hl' & Ha' & Hpre & _).
    exists s', h'. split; [exact Hr|]. split; [exact Hv'|]. split; [exact Hl'|].
    pose proof (valid_bounds s Hv) as (Hl0 & _).
    assert (Hg : ni_string_len s + addlen <= grown_len (ni_string_len s) addlen < 2 ^ 63).
    { unfold grown_len.
      destruct (Z.ltb_spec (ni_string_len s + addlen) (1024 * 1024)); lia. }
    destruct (grown_type_bound (grown_len (ni_string_len s) addlen)) as (Hty & _);
      [lia|].
    split; [|split].
    + rewrite (avail_eq s' Hv'), Ha', Hl'. lia.
    + intros _. rewrite Ht'. exact Hty.
    + exact Hpre.
Qed.

(** [ni_string_make_room_for] on a valid handle, for a request that
    stays within the sizes of objects.  With enough spare capacity the
    handle and the heap are returned as they are: no allocation.  Otherwise
    the call succeeds, the new capacity is twice [len + addlen] when that is
    below one megabyte and [len + addlen] plus one megabyte otherwise, the
    header type of the result is the smallest that holds the new capacity,
    type 8 standing in for type 5, length and content are kept, and a
    second call with the same or a smaller request returns the result and
    the heap as they are. *)
Theorem make_room_for_growth_policy s addlen h :
  valid s -> 0 <= addlen ->
  ni_string_len s + addlen + NI_STRING_MAX_PREALLOC <= SSIZE_MAX ->
  (addlen <= ni_string_avail s ->
     ni_string_make_room_for s addlen h = Ok s h) /\
  (ni_string_avail s < addlen ->
     exists s' h',
       ni_string_make_room_for s addlen h = Ok s' h' /\
       valid s' /\
       ni_string_alloc s' =
         (if ni_string_len s + addlen <? NI_STRING_MAX_PREALLOC
          then 2 * (ni_string_len s + addlen)
          else ni_string_len s + addlen + NI_STRING_MAX_PREALLOC) /\
       sds_type s' <> NI_STRING_TYPE_5 /\
       (ni_string_alloc s' < 2 ^ 8 -> sds_type s' = NI_STRING_TYPE_8) /\
       (2 ^ 8 <= ni_string_alloc s' < 2 ^ 16 ->
        sds_type s' = NI_STRING_TYPE_16) /\
       (2 ^ 16 <= ni_string_alloc s' < 2 ^ 32 ->
        sds_type s' = NI_STRING_TYPE_32) /\
       (2 ^ 32 <= ni_string_alloc s' -> sds_type s' = NI_STRING_TYPE_64) /\
       ni_string_len s' = ni_string_len s /\ content s' = content s /\
       forall addlen' h'', addlen' <= addlen ->
         ni_string_make_room_for s' addlen' h'' = Ok s' h'').
Proof.
  intros Hv Ha Hsz. split.
  - apply make_room_for_noop.
  - intros Hgt.
    destruct (make_room_for_grow s addlen h Hv Hgt Hsz)
      as (s' & h' & Hr & Hv' & Ht' & Hl' & Ha' & Hpre & _).
    pose proof (valid_bounds s Hv) as (Hl0 & _).
    assert (Hg : ni_string_len s + addlen <= grown_len (ni_string_len s) addlen < 2 ^ 63).
    { unfold grown_len.
      destruct (Z.ltb_spec (ni_string_len s + addlen) (1024 * 1024)); lia. }
    destruct (grown_type_bound (grown_len (ni_string_len s) addlen)) as (Hty & _);
      [lia|].
    exists s', h'. split; [exact Hr|]. split; [exact Hv'|].
    split; [exact Ha'|]. split; [lia|].
    assert (Hex : forall lo hi t,
              (lo <= grown_len (ni_string_len s) addlen < hi ->
               grown_type (grown_len (ni_string_len s) addlen) = t) ->
              lo <= ni_string_alloc s' < hi -> sds_type s' = t).
    { intros lo hi t Ht Hc. rewrite Ht'. apply Ht. rewrite <- Ha'. exact Hc. }
    assert (Hal0 : 0 <= ni_string_alloc s') by (rewrite Ha'; lia).
    assert (Hal1 : ni_string_alloc s' < 2 ^ 63) by (rewrite Ha'; lia).
    split; [intros Hc; apply (Hex 0 (2 ^ 8) 1); [|lia];
            intros Hc'; unfold grown_type;
            destruct (req_type_cases (grown_len (ni_string_len s) addlen))
              as [(E & ?)|[(E & ?)|[(E & ?)|[(E & ?)|(E & ?)]]]];
            rewrite E; cbn; lia|].
    split; [intros Hc; apply (Hex (2 ^ 8) (2 ^ 16) 2); [|lia];
            intros Hc'; unfold grown_type;
            destruct (req_type_cases (grown_len (ni_string_len s) addlen))
              as [(E & ?)|[(E & ?)|[(E & ?)|[(E & ?)|(E & ?)]]]];
            rewrite E; cbn; lia|].
    split; [intros Hc; apply (Hex (2 ^ 16) (2 ^ 32) 3); [|lia];
            intros Hc'; unfold grown_type;
            destruct (req_type_cases (grown_len (ni_string_len s) addlen))
              as [(E & ?)|[(E & ?)|[(E & ?)|[(E & ?)|(E & ?)]]]];
            rewrite E; cbn; lia|].
    split; [intros Hc; apply (Hex (2 ^ 32) (2 ^ 63) 4); [|lia];
            intros Hc'; unfold grown_type;
            destruct (req_type_cases (grown_len (ni_string_len s) addlen))
              as [(E & ?)|[(E & ?)|[(E & ?)|[(E & ?)|(E & ?)]]]];
            rewrite E; cbn; lia|].
    split; [exact Hl'|]. split.
    + unfold content. rewrite Hl'. apply take_succ_eq; [lia|exact Hpre].
    + intros addlen' h'' Hle. apply make_room_for_noop.
      rewrite (avail_eq s' Hv'), Ha', Hl'. lia.
Qed.

Lemma make_room_for_growth_policy_witness :
  valid example_wide /\ 0 <= 20 /\
  ni_string_len example_wide + 20 + NI_STRING_MAX_PREALLOC <= SSIZE_MAX /\
  (20 <= ni_string_avail example_wide ->
     ni_string_make_room_for example_wide 20 heap0 = Ok example_wide heap0) /\
  (ni_string_avail example_wide < 20 ->
     exists s' h',
       ni_string_make_room_for example_wide 20 heap0 = Ok s' h' /\
       valid s' /\
       ni_string_alloc s' =
         (if ni_string_len example_wide + 20 <? NI_STRING_MAX_PREALLOC
          then 2 * (ni_string_len example_wide + 20)
          else ni_string_len example_wide + 20 + NI_STRING_MAX_PREALLOC) /\
       sds_type s' <> NI_STRING_TYPE_5 /\
       (ni_string_alloc s' < 2 ^ 8 -> sds_type s' = NI_STRING_TYPE_8) /\
       (2 ^ 8 <= ni_string_alloc s' < 2 ^ 16 ->
        sds_type s' = NI_STRING_TYPE_16) /\
       (2 ^ 16 <= ni_string_alloc s' < 2 ^ 32 ->
        sds_type s' = NI_STRING_TYPE_32) /\
       (2 ^ 32 <= ni_string_alloc s' -> sds_type s' = NI_STRING_TYPE_64) /\
       ni_string_len s' = ni_string_len example_wide /\
       content s' = content example_wide /\
       forall addlen' h'', addlen' <= 20 ->
         ni_string_make_room_for s' addlen' h'' = Ok s' h'').
Proof.
  assert (Hv : valid example_wide) by (apply validb_valid; reflexivity).
  assert (H0 : 0 <= 20) by lia.
  assert (Hs : ni_string_len example_wide + 20 + NI_STRING_MAX_PREALLOC <= SSIZE_MAX)
    by (vm_compute; discriminate).
  split; [exact Hv|]. split; [exact H0|]. split; [exact Hs|].
  exact (make_room_for_growth_policy example_wide 20 heap0 Hv H0 Hs).
Defined.

(** C2: the request is not checked against the wrap-around of [size_t].
    The string "foo" grown by [ni_string_make_room_for(s, 2)] has the
    capacity 10 the policy gives, 2 * (3 + 2), and the spare capacity 7.
    On it the request [(size_t)-3], more than the spare capacity, makes
    the sum [len + addlen] 0: the call resizes the block to 4 bytes, a
    header and a terminator, and returns the capacity 0, where the policy
    gives [len + addlen] and one megabyte more; the caller cannot write a
    single byte after the end of the string, let alone [addlen]. *)
Theorem make_room_for_overflow_capacity :
  exists s1 h1 s2 h2,
    (let* s := ni_string_new (bytes "foo") in ni_string_make_room_for s 2)
      heap0 = Ok s1 h1 /\
    valid s1 /\ ni_string_len s1 = 3 /\
    ni_string_alloc s1 = 2 * (3 + 2) /\ ni_string_avail s1 = 7 /\
    ni_string_avail s1 < 2 ^ 64 - 3 /\
    ni_string_make_room_for s1 (2 ^ 64 - 3) h1 = Ok s2 h2 /\
    events h2 = events h1 ++ [EvRealloc (blk s1) 4] /\
    zlength (buf s2) = 1 /\
    ni_string_alloc s2 = 0 /\
    ni_string_alloc s2 <>
      ni_string_len s1 + (2 ^ 64 - 3) + NI_STRING_MAX_PREALLOC /\
    ni_string_alloc s2 <> 2 * (ni_string_len s1 + (2 ^ 64 - 3)) /\
    ni_string_alloc s2 < ni_string_len s1 + (2 ^ 64 - 3).
Proof.
  exists (NiString 2 1 3 10 (bytes "foo" ++ [x00] ++ replicate 7 xaa)),
         (Heap 3 [EvMalloc 1 5; EvMalloc 2 14; EvFree 1] (junk heap0)),
         (NiString 2 1 3 0 (bytes "f")),
         (Heap 3 [EvMalloc 1 5; EvMalloc 2 14; EvFree 1; EvRealloc 2 4]
               (junk heap0)).
  split; [vm_compute; reflexivity|].
  split; [apply validb_valid; vm_compute; reflexivity|].
  split; [reflexivity|]. split; [reflexivity|]. split; [reflexivity|].
  split; [reflexivity|].
  split; [vm_compute; reflexivity|].
  split; [reflexivity|]. split; [reflexivity|]. split; [reflexivity|].
  split; [vm_compute; discriminate|].
  split; [vm_compute; discriminate|]. vm_compute. reflexivity.
Qed.

(** *** [ni_string_remove_free_space] *)

Lemma realloc_ok q hdr data size h :
  p_off q = 0 ->
  ni_string_realloc (Some q) hdr data size h =
    Ok (q, take (Z.to_nat (size - hdr)) (data ++ fresh_bytes h (size - hdr)))
       (log (EvRealloc (p_blk q) size) h).
Proof. intros H. unfold ni_string_realloc, ni_realloc. rewrite H. reflexivity. Qed.

Lemma remove_free_space_noop s h :
  ni_string_avail s = 0 -> ni_string_remove_free_space s h = Ok s h.
Proof. intros H. unfold ni_string_remove_free_space. rewrite H. reflexivity. Qed.

Lemma remove_free_space_shrink s h :
  valid s -> ni_string_avail s <> 0 ->
  let len := ni_string_len s in
  let type := if shrink_keeps s then sds_type s else ni_string_req_type len in
  let size := ni_string_hdr_size type + len + 1 in
  exists s' h',
    ni_string_remove_free_space s h = Ok s' h' /\
    valid s' /\
    sds_type s' = type /\
    ni_string_len s' = len /\
    ni_string_alloc s' = len /\
    buf s' = take (Z.to_nat (len + 1)) (buf s) /\
    (if shrink_keeps s
     then blk s' = blk s /\ events h' = events h ++ [EvRealloc (blk s) size]
     else blk s' = next_blk h /\
          events h' = events h ++ [EvMalloc (next_blk h) size; EvFree (blk s)]).
Proof.
  intros Hv Hav len type size. subst type size len.
  assert (Hw : 1 <= sds_type s <= 4).
  { destruct (sds_type_cases s Hv) as [E|E]; [|lia].
    rewrite avail_type5 in Hav by exact E. lia. }
  destruct (valid_wide_inv s Hv Hw) as (Hf & Hl & Hfb & Hd & Hz).
  pose proof (field_bound_le (sds_type s)) as Hfb2.
  unfold ni_string_remove_free_space, shrink_keeps.
  rewrite (len_wide s Hw). set (len := hdr_len s) in *.
  assert (Hlb : 0 <= len < 2 ^ 63) by lia.
  destruct (Z.eqb_spec (ni_string_avail s) 0) as [?|_]; [lia|].
  rewrite (to_size_small (len + 1)) by lia.
  destruct ((sds_type s =? ni_string_req_type len)
            || (ni_string_req_type len >? 1)) eqn:Hk.
  - (* realloc *)
    pose proof (hdr_size_wide (sds_type s) Hw) as Hh.
    rewrite (to_size_small (_ + len + 1)) by lia.
    unfold ni_string_alloc_ptr. rewrite Z.sub_diag.
    unfold bind at 1. unfold bind at 1. rewrite realloc_ok by reflexivity.
    cbn [p_blk]. unfold ret at 1.
    replace (ni_string_hdr_size (sds_type s) + len + 1 - ni_string_hdr_size (sds_type s))
      with (len + 1) by lia.
    rewrite take_app_le by (unfold zlength in Hd; lia).
    set (s1 := NiString _ _ _ _ _).
    assert (Ht1 : sds_type s1 = sds_type s) by reflexivity.
    rewrite (set_alloc_wide s1) by (rewrite Ht1; lia).
    unfold with_alloc, s1; cbn [blk flags hdr_len hdr_alloc buf].
    set (s' := NiString _ _ _ _ _).
    assert (Ht' : sds_type s' = sds_type s) by reflexivity.
    eexists _, _. split; [reflexivity|].
    rewrite (len_wide s'), (alloc_wide s') by lia. cbn [hdr_len hdr_alloc s'].
    split; [|repeat split; try lia].
    apply valid_wide; fold (sds_type s); try lia.
    + rewrite zlength_take; unfold zlength in *; lia.
    + rewrite lookup_take. destruct (decide _); [|lia]. exact Hz.
  - (* a new block with the smaller header *)
    apply orb_false_elim in Hk. destruct Hk as (Hne & Hle).
    apply Z.eqb_neq in Hne. 
    destruct (Z.gtb_spec (ni_string_req_type len) 1) as [?|Hle']; [discriminate|].
    clear Hle.
    unfold ni_string_malloc, ni_malloc, ni_string_ptr_free, ni_free,
      ni_string_alloc_ptr, bind, ret, mem; cbn [p_blk p_off fst snd].
    rewrite Z.sub_diag; cbn [Z.eqb].
    destruct (req_type_cases len) as [(E & Hr)|[(E & Hr)|[(E & Hr)|[(E & Hr)|(E & Hr)]]]];
      rewrite E in *; try lia.
    + (* type 5 *)
      change (ni_string_hdr_size 0) with 1.
      rewrite (to_size_small (1 + len + 1)) by lia.
      set (d0 := drop _ (fresh_bytes h _)).
      assert (Hd0 : zlength d0 = len + 1).
      { subst d0. rewrite zlength_drop; rewrite zlength_fresh; lia. }
      rewrite memcpy_ok0 by (unfold zlength in *; lia).
      unfold ret.
      rewrite drop_ge by (unfold zlength in Hd0; lia). rewrite app_nil_r.
      set (s1 := NiString _ _ _ _ _).
      rewrite (set_len_type5 s1) by (reflexivity || lia).
      rewrite set_alloc_type5
        by (rewrite sds_type_mod; cbn [flags with_flags]; apply type5_flags; lia).
      unfold with_flags, s1; cbn [blk flags hdr_len hdr_alloc buf].
      set (s' := NiString _ _ _ _ _).
      destruct (type5_flags len) as (Hm8 & Hd8); [lia|].
      assert (Ht' : sds_type s' = 0) by (rewrite sds_type_mod; exact Hm8).
      eexists _, _. split; [reflexivity|].
      rewrite (len_type5 s'), (alloc_type5 s') by exact Ht'. cbn [flags s'].
      split; [|repeat split; try lia].
      * apply valid_type5; rewrite ?Hd8; try lia.
        -- rewrite zlength_take; unfold zlength in *; lia.
        -- rewrite lookup_take. destruct (decide _); [|lia]. exact Hz.
      * cbn. rewrite <- app_assoc. reflexivity.
    + (* type 8 *)
      change (ni_string_hdr_size 1) with 3.
      rewrite (to_size_small (3 + len + 1)) by lia.
      set (d0 := drop _ (fresh_bytes h _)).
      assert (Hd0 : zlength d0 = len + 1).
      { subst d0. rewrite zlength_drop; rewrite zlength_fresh; lia. }
      rewrite memcpy_ok0 by (unfold zlength in *; lia).
      unfold ret.
      rewrite drop_ge by (unfold zlength in Hd0; lia). rewrite app_nil_r.
      set (s1 := NiString _ _ _ _ _).
      assert (Ht1 : sds_type s1 = 1) by reflexivity.
      rewrite (set_len_wide s1) by (rewrite Ht1; cbn; lia).
      rewrite set_alloc_wide by (change (sds_type (with_len s1 _)) with 1; cbn; lia).
      unfold with_alloc, with_len, s1; cbn [blk flags hdr_len hdr_alloc buf].
      set (s' := NiString _ _ _ _ _).
      assert (Ht' : sds_type s' = 1) by reflexivity.
      eexists _, _. split; [reflexivity|].
      rewrite (len_wide s'), (alloc_wide s') by lia. cbn [hdr_len hdr_alloc s'].
      split; [|repeat split; try lia].
      * apply valid_wide; change (Z.land 1 7) with 1; cbn [field_bound]; try lia.
        -- rewrite zlength_take; unfold zlength in *; lia.
        -- rewrite lookup_take. destruct (decide _); [|lia]. exact Hz.
      * cbn. rewrite <- app_assoc. reflexivity.
Qed.

(** C7, as stated, fails on a handle with a type-32 header and 280 bytes:
    the header stays of type 32, while type 16 is the smallest that holds
    280. *)
Lemma shrink_keeps_type32 :
  valid example_type32 /\ ni_string_avail example_type32 <> 0 /\
  ~ shrink_gives_minimal_type example_type32 heap0.
Proof.
  split; [apply validb_valid; reflexivity|]. split; [vm_compute; discriminate|].
  intros (s' & h' & Hr & _ & Hl & _ & Ht).
  assert (Hc : ni_string_remove_free_space example_type32 heap0 =
               Ok (NiString 2 3 280 280 (replicate 281 x00))
                  (Heap 1 [EvRealloc 2 290] (junk heap0)))
    by (vm_compute; reflexivity).
  rewrite Hc in Hr. injection Hr as <- <-.
  vm_compute in Ht. discriminate Ht.
Qed.

(** C7 (amended): on a valid handle with spare capacity
    [ni_string_remove_free_space] succeeds, keeps content and length and
    makes the capacity equal to the length.  The header type of the result
    is the smallest one for the length when that is the type of the handle
    or is type 5 or 8; when the smallest type is 16, 32 or 64 and differs
    from the type of the handle, the handle keeps its header type.  The
    string moves to a new block (one malloc, one free of the old block)
    exactly when the header type changes, and is resized by one realloc
    otherwise. *)
Theorem remove_free_space_policy s h :
  valid s -> ni_string_avail s <> 0 ->
  exists s' h',
    ni_string_remove_free_space s h = Ok s' h' /\ valid s' /\
    content s' = content s /\ ni_string_len s' = ni_string_len s /\
    ni_string_alloc s' = ni_string_len s' /\
    sds_type s' =
      (if (sds_type s =? ni_string_req_type (ni_string_len s))
          || (ni_string_req_type (ni_string_len s) >? NI_STRING_TYPE_8)
       then sds_type s else ni_string_req_type (ni_string_len s)) /\
    ((sds_type s' = sds_type s /\ blk s' = blk s /\
      events h' = events h ++
        [EvRealloc (blk s) (ni_string_hdr_size (sds_type s) + ni_string_len s + 1)])
     \/
     (sds_type s' <> sds_type s /\ blk s' = next_blk h /\
      events h' = events h ++
        [EvMalloc (next_blk h) (ni_string_hdr_size (sds_type s') + ni_string_len s + 1);
         EvFree (blk s)])).
Proof.
  intros Hv Hav.
  destruct (remove_free_space_shrink s h Hv Hav)
    as (s' & h' & Hr & Hv' & Ht & Hl & Ha & Hb & He).
  pose proof (valid_bounds s Hv) as (Hl0 & _).
  exists s', h'. split; [exact Hr|]. split; [exact Hv'|]. split.
  { unfold content. rewrite Hl, Hb, take_take. f_equal. lia. }
  split; [exact Hl|]. split; [lia|]. split; [exact Ht|].
  unfold shrink_keeps in *.
  destruct ((sds_type s =? ni_string_req_type (ni_string_len s))
            || (ni_string_req_type (ni_string_len s) >? 1)) eqn:Hk.
  - left. rewrite Ht. destruct He as (? & ?). repeat split; assumption.
  - right. apply orb_false_elim in Hk. destruct Hk as (Hne & _).
    apply Z.eqb_neq in Hne. rewrite Ht. destruct He as (? & ?).
    repeat split; try assumption. congruence.
Qed.

Lemma remove_free_space_policy_witness :
  valid example_wide /\ ni_string_avail example_wide <> 0 /\
  exists s' h',
    ni_string_remove_free_space example_wide heap0 = Ok s' h' /\ valid s' /\
    content s' = content example_wide /\
    ni_string_len s' = ni_string_len example_wide /\
    ni_string_alloc s' = ni_string_len s' /\
    sds_type s' =
      (if (sds_type example_wide =? ni_string_req_type (ni_string_len example_wide))
          || (ni_string_req_type (ni_string_len example_wide) >? NI_STRING_TYPE_8)
       then sds_type example_wide
       else ni_string_req_type (ni_string_len example_wide)) /\
    ((sds_type s' = sds_type example_wide /\ blk s' = blk example_wide /\
      events h' = events heap0 ++
        [EvRealloc (blk example_wide)
           (ni_string_hdr_size (sds_type example_wide)
            + ni_string_len example_wide + 1)])
     \/
     (sds_type s' <> sds_type example_wide /\ blk s' = next_blk heap0 /\
      events h' = events heap0 ++
        [EvMalloc (next_blk heap0)
           (ni_string_hdr_size (sds_type s') + ni_string_len example_wide + 1);
         EvFree (blk example_wide)])).
Proof.
  assert (Hv : valid example_wide) by (apply validb_valid; reflexivity).
  assert (Ha : ni_string_avail example_wide <> 0) by (vm_compute; discriminate).
  split; [exact Hv|]. split; [exact Ha|].
  exact (remove_free_space_policy example_wide heap0 Hv Ha).
Defined.

(** *** Lengths set in place *)

Lemma set_len_with_buf s n b :
  with_buf (ni_string_set_len s n) b = ni_string_set_len (with_buf s b) n.
Proof.
  unfold ni_string_set_len.
  change (sds_type (with_buf s b)) with (sds_type s).
  destruct (sds_type s) as [|[[|[]|]|[|[]|]|]|]; reflexivity.
Qed.

(** Setting the length of a valid handle to [n], within its capacity, and
    its data to a region with a zero at offset [n]. *)
Lemma set_len_valid s n b :
  valid s -> 0 <= n <= ni_string_alloc s ->
  ni_string_alloc s < zlength b -> b !! Z.to_nat n = Some x00 ->
  let s' := ni_string_set_len (with_buf s b) n in
  valid s' /\ ni_string_len s' = n /\ buf s' = b /\
  sds_type s' = sds_type s /\ blk s' = blk s /\
  ni_string_alloc s' = (if sds_type s =? 0 then n else ni_string_alloc s).
Proof.
  intros Hv Hn Hb Hz.
  pose proof (valid_bounds s Hv) as (Hl0 & Hla & Hab).
  destruct (sds_type_cases s Hv) as [E|E].
  - destruct (valid_type5_inv s Hv E) as (Hf & Hm & Hd & _ & _).
    rewrite alloc_type5 in * by exact E.
    cbv zeta. rewrite set_len_type5 by (exact E || lia).
    unfold with_flags, with_buf; cbn [blk flags hdr_len hdr_alloc buf].
    set (s' := NiString _ _ _ _ _).
    destruct (type5_flags n) as (Hm8 & Hd8); [lia|].
    assert (Ht' : sds_type s' = 0) by (rewrite sds_type_mod; exact Hm8).
    rewrite (len_type5 s'), (alloc_type5 s'), Ht', E by exact Ht'.
    cbn [flags s']. rewrite Hd8.
    split; [|repeat split; reflexivity].
    apply valid_type5; rewrite ?Hd8; try lia. exact Hz.
  - assert (Hw : 1 <= sds_type s <= 4) by lia.
    destruct (valid_wide_inv s Hv Hw) as (Hf & Hl & Hfb & Hd & _).
    rewrite alloc_wide in * by exact Hw.
    cbv zeta. rewrite set_len_wide
      by (change (sds_type (with_buf s b)) with (sds_type s); lia).
    unfold with_len, with_buf; cbn [blk flags hdr_len hdr_alloc buf].
    set (s' := NiString _ _ _ _ _).
    assert (Ht' : sds_type s' = sds_type s) by reflexivity.
    rewrite (len_wide s'), (alloc_wide s'), Ht' by lia.
    destruct (Z.eqb_spec (sds_type s) 0); [lia|].
    split; [|repeat split; reflexivity].
    apply valid_wide; fold (sds_type s); try lia. exact Hz.
Qed.

(** *** [ni_string_range] *)

Arguments to_ssize : simpl never.
Arguments to_int : simpl never.

Lemma to_ssize_small z : - 2 ^ 63 <= z < 2 ^ 63 -> to_ssize z = z.
Proof. intros H. unfold to_ssize. rewrite Z.mod_small by lia. lia. Qed.

Lemma memmove_ok s from n :
  0 <= from -> 0 <= n -> from + n <= zlength s ->
  memmove s from n =
    Some (take (Z.to_nat n) (drop (Z.to_nat from) s) ++ drop (Z.to_nat n) s).
Proof. intros. unfold memmove. rewrite bool_decide_eq_true_2; [reflexivity|lia]. Qed.

Lemma content_length s : valid s -> zlength (content s) = ni_string_len s.
Proof.
  intros Hv. pose proof (valid_bounds s Hv) as (? & ? & ?).
  pose proof (valid_buf_length s Hv). unfold content.
  apply zlength_take. lia.
Qed.

(** The indices and the length [ni_string_range] arrives at. *)
Lemma ni_string_range_ok s start end_ h :
  valid s -> - 2 ^ 63 <= start < 2 ^ 63 -> - 2 ^ 63 <= end_ < 2 ^ 63 ->
  exists s',
    ni_string_range s start end_ h = Ok s' h /\ valid s' /\
    content s' = sub_range (content s) start end_ /\
    blk s' = blk s /\ sds_type s' = sds_type s.
Proof.
  intros Hv Hs He.
  pose proof (valid_bounds s Hv) as (Hl0 & Hla & Hab).
  pose proof (valid_buf_length s Hv) as Hb.
  pose proof (content_length s Hv) as Hcl.
  unfold ni_string_range, sub_range. rewrite Hcl.
  set (len := ni_string_len s) in *.
  destruct (Z.eqb_spec len 0) as [E0|N0].
  { exists s. split; [reflexivity|]. split; [exact Hv|].
    split; [|split; reflexivity].
    assert (Hc : content s = []).
    { apply length_zero_iff_nil. unfold zlength in Hcl. lia. }
    rewrite Hc. destruct (_ >? _); [reflexivity|]. rewrite drop_nil, take_nil. reflexivity. }
  rewrite (to_ssize_small len), (to_ssize_small (len - 1)) by lia.
  set (st := if start <? 0 then Z.max 0 (len + start) else start).
  set (en0 := if end_ <? 0 then Z.max 0 (len + end_) else end_).
  assert (Hst : (if start <? 0
                 then (if to_ssize (len + start) <? 0 then 0
                       else to_ssize (len + start))
                 else start) = st).
  { subst st. destruct (Z.ltb_spec start 0); [|reflexivity].
    rewrite to_ssize_small by lia.
    destruct (Z.ltb_spec (len + start) 0); lia. }
  assert (Hen : (if end_ <? 0
                 then (if to_ssize (len + end_) <? 0 then 0
                       else to_ssize (len + end_))
                 else end_) = en0).
  { subst en0. destruct (Z.ltb_spec end_ 0); [|reflexivity].
    rewrite to_ssize_small by lia.
    destruct (Z.ltb_spec (len + end_) 0); lia. }
  rewrite Hst, Hen.
  assert (Hst0 : 0 <= st < 2 ^ 63) by (subst st; destruct (Z.ltb_spec start 0); lia).
  assert (Hen0 : 0 <= en0 < 2 ^ 63) by (subst en0; destruct (Z.ltb_spec end_ 0); lia).
  set (en := if end_ <? 0 then Z.max 0 (len + end_) else Z.min end_ (len - 1)).
  assert (Henn : en = Z.min en0 (len - 1)).
  { subst en en0. destruct (Z.ltb_spec end_ 0); lia. }
  (* the three values after the case analysis of the code *)
  set (newlen := if st >? en then 0 else en - st + 1).
  assert (Hnl : 0 <= newlen /\ (newlen <> 0 -> st + newlen <= len)).
  { subst newlen. destruct (Z.gtb_spec st en); lia. }
  set (t := if negb _ then _ else (0, _, _)).
  assert (Ht : exists e, t = ((if newlen =? 0 then (if st >? en0 then 0 else st) else st),
                              e, newlen)).
  { subst newlen t.
    destruct (Z.gtb_spec st en0) as [G|G].
    - cbn [Z.eqb negb]. eexists. f_equal. f_equal.
      + destruct (Z.gtb_spec st en); [reflexivity|lia].
      + destruct (Z.gtb_spec st en); [reflexivity|lia].
    - rewrite to_size_small by lia.
      destruct (Z.eqb_spec (en0 - st + 1) 0); [lia|]. cbn [negb].
      destruct (Z.geb_spec st len).
      + eexists. destruct (Z.gtb_spec st en); [reflexivity|lia].
      + destruct (Z.geb_spec en0 len).
        * destruct (Z.gtb_spec st (len - 1)); [lia|].
          rewrite to_size_small by lia. eexists.
          destruct (Z.gtb_spec st en); [lia|].
          destruct (Z.eqb_spec (en - st + 1) 0); [lia|].
          f_equal. f_equal. lia.
        * eexists. destruct (Z.gtb_spec st en); [lia|].
          destruct (Z.eqb_spec (en - st + 1) 0); [lia|].
          f_equal. f_equal. lia. }
  destruct Ht as (e & Ht). rewrite Ht. clear t Ht. cbv beta iota.
  set (st' := if newlen =? 0 then _ else st).
  assert (Hmv : exists b,
             (if negb (st' =? 0) && negb (newlen =? 0)
              then mem (memmove (buf s) st' newlen) else ret (buf s)) h = Ok b h /\
             zlength b = zlength (buf s) /\
             take (Z.to_nat newlen) b =
               (if st >? en then []
                else take (Z.to_nat (en - st + 1)) (drop (Z.to_nat st) (content s)))).
  { subst st' newlen. unfold content. fold len.
    destruct (Z.gtb_spec st en) as [G|G].
    - cbn [Z.eqb negb andb]. rewrite andb_false_r.
      exists (buf s). repeat split; reflexivity.
    - destruct (Z.eqb_spec (en - st + 1) 0); [lia|]. cbn [negb]. rewrite andb_true_r.
      destruct (Z.eqb_spec st 0) as [Z0|NZ]; cbn [negb].
      + exists (buf s). split; [reflexivity|]. split; [reflexivity|].
        rewrite Z0. change (Z.to_nat 0) with 0%nat. rewrite drop_0, take_take.
        f_equal. lia.
      + rewrite memmove_ok by lia. eexists. split; [reflexivity|]. split.
        * rewrite zlength_app, zlength_take, zlength_drop; try lia.
          rewrite zlength_drop by lia. lia.
        * rewrite take_app_le by (rewrite length_take, length_drop; unfold zlength in Hb; lia).
          rewrite take_take, Nat.min_id.
          rewrite !take_drop_commute, take_take. do 2 f_equal. lia. }
  destruct Hmv as (b & Hmv & Hbl & Hbc).
  unfold bind at 1. rewrite Hmv.
  unfold bind, mem. rewrite mem_store_ok by lia. unfold ret.
  destruct (set_len_valid s newlen (<[Z.to_nat newlen := x00]> b)) as (Hv' & Hl' & Hb' & Ht' & Hk' & _).
  - exact Hv.
  - subst newlen. destruct (Z.gtb_spec st en); lia.
  - rewrite zlength_insert. lia.
  - apply list_lookup_insert_eq. unfold zlength in *. subst newlen.
    destruct (Z.gtb_spec st en); lia.
  - eexists. split; [reflexivity|]. split; [exact Hv'|].
    split; [|split; assumption].
    unfold content. rewrite Hl', Hb', take_insert.
    destruct (decide _); [lia|]. exact Hbc.
Qed.

Lemma ni_string_new_ciao :
  ni_string_new (bytes "ciao") heap0 =
    Ok example_ciao (Heap 2 [EvMalloc 1 6] (junk heap0)).
Proof. vm_compute. reflexivity. Qed.

(** C6, as stated, fails on "ciao": with [start = 0] and [end = -10] the
    end, clamped to -1, would leave an empty range, and the code keeps "c";
    with [start = end = 100] the start, clamped into [0, len), would leave
    "o", and the code keeps nothing. *)
Lemma range_does_not_clamp :
  valid example_ciao /\
  ni_string_new (bytes "ciao") heap0 =
    Ok example_ciao (Heap 2 [EvMalloc 1 6] (junk heap0)) /\
  ~ range_clamps example_ciao 0 (-10) heap0 /\
  ~ range_clamps example_ciao 100 100 heap0.
Proof.
  split; [apply validb_valid; reflexivity|]. split; [exact ni_string_new_ciao|].
  split; intros (s' & Hr & Hc).
  - assert (He : ni_string_range example_ciao 0 (-10) heap0 =
                 Ok (NiString 1 8 0 0 (bytes "c" ++ [x00] ++ bytes "ao" ++ [x00])) heap0)
      by (vm_compute; reflexivity).
    rewrite He in Hr. injection Hr as <-. vm_compute in Hc. discriminate Hc.
  - assert (He : ni_string_range example_ciao 100 100 heap0 =
                 Ok (NiString 1 0 0 0 ([x00] ++ bytes "iao" ++ [x00])) heap0)
      by (vm_compute; reflexivity).
    rewrite He in Hr. injection Hr as <-. vm_compute in Hc. discriminate Hc.
Qed.

(** C6 (amended): [ni_string_range] on a valid handle, the bounds being
    inclusive and those of a [ssize_t], succeeds in place, without a call
    to the allocator, and leaves the bytes of [sub_range]: a negative index
    counts from the end, an index that is still negative after that becomes
    0 (the end too: not -1), an end at or after the length becomes the last
    offset, a start after the end (a start at or after the length is one)
    leaves length 0, and the bytes kept start at offset 0.  On "ciao" the
    bounds (1, 1) leave "i" of length 1, (-2, -1) leave "ao" of length 2
    and (2, 1) leave the empty string. *)
Theorem ni_string_range_inclusive s start end_ h :
  valid s -> - 2 ^ 63 <= start < 2 ^ 63 -> - 2 ^ 63 <= end_ < 2 ^ 63 ->
  (exists s',
     ni_string_range s start end_ h = Ok s' h /\ valid s' /\
     content s' = sub_range (content s) start end_ /\
     ni_string_len s' = zlength (sub_range (content s) start end_) /\
     blk s' = blk s /\ sds_type s' = sds_type s) /\
  (exists y, ni_string_range example_ciao 1 1 h = Ok y h /\
             content y = bytes "i" /\ ni_string_len y = 1) /\
  (exists y, ni_string_range example_ciao (-2) (-1) h = Ok y h /\
             content y = bytes "ao" /\ ni_string_len y = 2) /\
  (exists y, ni_string_range example_ciao 2 1 h = Ok y h /\
             content y = [] /\ ni_string_len y = 0).
Proof.
  intros Hv Hs He.
  assert (Hg : forall s a b, valid s -> - 2 ^ 63 <= a < 2 ^ 63 ->
             - 2 ^ 63 <= b < 2 ^ 63 ->
             exists s', ni_string_range s a b h = Ok s' h /\ valid s' /\
               content s' = sub_range (content s) a b /\
               ni_string_len s' = zlength (sub_range (content s) a b) /\
               blk s' = blk s /\ sds_type s' = sds_type s).
  { intros s0 a b Hv0 Ha Hb.
    destruct (ni_string_range_ok s0 a b h Hv0 Ha Hb) as (s' & Hr & Hv' & Hc & Hk & Ht).
    exists s'. repeat (split; [assumption|]).
    split; [|split; assumption]. rewrite <- Hc. symmetry. apply content_length, Hv'. }
  assert (Hvc : valid example_ciao) by (apply validb_valid; reflexivity).
  split; [apply Hg; assumption|].
  split; [|split].
  - destruct (Hg example_ciao 1 1 Hvc) as (y & Hr & _ & Hc & Hl & _); [lia|lia|].
    exists y. split; [exact Hr|]. rewrite Hl, Hc. split; reflexivity.
  - destruct (Hg example_ciao (-2) (-1) Hvc) as (y & Hr & _ & Hc & Hl & _); [lia|lia|].
    exists y. split; [exact Hr|]. rewrite Hl, Hc. split; reflexivity.
  - destruct (Hg example_ciao 2 1 Hvc) as (y & Hr & _ & Hc & Hl & _); [lia|lia|].
    exists y. split; [exact Hr|]. rewrite Hl, Hc. split; reflexivity.
Qed.

Lemma ni_string_range_inclusive_witness :
  valid example_wide /\ - 2 ^ 63 <= 1 < 2 ^ 63 /\ - 2 ^ 63 <= -1 < 2 ^ 63 /\
  exists s',
    ni_string_range example_wide 1 (-1) heap0 = Ok s' heap0 /\ valid s' /\
    content s' = sub_range (content example_wide) 1 (-1) /\
    ni_string_len s' = zlength (sub_range (content example_wide) 1 (-1)) /\
    blk s' = blk example_wide /\ sds_type s' = sds_type example_wide.
Proof.
  assert (Hv : valid example_wide) by (apply validb_valid; reflexivity).
  assert (H1 : - 2 ^ 63 <= 1 < 2 ^ 63) by lia.
  assert (H2 : - 2 ^ 63 <= -1 < 2 ^ 63) by lia.
  split; [exact Hv|]. split; [exact H1|]. split; [exact H2|].
  exact (proj1 (ni_string_range_inclusive example_wide 1 (-1) heap0 Hv H1 H2)).
Defined.

(** *** Appending and overwriting *)

Lemma set_len_buf s n : buf (ni_string_set_len s n) = buf s.
Proof.
  unfold ni_string_set_len.
  destruct (sds_type s) as [|[[|[]|]|[|[]|]|]|]; reflexivity.
Qed.

Lemma with_buf_with_buf s b b' : with_buf (with_buf s b) b' = with_buf s b'.
Proof. reflexivity. Qed.

Lemma cat_len_ok s t len h :
  valid s -> 0 <= len <= zlength t -> fits (ni_string_len s + len) ->
  exists s' h',
    ni_string_cat_len s t len h = Ok s' h' /\ valid s' /\
    content s' = content s ++ take (Z.to_nat len) t /\
    ni_string_len s' = ni_string_len s + len /\
    (0 < len -> 1 <= sds_type s' <= 4).
Proof.
  intros Hv Hlen Hfit. unfold fits in Hfit.
  pose proof (valid_bounds s Hv) as (Hl0 & Hla & Hab).
  destruct (make_room_for_ok s len h Hv) as (s1 & h1 & Hr & Hv1 & Hl1 & Ha1 & Ht1 & Hpre);
    [lia|lia|].
  pose proof (valid_bounds s1 Hv1) as (_ & Hla1 & Hab1).
  pose proof (valid_buf_length s1 Hv1) as Hb1.
  rewrite (avail_eq s1 Hv1), Hl1 in Ha1.
  set (curlen := ni_string_len s) in *.
  unfold ni_string_cat_len. fold curlen.
  unfold bind at 1. rewrite Hr.
  rewrite (to_size_small (curlen + len)) by lia.
  unfold bind at 1. unfold mem at 1. rewrite memcpy_ok by lia.
  unfold ret at 1. unfold bind, mem.
  rewrite set_len_buf. cbn [buf with_buf].
  set (b := take _ (buf s1) ++ _).
  assert (Hbl : zlength b = zlength (buf s1)).
  { subst b. rewrite !zlength_app, !zlength_take, zlength_drop by lia. lia. }
  rewrite mem_store_ok by lia. unfold ret.
  rewrite set_len_with_buf, with_buf_with_buf.
  set (b' := <[_ := _]> b).
  destruct (set_len_valid s1 (curlen + len) b') as (Hv' & Hl' & Hb' & Ht' & _).
  - exact Hv1.
  - lia.
  - subst b'. rewrite zlength_insert. lia.
  - subst b'. apply list_lookup_insert_eq. unfold zlength in *. lia.
  - eexists _, _. split; [reflexivity|]. split; [exact Hv'|].
    split; [|split; [exact Hl'|]].
    + unfold content. rewrite Hl', Hb'. subst b'.
      rewrite take_insert. destruct (decide _); [lia|].
      subst b. fold curlen.
      replace (Z.to_nat (curlen + len)) with (Z.to_nat curlen + Z.to_nat len)%nat by lia.
      rewrite take_app_add'
        by (rewrite length_take; unfold zlength in *; lia).
      rewrite take_app_le by (rewrite length_take; unfold zlength in *; lia).
      rewrite take_take, Nat.min_id. f_equal.
      apply (take_succ_eq _ _ curlen); [lia|exact Hpre].
    + intros Hp. rewrite Ht'. apply Ht1. exact Hp.
Qed.

Lemma c_str_length l : (length (c_str l) <= length l)%nat.
Proof.
  induction l as [|c l IH]; cbn; [lia|].
  destruct (decide (c = x00)); cbn; lia.
Qed.

Lemma c_str_take l : take (length (c_str l)) l = c_str l.
Proof.
  induction l as [|c l IH]; cbn; [reflexivity|].
  destruct (decide (c = x00)); cbn; [reflexivity|]. rewrite IH. reflexivity.
Qed.

Lemma strlen_bounds l : 0 <= strlen l <= zlength l.
Proof. unfold strlen, zlength. pose proof (c_str_length l). lia. Qed.

Lemma take_strlen l : take (Z.to_nat (strlen l)) l = c_str l.
Proof. unfold strlen, zlength. rewrite Nat2Z.id. apply c_str_take. Qed.

Lemma cat_ok s t h :
  valid s -> fits (ni_string_len s + strlen t) ->
  exists s' h',
    ni_string_cat s t h = Ok s' h' /\ valid s' /\
    content s' = content s ++ c_str t /\
    ni_string_len s' = ni_string_len s + strlen t.
Proof.
  intros Hv Hf. unfold ni_string_cat.
  destruct (cat_len_ok s t (strlen t) h Hv (strlen_bounds t) Hf)
    as (s' & h' & Hr & Hv' & Hc & Hl & _).
  exists s', h'. rewrite take_strlen in Hc. repeat (split; [assumption|]). exact Hl.
Qed.

Lemma memset_ok dst off v n :
  0 <= off -> 0 <= n -> off + n <= zlength dst ->
  memset dst off v n =
    Some (take (Z.to_nat off) dst ++ replicate (Z.to_nat n) v
          ++ drop (Z.to_nat (off + n)) dst).
Proof. intros. unfold memset. rewrite bool_decide_eq_true_2; [reflexivity|lia]. Qed.

Lemma zlength_replicate {A} n (x : A) : 0 <= n -> zlength (replicate (Z.to_nat n) x) = n.
Proof. intros. unfold zlength. rewrite length_replicate. lia. Qed.

Lemma cpy_len_ok s t len h :
  valid s -> 0 <= len <= zlength t -> fits len ->
  exists s' h',
    ni_string_cpy_len s t len h = Ok s' h' /\ valid s' /\
    content s' = take (Z.to_nat len) t /\ ni_string_len s' = len.
Proof.
  intros Hv Hlen Hfit. unfold fits in Hfit.
  pose proof (valid_bounds s Hv) as (Hl0 & Hla & Hab).
  assert (Hg : exists s1 h1,
             (if ni_string_alloc s <? len
              then ni_string_make_room_for s (to_size (len - ni_string_len s))
              else ret s) h = Ok s1 h1 /\ valid s1 /\ len <= ni_string_alloc s1).
  { destruct (Z.ltb_spec (ni_string_alloc s) len).
    - rewrite to_size_small by lia.
      destruct (make_room_for_ok s (len - ni_string_len s) h Hv)
        as (s1 & h1 & Hr & Hv1 & Hl1 & Ha1 & _); [lia|lia|].
      exists s1, h1. split; [exact Hr|]. split; [exact Hv1|].
      rewrite (avail_eq s1 Hv1), Hl1 in Ha1. lia.
    - exists s, h. split; [reflexivity|]. split; [exact Hv|]. lia. }
  destruct Hg as (s1 & h1 & Hr & Hv1 & Ha1).
  pose proof (valid_buf_length s1 Hv1) as Hb1.
  unfold ni_string_cpy_len. unfold bind at 1. rewrite Hr.
  unfold bind, mem. rewrite memcpy_ok0 by lia. unfold ret.
  set (b := take _ t ++ _).
  assert (Hbl : zlength b = zlength (buf s1)).
  { subst b. rewrite zlength_app, zlength_take, zlength_drop by lia. lia. }
  rewrite mem_store_ok by lia.
  set (b' := <[_ := _]> b).
  destruct (set_len_valid s1 len b') as (Hv' & Hl' & Hb' & _).
  - exact Hv1.
  - lia.
  - subst b'. rewrite zlength_insert. lia.
  - subst b'. apply list_lookup_insert_eq. unfold zlength in *. lia.
  - eexists _, _. split; [reflexivity|]. split; [exact Hv'|].
    split; [|exact Hl'].
    unfold content. rewrite Hl', Hb'. subst b'.
    rewrite take_insert. destruct (decide _); [lia|].
    subst b. rewrite take_app_le by (rewrite length_take; unfold zlength in *; lia).
    rewrite take_take, Nat.min_id. reflexivity.
Qed.

Lemma cpy_ok s t h :
  valid s -> fits (strlen t) ->
  exists s' h',
    ni_string_cpy s t h = Ok s' h' /\ valid s' /\
    content s' = c_str t /\ ni_string_len s' = strlen t.
Proof.
  intros Hv Hf. unfold ni_string_cpy.
  destruct (cpy_len_ok s t (strlen t) h Hv (strlen_bounds t) Hf)
    as (s' & h' & Hr & Hv' & Hc & Hl).
  exists s', h'. rewrite take_strlen in Hc. repeat (split; [assumption|]). exact Hl.
Qed.

Lemma grow_zero_ok s len h :
  valid s -> fits len ->
  exists s' h',
    ni_string_grow_zero s len h = Ok s' h' /\ valid s' /\
    content s' = content s ++ replicate (Z.to_nat (len - ni_string_len s)) x00 /\
    ni_string_len s' = Z.max len (ni_string_len s).
Proof.
  intros Hv Hfit. unfold fits in Hfit.
  pose proof (valid_bounds s Hv) as (Hl0 & Hla & Hab).
  unfold ni_string_grow_zero.
  set (curlen := ni_string_len s) in *.
  destruct (Z.leb_spec len curlen).
  - exists s, h. split; [reflexivity|]. split; [exact Hv|].
    replace (Z.to_nat (len - curlen)) with 0%nat by lia.
    cbn [replicate]. rewrite app_nil_r. split; [reflexivity|]. fold curlen. lia.
  - rewrite (to_size_small (len - curlen)), (to_size_small (len - curlen + 1)) by lia.
    destruct (make_room_for_ok s (len - curlen) h Hv)
      as (s1 & h1 & Hr & Hv1 & Hl1 & Ha1 & _ & Hpre); [lia|fold curlen; lia|].
    fold curlen in Hl1, Hpre.
    pose proof (valid_buf_length s1 Hv1) as Hb1.
    rewrite (avail_eq s1 Hv1), Hl1 in Ha1.
    unfold bind at 1. rewrite Hr.
    unfold bind, mem. rewrite memset_ok by lia. unfold ret.
    set (b := take _ (buf s1) ++ _).
    assert (Hbl : zlength b = zlength (buf s1)).
    { subst b. rewrite !zlength_app, zlength_take, zlength_replicate, zlength_drop by lia.
      lia. }
    destruct (set_len_valid s1 len b) as (Hv' & Hl' & Hb' & _).
    + exact Hv1.
    + lia.
    + lia.
    + subst b. rewrite lookup_app_r by (rewrite length_take; unfold zlength in *; lia).
      rewrite length_take.
      rewrite lookup_app_l by (rewrite length_replicate; unfold zlength in *; lia).
      apply lookup_replicate_2. unfold zlength in *. lia.
    + eexists _, _. split; [reflexivity|]. split; [exact Hv'|].
      split; [|rewrite Hl'; lia].
      unfold content. rewrite Hl', Hb'. subst b. fold curlen.
      replace (Z.to_nat len) with (Z.to_nat curlen + Z.to_nat (len - curlen))%nat by lia.
      rewrite take_app_add' by (rewrite length_take; unfold zlength in *; lia).
      rewrite take_app_le by (rewrite length_replicate; lia).
      rewrite take_replicate. f_equal.
      * apply (take_succ_eq _ _ curlen); [lia|exact Hpre].
      * f_equal. lia.
Qed.

(** *** [ni_string_trim] *)

Lemma trim_left_bounds cset l sp :
  sp <= trim_left cset l sp <= sp + zlength l.
Proof.
  revert sp. induction l as [|c l IH]; intros sp; cbn [trim_left].
  - unfold zlength; cbn; lia.
  - change (zlength (c :: l)) with (Z.of_nat (S (length l))).
    destruct (strchr cset c); [|lia].
    specialize (IH (sp + 1)). unfold zlength in IH. lia.
Qed.

Lemma trim_right_bounds cset l ep :
  ep - zlength l <= trim_right cset l ep <= ep.
Proof.
  revert ep. induction l as [|c l IH]; intros ep; cbn [trim_right].
  - unfold zlength; cbn; lia.
  - change (zlength (c :: l)) with (Z.of_nat (S (length l))).
    destruct (strchr cset c); [|lia].
    specialize (IH (ep - 1)). unfold zlength in IH. lia.
Qed.

Lemma trim_ok s cset h :
  valid s ->
  exists s',
    ni_string_trim s cset h = Ok s' h /\ valid s' /\
    ni_string_len s' <= ni_string_len s /\
    blk s' = blk s /\ sds_type s' = sds_type s.
Proof.
  intros Hv.
  pose proof (valid_bounds s Hv) as (Hl0 & Hla & Hab).
  pose proof (valid_buf_length s Hv) as Hb.
  unfold ni_string_trim.
  set (len0 := ni_string_len s) in *.
  destruct (Z.leb_spec len0 (zlength (buf s))); [|lia].
  unfold bind at 1. unfold mem at 1. unfold ret at 1.
  set (c := take (Z.to_nat len0) (buf s)).
  assert (Hc : zlength c = len0) by (apply zlength_take; lia).
  set (sp := trim_left cset c 0).
  pose proof (trim_left_bounds cset c 0) as Hsp. fold sp in Hsp. rewrite Hc in Hsp.
  set (ep := trim_right cset (rev (drop (Z.to_nat (sp + 1)) c)) (len0 - 1)).
  pose proof (trim_right_bounds cset (rev (drop (Z.to_nat (sp + 1)) c)) (len0 - 1)) as Hep.
  fold ep in Hep.
  assert (Hrl : zlength (rev (drop (Z.to_nat (sp + 1)) c)) = Z.max 0 (len0 - (sp + 1))).
  { unfold zlength in *. rewrite length_rev, length_drop. lia. }
  rewrite Hrl in Hep.
  set (len := if sp >? ep then 0 else to_size (ep - sp + 1)).
  assert (Hlen : 0 <= len /\ sp + len <= len0).
  { subst len. destruct (Z.gtb_spec sp ep); [lia|].
    rewrite to_size_small by lia. lia. }
  assert (Hmv : exists b,
             (if sp =? 0 then ret (buf s) else mem (memmove (buf s) sp len)) h = Ok b h /\
             zlength b = zlength (buf s)).
  { destruct (Z.eqb_spec sp 0).
    - exists (buf s). split; reflexivity.
    - rewrite memmove_ok by lia. eexists. split; [reflexivity|].
      rewrite zlength_app, zlength_take, zlength_drop; try lia.
      rewrite zlength_drop by lia. lia. }
  destruct Hmv as (b & Hmv & Hbl).
  unfold bind at 1. rewrite Hmv.
  unfold bind, mem. rewrite mem_store_ok by lia. unfold ret.
  destruct (set_len_valid s len (<[Z.to_nat len := x00]> b)) as (Hv' & Hl' & Hb' & Ht' & Hk' & _).
  - exact Hv.
  - lia.
  - rewrite zlength_insert. lia.
  - apply list_lookup_insert_eq. unfold zlength in *. lia.
  - eexists. split; [reflexivity|]. split; [exact Hv'|].
    split; [lia|]. split; assumption.
Qed.


(** *** [ni_string_new_len] *)

Lemma hdr_size_range t : 0 <= t <= 4 -> 1 <= ni_string_hdr_size t <= 17.
Proof.
  intros H. destruct (Z.eq_dec t 0) as [->|]; [change (ni_string_hdr_size 0) with 1; lia|].
  pose proof (hdr_size_wide t). lia.
Qed.

Lemma req_type_range n : 0 <= ni_string_req_type n <= 4.
Proof.
  destruct (req_type_cases n) as [(E & ?)|[(E & ?)|[(E & ?)|[(E & ?)|(E & ?)]]]];
    rewrite E; lia.
Qed.

Lemma valid_with_buf s b :
  0 <= flags s < 256 -> 0 <= sds_type s <= 4 ->
  (sds_type s <> 0 ->
     0 <= hdr_len s /\ hdr_len s <= hdr_alloc s /\
     hdr_alloc s < field_bound (sds_type s)) ->
  0 <= ni_string_len s ->
  ni_string_alloc s < zlength b ->
  b !! Z.to_nat (ni_string_len s) = Some x00 ->
  valid (with_buf s b).
Proof.
  intros Hf Ht Hw Hl Hb Hz. unfold valid.
  change (sds_type (with_buf s b)) with (sds_type s).
  change (ni_string_alloc (with_buf s b)) with (ni_string_alloc s).
  change (ni_string_len (with_buf s b)) with (ni_string_len s).
  cbn [flags hdr_len hdr_alloc buf with_buf]. unfold byte_at. cbn [buf].
  destruct (Z.leb_spec 0 (ni_string_len s)); [|lia].
  repeat split; try lia; try assumption; apply Hw; assumption.
Qed.

Lemma new_len_full init initlen h :
  0 <= initlen -> fits initlen ->
  match init with InitData d => initlen <= zlength d | _ => True end ->
  exists s,
    ni_string_new_len init initlen h =
      Ok s (Heap (next_blk h + 1)
              (events h ++ [EvMalloc (next_blk h)
                              (ni_string_hdr_size (sds_type s) + initlen + 1)])
              (junk h)) /\
    valid s /\
    ni_string_len s = initlen /\
    sds_type s = (if initlen =? 0 then NI_STRING_TYPE_8
                  else ni_string_req_type initlen) /\
    ni_string_alloc s = initlen /\ blk s = next_blk h /\
    zlength (buf s) = initlen + 1 /\
    match init with
    | InitData d => content s = take (Z.to_nat initlen) d
    | InitNull => content s = replicate (Z.to_nat initlen) x00
    | InitNoInit => True
    end.
Proof.
  intros H0 Hfit Hd. unfold fits in Hfit.
  unfold ni_string_new_len.
  set (type := if (ni_string_req_type initlen =? 0) && (initlen =? 0) then 1
               else ni_string_req_type initlen).
  assert (Hty : type = (if initlen =? 0 then 1 else ni_string_req_type initlen)).
  { subst type. destruct (Z.eqb_spec initlen 0) as [->|].
    - reflexivity.
    - rewrite andb_false_r. reflexivity. }
  rewrite <- Hty.
  assert (Hh : 1 <= ni_string_hdr_size type <= 17).
  { apply hdr_size_range. rewrite Hty. pose proof (req_type_range initlen).
    destruct (Z.eqb_spec initlen 0); lia. }
  rewrite (to_size_small (_ + initlen + 1)) by lia.
  unfold ni_string_malloc, ni_malloc.
  unfold bind at 1. cbv beta iota. cbn [p_blk].
  set (h' := Heap _ _ _).
  set (raw0 := fresh_bytes h _).
  assert (Hraw0 : zlength raw0 = ni_string_hdr_size type + initlen + 1).
  { subst raw0. rewrite zlength_fresh; lia. }
  (* the header the switch writes *)
  assert (Hhdr : forall data,
    let s0 := match type with
              | 0 => NiString (next_blk h) (to_u8 (Z.lor type (Z.shiftl initlen 3))) 0 0 data
              | 1 => NiString (next_blk h) type (to_u8 initlen) (to_u8 initlen) data
              | 2 => NiString (next_blk h) type (to_u16 initlen) (to_u16 initlen) data
              | 3 => NiString (next_blk h) type (to_uint initlen) (to_uint initlen) data
              | _ => NiString (next_blk h) type (to_size initlen) (to_size initlen) data
              end in
    buf s0 = data /\ sds_type s0 = type /\ ni_string_len s0 = initlen /\
    ni_string_alloc s0 = initlen /\
    forall b, initlen < zlength b -> b !! Z.to_nat initlen = Some x00 ->
              valid (with_buf s0 b)).
  { intros data.
    assert (Hc : (type = 0 /\ 0 < initlen < 2 ^ 5) \/ (type = 1 /\ initlen < 2 ^ 8) \/
                 (type = 2 /\ initlen < 2 ^ 16) \/ (type = 3 /\ initlen < 2 ^ 32) \/
                 (type = 4 /\ initlen < 2 ^ 63)).
    { rewrite Hty. destruct (Z.eqb_spec initlen 0); [lia|].
      destruct (req_type_cases initlen) as [(E & ?)|[(E & ?)|[(E & ?)|[(E & ?)|(E & ?)]]]];
        rewrite E; lia. }
    destruct Hc as [(E & Hr)|[(E & Hr)|[(E & Hr)|[(E & Hr)|(E & Hr)]]]]; rewrite E;
      cbv zeta.
    - rewrite Z.lor_0_l, shiftl3, to_u8_small by lia.
      set (s0 := NiString _ _ _ _ _).
      destruct (type5_flags initlen) as (Hm8 & Hd8); [lia|].
      assert (Ht0 : sds_type s0 = 0) by (rewrite sds_type_mod; exact Hm8).
      rewrite (len_type5 s0), (alloc_type5 s0) by exact Ht0. cbn [flags s0 buf].
      rewrite Hd8. do 4 (split; [reflexivity || assumption|]).
      intros b Hb Hz.
      change (with_buf s0 b) with (NiString (next_blk h) (initlen * 8) 0 0 b).
      apply valid_type5; rewrite ?Hd8; try lia. exact Hz.
    - rewrite !to_u8_small by lia.
      do 4 (split; [reflexivity|]). intros b Hb Hz.
      unfold with_buf; cbn [blk flags hdr_len hdr_alloc buf].
      apply valid_wide; change (Z.land 1 7) with 1; cbn [field_bound]; try lia. exact Hz.
    - rewrite !to_u16_small by lia.
      do 4 (split; [reflexivity|]). intros b Hb Hz.
      unfold with_buf; cbn [blk flags hdr_len hdr_alloc buf].
      apply valid_wide; change (Z.land 2 7) with 2; cbn [field_bound]; try lia. exact Hz.
    - rewrite !to_uint_small by lia.
      do 4 (split; [reflexivity|]). intros b Hb Hz.
      unfold with_buf; cbn [blk flags hdr_len hdr_alloc buf].
      apply valid_wide; change (Z.land 3 7) with 3; cbn [field_bound]; try lia. exact Hz.
    - rewrite !to_size_small by lia.
      do 4 (split; [reflexivity|]). intros b Hb Hz.
      unfold with_buf; cbn [blk flags hdr_len hdr_alloc buf].
      apply valid_wide; change (Z.land 4 7) with 4; cbn [field_bound]; try lia. exact Hz. }
  set (raw := match init with InitNull => replicate (length raw0) x00 | _ => raw0 end).
  assert (Hraw : zlength raw = ni_string_hdr_size type + initlen + 1).
  { subst raw. destruct init; try exact Hraw0.
    unfold zlength in *. rewrite length_replicate. exact Hraw0. }
  set (data := drop _ raw).
  assert (Hdl : zlength data = initlen + 1).
  { subst data. rewrite zlength_drop; lia. }
  destruct (Hhdr data) as (Hb0 & Ht0 & Hl0 & Ha0 & Hval). clear Hhdr.
  set (s0 := match type with 0 => _ | _ => _ end) in *.
  rewrite Hb0.
  assert (Hcp : exists b1,
             match init with
             | InitData d => if initlen =? 0 then ret data
                             else mem (memcpy data 0 d initlen)
             | _ => ret data
             end h' = Ok b1 h' /\ zlength b1 = initlen + 1 /\
             match init with
             | InitData d => take (Z.to_nat initlen) b1 = take (Z.to_nat initlen) d
             | InitNull => take (Z.to_nat initlen) b1 = replicate (Z.to_nat initlen) x00
             | InitNoInit => True
             end).
  { destruct init as [| |d].
    - exists data. repeat split; assumption.
    - exists data. split; [reflexivity|]. split; [assumption|].
      subst data raw. rewrite take_drop_commute, take_replicate, drop_replicate.
      f_equal. unfold zlength in *. lia.
    - destruct (Z.eqb_spec initlen 0) as [->|].
      + exists data. split; [reflexivity|]. split; [assumption|]. reflexivity.
      + unfold mem. rewrite memcpy_ok0 by lia. eexists. split; [reflexivity|]. split.
        * rewrite zlength_app, zlength_take, zlength_drop by lia. lia.
        * rewrite take_app_le by (rewrite length_take; unfold zlength in *; lia).
          rewrite take_take, Nat.min_id. reflexivity. }
  destruct Hcp as (b1 & Hcp & Hb1 & Hc1).
  unfold bind at 1. rewrite Hcp.
  unfold bind, mem. rewrite mem_store_ok by lia. unfold ret.
  exists (with_buf s0 (<[Z.to_nat initlen := x00]> b1)).
  change (sds_type (with_buf s0 (<[Z.to_nat initlen := x00]> b1)))
    with (sds_type s0).
  rewrite Ht0. split; [reflexivity|].
  split; [|split; [|split; [|split; [|split; [|split]]]]].
  - apply Hval.
    + rewrite zlength_insert. lia.
    + apply list_lookup_insert_eq. unfold zlength in *. lia.
  - exact Hl0.
  - reflexivity.
  - exact Ha0.
  - subst s0. destruct type as [|[[|[]|]|[|[]|]|]|]; reflexivity.
  - cbn [with_buf buf]. rewrite zlength_insert. exact Hb1.
  - change (content (with_buf s0 (<[Z.to_nat initlen := x00]> b1)))
      with (take (Z.to_nat (ni_string_len s0)) (<[Z.to_nat initlen := x00]> b1)).
    rewrite Hl0, take_insert. destruct (decide _); [lia|].
    destruct init; [exact I|exact Hc1|exact Hc1].
Qed.


Lemma new_len_ok init initlen h :
  0 <= initlen -> fits initlen ->
  match init with InitData d => initlen <= zlength d | _ => True end ->
  exists s h',
    ni_string_new_len init initlen h = Ok s h' /\ valid s /\
    ni_string_len s = initlen /\
    sds_type s = (if initlen =? 0 then NI_STRING_TYPE_8
                  else ni_string_req_type initlen) /\
    match init with
    | InitData d => content s = take (Z.to_nat initlen) d
    | InitNull => content s = replicate (Z.to_nat initlen) x00
    | InitNoInit => True
    end.
Proof.
  intros H0 Hfit Hd.
  destruct (new_len_full init initlen h H0 Hfit Hd)
    as (s & R & Hv & Hl & Ht & _ & _ & _ & Hc).
  eexists s, _. split; [exact R|]. split; [exact Hv|]. split; [exact Hl|].
  split; [exact Ht|exact Hc].
Qed.

Lemma empty_ok h :
  exists s h',
    ni_string_empty h = Ok s h' /\ valid s /\ content s = [] /\
    ni_string_len s = 0 /\ sds_type s = 1.
Proof.
  destruct (new_len_ok (InitData []) 0 h) as (s & h' & Hr & Hv & Hl & Ht & Hc).
  - lia.
  - unfold fits. lia.
  - unfold zlength. cbn. lia.
  - exists s, h'. split; [exact Hr|]. split; [exact Hv|].
    split; [exact Hc|]. split; [exact Hl|exact Ht].
Qed.

(** *** Every successful [ni_string_incr_len] *)

Lemma assert_ok_inv b h (u : unit) h' : assert b h = Ok u h' -> b = true /\ h' = h.
Proof. destruct b; cbn; intros H; [injection H as _ <-; auto | discriminate]. Qed.

Lemma mem_store_inv b i v b' :
  mem_store b i v = Some b' -> 0 <= i < zlength b /\ b' = <[Z.to_nat i := v]> b.
Proof.
  unfold mem_store. destruct (bool_decide_reflect (0 <= i < zlength b)); [|discriminate].
  intros H. injection H as <-. auto.
Qed.

(** A negative increment seen through the cast to [unsigned int]. *)
Lemma wrapped_decrement M len incr :
  (M = 2 ^ 8 \/ M = 2 ^ 16 \/ M = 2 ^ 32) ->
  incr < 0 -> 0 <= len < M -> to_uint (- incr) <= len ->
  (len + incr) mod M = len - to_uint (- incr).
Proof.
  intros HM Hi Hl Hk. unfold to_uint in *.
  pose proof (Z.div_mod (- incr) (2 ^ 32)) as Hdm.
  pose proof (Z.mod_pos_bound (- incr) (2 ^ 32)) as Hb.
  set (q := - incr / 2 ^ 32) in *. set (k := (- incr) mod 2 ^ 32) in *.
  assert (exists c, 2 ^ 32 = c * M) as (c & Hc).
  { destruct HM as [->|[->| ->]]; [exists (2 ^ 24)|exists (2 ^ 16)|exists 1]; reflexivity. }
  replace (len + incr) with ((len - k) + (- q * c) * M) by (rewrite <- Z.mul_assoc, <- Hc; lia).
  rewrite Z.mod_add by (destruct HM as [->|[->| ->]]; lia).
  apply Z.mod_small. lia.
Qed.

Lemma wrapped_increment M len incr alloc :
  (M = 2 ^ 32 \/ M = 2 ^ 64) ->
  0 <= incr -> 0 <= len <= alloc -> alloc < M ->
  incr mod M <= alloc - len ->
  (len + incr) mod M = len + incr mod M.
Proof.
  intros HM Hi Hl Ha Hk.
  assert (HM0 : 0 < M) by (destruct HM as [->| ->]; lia).
  pose proof (Z.div_mod incr M) as Hdm.
  pose proof (Z.mod_pos_bound incr M) as Hb.
  set (q := incr / M) in *. set (k := incr mod M) in *.
  replace (len + incr) with ((len + k) + q * M) by lia.
  rewrite Z.mod_add by lia. apply Z.mod_small. lia.
Qed.

Lemma bind_inv {A B} (c : M A) (k : A -> M B) h b h2 :
  bind c k h = Ok b h2 -> exists a h1, c h = Ok a h1 /\ k a h1 = Ok b h2.
Proof.
  unfold bind. destruct (c h) as [a h1|f]; [|discriminate].
  intros H. exists a, h1. auto.
Qed.

Lemma mem_inv {A} (o : option A) h a h' :
  mem o h = Ok a h' -> o = Some a /\ h' = h.
Proof.
  destruct o; cbn; unfold ret, raise; intros H; [|discriminate].
  injection H as <- <-. auto.
Qed.

Lemma ret_inv {A} (a a' : A) h h' : ret a h = Ok a' h' -> a' = a /\ h' = h.
Proof. unfold ret. intros H. injection H as <- <-. auto. Qed.

(** Whatever the increment, a call of [ni_string_incr_len] that returns
    leaves a valid handle.  The increment is a [ssize_t] and the region an
    object. *)
Lemma incr_len_valid s incr h s' h' :
  valid s -> - 2 ^ 63 <= incr < 2 ^ 63 -> zlength (buf s) <= 2 ^ 63 ->
  ni_string_incr_len s incr h = Ok s' h' ->
  valid s' /\ h' = h /\ blk s' = blk s /\ sds_type s' = sds_type s.
Proof.
  intros Hv Hi Hz H.
  unfold ni_string_incr_len in H.
  apply bind_inv in H. destruct H as ((s1 & l) & h1 & H1 & H2).
  apply bind_inv in H2. destruct H2 as (b & h2 & H2 & H3).
  apply mem_inv in H2. destruct H2 as (H2 & ->).
  apply mem_store_inv in H2. destruct H2 as (Hl & ->).
  apply ret_inv in H3. destruct H3 as (-> & ->).
  destruct (sds_type_cases s Hv) as [E|E].
  - (* type 5 *)
    destruct (valid_type5_inv s Hv E) as (Hf & Hm & Hd & Hb & _).
    rewrite E in H1. unfold NI_STRING_TYPE_5_LEN in H1.
    rewrite shiftr3, shiftl3, Z.lor_0_l in H1.
    apply bind_inv in H1. destruct H1 as (u & h0 & Ha & H1).
    apply assert_ok_inv in Ha. destruct Ha as (Ha & ->).
    apply ret_inv in H1. destruct H1 as (H1 & ->). injection H1 as -> ->.
    cbn [buf with_flags] in Hl.
    assert (Hn : 0 <= flags s / 8 + incr < 32).
    { apply orb_prop in Ha. destruct Ha as [Ha|Ha]; apply andb_prop in Ha;
        destruct Ha as (Ha1 & Ha2).
      - apply Z.gtb_lt in Ha1. apply Z.ltb_lt in Ha2. lia.
      - apply Z.ltb_lt in Ha1. apply Z.geb_le in Ha2.
        destruct (Z.lt_ge_cases (- incr) (2 ^ 32)).
        + rewrite to_uint_small in Ha2 by lia. lia.
        + exfalso. unfold to_size in Hl.
          replace (flags s / 8 + incr) with ((2 ^ 64 + flags s / 8 + incr) + (-1) * 2 ^ 64) in Hl by lia.
          rewrite Z.mod_add, Z.mod_small in Hl by lia. lia. }
    rewrite to_size_small in * by lia. rewrite to_u8_small by lia.
    split; [|repeat split].
    + unfold with_flags, with_buf; cbn [blk flags hdr_len hdr_alloc buf].
      destruct (type5_flags (flags s / 8 + incr)) as (Hm8 & Hd8); [lia|].
      apply valid_type5; rewrite ?Hd8, ?zlength_insert; try lia.
      apply list_lookup_insert_eq. unfold zlength in *. lia.
    + rewrite sds_type_mod, E. cbn [flags with_buf with_flags].
      apply type5_flags. lia.
  - (* types 8 to 64 *)
    assert (Hw : 1 <= sds_type s <= 4) by lia.
    destruct (valid_wide_inv s Hv Hw) as (Hf & Hlen & Hfb & Hd & _).
    assert (Hgoal : forall l0, 0 <= l0 <= hdr_alloc s ->
              0 <= l0 < zlength (buf s) ->
              valid (with_buf (with_len s l0) (<[Z.to_nat l0 := x00]> (buf s)))).
    { intros l0 Hl0 Hl1. unfold with_buf, with_len; cbn [blk flags hdr_len hdr_alloc buf].
      apply valid_wide; fold (sds_type s); rewrite ?zlength_insert; try lia.
      apply list_lookup_insert_eq. unfold zlength in *. lia. }
    assert (Hneg : forall Mx, (Mx = 2 ^ 8 \/ Mx = 2 ^ 16 \/ Mx = 2 ^ 32) ->
              hdr_alloc s < Mx ->
              (incr <? 0) && (hdr_len s >=? to_uint (- incr)) = true ->
              0 <= (hdr_len s + incr) mod Mx <= hdr_alloc s).
    { intros Mx HM Hax Hc. apply andb_prop in Hc. destruct Hc as (Hc1 & Hc2).
      apply Z.ltb_lt in Hc1. apply Z.geb_le in Hc2.
      rewrite (wrapped_decrement Mx) by (assumption || lia).
      unfold to_uint in *. pose proof (Z.mod_pos_bound (- incr) (2 ^ 32)). lia. }
    assert (sds_type s = 1 \/ sds_type s = 2 \/ sds_type s = 3 \/ sds_type s = 4)
      as [E1|[E1|[E1|E1]]] by lia; rewrite E1 in H1, Hfb; cbn [field_bound] in Hfb;
      apply bind_inv in H1; destruct H1 as (u & h0 & Ha & H1);
      apply assert_ok_inv in Ha; destruct Ha as (Ha & ->);
      apply ret_inv in H1; destruct H1 as (H1 & ->); injection H1 as -> ->;
      cbn [buf with_len] in Hl |- *;
      (split; [|repeat split]); apply Hgoal; try lia;
      apply orb_prop in Ha; destruct Ha as [Ha|Ha].
    all: try (apply (Hneg (2 ^ 8)); [auto|lia|exact Ha]).
    all: try (apply (Hneg (2 ^ 16)); [auto|lia|exact Ha]).
    all: try (apply (Hneg (2 ^ 32)); [auto|lia|exact Ha]).
    all: apply andb_prop in Ha; destruct Ha as (Ha1 & Ha2);
      try apply Z.geb_le in Ha1; try apply Z.ltb_lt in Ha1; apply Z.geb_le in Ha2.
    + unfold to_u8. rewrite Z.mod_small by lia. lia.
    + unfold to_u16. rewrite Z.mod_small by lia. lia.
    + rewrite (to_uint_small (hdr_alloc s - hdr_len s)) in Ha2 by lia.
      unfold to_uint in *.
      rewrite (wrapped_increment (2 ^ 32) _ _ (hdr_alloc s)) by (auto || lia).
      pose proof (Z.mod_pos_bound incr (2 ^ 32)). lia.
    + rewrite (to_size_small (hdr_alloc s - hdr_len s)), (to_size_small incr) in Ha2 by lia.
      rewrite to_size_small by lia. lia.
    + rewrite (to_size_small (- incr)) in Ha2 by lia.
      rewrite to_size_small by lia. lia.
Qed.

(** *** [ni_string_cat_vprintf] *)

Lemma c_str_app_zero l r : c_str (l ++ x00 :: r) = c_str l.
Proof.
  induction l as [|c l IH]; cbn.
  - reflexivity.
  - destruct (decide (c = x00)); [reflexivity|]. rewrite IH. reflexivity.
Qed.

Lemma c_str_take_zero l i n :
  l !! i = Some x00 -> (i < n)%nat -> c_str (take n l) = c_str l.
Proof.
  revert i n. induction l as [|c l IH]; intros i n Hi Hn.
  - destruct n; reflexivity.
  - destruct n as [|n]; [lia|]. cbn.
    destruct (decide (c = x00)); [reflexivity|].
    destruct i as [|i]; [cbn in Hi; congruence|].
    f_equal. apply (IH i); [exact Hi|lia].
Qed.

(** What [vsnprintf] leaves in a buffer of [buflen] bytes. *)
Lemma vsnprintf_ok buf buflen out :
  zlength buf = buflen -> 1 <= buflen ->
  let n := Z.min (zlength out) (buflen - 1) in
  exists rest,
    vsnprintf buf buflen out = Some (take (Z.to_nat n) out ++ x00 :: rest) /\
    zlength (take (Z.to_nat n) out ++ x00 :: rest) = buflen /\
    rest = drop (Z.to_nat (n + 1)) buf.
Proof.
  intros Hb Hl n. pose proof (zlength_nonneg out).
  unfold vsnprintf. fold n. rewrite memcpy_ok0 by lia.
  assert (Hd : exists y rest, drop (Z.to_nat n) buf = y :: rest /\
                              rest = drop (Z.to_nat (n + 1)) buf).
  { destruct (drop (Z.to_nat n) buf) as [|y rest] eqn:E.
    - apply (f_equal length) in E. rewrite length_drop in E. unfold zlength in *. cbn in E. lia.
    - exists y, rest. split; [reflexivity|].
      replace (Z.to_nat (n + 1)) with (Z.to_nat n + 1)%nat by lia.
      rewrite <- drop_drop, E. reflexivity. }
  destruct Hd as (y & rest & Hd & Hrest). rewrite Hd.
  assert (Hln : length (take (Z.to_nat n) out) = Z.to_nat n).
  { rewrite length_take. unfold zlength in *. lia. }
  rewrite mem_store_ok.
  2:{ rewrite zlength_app. unfold zlength at 1. rewrite Hln.
      unfold zlength. cbn. lia. }
  exists rest. split; [|split; [|exact Hrest]].
  - f_equal. rewrite insert_app_r_alt by lia. rewrite Hln, Nat.sub_diag. reflexivity.
  - rewrite zlength_app. unfold zlength at 1. rewrite Hln.
    change (zlength (x00 :: rest)) with (Z.of_nat (S (length rest))).
    apply (f_equal length) in Hd. rewrite length_drop in Hd. cbn in Hd.
    unfold zlength in *. lia.
Qed.

Lemma ptr_free_ok p h :
  heap_ptr_ok p -> exists h', ni_string_ptr_free p h = Ok tt h'.
Proof.
  intros Hp. unfold ni_string_ptr_free, ni_free. destruct p as [q|].
  - cbn in Hp. rewrite Hp. eexists. reflexivity.
  - eexists. reflexivity.
Qed.

Lemma cat_vprintf_loop_ok fuel out buf heapbuf buflen h :
  zlength buf = buflen -> 2 <= buflen ->
  zlength out + 2 <= Z.of_nat fuel + buflen -> zlength out < 2 ^ 62 ->
  heap_ptr_ok heapbuf ->
  exists buf' hb' h',
    cat_vprintf_loop fuel out buf heapbuf buflen h = Ok (buf', hb') h' /\
    c_str buf' = c_str out /\ heap_ptr_ok hb'.
Proof.
  revert buf heapbuf buflen h.
  induction fuel as [|fuel IH]; intros buf heapbuf buflen h Hb Hl Hf Ho Hp.
  all: pose proof (zlength_nonneg out) as Ho0.
  all: cbn [cat_vprintf_loop]; unfold bind at 1, mem at 1;
    rewrite mem_store_ok by lia; unfold ret at 1;
    set (buf0 := <[_ := _]> buf);
    assert (Hb0 : zlength buf0 = buflen) by (subst buf0; rewrite zlength_insert; exact Hb);
    destruct (vsnprintf_ok buf0 buflen out Hb0) as (rest & Hv & Hvl & Hrest); [lia|];
    unfold bind at 1, mem at 1; rewrite Hv; unfold ret at 1;
    set (n := Z.min (zlength out) (buflen - 1)) in *;
    set (buf' := take (Z.to_nat n) out ++ x00 :: rest) in *.
  all: assert (Hlow : zlength out <= buflen - 2 ->
                      buf' !! Z.to_nat (buflen - 2) = Some x00 /\ c_str buf' = c_str out).
  1,3: intros Hle; assert (Hn : n = zlength out) by lia;
    assert (Hln : length (take (Z.to_nat n) out) = Z.to_nat n)
      by (rewrite length_take; unfold zlength in *; lia);
    split;
    [ subst buf'; rewrite lookup_app_r by lia; rewrite Hln;
      destruct (Z.eq_dec n (buflen - 2)) as [En|En];
      [ rewrite En, Nat.sub_diag; reflexivity
      | replace (Z.to_nat (buflen - 2) - Z.to_nat n)%nat
          with (S (Z.to_nat (buflen - 2) - Z.to_nat n - 1)) by lia;
        change ((x00 :: rest) !! S (Z.to_nat (buflen - 2) - Z.to_nat n - 1))
          with (rest !! (Z.to_nat (buflen - 2) - Z.to_nat n - 1)%nat);
        rewrite Hrest, lookup_drop;
        replace (Z.to_nat (n + 1) + (Z.to_nat (buflen - 2) - Z.to_nat n - 1))%nat
          with (Z.to_nat (buflen - 2)) by lia;
        subst buf0; apply list_lookup_insert_eq; unfold zlength in *; lia ]
    | subst buf'; rewrite c_str_app_zero, Hn; unfold zlength; rewrite Nat2Z.id, firstn_all;
      reflexivity ].
  all: assert (Hhigh : buflen - 1 <= zlength out ->
                       buf' !! Z.to_nat (buflen - 2) = out !! Z.to_nat (buflen - 2) /\
                       (out !! Z.to_nat (buflen - 2) = Some x00 -> c_str buf' = c_str out)).
  1,3: intros Hge; assert (Hn : n = buflen - 1) by lia;
    assert (Hln : length (take (Z.to_nat n) out) = Z.to_nat n)
      by (rewrite length_take; unfold zlength in *; lia);
    split;
    [ subst buf'; rewrite lookup_app_l by lia; rewrite lookup_take;
      destruct (decide _); [reflexivity|lia]
    | intros Hz; subst buf'; rewrite c_str_app_zero;
      apply (c_str_take_zero _ (Z.to_nat (buflen - 2))); [exact Hz|lia] ].
  - (* no fuel left: the text fits *)
    destruct (Hlow ltac:(lia)) as (Hz & Hc).
    rewrite bool_decide_eq_true_2 by exact Hz.
    eexists _, _, _. split; [reflexivity|]. split; assumption.
  - destruct (bool_decide_reflect (buf' !! Z.to_nat (buflen - 2) = Some x00)) as [Hz|Hnz].
    + eexists _, _, _. split; [reflexivity|]. split; [|exact Hp].
      destruct (Z.le_gt_cases (zlength out) (buflen - 2)) as [Hle|Hgt].
      * apply Hlow. exact Hle.
      * destruct (Hhigh ltac:(lia)) as (Hq & Hc). apply Hc. rewrite <- Hq. exact Hz.
    + assert (Hge : buflen - 1 <= zlength out).
      { destruct (Z.le_gt_cases (zlength out) (buflen - 2)) as [Hle|Hgt]; [|lia].
        destruct (Hlow Hle) as (Hz & _). contradiction. }
      destruct (ptr_free_ok heapbuf h Hp) as (h1 & Hfree).
      unfold bind at 1. rewrite Hfree.
      rewrite (to_size_small (buflen * 2)) by lia.
      unfold bind at 1. unfold ni_string_malloc, ni_malloc.
      apply IH.
      * apply zlength_fresh. lia.
      * lia.
      * lia.
      * exact Ho.
      * reflexivity.
Qed.

Lemma cat_vprintf_ok s fmt out h :
  valid s -> zlength fmt < 2 ^ 62 -> zlength out < 2 ^ 62 ->
  fits (ni_string_len s + strlen out) ->
  exists s' h',
    ni_string_cat_vprintf s fmt out h = Ok s' h' /\ valid s' /\
    content s' = content s ++ c_str out /\
    ni_string_len s' = ni_string_len s + strlen out.
Proof.
  intros Hv Hfm Ho Hfit.
  pose proof (strlen_bounds fmt) as Hsf.
  unfold ni_string_cat_vprintf.
  rewrite to_size_small by lia.
  set (buflen0 := strlen fmt * 2).
  assert (Hinit : exists buf hb bl h0,
            (if buflen0 >? 1024
             then let* (p, buf) := ni_string_malloc buflen0 in ret (buf, Some p, buflen0)
             else fun h => Ok (fresh_bytes h 1024, None, 1024) h) h = Ok (buf, hb, bl) h0 /\
            zlength buf = bl /\ 1024 <= bl /\ heap_ptr_ok hb).
  { destruct (Z.gtb_spec buflen0 1024).
    - eexists _, _, _, _. split; [reflexivity|]. split; [|split; [lia|reflexivity]].
      apply zlength_fresh. lia.
    - eexists _, _, _, _. split; [reflexivity|]. split; [|split; [lia|exact I]].
      apply zlength_fresh. lia. }
  destruct Hinit as (buf & hb & bl & h0 & Hinit & Hbl & Hb1024 & Hhb).
  unfold bind at 1. rewrite Hinit.
  destruct (cat_vprintf_loop_ok (length out) out buf hb bl h0)
    as (buf' & hb' & h1 & Hloop & Hc & Hhb'); try assumption; try lia.
  { unfold zlength. lia. }
  unfold bind at 1. rewrite Hloop.
  assert (Hsl : strlen buf' = strlen out) by (unfold strlen; rewrite Hc; reflexivity).
  destruct (cat_ok s buf' h1 Hv) as (s' & h2 & Hcat & Hv' & Hc' & Hl').
  { rewrite Hsl. exact Hfit. }
  unfold bind at 1. rewrite Hcat.
  destruct (ptr_free_ok hb' h2 Hhb') as (h3 & Hfree).
  unfold bind. rewrite Hfree. unfold ret.
  exists s', h3. split; [reflexivity|]. split; [exact Hv'|].
  rewrite Hc', Hl', Hc, Hsl. split; reflexivity.
Qed.

(** *** Integer to decimal conversion *)

(** The in-place reversal reverses the bytes between the two offsets. *)
Lemma ll2str_reverse_spec fuel (pre mid post : list byte) :
  (length mid <= fuel)%nat ->
  ll2str_reverse fuel (pre ++ mid ++ post) (length pre)
      (pred (length pre + length mid)) =
    pre ++ rev mid ++ post.
Proof.
  revert pre mid post. induction fuel as [|fuel IH]; intros pre mid post Hf.
  - destruct mid; [reflexivity|cbn in Hf; lia].
  - cbn [ll2str_reverse].
    destruct mid as [|x mid].
    { rewrite bool_decide_eq_false_2 by (cbn [length]; lia). reflexivity. }
    destruct (decide (mid = [])) as [->|Hne].
    { rewrite bool_decide_eq_false_2 by (cbn; lia). reflexivity. }
    destruct (exists_last Hne) as (mid' & y & ->).
    rewrite bool_decide_eq_true_2 by (cbn; rewrite length_app; cbn; lia).
    assert (H1 : (pre ++ (x :: mid' ++ [y]) ++ post) !! length pre = Some x).
    { rewrite lookup_app_r by lia. rewrite Nat.sub_diag. reflexivity. }
    assert (H2 : (pre ++ (x :: mid' ++ [y]) ++ post)
                   !! pred (length pre + length (x :: mid' ++ [y])) = Some y).
    { cbn [length]. rewrite length_app. cbn [length].
      replace (pred (length pre + S (length mid' + 1)))
        with (length (pre ++ x :: mid') + 0)%nat by (rewrite length_app; cbn; lia).
      replace (pre ++ (x :: mid' ++ [y]) ++ post)
        with ((pre ++ x :: mid') ++ y :: post)
        by (rewrite <- ?app_assoc; cbn [app]; rewrite <- ?app_assoc; reflexivity).
      rewrite lookup_app_r by lia.
      replace (length (pre ++ x :: mid') + 0 - length (pre ++ x :: mid'))%nat with 0%nat by lia.
      reflexivity. }
    rewrite H1, H2.
    assert (H3 : <[pred (length pre + length (x :: mid' ++ [y])) := x]>
                   (<[length pre := y]> (pre ++ (x :: mid' ++ [y]) ++ post))
                 = (pre ++ [y]) ++ mid' ++ (x :: post)).
    { replace (pred (length pre + length (x :: mid' ++ [y])))
        with (length pre + S (length mid'))%nat
        by (cbn [length]; rewrite length_app; cbn; lia).
      rewrite (insert_app_r_alt pre _ (length pre)) by lia.
      rewrite (insert_app_r_alt pre _ (length pre + S (length mid'))) by lia.
      rewrite Nat.sub_diag.
      replace (length pre + S (length mid') - length pre)%nat with (S (length mid')) by lia.
      rewrite <- ?app_assoc. cbn. rewrite <- ?app_assoc.
      do 2 f_equal. etransitivity; [apply insert_app_r_alt; lia|].
      rewrite Nat.sub_diag. reflexivity. }
    rewrite H3.
    replace (S (length pre)) with (length (pre ++ [y])) by (rewrite length_app; cbn; lia).
    replace (pred (pred (length pre + length (x :: mid' ++ [y]))))
      with (pred (length (pre ++ [y]) + length mid'))
      by (cbn [length]; rewrite !length_app; cbn; lia).
    rewrite IH by (cbn [length] in Hf; rewrite length_app in Hf; cbn in Hf; lia).
    cbn [rev]. rewrite rev_app_distr. cbn [rev app].
    rewrite <- ?app_assoc; cbn [app]; rewrite <- ?app_assoc. reflexivity.
Qed.

Lemma ll2str_reverse_rev (b : list byte) :
  ll2str_reverse (length b) b 0 (pred (length b)) = rev b.
Proof.
  pose proof (ll2str_reverse_spec (length b) [] b [] ltac:(lia)) as H.
  cbn [app length] in H. rewrite !app_nil_r in H. exact H.
Qed.

(** The digits the loop produces are those of the numeral, last first. *)
Lemma ll2str_digits_rev fuel v :
  0 <= v -> ll2str_digits fuel v = rev (decimal_digits fuel v).
Proof.
  revert v. induction fuel as [|fuel IH]; intros v Hv; [reflexivity|].
  cbn [ll2str_digits decimal_digits]. rewrite rev_app_distr. cbn [rev app].
  unfold digit_char. f_equal.
  destruct (Z.ltb_spec v 10).
  - rewrite Z.div_small by lia. reflexivity.
  - destruct (Z.eqb_spec (v / 10) 0) as [E|E].
    + pose proof (Z.div_mod v 10). pose proof (Z.mod_pos_bound v 10). lia.
    + apply IH. apply Z.div_pos; lia.
Qed.

Lemma ni_string_ull2str_decimal v :
  0 <= v -> ni_string_ull2str v = decimal v.
Proof.
  intros Hv. unfold ni_string_ull2str, decimal.
  rewrite ll2str_reverse_rev, ll2str_digits_rev, rev_involutive by exact Hv.
  destruct (Z.ltb_spec v 0); [lia|reflexivity].
Qed.

Lemma ni_string_ll2str_decimal v :
  - 2 ^ 63 <= v < 2 ^ 63 -> ni_string_ll2str v = decimal v.
Proof.
  intros Hv. unfold ni_string_ll2str, decimal.
  rewrite ll2str_reverse_rev.
  destruct (Z.ltb_spec v 0).
  - rewrite to_size_small by lia.
    rewrite rev_app_distr, ll2str_digits_rev, rev_involutive by lia. reflexivity.
  - rewrite to_size_small by lia.
    rewrite ll2str_digits_rev, rev_involutive by lia. reflexivity.
Qed.

(** Reading the numeral back gives the number. *)
Lemma digit_value_char d : 0 <= d < 10 -> digit_value (digit_char d) = Some d.
Proof.
  intros H.
  assert (d = 0 \/ d = 1 \/ d = 2 \/ d = 3 \/ d = 4 \/ d = 5 \/ d = 6 \/ d = 7 \/
          d = 8 \/ d = 9) as [->|[->|[->|[->|[->|[->|[->|[->|[->| ->]]]]]]]]] by lia;
    reflexivity.
Qed.

Lemma digits_value_app acc l c :
  digits_value acc (l ++ [c]) =
    match digits_value acc l with
    | Some a => match digit_value c with Some d => Some (10 * a + d) | None => None end
    | None => None
    end.
Proof.
  revert acc. induction l as [|x l IH]; intros acc; cbn [app digits_value].
  - destruct (digit_value c); reflexivity.
  - destruct (digit_value x); [apply IH|reflexivity].
Qed.

Lemma decimal_digits_value fuel v :
  0 <= v < 10 ^ Z.of_nat fuel -> (0 < fuel)%nat ->
  digits_value 0 (decimal_digits fuel v) = Some v.
Proof.
  revert v. induction fuel as [|fuel IH]; intros v Hv Hf; [lia|].
  cbn [decimal_digits]. rewrite digits_value_app.
  pose proof (Z.mod_pos_bound v 10) as Hm. pose proof (Z.div_mod v 10) as Hdm.
  rewrite digit_value_char by lia.
  destruct (Z.ltb_spec v 10).
  - cbn [digits_value]. rewrite Z.mod_small by lia. f_equal; lia.
  - rewrite IH.
    + f_equal; lia.
    + split; [apply Z.div_pos; lia|].
      apply Z.div_lt_upper_bound; [lia|].
      rewrite Nat2Z.inj_succ, Z.pow_succ_r in Hv by lia. lia.
    + destruct fuel; [exfalso; change (10 ^ Z.of_nat 1) with 10 in Hv; lia|lia].
Qed.

Lemma decimal_digits_head fuel v :
  1 <= v < 10 ^ Z.of_nat fuel ->
  exists d rest, decimal_digits fuel v = digit_char d :: rest /\ 1 <= d < 10.
Proof.
  revert v. induction fuel as [|fuel IH]; intros v Hv.
  - cbn in Hv. lia.
  - cbn [decimal_digits]. destruct (Z.ltb_spec v 10).
    + exists v, []. rewrite Z.mod_small by lia. split; [reflexivity|lia].
    + destruct (IH (v / 10)) as (d & rest & -> & Hd).
      * split.
        -- pose proof (Z.div_mod v 10). pose proof (Z.mod_pos_bound v 10). lia.
        -- apply Z.div_lt_upper_bound; [lia|].
           rewrite Nat2Z.inj_succ, Z.pow_succ_r in Hv by lia. lia.
      * eexists d, _. split; [reflexivity|exact Hd].
Qed.

Lemma digit_char_facts d :
  1 <= d < 10 ->
  digit_char d <> "-"%byte /\ digit_char d <> "0"%byte.
Proof.
  intros H.
  assert (d = 1 \/ d = 2 \/ d = 3 \/ d = 4 \/ d = 5 \/ d = 6 \/ d = 7 \/
          d = 8 \/ d = 9) as [->|[->|[->|[->|[->|[->|[->|[->| ->]]]]]]]] by lia;
    split; discriminate.
Qed.

(** The numeral of an integer of at most 21 digits reads back as the
    integer and has no redundant character. *)
Lemma decimal_exact v :
  - 10 ^ 21 < v < 10 ^ 21 ->
  decimal_value (decimal v) = Some v /\ canonical (decimal v) = true.
Proof.
  intros Hv. unfold decimal.
  destruct (Z.ltb_spec v 0).
  - destruct (decimal_digits_head 21 (- v)) as (d & rest & E & Hd); [lia|].
    destruct (digit_char_facts d Hd) as (Hm & Hz).
    pose proof (decimal_digits_value 21 (- v) ltac:(lia) ltac:(lia)) as Hval.
    rewrite E in *. cbn [decimal_value canonical].
    rewrite bool_decide_eq_true_2 by reflexivity.
    rewrite Hval. cbn [option_map]. rewrite Z.opp_involutive.
    rewrite bool_decide_eq_false_2 by exact Hz. split; reflexivity.
  - pose proof (decimal_digits_value 21 v ltac:(lia) ltac:(lia)) as Hval.
    destruct (Z.eq_dec v 0) as [->|Hnz]; [split; reflexivity|].
    destruct (decimal_digits_head 21 v) as (d & rest & E & Hd); [lia|].
    destruct (digit_char_facts d Hd) as (Hm & Hz).
    rewrite E in *. cbn [decimal_value canonical].
    rewrite !bool_decide_eq_false_2 by assumption.
    split; [exact Hval|reflexivity].
Qed.

Lemma decimal_digits_length fuel v : (length (decimal_digits fuel v) <= fuel)%nat.
Proof.
  revert v. induction fuel as [|fuel IH]; intros v; cbn [decimal_digits]; [cbn; lia|].
  rewrite length_app. cbn [length]. destruct (v <? 10); [cbn; lia|].
  specialize (IH (v / 10)). lia.
Qed.

Lemma decimal_length v : 0 <= zlength (decimal v) <= 22.
Proof.
  unfold decimal, zlength. destruct (v <? 0); cbn [length].
  - pose proof (decimal_digits_length 21 (- v)). lia.
  - pose proof (decimal_digits_length 21 v). lia.
Qed.

(** ** The format engine of [ni_string_cat_fmt] *)

Lemma content_preserved s s' :
  0 <= ni_string_len s -> ni_string_len s' = ni_string_len s ->
  take (Z.to_nat (ni_string_len s + 1)) (buf s') =
    take (Z.to_nat (ni_string_len s + 1)) (buf s) ->
  content s' = content s.
Proof.
  intros H0 Hl Hpre. unfold content. rewrite Hl.
  apply take_succ_eq; assumption.
Qed.

(** "Make sure there is always space for at least 1 char." *)
Lemma cat_fmt_room s h :
  valid s -> fits (ni_string_len s + 1) ->
  exists s1 h1,
    (if ni_string_avail s =? 0 then ni_string_make_room_for s 1 else ret s) h
      = Ok s1 h1 /\
    valid s1 /\ ni_string_len s1 = ni_string_len s /\ content s1 = content s /\
    1 <= ni_string_avail s1 /\ 1 <= sds_type s1 <= 4.
Proof.
  intros Hv Hfit. unfold fits in Hfit.
  pose proof (valid_bounds s Hv) as (Hl0 & Hla & _).
  destruct (Z.eqb_spec (ni_string_avail s) 0) as [E|E].
  - destruct (make_room_for_ok s 1 h Hv) as (s1 & h1 & Hr & Hv1 & Hl1 & Ha1 & Ht1 & Hpre);
      [lia|lia|].
    exists s1, h1. split; [exact Hr|]. split; [exact Hv1|]. split; [exact Hl1|].
    split; [apply content_preserved; assumption|]. split; [exact Ha1|apply Ht1; lia].
  - exists s, h. split; [reflexivity|]. split; [exact Hv|]. split; [reflexivity|].
    split; [reflexivity|].
    rewrite (avail_eq s Hv) in *. split; [lia|].
    destruct (sds_type_cases s Hv) as [E5|E5]; [|lia].
    rewrite alloc_type5, <- len_type5 in E by exact E5. lia.
Qed.

Lemma cat_fmt_char_ok s c h :
  valid s -> 1 <= sds_type s <= 4 -> 1 <= ni_string_avail s ->
  exists s',
    cat_fmt_char s (ni_string_len s) c h = Ok s' h /\ valid s' /\
    content s' = content s ++ [c] /\
    ni_string_len s' = ni_string_len s + 1 /\ sds_type s' = sds_type s.
Proof.
  intros Hv Hw Ha.
  destruct (valid_wide_inv s Hv Hw) as (Hf & Hl & Hfb & Hd & _).
  rewrite (avail_eq s Hv), (alloc_wide s Hw), (len_wide s Hw) in Ha.
  unfold cat_fmt_char. rewrite (len_wide s Hw).
  unfold bind, mem. rewrite mem_store_ok by lia. unfold ret.
  rewrite incr_len_wide_hdr; cbn [with_buf blk flags hdr_len hdr_alloc buf];
    fold (sds_type s); rewrite ?zlength_insert; try lia;
    try exact Hw; try exact Hfb.
  set (s' := NiString _ _ _ _ _).
  assert (Ht' : sds_type s' = sds_type s) by reflexivity.
  exists s'. split; [reflexivity|].
  rewrite (len_wide s') by lia. unfold content. rewrite (len_wide s'), (len_wide s) by lia.
  cbn [hdr_len buf s'].
  split; [|split; [|split; reflexivity]].
  - apply valid_wide; fold (sds_type s); rewrite ?zlength_insert; try lia.
    apply list_lookup_insert_eq. rewrite length_insert. unfold zlength in *. lia.
  - rewrite take_insert. destruct (decide _); [lia|].
    replace (Z.to_nat (hdr_len s + 1)) with (S (Z.to_nat (hdr_len s))) by lia.
    erewrite take_S_r by (apply list_lookup_insert_eq; unfold zlength in *; lia).
    rewrite take_insert. destruct (decide _); [lia|]. reflexivity.
Qed.

Lemma cat_fmt_bytes_ok s str l h :
  valid s -> 1 <= sds_type s <= 4 -> 0 <= l <= zlength str ->
  fits (ni_string_len s + l) ->
  exists s' h',
    cat_fmt_bytes s (ni_string_len s) str l h = Ok s' h' /\ valid s' /\
    content s' = content s ++ take (Z.to_nat l) str /\
    ni_string_len s' = ni_string_len s + l.
Proof.
  intros Hv Hw Hl Hfit. unfold fits in Hfit.
  pose proof (valid_bounds s Hv) as (Hl0 & Hla & _).
  assert (Hg : exists s1 h1,
             (if ni_string_avail s <? l then ni_string_make_room_for s l else ret s) h
               = Ok s1 h1 /\
             valid s1 /\ ni_string_len s1 = ni_string_len s /\
             content s1 = content s /\
             l <= ni_string_avail s1 /\ 1 <= sds_type s1 <= 4).
  { destruct (Z.ltb_spec (ni_string_avail s) l).
    - destruct (make_room_for_ok s l h Hv) as (s1 & h1 & Hr & Hv1 & Hl1 & Ha1 & Ht1 & Hpre);
        [lia|lia|].
      exists s1, h1. split; [exact Hr|]. split; [exact Hv1|]. split; [exact Hl1|].
      split; [apply content_preserved; assumption|]. split; [exact Ha1|].
      apply Ht1. rewrite (avail_eq s Hv) in *. lia.
    - exists s, h. split; [reflexivity|]. split; [exact Hv|]. split; [reflexivity|].
      split; [reflexivity|]. split; [lia|exact Hw]. }
  destruct Hg as (s1 & h1 & Hr & Hv1 & Hl1 & Hc1 & Ha1 & Hw1).
  destruct (valid_wide_inv s1 Hv1 Hw1) as (Hf & Hlen & Hfb & Hd & _).
  rewrite (avail_eq s1 Hv1), (alloc_wide s1 Hw1), (len_wide s1 Hw1) in Ha1.
  unfold cat_fmt_bytes. unfold bind at 1. rewrite Hr.
  rewrite <- Hl1, (len_wide s1 Hw1). rewrite <- Hc1. unfold content.
  rewrite (len_wide s1 Hw1).
  unfold bind, mem. rewrite memcpy_ok by lia. unfold ret.
  set (b := take _ (buf s1) ++ _).
  assert (Hbl : zlength b = zlength (buf s1)).
  { subst b. rewrite !zlength_app, !zlength_take, zlength_drop by lia. lia. }
  rewrite incr_len_wide_hdr; cbn [with_buf blk flags hdr_len hdr_alloc buf];
    fold (sds_type s1); try lia; try exact Hw1; try exact Hfb.
  set (s' := NiString _ _ _ _ _).
  assert (Ht' : sds_type s' = sds_type s1) by reflexivity.
  exists s', h1. split; [reflexivity|].
  rewrite !(len_wide s') by lia. cbn [hdr_len buf s'].
  split; [|split; [|reflexivity]].
  - apply valid_wide; fold (sds_type s1); rewrite ?zlength_insert; try lia.
    apply list_lookup_insert_eq. unfold zlength in *. lia.
  - rewrite take_insert. destruct (decide _); [lia|]. subst b.
    replace (Z.to_nat (hdr_len s1 + l)) with (Z.to_nat (hdr_len s1) + Z.to_nat l)%nat by lia.
    rewrite take_app_add' by (rewrite length_take; unfold zlength in *; lia).
    rewrite take_app_le by (rewrite length_take; unfold zlength in *; lia).
    rewrite take_take, Nat.min_id. reflexivity.
Qed.

Lemma refines_after_bytes f ap s1 h1 str l :
  valid s1 -> 1 <= sds_type s1 <= 4 -> 0 <= l <= zlength str ->
  fits (ni_string_len s1 + l) ->
  (forall s2 h2, valid s2 -> ni_string_len s2 = ni_string_len s1 + l ->
                 cat_fmt_refines f ap s2 h2) ->
  match (take (Z.to_nat l) str ++.) <$> fmt_spec f ap with
  | Some out =>
      exists s' h',
        (let* s := cat_fmt_bytes s1 (ni_string_len s1) str l in
         cat_fmt_loop f ap s (ni_string_len s1 + l)) h1 = Ok s' h' /\
        valid s' /\ content s' = content s1 ++ out
  | None =>
      exists e,
        (let* s := cat_fmt_bytes s1 (ni_string_len s1) str l in
         cat_fmt_loop f ap s (ni_string_len s1 + l)) h1 = Fault e
  end.
Proof.
  intros Hv Hw Hl Hfit IH.
  destruct (cat_fmt_bytes_ok s1 str l h1 Hv Hw Hl Hfit)
    as (s2 & h2 & Hr & Hv2 & Hc2 & Hl2).
  rewrite (bind_ok _ _ _ _ _ Hr). rewrite <- Hl2.
  specialize (IH s2 h2 Hv2 Hl2). unfold cat_fmt_refines in IH.
  destruct (fmt_spec f ap) as [out|]; cbn.
  - destruct IH as (s' & h' & Hr' & Hv' & Hc'). exists s', h'.
    split; [exact Hr'|]. split; [exact Hv'|].
    rewrite Hc', Hc2, <- app_assoc. reflexivity.
  - exact IH.
Qed.

Lemma refines_after_char f ap s1 h1 c :
  valid s1 -> 1 <= sds_type s1 <= 4 -> 1 <= ni_string_avail s1 ->
  (forall s2 h2, valid s2 -> ni_string_len s2 = ni_string_len s1 + 1 ->
                 cat_fmt_refines f ap s2 h2) ->
  match (c ::.) <$> fmt_spec f ap with
  | Some out =>
      exists s' h',
        (let* s := cat_fmt_char s1 (ni_string_len s1) c in
         cat_fmt_loop f ap s (ni_string_len s1 + 1)) h1 = Ok s' h' /\
        valid s' /\ content s' = content s1 ++ out
  | None =>
      exists e,
        (let* s := cat_fmt_char s1 (ni_string_len s1) c in
         cat_fmt_loop f ap s (ni_string_len s1 + 1)) h1 = Fault e
  end.
Proof.
  intros Hv Hw Ha IH.
  destruct (cat_fmt_char_ok s1 c h1 Hv Hw Ha) as (s2 & Hr & Hv2 & Hc2 & Hl2 & _).
  rewrite (bind_ok _ _ _ _ _ Hr). rewrite <- Hl2.
  specialize (IH s2 h1 Hv2 Hl2). unfold cat_fmt_refines in IH.
  destruct (fmt_spec f ap) as [out|]; cbn.
  - destruct IH as (s' & h' & Hr' & Hv' & Hc'). exists s', h'.
    split; [exact Hr'|]. split; [exact Hv'|].
    rewrite Hc', Hc2, <- app_assoc. reflexivity.
  - exact IH.
Qed.

Lemma to_int_range v : - 2 ^ 63 <= to_int v < 2 ^ 63.
Proof. unfold to_int. pose proof (Z.mod_pos_bound (v + 2 ^ 31) (2 ^ 32)). lia. Qed.

Lemma to_ssize_range v : - 2 ^ 63 <= to_ssize v < 2 ^ 63.
Proof. unfold to_ssize. pose proof (Z.mod_pos_bound (v + 2 ^ 63) (2 ^ 64)). lia. Qed.

Lemma to_uint_range v : 0 <= to_uint v.
Proof. unfold to_uint. pose proof (Z.mod_pos_bound v (2 ^ 32)). lia. Qed.

Lemma to_size_range v : 0 <= to_size v.
Proof. unfold to_size. pose proof (Z.mod_pos_bound v (2 ^ 64)). lia. Qed.

Lemma take_all {A} (l : list A) : take (Z.to_nat (zlength l)) l = l.
Proof. unfold zlength. rewrite Nat2Z.id. apply firstn_all. Qed.

Lemma zlength_cons {A} (x : A) l : zlength (x :: l) = zlength l + 1.
Proof. unfold zlength. cbn [length]. lia. Qed.

Lemma args_size_nonneg ap : 0 <= args_size ap.
Proof.
  induction ap as [|a ap IH]; cbn [args_size]; [lia|].
  assert (0 <= arg_size a); [|lia].
  destruct a; cbn; try lia; apply zlength_nonneg.
Qed.

Lemma cat_fmt_loop_refines n :
  forall f ap s h,
    (length f <= n)%nat -> valid s -> Forall arg_ok ap ->
    fits (ni_string_len s + fmt_bound f ap + 1) ->
    cat_fmt_refines f ap s h.
Proof.
  induction n as [n IHn] using lt_wf_ind.
  intros f ap s h Hn Hv Hap Hfit. unfold fits, fmt_bound in Hfit.
  pose proof (valid_bounds s Hv) as (Hl0 & Hla & _).
  pose proof (valid_buf_length s Hv) as Hbl.
  pose proof (args_size_nonneg ap) as Hsz.
  destruct f as [|c f']; unfold cat_fmt_refines.
  - cbn [fmt_spec cat_fmt_loop]. unfold bind, mem. rewrite mem_store_ok by lia.
    rewrite list_insert_id by (apply valid_terminator; exact Hv).
    exists (with_buf s (buf s)), h. split; [reflexivity|].
    destruct s as [b0 f0 l0 a0 d0]; cbn [with_buf blk flags hdr_len hdr_alloc buf].
    split; [exact Hv|]. rewrite app_nil_r. reflexivity.
  - rewrite zlength_cons in Hfit. pose proof (zlength_nonneg f') as Hf0.
    cbn [length] in Hn.
    cbn [fmt_spec cat_fmt_loop].
    destruct (bool_decide (c = x00)).
    { unfold bind, mem. rewrite mem_store_ok by lia.
      rewrite list_insert_id by (apply valid_terminator; exact Hv).
      exists (with_buf s (buf s)), h. split; [reflexivity|].
      destruct s as [b0 f0 l0 a0 d0];
        cbn [with_buf blk flags hdr_len hdr_alloc buf].
      split; [exact Hv|]. rewrite app_nil_r. reflexivity. }
    destruct (cat_fmt_room s h Hv) as (s1 & h1 & Hr & Hv1 & Hl1 & Hc1 & Ha1 & Hw1);
      [unfold fits; lia|].
    rewrite (bind_ok _ _ _ _ _ Hr). rewrite <- Hl1, <- Hc1.
    assert (IHc : forall f2 ap2 l, (length f2 < n)%nat -> Forall arg_ok ap2 ->
              l + fmt_bound f2 ap2 <= fmt_bound (c :: f') ap ->
              forall s2 h2, valid s2 -> ni_string_len s2 = ni_string_len s1 + l ->
                            cat_fmt_refines f2 ap2 s2 h2).
    { intros f2 ap2 l Hlt Hap2 Hb s2 h2 Hv2 Hl2.
      apply (IHn (length f2) Hlt); [lia|exact Hv2|exact Hap2|].
      unfold fits. unfold fmt_bound in Hb. rewrite zlength_cons in Hb.
      unfold fmt_bound. lia. }
    unfold fmt_bound in IHc. rewrite zlength_cons in IHc.
    destruct (bool_decide (c = "%"%byte)).
    + destruct f' as [|next f''].
      * (* the terminator after the percent sign *)
        apply refines_after_char; [exact Hv1|exact Hw1|exact Ha1|].
        apply IHc; [cbn [length] in *; lia|exact Hap|].
        change (zlength (@nil byte)) with 0. lia.
      * rewrite zlength_cons in Hfit, IHc. pose proof (zlength_nonneg f'') as Hf1.
        cbn [length] in Hn.
        repeat match goal with
               | |- context [bool_decide ?P] => destruct (bool_decide P)
               end.
        all: try (destruct ap as [|a ap']; [eexists; reflexivity|];
                  inversion Hap as [|? ? Ha Hap']; subst;
                  pose proof (args_size_nonneg ap') as Hsz';
                  cbn [args_size] in Hfit, IHc;
                  destruct a as [t|t|v|v|v|v]; try (eexists; reflexivity);
                  cbn [arg_size arg_ok] in Hfit, IHc, Ha).
        -- (* %s, a C string *)
           rewrite <- (take_strlen t). pose proof (strlen_bounds t).
           apply refines_after_bytes; [exact Hv1|exact Hw1|lia|unfold fits; lia|].
           apply IHc; [lia|exact Hap'|lia].
        -- (* %s, a string of the library *)
           rewrite <- (take_strlen (buf t)). pose proof (strlen_bounds (buf t)).
           apply refines_after_bytes; [exact Hv1|exact Hw1|lia|unfold fits; lia|].
           apply IHc; [lia|exact Hap'|lia].
        -- (* %S *)
           pose proof (valid_bounds t Ha) as (? & ? & _).
           pose proof (valid_buf_length t Ha).
           unfold content at 2.
           apply refines_after_bytes; [exact Hv1|exact Hw1|lia|unfold fits; lia|].
           apply IHc; [lia|exact Hap'|lia].
        -- (* %i *)
           rewrite (ni_string_ll2str_decimal (to_int v)) by apply to_int_range.
           pose proof (decimal_length (to_int v)).
           generalize (refines_after_bytes f'' ap' s1 h1 (decimal (to_int v))
                         (zlength (decimal (to_int v)))).
           rewrite take_all. intros R.
           apply R; [exact Hv1|exact Hw1|lia|unfold fits; lia|].
           apply IHc; [lia|exact Hap'|lia].
        -- (* %I *)
           rewrite (ni_string_ll2str_decimal (to_ssize v)) by apply to_ssize_range.
           pose proof (decimal_length (to_ssize v)).
           generalize (refines_after_bytes f'' ap' s1 h1 (decimal (to_ssize v))
                         (zlength (decimal (to_ssize v)))).
           rewrite take_all. intros R.
           apply R; [exact Hv1|exact Hw1|lia|unfold fits; lia|].
           apply IHc; [lia|exact Hap'|lia].
        -- (* %u *)
           rewrite (ni_string_ull2str_decimal (to_uint v)) by apply to_uint_range.
           pose proof (decimal_length (to_uint v)).
           generalize (refines_after_bytes f'' ap' s1 h1 (decimal (to_uint v))
                         (zlength (decimal (to_uint v)))).
           rewrite take_all. intros R.
           apply R; [exact Hv1|exact Hw1|lia|unfold fits; lia|].
           apply IHc; [lia|exact Hap'|lia].
        -- (* %U *)
           rewrite (ni_string_ull2str_decimal (to_size v)) by apply to_size_range.
           pose proof (decimal_length (to_size v)).
           generalize (refines_after_bytes f'' ap' s1 h1 (decimal (to_size v))
                         (zlength (decimal (to_size v)))).
           rewrite take_all. intros R.
           apply R; [exact Hv1|exact Hw1|lia|unfold fits; lia|].
           apply IHc; [lia|exact Hap'|lia].
        -- (* any other byte after the percent sign *)
           apply refines_after_char; [exact Hv1|exact Hw1|exact Ha1|].
           apply IHc; [lia|exact Hap|lia].
    + apply refines_after_char; [exact Hv1|exact Hw1|exact Ha1|].
      apply IHc; [lia|exact Hap|lia].
Qed.

Lemma ni_string_new_dashes :
  ni_string_new (bytes "--") heap0 =
    Ok example_dashes (Heap 2 [EvMalloc 1 4] (junk heap0)).
Proof. vm_compute. reflexivity. Qed.

Lemma cat_fmt_ok s fmt ap h :
  valid s -> Forall arg_ok ap ->
  fits (ni_string_len s + fmt_bound fmt ap + 1) ->
  match fmt_spec fmt ap with
  | Some out =>
      exists s' h',
        ni_string_cat_fmt s fmt ap h = Ok s' h' /\ valid s' /\
        content s' = content s ++ out
  | None => exists e, ni_string_cat_fmt s fmt ap h = Fault e
  end.
Proof.
  intros Hv Hap Hfit.
  exact (cat_fmt_loop_refines _ fmt ap s h (le_n _) Hv Hap Hfit).
Qed.




(** ** The invariants, after every mutating operation *)

Lemma remove_free_space_ok s h :
  valid s ->
  exists s' h', ni_string_remove_free_space s h = Ok s' h' /\ valid s'.
Proof.
  intros Hv. destruct (decide (ni_string_avail s = 0)) as [E|E].
  - exists s, h. split; [apply remove_free_space_noop; exact E|exact Hv].
  - destruct (remove_free_space_shrink s h Hv E) as (s' & h' & Hr & Hv' & _).
    exists s', h'. split; assumption.
Qed.

(** Every operation but [ni_string_incr_len] and [ni_string_cat_fmt]
    returns, and the handle returned is valid. *)
Lemma mutate_ok m s h :
  valid s -> in_range m s ->
  match m with
  | IncrLen _ | CatFmt _ _ => True
  | _ => exists s' h', mutate m s h = Ok s' h' /\ valid s'
  end.
Proof.
  intros Hv Hr. destruct m; cbn [mutate in_range] in *; try exact I.
  - destruct Hr as (Hl & Hf).
    destruct (cat_len_ok s t len h Hv Hl Hf) as (s' & h' & R & Hv' & _).
    exists s', h'. split; assumption.
  - destruct (cat_ok s t h Hv Hr) as (s' & h' & R & Hv' & _).
    exists s', h'. split; assumption.
  - destruct Hr as (Hvt & Hf).
    pose proof (valid_bounds t Hvt) as (? & ? & _).
    pose proof (valid_buf_length t Hvt).
    destruct (cat_len_ok s (buf t) (ni_string_len t) h Hv) as (s' & h' & R & Hv' & _);
      [lia|exact Hf|].
    exists s', h'. split; assumption.
  - destruct Hr as (Hl & Hf).
    destruct (cpy_len_ok s t len h Hv Hl Hf) as (s' & h' & R & Hv' & _).
    exists s', h'. split; assumption.
  - destruct (cpy_ok s t h Hv Hr) as (s' & h' & R & Hv' & _).
    exists s', h'. split; assumption.
  - destruct (grow_zero_ok s len h Hv Hr) as (s' & h' & R & Hv' & _).
    exists s', h'. split; assumption.
  - destruct (trim_ok s cset h Hv) as (s' & R & Hv' & _).
    exists s', h. split; assumption.
  - destruct Hr as (Ha & Hb).
    destruct (ni_string_range_ok s start end_ h Hv Ha Hb) as (s' & R & Hv' & _).
    exists s', h. split; assumption.
  - destruct Hr as (Ha & Hb & Hf).
    destruct (cat_vprintf_ok s fmt out h Hv Ha Hb Hf) as (s' & h' & R & Hv' & _).
    exists s', h'. split; assumption.
  - destruct Hr as (Ha & Hf).
    destruct (make_room_for_ok s addlen h Hv Ha Hf) as (s' & h' & R & Hv' & _).
    exists s', h'. split; assumption.
  - apply remove_free_space_ok. exact Hv.
Qed.

(** After a mutating operation that returns (append, copy, grow-zero,
    trim, range, incr_len, cat_fmt, cat_printf, make-room, shrink), called
    on a valid handle with arguments in range, the handle returned is valid:
    its length is at most its capacity and the byte at the offset of its
    length is 0.  Every one of them returns, [ni_string_incr_len] when its
    precondition holds on a header with a capacity field and
    [ni_string_cat_fmt] when the format and the arguments agree. *)
Theorem mutation_keeps_invariants m s h :
  valid s -> in_range m s ->
  (forall s' h',
     mutate m s h = Ok s' h' ->
     valid s' /\ ni_string_len s' <= ni_string_alloc s' /\
     byte_at s' (ni_string_len s') = Some x00) /\
  (accepted m s -> exists s' h', mutate m s h = Ok s' h').
Proof.
  intros Hv Hr.
  assert (Hinv : forall s', valid s' ->
            valid s' /\ ni_string_len s' <= ni_string_alloc s' /\
            byte_at s' (ni_string_len s') = Some x00).
  { intros s' Hv'. split; [exact Hv'|].
    split; [apply (valid_bounds s' Hv')|apply Hv']. }
  pose proof (mutate_ok m s h Hv Hr) as Hok.
  destruct m; cbn [accepted];
    try (destruct Hok as (s1 & h1 & R & Hv1);
         split; [intros s' h' E; rewrite R in E; injection E as <- <-;
                 apply Hinv, Hv1
                |intros _; exists s1, h1; exact R]).
  - (* ni_string_incr_len *)
    cbn [mutate in_range] in *. destruct Hr as (Hi & Hb). split.
    + intros s' h' E. apply Hinv.
      apply (incr_len_valid s incr h s' h' Hv Hi Hb E).
    + intros (Hw & Hp).
      destruct (incr_len_wide_ok s incr h Hv Hw Hp) as (s' & R & _).
      exists s', h. exact R.
  - (* ni_string_cat_fmt *)
    cbn [mutate in_range] in *. destruct Hr as (Hap & Hf).
    pose proof (cat_fmt_ok s fmt ap h Hv Hap Hf) as R.
    destruct (fmt_spec fmt ap) as [out|].
    + destruct R as (s1 & h1 & R & Hv1 & _).
      split; [intros s' h' E; rewrite R in E; injection E as <- <-; apply Hinv, Hv1
             |intros _; exists s1, h1; exact R].
    + destruct R as (e & R).
      split; [intros s' h' E; rewrite R in E; discriminate E
             |intros Hn; contradiction Hn; reflexivity].
Qed.

Lemma mutation_keeps_invariants_witness :
  valid example_wide /\ in_range (Cat (bytes "bar")) example_wide /\
  (forall s' h',
     mutate (Cat (bytes "bar")) example_wide heap0 = Ok s' h' ->
     valid s' /\ ni_string_len s' <= ni_string_alloc s' /\
     byte_at s' (ni_string_len s') = Some x00) /\
  (accepted (Cat (bytes "bar")) example_wide ->
   exists s' h', mutate (Cat (bytes "bar")) example_wide heap0 = Ok s' h').
Proof.
  assert (Hv : valid example_wide) by (apply validb_valid; reflexivity).
  assert (Hr : in_range (Cat (bytes "bar")) example_wide)
    by (unfold in_range, fits; vm_compute; discriminate).
  split; [exact Hv|]. split; [exact Hr|].
  exact (mutation_keeps_invariants (Cat (bytes "bar")) example_wide heap0 Hv Hr).
Defined.

(** C1: the sum [len + addlen] of [ni_string_make_room_for] is a [size_t]
    and is not checked.  The string "foo" that has grown by
    [ni_string_make_room_for(s, 2)] is a valid handle of type 8 with the
    length 3 and the capacity 10; on it the request [(size_t)-3] makes the
    sum 0, the block is resized to the 4 bytes of a header and a
    terminator, and the call returns a handle of length 3 and capacity 0,
    whose terminator is not in the block any more: neither
    [len <= alloc] nor the zero byte at the offset [len] holds. *)
Theorem make_room_for_overflow_breaks_invariants :
  exists s1 h1 s2 h2,
    (let* s := ni_string_new (bytes "foo") in ni_string_make_room_for s 2)
      heap0 = Ok s1 h1 /\
    valid s1 /\ sds_type s1 = NI_STRING_TYPE_8 /\
    ni_string_len s1 = 3 /\ ni_string_alloc s1 = 10 /\
    ni_string_make_room_for s1 (2 ^ 64 - 3) h1 = Ok s2 h2 /\
    events h2 = events h1 ++ [EvRealloc (blk s1) 4] /\
    ni_string_len s2 = 3 /\ ni_string_alloc s2 = 0 /\
    ~ ni_string_len s2 <= ni_string_alloc s2 /\
    byte_at s2 (ni_string_len s2) <> Some x00.
Proof.
  exists (NiString 2 1 3 10 (bytes "foo" ++ [x00] ++ replicate 7 xaa)),
         (Heap 3 [EvMalloc 1 5; EvMalloc 2 14; EvFree 1] (junk heap0)),
         (NiString 2 1 3 0 (bytes "f")),
         (Heap 3 [EvMalloc 1 5; EvMalloc 2 14; EvFree 1; EvRealloc 2 4]
               (junk heap0)).
  split; [vm_compute; reflexivity|].
  split; [apply validb_valid; vm_compute; reflexivity|].
  split; [reflexivity|]. split; [reflexivity|]. split; [reflexivity|].
  split; [vm_compute; reflexivity|].
  split; [reflexivity|]. split; [reflexivity|]. split; [reflexivity|].
  split; [vm_compute; intros H; apply H; reflexivity|].
  vm_compute. discriminate.
Qed.

(** ** [ni_string_split_len] *)

Lemma to_int_small z : - 2 ^ 31 <= z < 2 ^ 31 -> to_int z = z.
Proof. intros H. unfold to_int. rewrite Z.mod_small by lia. lia. Qed.


Lemma occurrences_scan_short n sep s :
  (length s < length sep)%nat -> occurrences_scan n sep s = 0.
Proof.
  revert s. induction n as [|n IH]; intros s Hs; [reflexivity|].
  destruct s as [|c s']; [reflexivity|]. cbn [occurrences_scan].
  unfold starts_with. rewrite bool_decide_eq_false_2.
  - apply IH. cbn [length] in Hs. lia.
  - intros E. apply (f_equal length) in E. rewrite length_take in E. lia.
Qed.

(** More steps than the bytes left change nothing. *)
Lemma split_spec_fuel n sep s cur :
  sep <> [] -> (length s <= n)%nat ->
  split_spec n sep s cur = split_spec (length s) sep s cur.
Proof.
  intros Hsep. revert n cur. 
  induction s as [s IH] using (induction_ltof1 _ (@length byte)); unfold ltof in IH.
  intros n cur Hn. destruct s as [|c s']; [destruct n; reflexivity|].
  destruct n as [|n]; [cbn [length] in Hn; lia|]. cbn [length split_spec] in *.
  destruct (starts_with sep (c :: s')) eqn:E.
  - f_equal.
    assert (Hd : (length (drop (length sep) (c :: s')) <= length s')%nat).
    { rewrite length_drop. cbn [length]. destruct sep; [congruence|]. cbn [length]. lia. }
    assert (Hlt : (length (drop (length sep) (c :: s')) < S (length s'))%nat) by lia.
    rewrite (IH _ Hlt n) by lia.
    rewrite (IH _ Hlt (length s')) by lia. reflexivity.
  - apply IH; lia.
Qed.



Lemma joined_cons sep t rest :
  rest <> [] -> joined sep (t :: rest) = t ++ sep ++ joined sep rest.
Proof. destruct rest; [congruence|reflexivity]. Qed.








Lemma span_prefix s len a b :
  0 <= a <= b -> b <= len -> span (take (Z.to_nat len) s) a b = span s a b.
Proof.
  intros Ha Hb. unfold span.
  replace (Z.to_nat len) with (Z.to_nat a + Z.to_nat (len - a))%nat by lia.
  rewrite <- take_drop_commute, take_take. f_equal. lia.
Qed.


Section split_len.
Variables (s sep : list byte) (len seplen : Z).
Hypothesis Hsep : 1 <= seplen <= zlength sep.
Hypothesis Hint : seplen < 2 ^ 31.
Hypothesis Hlen : 0 < len <= zlength s.
Hypothesis Hlen29 : len < 2 ^ 29.



End split_len.





(** ** The round trip of [ni_string_cat_repr] and [ni_string_split_args] *)

Lemma repr_char_nonzero c : Forall (fun b => b <> x00) (repr_char c).
Proof. destruct c; vm_compute; repeat (constructor; [discriminate|]); constructor. Qed.

Lemma repr_char_length c : 1 <= zlength (repr_char c) <= 4.
Proof. destruct c; vm_compute; split; discriminate. Qed.

(** In double quotes, the splitter reads what stands for a byte as that
    byte. *)
Lemma split_args_inq_step c tail cur vector argc :
  tail <> [] ->
  split_args_loop (repr_char c ++ tail) InQ (Some cur) vector argc =
    (let* cur := ni_string_cat_len cur [c] 1 in
     split_args_loop tail InQ (Some cur) vector argc).
Proof.
  intros Ht. destruct tail as [|t0 tail]; [congruence|]. clear Ht.
  destruct c; destruct tail as [|t1 [|t2 tail]]; reflexivity.
Qed.

Lemma c_str_nonzero l : Forall (fun b => b <> x00) l -> c_str l = l.
Proof.
  induction 1 as [|c l Hc _ IH]; cbn; [reflexivity|].
  destruct (decide (c = x00)); [contradiction|]. rewrite IH. reflexivity.
Qed.

(** The call [ni_string_cat_repr] makes for a byte: [ni_string_cat_len] or
    [ni_string_cat_printf], with the bytes of [repr_char]. *)
Lemma cat_repr_char_call c s :
  cat_repr_char s c = ni_string_cat_len s (repr_char c) (zlength (repr_char c)) \/
  exists fmt, zlength fmt <= 6 /\
              cat_repr_char s c = ni_string_cat_printf s fmt (repr_char c).
Proof.
  destruct c;
    first [left; reflexivity
          |right; eexists; split; [|reflexivity]; vm_compute; discriminate].
Qed.

Lemma cat_repr_char_ok s c h :
  valid s -> fits (ni_string_len s + 4) ->
  exists s' h',
    cat_repr_char s c h = Ok s' h' /\ valid s' /\
    content s' = content s ++ repr_char c.
Proof.
  intros Hv Hfit. unfold fits in Hfit.
  pose proof (repr_char_length c) as Hl.
  pose proof (repr_char_nonzero c) as Hnz.
  destruct (cat_repr_char_call c s) as [E|(fmt & Hf & E)]; rewrite E.
  - destruct (cat_len_ok s (repr_char c) (zlength (repr_char c)) h Hv)
      as (s' & h' & R & Hv' & Hc & _); [lia|unfold fits; lia|].
    exists s', h'. split; [exact R|]. split; [exact Hv'|].
    rewrite Hc. unfold zlength. rewrite Nat2Z.id, firstn_all. reflexivity.
  - pose proof (strlen_bounds (repr_char c)).
    destruct (cat_vprintf_ok s fmt (repr_char c) h Hv)
      as (s' & h' & R & Hv' & Hc & _); [lia|lia|unfold fits; lia|].
    exists s', h'. split; [exact R|]. split; [exact Hv'|].
    rewrite Hc, c_str_nonzero by exact Hnz. reflexivity.
Qed.

Lemma repr_body_length x : 0 <= zlength (repr_body x) <= 4 * zlength x.
Proof.
  induction x as [|c x IH]; [unfold zlength; cbn; lia|].
  unfold repr_body in *. cbn [map concat]. rewrite zlength_app, zlength_cons.
  pose proof (repr_char_length c). lia.
Qed.

Lemma repr_body_nonzero x : Forall (fun b => b <> x00) (repr_body x).
Proof.
  induction x as [|c x IH]; [constructor|].
  unfold repr_body in *. cbn [map concat]. apply Forall_app.
  split; [apply repr_char_nonzero|exact IH].
Qed.

Lemma cat_repr_loop_ok x :
  forall s h,
    valid s -> fits (ni_string_len s + 4 * zlength x) ->
    exists s' h',
      cat_repr_loop (length x) x s h = Ok s' h' /\ valid s' /\
      content s' = content s ++ repr_body x.
Proof.
  induction x as [|c x IH]; intros s h Hv Hfit.
  - exists s, h. split; [reflexivity|]. split; [exact Hv|].
    rewrite app_nil_r. reflexivity.
  - unfold fits in Hfit. rewrite zlength_cons in Hfit.
    pose proof (zlength_nonneg x).
    destruct (cat_repr_char_ok s c h Hv) as (s1 & h1 & R1 & Hv1 & Hc1);
      [unfold fits; lia|].
    assert (Hl1 : ni_string_len s1 <= ni_string_len s + 4).
    { rewrite <- (content_length s1 Hv1), <- (content_length s Hv), Hc1, zlength_app.
      pose proof (repr_char_length c). lia. }
    destruct (IH s1 h1 Hv1) as (s2 & h2 & R2 & Hv2 & Hc2); [unfold fits; lia|].
    exists s2, h2. cbn [length cat_repr_loop]. rewrite (bind_ok _ _ _ _ _ R1).
    split; [exact R2|]. split; [exact Hv2|].
    rewrite Hc2, Hc1, <- app_assoc. reflexivity.
Qed.

Lemma cat_repr_ok s x h :
  valid s -> fits (ni_string_len s + 4 * zlength x + 2) ->
  exists s' h',
    ni_string_cat_repr s x (zlength x) h = Ok s' h' /\ valid s' /\
    content s' = content s ++ escaped_repr x.
Proof.
  intros Hv Hfit. unfold fits in Hfit. pose proof (zlength_nonneg x).
  pose proof (valid_bounds s Hv) as (? & _).
  unfold ni_string_cat_repr.
  destruct (cat_len_ok s [x22] 1 h Hv) as (s1 & h1 & R1 & Hv1 & Hc1 & Hl1 & _);
    [unfold zlength; cbn; lia|unfold fits; lia|].
  rewrite (bind_ok _ _ _ _ _ R1).
  unfold zlength at 1. rewrite Nat2Z.id.
  destruct (cat_repr_loop_ok x s1 h1 Hv1) as (s2 & h2 & R2 & Hv2 & Hc2);
    [unfold fits; lia|].
  rewrite (bind_ok _ _ _ _ _ R2).
  assert (Hl2 : ni_string_len s2 <= ni_string_len s + 1 + 4 * zlength x).
  { rewrite <- (content_length s2 Hv2), Hc2, zlength_app, (content_length s1 Hv1).
    pose proof (repr_body_length x). lia. }
  pose proof (valid_bounds s2 Hv2) as (? & _).
  destruct (cat_len_ok s2 [x22] 1 h2 Hv2) as (s3 & h3 & R3 & Hv3 & Hc3 & _);
    [unfold zlength; cbn; lia|unfold fits; lia|].
  exists s3, h3. split; [exact R3|]. split; [exact Hv3|].
  rewrite Hc3, Hc2, Hc1. unfold escaped_repr. cbn [take Z.to_nat Pos.to_nat Pos.iter_op Nat.add].
  rewrite <- !app_assoc. reflexivity.
Qed.

Lemma split_args_inq_body x :
  forall cur h tail vector argc,
    tail <> [] -> valid cur -> fits (ni_string_len cur + zlength x) ->
    exists cur' h',
      valid cur' /\ content cur' = content cur ++ x /\
      split_args_loop (repr_body x ++ tail) InQ (Some cur) vector argc h =
        split_args_loop tail InQ (Some cur') vector argc h'.
Proof.
  induction x as [|c x IH]; intros cur h tail vector argc Ht Hv Hfit.
  - exists cur, h. split; [exact Hv|]. split; [|reflexivity].
    rewrite app_nil_r. reflexivity.
  - unfold fits in Hfit. rewrite zlength_cons in Hfit.
    pose proof (zlength_nonneg x).
    unfold repr_body. cbn [map concat]. rewrite <- app_assoc.
    fold (repr_body x).
    rewrite split_args_inq_step by (destruct (repr_body x); [exact Ht|discriminate]).
    destruct (cat_len_ok cur [c] 1 h Hv) as (cur1 & h1 & R1 & Hv1 & Hc1 & Hl1 & _);
      [unfold zlength; cbn; lia|unfold fits; lia|].
    rewrite (bind_ok _ _ _ _ _ R1).
    destruct (IH cur1 h1 tail vector argc Ht Hv1) as (cur2 & h2 & Hv2 & Hc2 & R2);
      [unfold fits; lia|].
    exists cur2, h2. split; [exact Hv2|]. split; [|exact R2].
    rewrite Hc2, Hc1, <- app_assoc. reflexivity.
Qed.

(** A double quote where a token may start opens a token in quotes. *)
Lemma split_args_open q vector argc :
  split_args_loop (x22 :: q) Blank None vector argc =
    (let* cur := ni_string_empty in
     split_args_loop q InQ (Some cur) vector argc).
Proof. reflexivity. Qed.

(** The closing quote, before a blank or at the end of the line, ends the
    token. *)
Lemma split_args_close rest cur vector argc :
  match rest with [] => True | sp :: _ => isspace sp = true end ->
  split_args_loop (x22 :: rest) InQ (Some cur) vector argc =
    (let* vector := split_args_push vector argc cur in
     split_args_loop rest Blank None vector (argc + 1)).
Proof.
  intros Hr. destruct rest as [|sp [|h1 [|h2 p4]]]; [reflexivity| | |].
  all: cbn [split_args_loop]; cbn [bool_decide decide_rel byte_eq_dec andb];
    try (rewrite Hr; reflexivity).
Qed.

Lemma split_args_blank rest cur vector argc :
  split_args_loop (x20 :: rest) Blank cur vector argc =
    split_args_loop rest Blank cur vector argc.
Proof. reflexivity. Qed.

Lemma split_args_push_ok vector argc cur h :
  match vector with Some (p, _) => p_off p = 0 | None => True end ->
  exists p h',
    p_off p = 0 /\
    split_args_push vector argc cur h
      = Ok (Some (p, vector_items vector ++ [cur])) h'.
Proof.
  intros Hp. unfold split_args_push, ni_string_realloc, ni_realloc.
  destruct vector as [[p items]|]; cbn [vector_ptr vector_items].
  - rewrite Hp. cbn [Z.eqb]. exists p. eexists. split; [exact Hp|reflexivity].
  - eexists (Ptr (next_blk h) 0), _. split; reflexivity.
Qed.

Lemma c_str_buf s :
  valid s -> Forall (fun b => b <> x00) (content s) -> c_str (buf s) = content s.
Proof.
  intros Hv Hnz. pose proof (valid_terminator s Hv) as Ht.
  rewrite <- (take_drop (Z.to_nat (ni_string_len s)) (buf s)) at 1.
  rewrite (drop_S _ _ _ Ht), c_str_app_zero. apply c_str_nonzero. exact Hnz.
Qed.

(** The line of one escaped string, read from where a token may start. *)
Lemma split_args_escaped x rest vector argc h :
  match rest with [] => True | sp :: _ => isspace sp = true end ->
  match vector with Some (p, _) => p_off p = 0 | None => True end ->
  fits (zlength x) ->
  exists t p h',
    valid t /\ content t = x /\ p_off p = 0 /\
    split_args_loop (escaped_repr x ++ rest) Blank None vector argc h =
      split_args_loop rest Blank None (Some (p, vector_items vector ++ [t]))
        (argc + 1) h'.
Proof.
  intros Hr Hp Hfit. unfold escaped_repr. cbn [app].
  rewrite split_args_open.
  destruct (empty_ok h) as (cur0 & h0 & R0 & Hv0 & Hc0 & Hl0 & _).
  rewrite (bind_ok _ _ _ _ _ R0). rewrite <- app_assoc. cbn [app].
  destruct (split_args_inq_body x cur0 h0 (x22 :: rest) vector argc)
    as (t & h1 & Hv1 & Hc1 & R1); [discriminate|exact Hv0| |].
  { rewrite Hl0. exact Hfit. }
  rewrite R1, split_args_close by exact Hr.
  destruct (split_args_push_ok vector argc t h1 Hp) as (p & h2 & Hp2 & R2).
  rewrite (bind_ok _ _ _ _ _ R2).
  exists t, p, h2. split; [exact Hv1|]. split; [rewrite Hc1, Hc0; reflexivity|].
  split; [exact Hp2|reflexivity].
Qed.

Lemma escaped_repr_nonzero x : Forall (fun b => b <> x00) (escaped_repr x).
Proof.
  unfold escaped_repr. apply Forall_app. split; [repeat constructor; discriminate|].
  apply Forall_app. split; [apply repr_body_nonzero|repeat constructor; discriminate].
Qed.

Lemma repr_line_ok x y h :
  fits (4 * (zlength x + zlength y) + 5) ->
  exists s h',
    repr_line x y h = Ok s h' /\ valid s /\
    content s = escaped_repr x ++ [x20] ++ escaped_repr y.
Proof.
  intros Hfit. unfold fits in Hfit.
  pose proof (zlength_nonneg x). pose proof (zlength_nonneg y).
  unfold repr_line.
  destruct (empty_ok h) as (s0 & h0 & R0 & Hv0 & Hc0 & Hl0 & _).
  rewrite (bind_ok _ _ _ _ _ R0).
  destruct (cat_repr_ok s0 x h0 Hv0) as (s1 & h1 & R1 & Hv1 & Hc1);
    [unfold fits; lia|].
  rewrite (bind_ok _ _ _ _ _ R1).
  assert (Hl1 : ni_string_len s1 <= 4 * zlength x + 2).
  { rewrite <- (content_length s1 Hv1), Hc1, Hc0. cbn [app]. unfold escaped_repr.
    rewrite !zlength_app. pose proof (repr_body_length x).
    unfold zlength at 1 3. cbn [length]. lia. }
  pose proof (valid_bounds s1 Hv1) as (? & _).
  destruct (cat_len_ok s1 [x20] 1 h1 Hv1) as (s2 & h2 & R2 & Hv2 & Hc2 & Hl2 & _);
    [unfold zlength; cbn; lia|unfold fits; lia|].
  rewrite (bind_ok _ _ _ _ _ R2).
  destruct (cat_repr_ok s2 y h2 Hv2) as (s3 & h3 & R3 & Hv3 & Hc3);
    [unfold fits; lia|].
  exists s3, h3. split; [exact R3|]. split; [exact Hv3|].
  rewrite Hc3, Hc2, Hc1, Hc0. cbn [app]. rewrite <- !app_assoc. reflexivity.
Qed.

(** C3: the line [ni_string_cat_repr] makes of two byte strings [x] and
    [y], a space between the two escaped strings, is read back by
    [ni_string_split_args] as two tokens, whose bytes are those of [x] and
    of [y], whatever the bytes are (zero bytes and bytes that do not print
    too). *)
Theorem repr_split_args_round_trip x y h :
  fits (4 * (zlength x + zlength y) + 5) ->
  exists s h1,
    repr_line x y h = Ok s h1 /\ valid s /\
    content s = escaped_repr x ++ [x20] ++ escaped_repr y /\
    exists t1 t2 h2,
      ni_string_split_args (buf s) h1 = Ok (Some [t1; t2], 2) h2 /\
      valid t1 /\ valid t2 /\ content t1 = x /\ content t2 = y.
Proof.
  intros Hfit.
  destruct (repr_line_ok x y h Hfit) as (s & h1 & R & Hv & Hc).
  exists s, h1. split; [exact R|]. split; [exact Hv|]. split; [exact Hc|].
  unfold fits in Hfit.
  pose proof (zlength_nonneg x). pose proof (zlength_nonneg y).
  unfold ni_string_split_args. rewrite (c_str_buf s Hv).
  2: { rewrite Hc. apply Forall_app. split; [apply escaped_repr_nonzero|].
       apply Forall_app. split; [repeat constructor; discriminate|].
       apply escaped_repr_nonzero. }
  rewrite Hc.
  destruct (split_args_escaped x ([x20] ++ escaped_repr y) None 0 h1)
    as (t1 & p1 & h2 & Hv1 & Hc1 & Hp1 & R1); [reflexivity|exact I|unfold fits; lia|].
  rewrite R1. cbn [app vector_items]. rewrite split_args_blank.
  rewrite <- (app_nil_r (escaped_repr y)).
  destruct (split_args_escaped y [] (Some (p1, [t1])) (0 + 1) h2)
    as (t2 & p2 & h3 & Hv2 & Hc2 & Hp2 & R2); [exact I|exact Hp1|unfold fits; lia|].
  rewrite R2. cbn [app vector_items].
  exists t1, t2, h3. split; [reflexivity|].
  split; [exact Hv1|]. split; [exact Hv2|]. split; [exact Hc1|exact Hc2].
Qed.

Lemma repr_split_args_round_trip_witness :
  fits (4 * (zlength [x00; x07; xff] + zlength (bytes "a b")) + 5) /\
  exists s h1,
    repr_line [x00; x07; xff] (bytes "a b") heap0 = Ok s h1 /\ valid s /\
    content s = escaped_repr [x00; x07; xff] ++ [x20] ++ escaped_repr (bytes "a b") /\
    exists t1 t2 h2,
      ni_string_split_args (buf s) h1 = Ok (Some [t1; t2], 2) h2 /\
      valid t1 /\ valid t2 /\
      content t1 = [x00; x07; xff] /\ content t2 = bytes "a b".
Proof.
  assert (Hfit : fits (4 * (zlength [x00; x07; xff] + zlength (bytes "a b")) + 5))
    by (unfold fits; vm_compute; discriminate).
  split; [exact Hfit|].
  exact (repr_split_args_round_trip [x00; x07; xff] (bytes "a b") heap0 Hfit).
Defined.

(** ** The error path of [ni_string_split_args] *)

(** A line of blanks only (the empty line is one) gives an array without
    a token, not NULL, and the count 0. *)
Lemma split_args_blank_line line h :
  Forall (fun c => isspace c = true) (c_str line) ->
  ni_string_split_args line h =
    Ok (Some [], 0)
       (Heap (next_blk h + 1) (events h ++ [EvMalloc (next_blk h) 8]) (junk h)).
Proof.
  unfold ni_string_split_args. generalize (c_str line) as p.
  induction p as [|c p IH]; intros Hb.
  - reflexivity.
  - inversion Hb as [|? ? Hc Hp]; subst. cbn [split_args_loop].
    rewrite Hc. apply IH, Hp.
Qed.

(** [free] does not accept the handle of a valid string: the handle is
    past the header of its block. *)
Lemma ptr_free_handle t h :
  valid t -> ni_string_ptr_free (Some (handle_ptr t)) h = Fault InvalidFree.
Proof.
  intros Hv. unfold ni_string_ptr_free, ni_free, handle_ptr. cbn [p_off].
  pose proof (hdr_size_range (sds_type t) ltac:(apply Hv)) as Hh.
  rewrite <- hdr_size_type in Hh.
  destruct (Z.eqb_spec (ni_string_hdr_size (flags t)) 0); [lia|reflexivity].
Qed.

Lemma free_tokens_fault toks h :
  Forall valid toks ->
  free_tokens toks h = Ok tt h \/ free_tokens toks h = Fault InvalidFree.
Proof.
  intros Hv. destruct Hv as [|t toks Ht _]; [left; reflexivity|right].
  cbn [free_tokens]. unfold bind. rewrite (ptr_free_handle t h Ht). reflexivity.
Qed.

(** The label [err], reached with a token under construction, does not
    return. *)
Lemma split_args_err_fault vector cur h :
  valid cur -> Forall valid (vector_items vector) ->
  split_args_err vector (Some cur) h = Fault InvalidFree.
Proof.
  intros Hc Hv. unfold split_args_err.
  destruct (free_tokens_fault (rev (vector_items vector)) h) as [E|E];
    [apply Forall_rev; exact Hv| |]; unfold bind at 1; rewrite E; [|reflexivity].
  unfold bind at 1.
  destruct (ni_string_ptr_free (vector_ptr vector) h) as [[] h1|e] eqn:Ep.
  - unfold bind. rewrite (ptr_free_handle cur h1 Hc). reflexivity.
  - unfold ni_string_ptr_free, ni_free in Ep.
    destruct (vector_ptr vector) as [q|]; [|discriminate Ep].
    destruct (p_off q =? 0); [discriminate Ep|]. injection Ep as <-. reflexivity.
Qed.

(** C4: where the claim has the NULL result, the count 0 and the tokens
    freed, the label [err] of [ni_string_split_args] passes the handles of
    the tokens to [free]; a handle is not the start of its block, and the
    call stops there.  So it is on the lines the description of the
    function gives for the two errors: the quote that is not closed and the
    closing quote before a byte that is no blank, and also when a token is
    in the array already. *)
Theorem split_args_malformed_invalid_free :
  (forall vector cur h,
     valid cur -> Forall valid (vector_items vector) ->
     split_args_err vector (Some cur) h = Fault InvalidFree) /\
  ni_string_split_args (x22 :: bytes "foo") heap0 = Fault InvalidFree /\
  ni_string_split_args (x22 :: bytes "foo" ++ x22 :: bytes "bar") heap0
    = Fault InvalidFree /\
  ni_string_split_args (bytes "a 'foo") heap0 = Fault InvalidFree.
Proof.
  split; [exact split_args_err_fault|].
  split; [|split]; vm_compute; reflexivity.
Qed.

Lemma split_args_malformed_invalid_free_witness :
  valid example_wide /\ Forall valid (vector_items (Some (Ptr 2 0, [example_ciao]))) /\
  split_args_err (Some (Ptr 2 0, [example_ciao])) (Some example_wide) heap0
    = Fault InvalidFree.
Proof.
  assert (Hc : valid example_wide) by (apply validb_valid; reflexivity).
  assert (Hv : Forall valid (vector_items (Some (Ptr 2 0, [example_ciao]))))
    by (constructor; [apply validb_valid; reflexivity|constructor]).
  split; [exact Hc|]. split; [exact Hv|].
  exact (proj1 split_args_malformed_invalid_free
           (Some (Ptr 2 0, [example_ciao])) example_wide heap0 Hc Hv).
Defined.

(** ** The tests of the repository, and an example of its comments, run
       on the model *)

Example test_new :
  observe (ni_string_new (bytes "foo")) = Some (bytes "foo", 3).
Proof. vm_compute. reflexivity. Qed.

Example test_new_len :
  observe (ni_string_new_len (InitData (bytes "foo")) 2) = Some (bytes "fo", 2).
Proof. vm_compute. reflexivity. Qed.

Example test_cat :
  observe (let* x := ni_string_new_len (InitData (bytes "foo")) 2 in
           ni_string_cat x (bytes "bar")) = Some (bytes "fobar", 5).
Proof. vm_compute. reflexivity. Qed.

Example test_cpy_shorter :
  observe (let* x := ni_string_new_len (InitData (bytes "foo")) 2 in
           let* x := ni_string_cat x (bytes "bar") in
           ni_string_cpy x (bytes "a")) = Some (bytes "a", 1).
Proof. vm_compute. reflexivity. Qed.

Example test_cpy_longer :
  observe (let* x := ni_string_new (bytes "a") in
           ni_string_cpy x (bytes "xyzxxxxxxxxxxyyyyyyyyyykkkkkkkkkk"))
  = Some (bytes "xyzxxxxxxxxxxyyyyyyyyyykkkkkkkkkk", 33).
Proof. vm_compute. reflexivity. Qed.

Example test_cat_printf :
  observe (let* x := ni_string_empty in
           ni_string_cat_printf x (bytes "%d") (bytes "123"))
  = Some (bytes "123", 3).
Proof. vm_compute. reflexivity. Qed.

Example test_cat_fmt_unsigned :
  observe (let* x := ni_string_new (bytes "--") in
           ni_string_cat_fmt x (bytes "%u,%U--")
             [ArgUInt (2 ^ 32 - 1); ArgULL (2 ^ 64 - 1)])
  = Some (bytes "--4294967295,18446744073709551615--", 35).
Proof. vm_compute. reflexivity. Qed.

Example test_trim_all :
  observe (let* x := ni_string_new (bytes " x ") in ni_string_trim x (bytes " x"))
  = Some ([], 0).
Proof. vm_compute. reflexivity. Qed.

Example test_trim_one :
  observe (let* x := ni_string_new (bytes " x ") in ni_string_trim x (bytes " "))
  = Some (bytes "x", 1).
Proof. vm_compute. reflexivity. Qed.

Example test_trim :
  observe (let* x := ni_string_new (bytes "xxciaoyyy") in
           ni_string_trim x (bytes "xy")) = Some (bytes "ciao", 4).
Proof. vm_compute. reflexivity. Qed.

Example test_range_1_m1 :
  observe (ni_string_range example_ciao 1 (-1)) = Some (bytes "iao", 3).
Proof. vm_compute. reflexivity. Qed.

Example test_range_1_100 :
  observe (ni_string_range example_ciao 1 100) = Some (bytes "iao", 3).
Proof. vm_compute. reflexivity. Qed.

Example test_range_100_100 :
  observe (ni_string_range example_ciao 100 100) = Some ([], 0).
Proof. vm_compute. reflexivity. Qed.

Example test_cat_repr :
  observe (let* x := ni_string_new_len
                       (InitData [x07; x0a; x00; "f"; "o"; "o"; x0d]%byte) 7 in
           let* y := ni_string_empty in
           ni_string_cat_repr y (buf x) (ni_string_len x))
  = Some (x22 :: bytes "\a\n\x00foo\r" ++ [x22], 15).
Proof. vm_compute. reflexivity. Qed.

Example test_new_avail :
  match ni_string_new (bytes "0") heap0 with
  | Ok x _ => ni_string_len x = 1 /\ ni_string_avail x = 0
  | Fault _ => False
  end.
Proof. vm_compute. split; reflexivity. Qed.

Example split_args_tokens :
  match ni_string_split_args (bytes "foo bar 'a b'  ") heap0 with
  | Ok (Some toks, argc) _ =>
      map content toks = [bytes "foo"; bytes "bar"; bytes "a b"] /\ argc = 3
  | _ => False
  end.
Proof. vm_compute. split; reflexivity. Qed.

(** * Further properties of the string library *)

(** ** Creation: [ni_string_new_len], [ni_string_dup],
       [ni_string_update_len], [ni_string_alloc_size] *)

Lemma alloc_size_eq s :
  valid s ->
  ni_string_alloc_size s =
    ni_string_hdr_size (sds_type s) + ni_string_alloc s + 1.
Proof.
  intros Hv. unfold ni_string_alloc_size.
  pose proof (valid_bounds s Hv) as (? & ? & ?).
  pose proof (hdr_size_range (sds_type s) ltac:(apply Hv)).
  rewrite hdr_size_type. apply to_size_small. lia.
Qed.



(** [ni_string_dup] returns a valid string in a block of its own with the
    bytes and the length of the original (zero bytes inside are copied
    too); the copy has no spare room.  Its header type is the one
    [ni_string_new_len] chooses: type 8 for the empty string, which never
    gets type 5, and otherwise the smallest type that holds the length, so
    it need not be that of the original. *)
Theorem ni_string_dup_copies s h :
  valid s -> fits (ni_string_len s) ->
  exists s',
    ni_string_dup s h =
      Ok s' (Heap (next_blk h + 1)
               (events h ++ [EvMalloc (next_blk h) (ni_string_alloc_size s')])
               (junk h)) /\
    valid s' /\ blk s' = next_blk h /\
    content s' = content s /\ ni_string_len s' = ni_string_len s /\
    ni_string_avail s' = 0 /\
    sds_type s' = (if ni_string_len s =? 0 then NI_STRING_TYPE_8
                   else ni_string_req_type (ni_string_len s)).
Proof.
  intros Hv Hfit.
  pose proof (valid_bounds s Hv) as (H0 & Hla & _).
  pose proof (valid_buf_length s Hv) as Hb.
  destruct (new_len_full (InitData (buf s)) (ni_string_len s) h H0 Hfit)
    as (s' & R & Hv' & Hl & Ht & Ha & Hbk & _ & Hc); [lia|].
  exists s'. unfold ni_string_dup. rewrite (alloc_size_eq s' Hv'), Ha.
  split; [exact R|]. split; [exact Hv'|]. split; [exact Hbk|].
  split; [exact Hc|]. split; [exact Hl|].
  split; [rewrite (avail_eq s' Hv'); lia|exact Ht].
Qed.

Lemma ni_string_dup_copies_witness :
  valid example_wide /\ fits (ni_string_len example_wide) /\
  exists s',
    ni_string_dup example_wide heap0 =
      Ok s' (Heap (next_blk heap0 + 1)
               (events heap0 ++ [EvMalloc (next_blk heap0) (ni_string_alloc_size s')])
               (junk heap0)) /\
    valid s' /\ blk s' = next_blk heap0 /\
    content s' = content example_wide /\
    ni_string_len s' = ni_string_len example_wide /\
    ni_string_avail s' = 0 /\
    sds_type s' = (if ni_string_len example_wide =? 0 then NI_STRING_TYPE_8
                   else ni_string_req_type (ni_string_len example_wide)).
Proof.
  assert (Hv : valid example_wide) by (apply validb_valid; reflexivity).
  assert (Hf : fits (ni_string_len example_wide))
    by (unfold fits; vm_compute; discriminate).
  split; [exact Hv|]. split; [exact Hf|].
  exact (ni_string_dup_copies example_wide heap0 Hv Hf).
Defined.

Lemma c_str_lookup l :
  x00 ∈ l -> l !! length (c_str l) = Some x00.
Proof.
  induction l as [|c l IH]; intros Hin.
  - inversion Hin.
  - cbn [c_str]. destruct (decide (c = x00)) as [->|Hc]; [reflexivity|].
    cbn [length]. apply IH. apply elem_of_cons in Hin as [E|Hin]; [congruence|exact Hin].
Qed.

Lemma c_str_idemp l : c_str (c_str l) = c_str l.
Proof.
  induction l as [|c l IH]; [reflexivity|]. cbn [c_str].
  destruct (decide (c = x00)) as [->|Hc]; [reflexivity|].
  cbn [c_str]. destruct (decide (c = x00)); [contradiction|]. rewrite IH. reflexivity.
Qed.

Lemma c_str_buf_content s :
  valid s -> c_str (buf s) = c_str (content s).
Proof.
  intros Hv. pose proof (valid_terminator s Hv) as Ht.
  rewrite <- (take_drop (Z.to_nat (ni_string_len s)) (buf s)) at 1.
  rewrite (drop_S _ _ _ Ht). apply c_str_app_zero.
Qed.

Lemma with_buf_id s : with_buf s (buf s) = s.
Proof. destruct s; reflexivity. Qed.

(** [ni_string_update_len] on a valid string cuts it at its first zero
    byte: the bytes before it are kept as the content, the length is what
    [strlen] gives, never more than before; a string without a zero byte
    inside is left as it is.  Nothing is allocated or moved. *)
Theorem ni_string_update_len_cuts s h :
  valid s ->
  exists s',
    ni_string_update_len s h = Ok s' h /\ valid s' /\
    content s' = c_str (content s) /\
    ni_string_len s' = strlen (content s) /\
    ni_string_len s' <= ni_string_len s /\
    buf s' = buf s /\ blk s' = blk s /\ sds_type s' = sds_type s /\
    (x00 ∉ content s -> content s' = content s).
Proof.
  intros Hv.
  pose proof (valid_bounds s Hv) as (H0 & Hla & _).
  pose proof (valid_buf_length s Hv) as Hb.
  pose proof (valid_terminator s Hv) as Ht.
  assert (Hin : x00 ∈ buf s) by (eapply list_elem_of_lookup_2; exact Ht).
  unfold ni_string_update_len. rewrite bool_decide_eq_true_2 by exact Hin.
  unfold bind, ret.
  assert (Hs : strlen (buf s) = strlen (content s))
    by (unfold strlen; rewrite (c_str_buf_content s Hv); reflexivity).
  assert (Hle : 0 <= strlen (content s) <= ni_string_len s).
  { pose proof (strlen_bounds (content s)) as Hsb.
    rewrite (content_length s Hv) in Hsb. exact Hsb. }
  rewrite Hs.
  destruct (set_len_valid s (strlen (content s)) (buf s) Hv)
    as (Hv' & Hl' & Hb' & Ht' & Hk' & _); [lia|exact Hb| |].
  { rewrite <- Hs. unfold strlen, zlength. rewrite Nat2Z.id.
    apply c_str_lookup, Hin. }
  rewrite with_buf_id in *.
  set (s' := ni_string_set_len s (strlen (content s))) in *.
  exists s'. split; [reflexivity|]. split; [exact Hv'|].
  assert (Hc : content s' = c_str (content s)).
  { unfold content at 1. rewrite Hl', Hb', <- Hs, take_strlen.
    apply c_str_buf_content, Hv. }
  split; [exact Hc|]. split; [exact Hl'|]. split; [lia|].
  split; [exact Hb'|]. split; [exact Hk'|]. split; [exact Ht'|].
  intros Hn. rewrite Hc. apply c_str_nonzero.
  apply Forall_forall. intros b Hbin ->. contradiction.
Qed.

Lemma ni_string_update_len_cuts_witness :
  valid example_type32 /\
  exists s',
    ni_string_update_len example_type32 heap0 = Ok s' heap0 /\ valid s' /\
    content s' = c_str (content example_type32) /\
    ni_string_len s' = strlen (content example_type32) /\
    ni_string_len s' <= ni_string_len example_type32 /\
    buf s' = buf example_type32 /\ blk s' = blk example_type32 /\
    sds_type s' = sds_type example_type32 /\
    (x00 ∉ content example_type32 -> content s' = content example_type32).
Proof.
  assert (Hv : valid example_type32) by (apply validb_valid; reflexivity).
  split; [exact Hv|]. exact (ni_string_update_len_cuts example_type32 heap0 Hv).
Defined.

(** [ni_string_alloc_size] is the size of the block: when
    [ni_string_make_room_for] grows a string and when
    [ni_string_remove_free_space] shrinks one, the size the allocator is
    asked for is what [ni_string_alloc_size] gives for the string returned.
    The call is a [realloc] of the same block exactly when the header type
    of the result is that of the argument, and a [malloc] of a new block,
    the old one being freed, exactly when the type changes; the type of the
    result is the one the function computes from the new capacity. *)
Theorem ni_string_alloc_size_is_block_size s h :
  valid s ->
  (forall addlen,
     ni_string_avail s < addlen -> fits (ni_string_len s + addlen) ->
     exists s' h',
       ni_string_make_room_for s addlen h = Ok s' h' /\
       sds_type s' = grown_type (grown_len (ni_string_len s) addlen) /\
       (if sds_type s' =? sds_type s
        then blk s' = blk s /\
             events h' = events h ++ [EvRealloc (blk s) (ni_string_alloc_size s')]
        else blk s' = next_blk h /\
             events h' = events h ++ [EvMalloc (next_blk h) (ni_string_alloc_size s');
                                      EvFree (blk s)])) /\
  (ni_string_avail s <> 0 ->
   exists s' h',
     ni_string_remove_free_space s h = Ok s' h' /\
     sds_type s' = (if shrink_keeps s then sds_type s
                    else ni_string_req_type (ni_string_len s)) /\
     (if sds_type s' =? sds_type s
      then blk s' = blk s /\
           events h' = events h ++ [EvRealloc (blk s) (ni_string_alloc_size s')]
      else blk s' = next_blk h /\
           events h' = events h ++ [EvMalloc (next_blk h) (ni_string_alloc_size s');
                                    EvFree (blk s)])).
Proof.
  intros Hv. split.
  - intros addlen Ha Hfit.
    destruct (make_room_for_grow s addlen h Hv Ha Hfit)
      as (s' & h' & R & Hv' & Ht & _ & Hal & _ & _ & _ & He).
    exists s', h'. split; [exact R|]. split; [exact Ht|].
    rewrite (alloc_size_eq s' Hv'), Ht, Hal.
    rewrite (Z.eqb_sym (grown_type _)). exact He.
  - intros Ha.
    destruct (remove_free_space_shrink s h Hv Ha)
      as (s' & h' & R & Hv' & Ht & _ & Hal & _ & He).
    exists s', h'. split; [exact R|]. split; [exact Ht|].
    rewrite (alloc_size_eq s' Hv'), Ht, Hal.
    unfold shrink_keeps in *.
    destruct (Z.eqb_spec (sds_type s) (ni_string_req_type (ni_string_len s)))
      as [E|E]; cbn [orb] in *.
    + rewrite Z.eqb_refl. exact He.
    + destruct (ni_string_req_type (ni_string_len s) >? 1).
      * rewrite Z.eqb_refl. exact He.
      * destruct (Z.eqb_spec (ni_string_req_type (ni_string_len s)) (sds_type s));
          [congruence|exact He].
Qed.

Lemma ni_string_alloc_size_is_block_size_witness :
  valid example_wide /\
  ni_string_avail example_wide < 20 /\ fits (ni_string_len example_wide + 20) /\
  exists s' h',
    ni_string_make_room_for example_wide 20 heap0 = Ok s' h' /\
    sds_type s' = grown_type (grown_len (ni_string_len example_wide) 20) /\
    (if sds_type s' =? sds_type example_wide
     then blk s' = blk example_wide /\
          events h' = events heap0
                      ++ [EvRealloc (blk example_wide) (ni_string_alloc_size s')]
     else blk s' = next_blk heap0 /\
          events h' = events heap0
                      ++ [EvMalloc (next_blk heap0) (ni_string_alloc_size s');
                          EvFree (blk example_wide)]).
Proof.
  assert (Hv : valid example_wide) by (apply validb_valid; reflexivity).
  assert (Ha : ni_string_avail example_wide < 20) by reflexivity.
  assert (Hf : fits (ni_string_len example_wide + 20))
    by (unfold fits; vm_compute; discriminate).
  split; [exact Hv|].
  split; [exact Ha|]. split; [exact Hf|].
  exact (proj1 (ni_string_alloc_size_is_block_size example_wide heap0 Hv) 20 Ha Hf).
Defined.

(** ** Appending and copying *)




(** With capacity for [len] bytes, [ni_string_cpy_len] works in place. *)
Lemma cpy_len_inplace s t len h s' h' :
  valid s -> 0 <= len <= ni_string_alloc s ->
  ni_string_cpy_len s t len h = Ok s' h' ->
  h' = h /\ blk s' = blk s /\ sds_type s' = sds_type s.
Proof.
  intros Hv Hl R.
  pose proof (valid_buf_length s Hv) as Hb.
  unfold ni_string_cpy_len in R.
  destruct (Z.ltb_spec (ni_string_alloc s) len); [lia|].
  apply bind_inv in R as (s1 & h1 & R0 & R). apply ret_inv in R0 as (-> & ->).
  apply bind_inv in R as (b & h1 & R1 & R). apply mem_inv in R1 as (R1 & ->).
  apply bind_inv in R as (b' & h2 & R2 & R). apply mem_inv in R2 as (R2 & ->).
  apply ret_inv in R as (-> & ->).
  apply mem_store_inv in R2 as (Hi & ->).
  unfold memcpy in R1.
  destruct (bool_decide _) eqn:E in R1; [|discriminate R1].
  apply bool_decide_eq_true_1 in E. injection R1 as <-.
  set (b := take (Z.to_nat len) t ++ _) in *.
  assert (Hbl : zlength b = zlength (buf s)).
  { subst b. rewrite !zlength_app, !zlength_take, zlength_drop by lia. lia. }
  destruct (set_len_valid s len (<[Z.to_nat len := x00]> b))
    as (_ & _ & _ & Ht' & Hk' & _); [exact Hv|lia| | |].
  - rewrite zlength_insert. lia.
  - apply list_lookup_insert_eq. unfold zlength in *. lia.
  - split; [reflexivity|]. split; [exact Hk'|exact Ht'].
Qed.

(** [ni_string_cpy_len] makes the [len] bytes at [t] the content of the
    string, whatever it held; a string whose capacity is at least [len] is
    overwritten in place, without a call to the allocator.
    [ni_string_cpy] copies a C string up to its terminator. *)
Theorem ni_string_cpy_len_overwrites s h :
  valid s ->
  (forall t len,
     0 <= len <= zlength t -> fits len ->
     exists s' h',
       ni_string_cpy_len s t len h = Ok s' h' /\ valid s' /\
       content s' = take (Z.to_nat len) t /\ ni_string_len s' = len /\
       (len <= ni_string_alloc s ->
        h' = h /\ blk s' = blk s /\ sds_type s' = sds_type s)) /\
  (forall t,
     fits (strlen t) ->
     exists s' h',
       ni_string_cpy s t h = Ok s' h' /\ valid s' /\ content s' = c_str t).
Proof.
  intros Hv. split.
  - intros t len Hl Hfit.
    destruct (cpy_len_ok s t len h Hv Hl Hfit) as (s' & h' & R & Hv' & Hc & Hn).
    exists s', h'. split; [exact R|]. split; [exact Hv'|]. split; [exact Hc|].
    split; [exact Hn|]. intros Ha.
    apply (cpy_len_inplace s t len h s' h' Hv); [lia|exact R].
  - intros t Hfit.
    destruct (cpy_ok s t h Hv Hfit) as (s' & h' & R & Hv' & Hc & _).
    exists s', h'. split; [exact R|]. split; [exact Hv'|exact Hc].
Qed.

Lemma ni_string_cpy_len_overwrites_witness :
  valid example_wide /\
  0 <= 2 <= zlength (bytes "bar") /\ fits 2 /\
  exists s' h',
    ni_string_cpy_len example_wide (bytes "bar") 2 heap0 = Ok s' h' /\ valid s' /\
    content s' = take (Z.to_nat 2) (bytes "bar") /\ ni_string_len s' = 2 /\
    (2 <= ni_string_alloc example_wide ->
     h' = heap0 /\ blk s' = blk example_wide /\
     sds_type s' = sds_type example_wide).
Proof.
  assert (Hv : valid example_wide) by (apply validb_valid; reflexivity).
  assert (Hl : 0 <= 2 <= zlength (bytes "bar")) by (vm_compute; split; discriminate).
  assert (Hf : fits 2) by (unfold fits; lia).
  split; [exact Hv|]. split; [exact Hl|]. split; [exact Hf|].
  exact (proj1 (ni_string_cpy_len_overwrites example_wide heap0 Hv) (bytes "bar") 2 Hl Hf).
Defined.



(** [ni_string_cat_printf] appends the whole text the C library makes of
    the format and its arguments, up to its terminator, however long it
    is: the buffer the text is made in is replaced by one of twice the size
    until the text fits. *)
Theorem ni_string_cat_printf_appends s fmt out h :
  valid s -> zlength fmt < 2 ^ 62 -> zlength out < 2 ^ 62 ->
  fits (ni_string_len s + strlen out) ->
  exists s' h',
    ni_string_cat_printf s fmt out h = Ok s' h' /\ valid s' /\
    content s' = content s ++ c_str out /\
    ni_string_len s' = ni_string_len s + strlen out.
Proof. exact (cat_vprintf_ok s fmt out h). Qed.

Lemma ni_string_cat_printf_appends_witness :
  valid example_wide /\ zlength (bytes "%d") < 2 ^ 62 /\
  zlength (bytes "123") < 2 ^ 62 /\
  fits (ni_string_len example_wide + strlen (bytes "123")) /\
  exists s' h',
    ni_string_cat_printf example_wide (bytes "%d") (bytes "123") heap0
      = Ok s' h' /\ valid s' /\
    content s' = content example_wide ++ c_str (bytes "123") /\
    ni_string_len s' = ni_string_len example_wide + strlen (bytes "123").
Proof.
  assert (Hv : valid example_wide) by (apply validb_valid; reflexivity).
  assert (H1 : zlength (bytes "%d") < 2 ^ 62) by reflexivity.
  assert (H2 : zlength (bytes "123") < 2 ^ 62) by reflexivity.
  assert (Hf : fits (ni_string_len example_wide + strlen (bytes "123")))
    by (unfold fits; vm_compute; discriminate).
  split; [exact Hv|]. split; [exact H1|]. split; [exact H2|]. split; [exact Hf|].
  exact (ni_string_cat_printf_appends example_wide (bytes "%d") (bytes "123")
           heap0 Hv H1 H2 Hf).
Defined.

(** *** Numbers *)

Lemma decimal_digits_bound fuel v k :
  0 <= v < 10 ^ Z.of_nat (S k) ->
  (length (decimal_digits fuel v) <= S k)%nat.
Proof.
  revert v k. induction fuel as [|fuel IH]; intros v k Hv; [cbn; lia|].
  cbn [decimal_digits]. rewrite length_app. cbn [length].
  destruct (Z.ltb_spec v 10); [cbn [length]; lia|].
  destruct k as [|k]; [change (10 ^ Z.of_nat 1) with 10 in Hv; lia|].
  assert (Hq : 0 <= v / 10 < 10 ^ Z.of_nat (S k)).
  { split; [apply Z.div_pos; lia|].
    apply Z.div_lt_upper_bound; [lia|].
    replace (Z.of_nat (S (S k))) with (Z.succ (Z.of_nat (S k))) in Hv by lia.
    rewrite Z.pow_succ_r in Hv by lia. lia. }
  specialize (IH (v / 10) k Hq). lia.
Qed.

Lemma decimal_digits_nonempty fuel v :
  (1 <= length (decimal_digits (S fuel) v))%nat.
Proof. cbn [decimal_digits]. rewrite length_app. cbn [length]. lia. Qed.

(** [ni_string_ll2str] and [ni_string_ull2str] write the decimal numeral
    of the number: read back it gives the number, it has no leading zero,
    and it has 1 to 20 bytes, so that with its terminator it is within the
    [NI_STRING_LLSTR_SIZE] bytes of the buffer, for every [long long]
    ([LLONG_MIN] too) and every [unsigned long long].
    [ni_string_from_longlong] returns a valid string of these bytes. *)
Theorem ni_string_ll2str_exact :
  (forall v, - 2 ^ 63 <= v < 2 ^ 63 ->
     decimal_value (ni_string_ll2str v) = Some v /\
     canonical (ni_string_ll2str v) = true /\
     1 <= zlength (ni_string_ll2str v) <= 20) /\
  (forall v, 0 <= v < 2 ^ 64 ->
     decimal_value (ni_string_ull2str v) = Some v /\
     canonical (ni_string_ull2str v) = true /\
     1 <= zlength (ni_string_ull2str v) <= 20) /\
  (forall v h, - 2 ^ 63 <= v < 2 ^ 63 ->
     exists s h',
       ni_string_from_longlong v h = Ok s h' /\ valid s /\
       content s = ni_string_ll2str v /\
       decimal_value (content s) = Some v).
Proof.
  assert (Hll : forall v, - 2 ^ 63 <= v < 2 ^ 63 ->
            decimal_value (ni_string_ll2str v) = Some v /\
            canonical (ni_string_ll2str v) = true /\
            1 <= zlength (ni_string_ll2str v) <= 20).
  { intros v Hv. rewrite (ni_string_ll2str_decimal v Hv).
    destruct (decimal_exact v) as (Hd & Hc); [lia|].
    split; [exact Hd|]. split; [exact Hc|].
    unfold decimal, zlength. destruct (Z.ltb_spec v 0); cbn [length].
    - pose proof (decimal_digits_bound 21 (- v) 18 ltac:(lia)).
      pose proof (decimal_digits_nonempty 20 (- v)). lia.
    - pose proof (decimal_digits_bound 21 v 18 ltac:(lia)).
      pose proof (decimal_digits_nonempty 20 v). lia. }
  split; [exact Hll|]. split.
  - intros v Hv. rewrite (ni_string_ull2str_decimal v) by lia.
    destruct (decimal_exact v) as (Hd & Hc); [lia|].
    split; [exact Hd|]. split; [exact Hc|].
    unfold decimal, zlength. destruct (Z.ltb_spec v 0); [lia|].
    pose proof (decimal_digits_bound 21 v 19 ltac:(lia)).
    pose proof (decimal_digits_nonempty 20 v). lia.
  - intros v h Hv. destruct (Hll v Hv) as (Hd & _ & Hl).
    unfold ni_string_from_longlong.
    destruct (new_len_ok (InitData (ni_string_ll2str v))
                (zlength (ni_string_ll2str v)) h)
      as (s & h' & R & Hvs & _ & _ & Hc); [lia|unfold fits; lia|cbn; lia|].
    exists s, h'. split; [exact R|]. split; [exact Hvs|].
    cbn in Hc. unfold zlength in Hc. rewrite Nat2Z.id, firstn_all in Hc.
    split; [exact Hc|]. rewrite Hc. exact Hd.
Qed.

Lemma ni_string_ll2str_exact_witness :
  - 2 ^ 63 <= - 2 ^ 63 < 2 ^ 63 /\
  decimal_value (ni_string_ll2str (- 2 ^ 63)) = Some (- 2 ^ 63) /\
  canonical (ni_string_ll2str (- 2 ^ 63)) = true /\
  1 <= zlength (ni_string_ll2str (- 2 ^ 63)) <= 20.
Proof.
  assert (H : - 2 ^ 63 <= - 2 ^ 63 < 2 ^ 63) by lia.
  split; [exact H|]. exact (proj1 ni_string_ll2str_exact (- 2 ^ 63) H).
Defined.

(** ** Trimming *)

Lemma trim_left_spec cset l sp0 :
  let k := Z.to_nat (trim_left cset l sp0 - sp0) in
  Forall (fun c => strchr cset c = true) (take k l) /\
  match drop k l with [] => True | c :: _ => strchr cset c = false end.
Proof.
  revert sp0. induction l as [|c l IH]; intros sp0; cbn [trim_left].
  - rewrite Z.sub_diag. cbn. split; [constructor|exact I].
  - destruct (strchr cset c) eqn:E.
    + specialize (IH (sp0 + 1)). cbv zeta in IH.
      pose proof (trim_left_bounds cset l (sp0 + 1)) as Hb.
      replace (Z.to_nat (trim_left cset l (sp0 + 1) - sp0))
        with (S (Z.to_nat (trim_left cset l (sp0 + 1) - (sp0 + 1)))) by lia.
      cbn [take drop]. destruct IH as (IH1 & IH2).
      split; [constructor; assumption|exact IH2].
    + rewrite Z.sub_diag. cbn. split; [constructor|exact E].
Qed.

Lemma trim_right_spec cset l ep0 :
  let k := Z.to_nat (ep0 - trim_right cset l ep0) in
  Forall (fun c => strchr cset c = true) (take k l) /\
  match drop k l with [] => True | c :: _ => strchr cset c = false end.
Proof.
  revert ep0. induction l as [|c l IH]; intros ep0; cbn [trim_right].
  - rewrite Z.sub_diag. cbn. split; [constructor|exact I].
  - destruct (strchr cset c) eqn:E.
    + specialize (IH (ep0 - 1)). cbv zeta in IH.
      pose proof (trim_right_bounds cset l (ep0 - 1)) as Hb.
      replace (Z.to_nat (ep0 - trim_right cset l (ep0 - 1)))
        with (S (Z.to_nat (ep0 - 1 - trim_right cset l (ep0 - 1)))) by lia.
      cbn [take drop]. destruct IH as (IH1 & IH2).
      split; [constructor; assumption|exact IH2].
    + rewrite Z.sub_diag. cbn. split; [constructor|exact E].
Qed.

(** The offsets the two loops of [ni_string_trim] stop at, and the bytes
    the call leaves. *)
Lemma trim_content s cset h :
  valid s ->
  let c := content s in
  let len0 := ni_string_len s in
  let sp := trim_left cset c 0 in
  let ep := trim_right cset (rev (drop (Z.to_nat (sp + 1)) c)) (len0 - 1) in
  let len := if sp >? ep then 0 else ep - sp + 1 in
  exists s',
    ni_string_trim s cset h = Ok s' h /\ valid s' /\
    content s' = take (Z.to_nat len) (drop (Z.to_nat sp) c) /\
    blk s' = blk s /\ sds_type s' = sds_type s.
Proof.
  intros Hv.
  pose proof (valid_bounds s Hv) as (Hl0 & Hla & Hab).
  pose proof (valid_buf_length s Hv) as Hb.
  unfold ni_string_trim, content.
  set (len0 := ni_string_len s) in *.
  destruct (Z.leb_spec len0 (zlength (buf s))); [|lia].
  unfold bind at 1. unfold mem at 1. unfold ret at 1.
  set (c := take (Z.to_nat len0) (buf s)).
  assert (Hc : zlength c = len0) by (apply zlength_take; lia).
  set (sp := trim_left cset c 0).
  pose proof (trim_left_bounds cset c 0) as Hsp. fold sp in Hsp. rewrite Hc in Hsp.
  set (ep := trim_right cset (rev (drop (Z.to_nat (sp + 1)) c)) (len0 - 1)).
  pose proof (trim_right_bounds cset (rev (drop (Z.to_nat (sp + 1)) c)) (len0 - 1)) as Hep.
  fold ep in Hep.
  assert (Hrl : zlength (rev (drop (Z.to_nat (sp + 1)) c)) = Z.max 0 (len0 - (sp + 1))).
  { unfold zlength in *. rewrite length_rev, length_drop. lia. }
  rewrite Hrl in Hep.
  cbv zeta.
  assert (Hlen' : (if sp >? ep then 0 else to_size (ep - sp + 1))
                  = (if sp >? ep then 0 else ep - sp + 1)).
  { destruct (Z.gtb_spec sp ep); [reflexivity|]. apply to_size_small. lia. }
  rewrite Hlen'.
  set (len := if sp >? ep then 0 else ep - sp + 1).
  assert (Hlen : 0 <= len /\ sp + len <= len0).
  { subst len. destruct (Z.gtb_spec sp ep); lia. }
  assert (Hmv : exists b,
             (if sp =? 0 then ret (buf s) else mem (memmove (buf s) sp len)) h = Ok b h /\
             zlength b = zlength (buf s) /\
             take (Z.to_nat len) b = take (Z.to_nat len) (drop (Z.to_nat sp) c)).
  { destruct (Z.eqb_spec sp 0) as [E|E].
    - exists (buf s). split; [reflexivity|]. split; [reflexivity|].
      rewrite E. change (Z.to_nat 0) with 0%nat. rewrite drop_0.
      subst c. rewrite take_take. f_equal. lia.
    - rewrite memmove_ok by lia. eexists. split; [reflexivity|]. split.
      + rewrite zlength_app, zlength_take, zlength_drop; try lia.
        rewrite zlength_drop by lia. lia.
      + rewrite take_app_le
          by (rewrite length_take, length_drop; unfold zlength in *; lia).
        rewrite take_take, Nat.min_id. subst c.
        replace (Z.to_nat len0) with (Z.to_nat sp + Z.to_nat (len0 - sp))%nat by lia.
        rewrite <- take_drop_commute, take_take. f_equal. lia. }
  destruct Hmv as (b & Hmv & Hbl & Hbc).
  unfold bind at 1. rewrite Hmv.
  unfold bind, mem. rewrite mem_store_ok by lia. unfold ret.
  destruct (set_len_valid s len (<[Z.to_nat len := x00]> b))
    as (Hv' & Hl' & Hb' & Ht' & Hk' & Ha').
  - exact Hv.
  - lia.
  - rewrite zlength_insert. lia.
  - apply list_lookup_insert_eq. unfold zlength in *. lia.
  - eexists. split; [reflexivity|]. split; [exact Hv'|].
    split; [|split; [exact Hk'|exact Ht']].
    rewrite Hl', Hb', take_insert. destruct (decide _); [lia|]. exact Hbc.
Qed.

(** What the two loops keep of a list of bytes. *)
Lemma trim_split cset c :
  let sp := trim_left cset c 0 in
  let ep := trim_right cset (rev (drop (Z.to_nat (sp + 1)) c)) (zlength c - 1) in
  let len := if sp >? ep then 0 else ep - sp + 1 in
  let m := take (Z.to_nat len) (drop (Z.to_nat sp) c) in
  exists l r,
    c = l ++ m ++ r /\
    Forall (fun b => strchr cset b = true) l /\
    Forall (fun b => strchr cset b = true) r /\
    (forall x, head m = Some x -> strchr cset x = false) /\
    (forall y, last m = Some y -> strchr cset y = false).
Proof.
  intros sp ep len m.
  pose proof (trim_left_bounds cset c 0) as Hsp. fold sp in Hsp.
  destruct (trim_left_spec cset c 0) as (Hl & Hx). fold sp in Hl, Hx.
  rewrite Z.sub_0_r in Hl, Hx.
  set (tail := drop (Z.to_nat (sp + 1)) c) in *.
  pose proof (trim_right_bounds cset (rev tail) (zlength c - 1)) as Hep.
  fold ep in Hep.
  destruct (trim_right_spec cset (rev tail) (zlength c - 1)) as (Hr & Hy).
  fold ep in Hr, Hy.
  set (k := Z.to_nat (zlength c - 1 - ep)) in *.
  assert (Htl : zlength (rev tail) = Z.max 0 (zlength c - (sp + 1))).
  { unfold zlength, tail. rewrite length_rev, length_drop. lia. }
  rewrite Htl in Hep.
  destruct (drop (Z.to_nat sp) c) as [|x rest] eqn:Ed.
  - (* every byte is in the set *)
    assert (Hsl : sp = zlength c).
    { apply (f_equal length) in Ed. rewrite length_drop in Ed. cbn in Ed.
      unfold zlength in *. lia. }
    exists c, []. subst m. rewrite take_nil.
    split; [rewrite !app_nil_r; reflexivity|].
    split; [|split; [constructor|split; intros ? Hh; discriminate Hh]].
    rewrite <- (take_ge c (Z.to_nat sp)) by (unfold zlength in Hsl; lia). exact Hl.
  - assert (Hsl : sp < zlength c).
    { apply (f_equal length) in Ed. rewrite length_drop in Ed. cbn [length] in Ed.
      unfold zlength. lia. }
    assert (Hrest : rest = tail).
    { subst tail. replace (Z.to_nat (sp + 1)) with (S (Z.to_nat sp)) by lia.
      assert (Hlk : c !! Z.to_nat sp = Some x).
      { rewrite <- (Nat.add_0_r (Z.to_nat sp)), <- lookup_drop, Ed. reflexivity. }
      rewrite (drop_S _ _ _ Hlk) in Ed. injection Ed as <-. reflexivity. }
    subst rest.
    assert (Hlen : len = zlength c - Z.of_nat k - sp /\ 1 <= len).
    { subst len k. clear -Hsp Hep Hsl. clearbody ep sp. destruct (Z.gtb_spec sp ep); lia. }
    destruct Hlen as (Hlen & Hlen1).
    set (mid := rev (drop k (rev tail))).
    set (r := rev (take k (rev tail))).
    assert (Ht : tail = mid ++ r).
    { subst mid r. rewrite <- rev_app_distr, take_drop, rev_involutive. reflexivity. }
    assert (Hml : Z.of_nat (length mid) = len - 1).
    { subst mid. rewrite length_rev, length_drop, length_rev.
      unfold zlength in Htl. rewrite length_rev in Htl.
      assert (Hk : Z.of_nat k = zlength c - 1 - ep) by (subst k; lia).
      unfold zlength in *. lia. }
    assert (Hm : m = x :: mid).
    { subst m. rewrite Ht.
      replace (Z.to_nat len) with (S (length mid)) by lia.
      cbn [take]. rewrite take_app_length. reflexivity. }
    exists (take (Z.to_nat sp) c), r. rewrite Hm.
    split; [|split; [exact Hl|split; [|split]]].
    + rewrite <- (take_drop (Z.to_nat sp) c) at 1. rewrite Ed, Ht. reflexivity.
    + subst r. apply Forall_rev. exact Hr.
    + intros x0 Hh. cbn in Hh. injection Hh as <-. exact Hx.
    + intros y Hlast.
      destruct (drop k (rev tail)) as [|y0 rest'] eqn:Edk.
      * subst mid. cbn in Hlast. injection Hlast as <-. exact Hx.
      * subst mid. cbn [rev] in Hlast.
        rewrite app_comm_cons, last_snoc in Hlast. injection Hlast as <-. exact Hy.
Qed.

(** [ni_string_trim] keeps, in place, the bytes of the string between a
    run at the left and a run at the right of bytes that are in [cset] or
    zero ([strchr] finds the terminator of [cset] too); what is kept does
    not start and does not end with such a byte.  The block, the header
    type and the heap stay as they are. *)
Theorem ni_string_trim_strips s cset h :
  valid s ->
  exists s' l r,
    ni_string_trim s cset h = Ok s' h /\ valid s' /\
    content s = l ++ content s' ++ r /\
    Forall (fun b => strchr cset b = true) l /\
    Forall (fun b => strchr cset b = true) r /\
    (forall x, head (content s') = Some x -> strchr cset x = false) /\
    (forall y, last (content s') = Some y -> strchr cset y = false) /\
    blk s' = blk s /\ sds_type s' = sds_type s.
Proof.
  intros Hv.
  destruct (trim_content s cset h Hv) as (s' & R & Hv' & Hc & Hk & Ht).
  destruct (trim_split cset (content s)) as (l & r & Hs & Hl & Hr & Hh & Hla).
  rewrite (content_length s Hv) in Hs, Hh, Hla.
  cbv zeta in Hc. rewrite <- Hc in Hs, Hh, Hla.
  exists s', l, r. split; [exact R|]. split; [exact Hv'|].
  split; [exact Hs|]. split; [exact Hl|]. split; [exact Hr|].
  split; [exact Hh|]. split; [exact Hla|]. split; [exact Hk|exact Ht].
Qed.

Lemma ni_string_trim_strips_witness :
  valid example_ciao /\
  exists s' l r,
    ni_string_trim example_ciao (bytes "co") heap0 = Ok s' heap0 /\ valid s' /\
    content example_ciao = l ++ content s' ++ r /\
    Forall (fun b => strchr (bytes "co") b = true) l /\
    Forall (fun b => strchr (bytes "co") b = true) r /\
    (forall x, head (content s') = Some x -> strchr (bytes "co") x = false) /\
    (forall y, last (content s') = Some y -> strchr (bytes "co") y = false) /\
    blk s' = blk example_ciao /\ sds_type s' = sds_type example_ciao.
Proof.
  assert (Hv : valid example_ciao) by (apply validb_valid; reflexivity).
  split; [exact Hv|]. exact (ni_string_trim_strips example_ciao (bytes "co") heap0 Hv).
Defined.

(** ** Case, translation and comparison *)

(** A loop that rewrites the bytes of a region from [j] on, one by one. *)
Lemma case_loop_ok f n :
  forall j b h,
    0 <= j -> j + Z.of_nat n <= zlength b ->
    case_loop f n j b h =
      Ok (take (Z.to_nat j) b ++ map f (take n (drop (Z.to_nat j) b))
          ++ drop (Z.to_nat j + n) b) h.
Proof.
  induction n as [|n IH]; intros j b h Hj Hn.
  - cbn [case_loop]. rewrite take_0. cbn [map app].
    rewrite Nat.add_0_r, take_drop. reflexivity.
  - cbn [case_loop]. unfold zlength in Hn.
    destruct (lookup_lt_is_Some_2 b (Z.to_nat j)) as [c Hc]; [lia|].
    rewrite Hc. cbn [mem]. unfold bind at 1, ret at 1.
    rewrite mem_store_ok by (unfold zlength; lia). cbn [mem].
    unfold bind at 1, ret at 1.
    rewrite IH by (rewrite ?zlength_insert; unfold zlength; lia).
    f_equal.
    replace (Z.to_nat (j + 1)) with (S (Z.to_nat j)) by lia.
    rewrite (take_S_r _ _ (f c)) by (apply list_lookup_insert_eq; lia).
    rewrite take_insert. destruct (decide _); [lia|].
    rewrite drop_insert_lt by lia. rewrite drop_insert_lt by lia.
    rewrite (drop_S _ _ _ Hc). cbn [take map].
    rewrite <- app_assoc. cbn [app].
    replace (Z.to_nat j + S n)%nat with (S (Z.to_nat j) + n)%nat by lia.
    reflexivity.
Qed.

Lemma valid_same_tail s b :
  valid s -> zlength b = zlength (buf s) ->
  drop (Z.to_nat (ni_string_len s)) b = drop (Z.to_nat (ni_string_len s)) (buf s) ->
  valid (with_buf s b).
Proof.
  intros Hv Hl Hd. pose proof (valid_bounds s Hv) as (H0 & Hla & _).
  pose proof (valid_buf_length s Hv) as Hb.
  pose proof (valid_terminator s Hv) as Ht.
  destruct Hv as (Hf & Hty & Hw & _ & _).
  apply valid_with_buf; try assumption; [lia|].
  rewrite <- (Nat.add_0_r (Z.to_nat (ni_string_len s))), <- lookup_drop, Hd,
    lookup_drop, Nat.add_0_r. exact Ht.
Qed.

Lemma case_map_ok f s h :
  valid s ->
  exists s',
    (let* b := case_loop f (Z.to_nat (ni_string_len s)) 0 (buf s) in
     ret (with_buf s b)) h = Ok s' h /\
    valid s' /\ content s' = map f (content s) /\
    ni_string_len s' = ni_string_len s /\ blk s' = blk s /\
    sds_type s' = sds_type s /\ ni_string_alloc s' = ni_string_alloc s.
Proof.
  intros Hv. pose proof (valid_bounds s Hv) as (H0 & Hla & _).
  pose proof (valid_buf_length s Hv) as Hb.
  unfold bind. rewrite case_loop_ok by lia. unfold ret.
  change (Z.to_nat 0) with 0%nat. rewrite drop_0. cbn [take app Nat.add].
  set (b := map f _ ++ _).
  exists (with_buf s b). split; [reflexivity|].
  assert (Hml : length (map f (take (Z.to_nat (ni_string_len s)) (buf s)))
                = Z.to_nat (ni_string_len s)).
  { rewrite length_map, length_take. unfold zlength in Hb. lia. }
  split; [|split; [|repeat split]].
  - apply valid_same_tail; [exact Hv| |].
    + subst b. rewrite zlength_app, zlength_drop by lia.
      unfold zlength at 1. rewrite Hml. lia.
    + subst b. rewrite drop_app_length' by (symmetry; exact Hml). reflexivity.
  - unfold content.
    change (ni_string_len (with_buf s b)) with (ni_string_len s). cbn [buf with_buf].
    subst b. rewrite take_app_length' by (symmetry; exact Hml). reflexivity.
Qed.

Lemma case_bytes c :
  tolower (tolower c) = tolower c /\ toupper (toupper c) = toupper c /\
  tolower (toupper c) = tolower c /\ toupper (tolower c) = toupper c /\
  (tolower c <> c -> 65 <= byte_to_Z c <= 90) /\
  (toupper c <> c -> 97 <= byte_to_Z c <= 122).
Proof. destruct c; vm_compute; repeat split; congruence. Qed.

(** [ni_string_tolower] and [ni_string_toupper] rewrite the bytes of the
    content in place, each to its lower or upper case in the C locale: the
    length, the capacity and the block stay, and so do the bytes that are
    no letters of the other case.  A second call changes nothing, and the
    case of a string does not depend on the case it had. *)
Theorem ni_string_tolower_maps s h :
  valid s ->
  (exists s',
     ni_string_tolower s h = Ok s' h /\ valid s' /\
     content s' = map tolower (content s) /\
     ni_string_len s' = ni_string_len s /\ blk s' = blk s /\
     sds_type s' = sds_type s /\ ni_string_alloc s' = ni_string_alloc s) /\
  (exists s',
     ni_string_toupper s h = Ok s' h /\ valid s' /\
     content s' = map toupper (content s) /\
     ni_string_len s' = ni_string_len s /\ blk s' = blk s /\
     sds_type s' = sds_type s /\ ni_string_alloc s' = ni_string_alloc s) /\
  map tolower (map tolower (content s)) = map tolower (content s) /\
  map toupper (map toupper (content s)) = map toupper (content s) /\
  map tolower (map toupper (content s)) = map tolower (content s) /\
  map toupper (map tolower (content s)) = map toupper (content s) /\
  (forall i c, content s !! i = Some c -> ~ 65 <= byte_to_Z c <= 90 ->
               map tolower (content s) !! i = Some c) /\
  (forall i c, content s !! i = Some c -> ~ 97 <= byte_to_Z c <= 122 ->
               map toupper (content s) !! i = Some c).
Proof.
  intros Hv.
  split; [exact (case_map_ok tolower s h Hv)|].
  split; [exact (case_map_ok toupper s h Hv)|].
  repeat split.
  1-4: rewrite map_map; apply map_ext; intros c; apply (case_bytes c).
  - intros i c Hi Hn. rewrite list_lookup_fmap, Hi. cbn. f_equal.
    destruct (decide (tolower c = c)) as [E|E]; [exact E|].
    exfalso. apply Hn. apply (case_bytes c). exact E.
  - intros i c Hi Hn. rewrite list_lookup_fmap, Hi. cbn. f_equal.
    destruct (decide (toupper c = c)) as [E|E]; [exact E|].
    exfalso. apply Hn. apply (case_bytes c). exact E.
Qed.

Lemma ni_string_tolower_maps_witness :
  valid example_ciao /\
  exists s',
    ni_string_toupper example_ciao heap0 = Ok s' heap0 /\ valid s' /\
    content s' = map toupper (content example_ciao) /\
    ni_string_len s' = ni_string_len example_ciao /\ blk s' = blk example_ciao /\
    sds_type s' = sds_type example_ciao /\
    ni_string_alloc s' = ni_string_alloc example_ciao.
Proof.
  assert (Hv : valid example_ciao) by (apply validb_valid; reflexivity).
  split; [exact Hv|].
  exact (proj1 (proj2 (ni_string_tolower_maps example_ciao heap0 Hv))).
Defined.

Lemma map_chars_inner_ok c from to n :
  forall i,
    (i + n <= length from)%nat -> (i + n <= length to)%nat ->
    map_chars_inner c from to i n
      = Some (translate (take n (drop i from)) (take n (drop i to)) c).
Proof.
  induction n as [|n IH]; intros i Hf Ht.
  - cbn [map_chars_inner]. rewrite !take_0. reflexivity.
  - cbn [map_chars_inner].
    destruct (lookup_lt_is_Some_2 from i) as [f Hfi]; [lia|].
    destruct (lookup_lt_is_Some_2 to i) as [t Hti]; [lia|].
    rewrite Hfi, (drop_S _ _ _ Hfi), (drop_S _ _ _ Hti). cbn [take translate].
    destruct (bool_decide (c = f)); [exact Hti|].
    apply IH; lia.
Qed.

Lemma map_chars_loop_case from to setlen n j b h :
  0 <= setlen <= zlength from -> setlen <= zlength to ->
  map_chars_loop from to setlen n j b h =
    case_loop (translate (take (Z.to_nat setlen) from)
                 (take (Z.to_nat setlen) to)) n j b h.
Proof.
  intros Hf Ht. revert j b h. induction n as [|n IH]; intros j b h; [reflexivity|].
  cbn [map_chars_loop case_loop].
  destruct (b !! Z.to_nat j) as [c|]; [|reflexivity].
  cbn [mem]. unfold bind at 1 4, ret at 1 2.
  rewrite map_chars_inner_ok by (unfold zlength in *; lia).
  rewrite !drop_0. cbn [mem]. unfold bind at 1, ret at 1.
  unfold bind at 1 2. destruct (mem (mem_store b j _) h); [apply IH|reflexivity].
Qed.

Lemma translate_notin from to c : c ∉ from -> translate from to c = c.
Proof.
  revert to. induction from as [|f fr IH]; intros to Hn; [reflexivity|].
  destruct to as [|t tl]; [reflexivity|]. cbn [translate].
  apply not_elem_of_cons in Hn as (Hne & Hn).
  rewrite bool_decide_eq_false_2 by exact Hne. apply IH, Hn.
Qed.

(** [ni_string_map_chars] rewrites the bytes of the content in place, each
    one once: a byte that is in the first [setlen] bytes of [from] becomes
    the byte of [to] at the first place where [from] has it, whether that
    byte is in [from] or not, and any other byte stays.  The length, the
    capacity and the block stay. *)
Theorem ni_string_map_chars_translates s from to setlen h :
  valid s -> 0 <= setlen <= zlength from -> setlen <= zlength to ->
  exists s',
    ni_string_map_chars s from to setlen h = Ok s' h /\ valid s' /\
    content s' = map (translate (take (Z.to_nat setlen) from)
                        (take (Z.to_nat setlen) to)) (content s) /\
    ni_string_len s' = ni_string_len s /\ blk s' = blk s /\
    sds_type s' = sds_type s /\ ni_string_alloc s' = ni_string_alloc s /\
    (forall i c, content s !! i = Some c ->
                 c ∉ take (Z.to_nat setlen) from -> content s' !! i = Some c).
Proof.
  intros Hv Hf Ht.
  destruct (case_map_ok (translate (take (Z.to_nat setlen) from)
                           (take (Z.to_nat setlen) to)) s h Hv)
    as (s' & R & Hv' & Hc & Hl & Hk & Hty & Ha).
  exists s'. unfold ni_string_map_chars.
  rewrite <- R at 1. split.
  { unfold bind. rewrite (map_chars_loop_case from to setlen) by assumption.
    reflexivity. }
  split; [exact Hv'|]. split; [exact Hc|]. split; [exact Hl|].
  split; [exact Hk|]. split; [exact Hty|]. split; [exact Ha|].
  intros i c Hi Hn. rewrite Hc, list_lookup_fmap, Hi. cbn. f_equal.
  apply translate_notin, Hn.
Qed.

Lemma ni_string_map_chars_translates_witness :
  valid example_ciao /\ 0 <= 2 <= zlength (bytes "co") /\
  2 <= zlength (bytes "oc") /\
  exists s',
    ni_string_map_chars example_ciao (bytes "co") (bytes "oc") 2 heap0
      = Ok s' heap0 /\ valid s' /\
    content s' = map (translate (take (Z.to_nat 2) (bytes "co"))
                        (take (Z.to_nat 2) (bytes "oc"))) (content example_ciao) /\
    ni_string_len s' = ni_string_len example_ciao /\ blk s' = blk example_ciao /\
    sds_type s' = sds_type example_ciao /\
    ni_string_alloc s' = ni_string_alloc example_ciao /\
    (forall i c, content example_ciao !! i = Some c ->
                 c ∉ take (Z.to_nat 2) (bytes "co") -> content s' !! i = Some c).
Proof.
  assert (Hv : valid example_ciao) by (apply validb_valid; reflexivity).
  assert (H1 : 0 <= 2 <= zlength (bytes "co")) by (vm_compute; split; discriminate).
  assert (H2 : 2 <= zlength (bytes "oc")) by (vm_compute; discriminate).
  split; [exact Hv|]. split; [exact H1|]. split; [exact H2|].
  exact (ni_string_map_chars_translates example_ciao (bytes "co") (bytes "oc") 2
           heap0 Hv H1 H2).
Defined.

(** The example of the comment of [ni_string_map_chars], and a swap of two
    bytes. *)
Example map_chars_hello :
  observe (let* s := ni_string_new (bytes "hello") in
           ni_string_map_chars s (bytes "ho") (bytes "01") 2)
  = Some (bytes "0ell1", 5).
Proof. vm_compute. reflexivity. Qed.

Example map_chars_swap :
  observe (ni_string_map_chars example_ciao (bytes "co") (bytes "oc") 2)
  = Some (bytes "oiac", 4).
Proof. vm_compute. reflexivity. Qed.

(** *** Comparison *)

Lemma byte_to_Z_inj x y : byte_to_Z x = byte_to_Z y -> x = y.
Proof.
  unfold byte_to_Z. intros H. apply N2Z.inj in H.
  pose proof (Byte.of_to_N x) as Hx. rewrite H, Byte.of_to_N in Hx.
  congruence.
Qed.

Lemma byte_to_Z_range x : 0 <= byte_to_Z x < 256.
Proof. destruct x; vm_compute; split; congruence. Qed.

Lemma memcmp_spec n :
  forall a b,
    (n <= length a)%nat -> (n <= length b)%nat ->
    exists r,
      memcmp a b n = Some r /\
      (r ?= 0) = lex_compare (take n a) (take n b).
Proof.
  induction n as [|n IH]; intros a b Ha Hb.
  - exists 0. split; reflexivity.
  - destruct a as [|x a]; [cbn in Ha; lia|]. destruct b as [|y b]; [cbn in Hb; lia|].
    cbn [length] in Ha, Hb. cbn [memcmp take lex_compare].
    destruct (bool_decide_reflect (x = y)) as [->|Hne].
    + rewrite Z.compare_refl. apply IH; lia.
    + exists (byte_to_Z x - byte_to_Z y). split; [reflexivity|].
      rewrite <- Z.compare_sub.
      destruct (Z.compare_spec (byte_to_Z x) (byte_to_Z y)) as [E| |];
        [|reflexivity|reflexivity].
      exfalso. apply Hne, byte_to_Z_inj, E.
Qed.

Lemma lex_compare_split a :
  forall b,
    lex_compare a b =
      match lex_compare (take (length a `min` length b) a)
              (take (length a `min` length b) b) with
      | Eq => Nat.compare (length a) (length b)
      | c => c
      end.
Proof.
  induction a as [|x a IH]; intros [|y b]; cbn [length Nat.min take lex_compare];
    try reflexivity.
  destruct (byte_to_Z x ?= byte_to_Z y); [|reflexivity|reflexivity].
  rewrite IH. reflexivity.
Qed.

Lemma lex_compare_eq a : forall b, lex_compare a b = Eq <-> a = b.
Proof.
  induction a as [|x a IH]; intros [|y b]; cbn [lex_compare];
    try (split; [discriminate|discriminate]); [split; reflexivity|].
  destruct (Z.compare_spec (byte_to_Z x) (byte_to_Z y)) as [E|L|L].
  - apply byte_to_Z_inj in E as ->. rewrite IH. split; congruence.
  - split; [discriminate|]. intros E. injection E as -> _. lia.
  - split; [discriminate|]. intros E. injection E as -> _. lia.
Qed.

Lemma lex_compare_opp a : forall b, lex_compare b a = CompOpp (lex_compare a b).
Proof.
  induction a as [|x a IH]; intros [|y b]; cbn [lex_compare]; try reflexivity.
  rewrite (Z.compare_antisym (byte_to_Z x) (byte_to_Z y)).
  destruct (byte_to_Z x ?= byte_to_Z y); cbn [CompOpp]; [apply IH| |]; reflexivity.
Qed.

Lemma cmp_ok s1 s2 h :
  valid s1 -> valid s2 ->
  exists r,
    ni_string_cmp s1 s2 h = Ok r h /\
    (r ?= 0) = lex_compare (content s1) (content s2).
Proof.
  intros Hv1 Hv2.
  pose proof (valid_bounds s1 Hv1) as (H01 & Hla1 & _).
  pose proof (valid_buf_length s1 Hv1) as Hb1.
  pose proof (valid_bounds s2 Hv2) as (H02 & Hla2 & _).
  pose proof (valid_buf_length s2 Hv2) as Hb2.
  unfold ni_string_cmp, content.
  set (l1 := ni_string_len s1) in *. set (l2 := ni_string_len s2) in *.
  set (minlen := if l1 <? l2 then l1 else l2).
  assert (Hm : Z.to_nat minlen = (Z.to_nat l1 `min` Z.to_nat l2)%nat).
  { subst minlen. destruct (Z.ltb_spec l1 l2); lia. }
  destruct (memcmp_spec (Z.to_nat minlen) (buf s1) (buf s2))
    as (r & Hr & Hc); [unfold zlength in *; lia|unfold zlength in *; lia|].
  rewrite Hr. cbn [mem]. unfold bind, ret.
  rewrite lex_compare_split, !length_take.
  replace (Z.to_nat l1 `min` length (buf s1))%nat with (Z.to_nat l1)
    by (unfold zlength in *; lia).
  replace (Z.to_nat l2 `min` length (buf s2))%nat with (Z.to_nat l2)
    by (unfold zlength in *; lia).
  rewrite <- Hm, !take_take.
  replace (Z.to_nat minlen `min` Z.to_nat l1)%nat with (Z.to_nat minlen) by lia.
  replace (Z.to_nat minlen `min` Z.to_nat l2)%nat with (Z.to_nat minlen) by lia.
  rewrite <- Hc.
  destruct (Z.eqb_spec r 0) as [->|Hne].
  - eexists. split; [reflexivity|]. cbn [Z.compare].
    destruct (Z.gtb_spec l1 l2).
    + symmetry. apply Nat.compare_gt_iff. lia.
    + destruct (Z.ltb_spec l1 l2).
      * symmetry. apply Nat.compare_lt_iff. lia.
      * symmetry. apply Nat.compare_eq_iff. lia.
  - exists r. split; [reflexivity|].
    destruct (Z.compare_spec r 0); [contradiction|reflexivity|reflexivity].
Qed.

(** [ni_string_cmp] orders two valid strings by their bytes, as
    [unsigned char], zero bytes inside too: the result is 0 when and only
    when the two contents are the same bytes, it is negative when the first
    string comes first in the order of the first bytes that differ, a
    proper prefix first, and positive the other way round; comparing the
    other way round gives the opposite sign.  Nothing is written. *)
Theorem ni_string_cmp_orders s1 s2 h :
  valid s1 -> valid s2 ->
  exists r r',
    ni_string_cmp s1 s2 h = Ok r h /\
    ni_string_cmp s2 s1 h = Ok r' h /\
    (r ?= 0) = lex_compare (content s1) (content s2) /\
    (r = 0 <-> content s1 = content s2) /\
    (r' ?= 0) = CompOpp (r ?= 0).
Proof.
  intros Hv1 Hv2.
  destruct (cmp_ok s1 s2 h Hv1 Hv2) as (r & R & Hc).
  destruct (cmp_ok s2 s1 h Hv2 Hv1) as (r' & R' & Hc').
  exists r, r'. split; [exact R|]. split; [exact R'|]. split; [exact Hc|].
  split.
  - rewrite <- lex_compare_eq, <- Hc. apply (iff_sym (Z.compare_eq_iff r 0)).
  - rewrite Hc', Hc. apply lex_compare_opp.
Qed.

Lemma ni_string_cmp_orders_witness :
  valid example_ciao /\ valid example_wide /\
  exists r r',
    ni_string_cmp example_ciao example_wide heap0 = Ok r heap0 /\
    ni_string_cmp example_wide example_ciao heap0 = Ok r' heap0 /\
    (r ?= 0) = lex_compare (content example_ciao) (content example_wide) /\
    (r = 0 <-> content example_ciao = content example_wide) /\
    (r' ?= 0) = CompOpp (r ?= 0).
Proof.
  assert (Hv1 : valid example_ciao) by (apply validb_valid; reflexivity).
  assert (Hv2 : valid example_wide) by (apply validb_valid; reflexivity).
  split; [exact Hv1|]. split; [exact Hv2|].
  exact (ni_string_cmp_orders example_ciao example_wide heap0 Hv1 Hv2).
Defined.

(** The comparisons of the tests of the repository. *)
Example test_cmp :
  (let* x := ni_string_new (bytes "foo") in
   let* y := ni_string_new (bytes "foa") in ni_string_cmp x y) heap0
  = Ok 14 (Heap 3 [EvMalloc 1 5; EvMalloc 2 5] (junk heap0)) /\
  (let* x := ni_string_new (bytes "bar") in
   let* y := ni_string_new (bytes "bar") in ni_string_cmp x y) heap0
  = Ok 0 (Heap 3 [EvMalloc 1 5; EvMalloc 2 5] (junk heap0)) /\
  (let* x := ni_string_new (bytes "aar") in
   let* y := ni_string_new (bytes "bar") in ni_string_cmp x y) heap0
  = Ok (-1) (Heap 3 [EvMalloc 1 5; EvMalloc 2 5] (junk heap0)).
Proof. vm_compute. repeat split. Qed.

(** ** Joining, and the way back from [ni_string_split_len] *)

Lemma joined_length_cons sep t rest :
  zlength t <= zlength (joined sep (t :: rest)).
Proof.
  destruct rest as [|u rest]; cbn [joined]; [lia|].
  change (zlength t <= zlength (t ++ sep ++ joined sep (u :: rest))).
  rewrite zlength_app. pose proof (zlength_nonneg (sep ++ joined sep (u :: rest))). lia.
Qed.

Lemma join_ni_string_loop_ok sep seplen argc n :
  forall j argv join h,
    0 <= seplen <= zlength sep -> argc = zlength argv -> argc < 2 ^ 31 ->
    0 <= j -> j + Z.of_nat n = argc ->
    Forall valid argv -> valid join ->
    fits (ni_string_len join
          + zlength (joined (take (Z.to_nat seplen) sep)
                       (map content (drop (Z.to_nat j) argv)))) ->
    exists s h',
      join_ni_string_loop n j argv argc sep seplen join h = Ok s h' /\
      valid s /\
      content s = content join
                  ++ joined (take (Z.to_nat seplen) sep)
                       (map content (drop (Z.to_nat j) argv)).
Proof.
  induction n as [|n IH]; intros j argv join h Hs Ha Hi Hj Hn Hv Hvj Hfit.
  - exists join, h. split; [reflexivity|]. split; [exact Hvj|].
    rewrite drop_ge by (unfold zlength in *; lia). cbn. rewrite app_nil_r. reflexivity.
  - cbn [join_ni_string_loop]. unfold zlength in Ha.
    destruct (lookup_lt_is_Some_2 argv (Z.to_nat j)) as [a Hla]; [lia|].
    rewrite Hla. cbn [mem]. unfold bind at 1, ret at 1.
    rewrite (drop_S _ _ _ Hla) in Hfit |- *. cbn [map] in Hfit |- *.
    assert (Hva : valid a)
      by (rewrite Forall_forall in Hv; apply Hv; eapply list_elem_of_lookup_2; exact Hla).
    pose proof (valid_bounds a Hva) as (Ha0 & Haa & _).
    pose proof (valid_buf_length a Hva) as Hab.
    pose proof (valid_bounds join Hvj) as (Hj0 & _).
    set (sp := take (Z.to_nat seplen) sep) in *.
    set (rest := map content (drop (S (Z.to_nat j)) argv)) in *.
    pose proof (joined_length_cons sp (content a) rest) as Hjl.
    rewrite (content_length a Hva) in Hjl.
    unfold fits in Hfit.
    destruct (cat_len_ok join (buf a) (ni_string_len a) h Hvj)
      as (s1 & h1 & R1 & Hv1 & Hc1 & Hl1 & _); [lia|unfold fits; lia|].
    unfold ni_string_cat_ni_string. rewrite (bind_ok _ _ _ _ _ R1).
    fold (content a) in Hc1.
    rewrite (to_int_small (argc - 1)) by lia.
    rewrite (to_int_small (j + 1)) by lia.
    destruct (Z.eqb_spec j (argc - 1)) as [E|E]; cbn [negb].
    + (* the last one: no separator *)
      assert (n = 0%nat) by lia. subst n.
      assert (Hr : rest = []).
      { subst rest. rewrite drop_ge by lia. reflexivity. }
      rewrite Hr. cbn [joined join_ni_string_loop].
      unfold bind, ret. exists s1, h1. split; [reflexivity|]. split; [exact Hv1|exact Hc1].
    + assert (Hr : rest <> []).
      { subst rest. intros E0. apply (f_equal length) in E0.
        rewrite length_map, length_drop in E0. cbn in E0. lia. }
      rewrite (joined_cons sp (content a) rest Hr) in Hfit |- *.
      rewrite !zlength_app in Hfit.
      assert (Hsl : zlength sp = seplen) by (apply zlength_take; lia).
      pose proof (zlength_nonneg (joined sp rest)).
      rewrite (content_length a Hva) in Hfit.
      destruct (cat_len_ok s1 sep seplen h1 Hv1)
        as (s2 & h2 & R2 & Hv2 & Hc2 & Hl2 & _); [lia|unfold fits; lia|].
      rewrite (bind_ok _ _ _ _ _ R2).
      destruct (IH (j + 1) argv s2 h2) as (s3 & h3 & R3 & Hv3 & Hc3);
        try assumption; try lia.
      { replace (Z.to_nat (j + 1)) with (S (Z.to_nat j)) by lia.
        fold rest. unfold fits. lia. }
      exists s3, h3. split; [exact R3|]. split; [exact Hv3|].
      rewrite Hc3, Hc2, Hc1. fold sp.
      replace (Z.to_nat (j + 1)) with (S (Z.to_nat j)) by lia.
      fold rest. rewrite <- !app_assoc. reflexivity.
Qed.

Lemma join_ni_string_ok argv sep seplen h :
  0 <= seplen <= zlength sep -> zlength argv < 2 ^ 31 -> Forall valid argv ->
  fits (zlength (joined (take (Z.to_nat seplen) sep) (map content argv))) ->
  exists s h',
    ni_string_join_ni_string argv (zlength argv) sep seplen h = Ok s h' /\
    valid s /\
    content s = joined (take (Z.to_nat seplen) sep) (map content argv).
Proof.
  intros Hs Hi Hv Hfit. unfold ni_string_join_ni_string.
  destruct (empty_ok h) as (s0 & h0 & R0 & Hv0 & Hc0 & Hl0 & _).
  rewrite (bind_ok _ _ _ _ _ R0).
  pose proof (zlength_nonneg argv).
  destruct (join_ni_string_loop_ok sep seplen (zlength argv)
              (Z.to_nat (zlength argv)) 0 argv s0 h0)
    as (s & h' & R & Hvs & Hc); try assumption; try lia; try reflexivity.
  { rewrite Hl0. exact Hfit. }
  exists s, h'. split; [exact R|]. split; [exact Hvs|].
  rewrite Hc, Hc0. reflexivity.
Qed.

Lemma join_loop_ok sep argc n :
  forall j argv join h,
    argc = zlength argv -> argc < 2 ^ 31 ->
    0 <= j -> j + Z.of_nat n = argc -> valid join ->
    fits (ni_string_len join
          + zlength (joined (c_str sep)
                       (map c_str (drop (Z.to_nat j) argv)))) ->
    exists s h',
      join_loop n j argv argc sep join h = Ok s h' /\
      valid s /\
      content s = content join
                  ++ joined (c_str sep) (map c_str (drop (Z.to_nat j) argv)).
Proof.
  induction n as [|n IH]; intros j argv join h Ha Hi Hj Hn Hvj Hfit.
  - exists join, h. split; [reflexivity|]. split; [exact Hvj|].
    rewrite drop_ge by (unfold zlength in *; lia). cbn. rewrite app_nil_r. reflexivity.
  - cbn [join_loop]. unfold zlength in Ha.
    destruct (lookup_lt_is_Some_2 argv (Z.to_nat j)) as [a Hla]; [lia|].
    rewrite Hla. cbn [mem]. unfold bind at 1, ret at 1.
    rewrite (drop_S _ _ _ Hla) in Hfit |- *. cbn [map] in Hfit |- *.
    pose proof (valid_bounds join Hvj) as (Hj0 & _).
    set (rest := map c_str (drop (S (Z.to_nat j)) argv)) in *.
    pose proof (joined_length_cons (c_str sep) (c_str a) rest) as Hjl.
    fold (strlen a) in Hjl. pose proof (strlen_bounds a) as Hsa.
    unfold fits in Hfit.
    destruct (cat_ok join a h Hvj) as (s1 & h1 & R1 & Hv1 & Hc1 & Hl1);
      [unfold fits; lia|].
    rewrite (bind_ok _ _ _ _ _ R1).
    rewrite (to_int_small (argc - 1)) by lia.
    rewrite (to_int_small (j + 1)) by lia.
    destruct (Z.eqb_spec j (argc - 1)) as [E|E]; cbn [negb].
    + assert (n = 0%nat) by lia. subst n.
      assert (Hr : rest = []).
      { subst rest. rewrite drop_ge by lia. reflexivity. }
      rewrite Hr. cbn [joined join_loop].
      unfold bind, ret. exists s1, h1. split; [reflexivity|]. split; [exact Hv1|exact Hc1].
    + assert (Hr : rest <> []).
      { subst rest. intros E0. apply (f_equal length) in E0.
        rewrite length_map, length_drop in E0. cbn in E0. lia. }
      rewrite (joined_cons (c_str sep) (c_str a) rest Hr) in Hfit |- *.
      rewrite !zlength_app in Hfit. fold (strlen a) (strlen sep) in Hfit.
      pose proof (zlength_nonneg (joined (c_str sep) rest)).
      pose proof (strlen_bounds sep).
      destruct (cat_ok s1 sep h1 Hv1) as (s2 & h2 & R2 & Hv2 & Hc2 & Hl2);
        [unfold fits; lia|].
      rewrite (bind_ok _ _ _ _ _ R2).
      destruct (IH (j + 1) argv s2 h2) as (s3 & h3 & R3 & Hv3 & Hc3);
        try assumption; try lia.
      { replace (Z.to_nat (j + 1)) with (S (Z.to_nat j)) by lia.
        fold rest. unfold fits. lia. }
      exists s3, h3. split; [exact R3|]. split; [exact Hv3|].
      rewrite Hc3, Hc2, Hc1.
      replace (Z.to_nat (j + 1)) with (S (Z.to_nat j)) by lia.
      fold rest. rewrite <- !app_assoc. reflexivity.
Qed.

(** [ni_string_join] returns a valid string of the C strings of the
    array, each up to its terminator, with the separator between one and
    the next and none after the last; an empty array gives the empty
    string. *)
Theorem ni_string_join_joins argv sep h :
  zlength argv < 2 ^ 31 ->
  fits (zlength (joined (c_str sep) (map c_str argv))) ->
  exists s h',
    ni_string_join argv (zlength argv) sep h = Ok s h' /\ valid s /\
    content s = joined (c_str sep) (map c_str argv).
Proof.
  intros Hi Hfit. unfold ni_string_join.
  destruct (empty_ok h) as (s0 & h0 & R0 & Hv0 & Hc0 & Hl0 & _).
  rewrite (bind_ok _ _ _ _ _ R0).
  pose proof (zlength_nonneg argv).
  destruct (join_loop_ok sep (zlength argv) (Z.to_nat (zlength argv)) 0 argv s0 h0)
    as (s & h' & R & Hvs & Hc); try assumption; try lia; try reflexivity.
  { rewrite Hl0. exact Hfit. }
  exists s, h'. split; [exact R|]. split; [exact Hvs|].
  rewrite Hc, Hc0. reflexivity.
Qed.

Lemma ni_string_join_joins_witness :
  zlength [bytes "a"; bytes "bc"; bytes ""] < 2 ^ 31 /\
  fits (zlength (joined (c_str (bytes ", "))
                   (map c_str [bytes "a"; bytes "bc"; bytes ""]))) /\
  exists s h',
    ni_string_join [bytes "a"; bytes "bc"; bytes ""]
      (zlength [bytes "a"; bytes "bc"; bytes ""]) (bytes ", ") heap0
      = Ok s h' /\ valid s /\
    content s = joined (c_str (bytes ", "))
                  (map c_str [bytes "a"; bytes "bc"; bytes ""]).
Proof.
  assert (H1 : zlength [bytes "a"; bytes "bc"; bytes ""] < 2 ^ 31) by reflexivity.
  assert (H2 : fits (zlength (joined (c_str (bytes ", "))
                                (map c_str [bytes "a"; bytes "bc"; bytes ""]))))
    by (unfold fits; vm_compute; discriminate).
  split; [exact H1|]. split; [exact H2|].
  exact (ni_string_join_joins [bytes "a"; bytes "bc"; bytes ""] (bytes ", ")
           heap0 H1 H2).
Defined.

(** [ni_string_join_ni_string] returns a valid string of the contents of
    the strings of the array, zero bytes too, with the [seplen] bytes of
    the separator between one and the next. *)
Theorem ni_string_join_ni_string_joins argv sep seplen h :
  0 <= seplen <= zlength sep -> zlength argv < 2 ^ 31 -> Forall valid argv ->
  fits (zlength (joined (take (Z.to_nat seplen) sep) (map content argv))) ->
  exists s h',
    ni_string_join_ni_string argv (zlength argv) sep seplen h = Ok s h' /\
    valid s /\
    content s = joined (take (Z.to_nat seplen) sep) (map content argv).
Proof. exact (join_ni_string_ok argv sep seplen h). Qed.

Lemma ni_string_join_ni_string_joins_witness :
  0 <= 1 <= zlength (bytes ",") /\
  zlength [example_ciao; example_wide] < 2 ^ 31 /\
  Forall valid [example_ciao; example_wide] /\
  fits (zlength (joined (take (Z.to_nat 1) (bytes ","))
                   (map content [example_ciao; example_wide]))) /\
  exists s h',
    ni_string_join_ni_string [example_ciao; example_wide]
      (zlength [example_ciao; example_wide]) (bytes ",") 1 heap0 = Ok s h' /\
    valid s /\
    content s = joined (take (Z.to_nat 1) (bytes ","))
                  (map content [example_ciao; example_wide]).
Proof.
  assert (H1 : 0 <= 1 <= zlength (bytes ",")) by (vm_compute; split; discriminate).
  assert (H2 : zlength [example_ciao; example_wide] < 2 ^ 31) by reflexivity.
  assert (H3 : Forall valid [example_ciao; example_wide])
    by (repeat (constructor; [apply validb_valid; reflexivity|]); constructor).
  assert (H4 : fits (zlength (joined (take (Z.to_nat 1) (bytes ","))
                                (map content [example_ciao; example_wide]))))
    by (unfold fits; vm_compute; discriminate).
  split; [exact H1|]. split; [exact H2|]. split; [exact H3|]. split; [exact H4|].
  exact (ni_string_join_ni_string_joins [example_ciao; example_wide] (bytes ",") 1
           heap0 H1 H2 H3 H4).
Defined.






(** ** [ni_string_split_args]: what every call ends in *)









(** *** Words without quotes *)









Lemma split_args_blank_line_witness :
  Forall (fun c => isspace c = true) (c_str (bytes "   ")) /\
  ni_string_split_args (bytes "   ") heap0 =
    Ok (Some [], 0)
       (Heap (next_blk heap0 + 1)
          (events heap0 ++ [EvMalloc (next_blk heap0) 8]) (junk heap0)).
Proof.
  assert (H : Forall (fun c => isspace c = true) (c_str (bytes "   ")))
    by (repeat constructor).
  split; [exact H|]. exact (split_args_blank_line (bytes "   ") heap0 H).
Defined.

(** ** The low-level scheme: [ni_string_make_room_for], a write after the
       end, [ni_string_incr_len] *)

(** [ni_string_incr_len] on a header with a capacity field, for an
    increment from 0 to the spare capacity or a negative one down to minus
    the length, and on a type-5 header for a negative one: the call
    returns without a call to the allocator, the length moves by the
    increment, and the content is what the region holds up to the new
    length: the bytes the caller has stored after the old end are part of
    it, and a negative increment cuts the string at the right. *)
Theorem ni_string_incr_len_adjusts s incr h :
  valid s ->
  (1 <= sds_type s <= 4 /\
   (0 <= incr <= ni_string_avail s \/ (incr < 0 /\ - incr <= ni_string_len s)))
  \/ (sds_type s = 0 /\ incr < 0 /\ - incr <= ni_string_len s) ->
  exists s',
    ni_string_incr_len s incr h = Ok s' h /\ valid s' /\
    ni_string_len s' = ni_string_len s + incr /\
    content s' = take (Z.to_nat (ni_string_len s + incr)) (buf s) /\
    blk s' = blk s /\ sds_type s' = sds_type s.
Proof.
  intros Hv [(Hw & Hi)|(E & Hi & Hl)].
  - destruct (incr_len_wide_ok s incr h Hv Hw Hi)
      as (s' & R & Hv' & Hk & Ht & _ & Hl' & _ & Hb).
    exists s'. split; [exact R|]. split; [exact Hv'|]. split; [exact Hl'|].
    split; [|split; [exact Hk|exact Ht]].
    unfold content. rewrite Hl', Hb, take_insert.
    destruct (decide _); [lia|reflexivity].
  - rewrite (incr_len_type5_neg s incr h Hv E Hi Hl).
    destruct (valid_type5_inv s Hv E) as (Hf & Hm & Hd & Hb & Hz).
    rewrite (len_type5 s E) in *.
    set (n := flags s / 8 + incr) in *.
    destruct (type5_flags n) as (Hm8 & Hd8); [lia|].
    set (s' := NiString _ _ _ _ _).
    assert (Ht' : sds_type s' = 0) by (rewrite sds_type_mod; exact Hm8).
    assert (Hl' : ni_string_len s' = n).
    { rewrite (len_type5 s' Ht'). cbn [flags s']. exact Hd8. }
    exists s'. split; [reflexivity|]. split; [|split; [exact Hl'|split; [|split]]].
    + apply valid_type5; rewrite ?Hd8, ?zlength_insert; try lia.
      apply list_lookup_insert_eq. unfold zlength in *. lia.
    + unfold content. rewrite Hl'. cbn [buf s']. rewrite take_insert.
      destruct (decide _); [lia|reflexivity].
    + reflexivity.
    + rewrite Ht', E. reflexivity.
Qed.

Lemma ni_string_incr_len_adjusts_witness :
  valid example_wide /\
  ((1 <= sds_type example_wide <= 4 /\
    (0 <= 2 <= ni_string_avail example_wide \/
     (2 < 0 /\ - 2 <= ni_string_len example_wide)))
   \/ (sds_type example_wide = 0 /\ 2 < 0 /\ - 2 <= ni_string_len example_wide)) /\
  exists s',
    ni_string_incr_len example_wide 2 heap0 = Ok s' heap0 /\ valid s' /\
    ni_string_len s' = ni_string_len example_wide + 2 /\
    content s' = take (Z.to_nat (ni_string_len example_wide + 2)) (buf example_wide) /\
    blk s' = blk example_wide /\ sds_type s' = sds_type example_wide.
Proof.
  assert (Hv : valid example_wide) by (apply validb_valid; reflexivity).
  assert (Hp : (1 <= sds_type example_wide <= 4 /\
                (0 <= 2 <= ni_string_avail example_wide \/
                 (2 < 0 /\ - 2 <= ni_string_len example_wide)))
               \/ (sds_type example_wide = 0 /\ 2 < 0 /\
                   - 2 <= ni_string_len example_wide)).
  { left. vm_compute. split; [split; discriminate|left; split; discriminate]. }
  split; [exact Hv|]. split; [exact Hp|].
  exact (ni_string_incr_len_adjusts example_wide 2 heap0 Hv Hp).
Defined.

(** The scheme of the comment of [ni_string_incr_len]: make room for the
    bytes with [ni_string_make_room_for], store them after the end of the
    string, and add their number to the length with [ni_string_incr_len].
    For one byte at least, the three steps return and leave a valid string
    of the old content followed by the bytes stored. *)
Theorem ni_string_make_room_write_incr_len s d h :
  valid s -> 0 < zlength d -> fits (ni_string_len s + zlength d) ->
  exists s1 h1 b s2,
    ni_string_make_room_for s (zlength d) h = Ok s1 h1 /\
    memcpy (buf s1) (ni_string_len s1) d (zlength d) = Some b /\
    ni_string_incr_len (with_buf s1 b) (zlength d) h1 = Ok s2 h1 /\
    valid s2 /\ content s2 = content s ++ d /\
    ni_string_len s2 = ni_string_len s + zlength d.
Proof.
  intros Hv Hd Hfit. unfold fits in Hfit. set (l := zlength d) in *.
  pose proof (valid_bounds s Hv) as (Hl0 & _).
  destruct (make_room_for_ok s l h Hv) as (s1 & h1 & R & Hv1 & Hl1 & Ha1 & Ht1 & Hpre);
    [lia|lia|].
  specialize (Ht1 Hd).
  assert (Hc1 : content s1 = content s) by (apply content_preserved; assumption).
  destruct (valid_wide_inv s1 Hv1 Ht1) as (Hf & Hlen & Hfb & Hb & _).
  rewrite (avail_eq s1 Hv1), (alloc_wide s1 Ht1), (len_wide s1 Ht1) in Ha1.
  exists s1, h1. rewrite (len_wide s1 Ht1).
  rewrite memcpy_ok by lia.
  set (b := take _ (buf s1) ++ _).
  assert (Hbl : zlength b = zlength (buf s1)).
  { subst b. rewrite !zlength_app, !zlength_take, zlength_drop by lia. lia. }
  exists b.
  rewrite incr_len_wide_hdr; cbn [with_buf blk flags hdr_len hdr_alloc buf];
    fold (sds_type s1); try lia; try exact Ht1; try exact Hfb.
  set (s2 := NiString _ _ _ _ _).
  assert (Ht2 : sds_type s2 = sds_type s1) by reflexivity.
  exists s2. split; [exact R|]. split; [reflexivity|]. split; [reflexivity|].
  rewrite (len_wide s2) by lia. cbn [hdr_len s2].
  rewrite <- Hl1, (len_wide s1 Ht1).
  split; [|split; [|reflexivity]].
  - apply valid_wide; fold (sds_type s1); rewrite ?zlength_insert; try lia.
    apply list_lookup_insert_eq. unfold zlength in *. lia.
  - rewrite <- Hc1. unfold content. rewrite (len_wide s2) by lia.
    rewrite (len_wide s1 Ht1). cbn [hdr_len buf s2].
    rewrite take_insert. destruct (decide _); [lia|]. subst b.
    replace (Z.to_nat (hdr_len s1 + l)) with (Z.to_nat (hdr_len s1) + Z.to_nat l)%nat by lia.
    rewrite take_app_add' by (rewrite length_take; unfold zlength in *; lia).
    rewrite take_app_le by (rewrite length_take; unfold zlength in *; lia).
    rewrite take_take, Nat.min_id. subst l. rewrite take_all. reflexivity.
Qed.

Lemma ni_string_make_room_write_incr_len_witness :
  valid example_type5 /\ 0 < zlength (bytes "bar") /\
  fits (ni_string_len example_type5 + zlength (bytes "bar")) /\
  exists s1 h1 b s2,
    ni_string_make_room_for example_type5 (zlength (bytes "bar")) heap0 = Ok s1 h1 /\
    memcpy (buf s1) (ni_string_len s1) (bytes "bar") (zlength (bytes "bar")) = Some b /\
    ni_string_incr_len (with_buf s1 b) (zlength (bytes "bar")) h1 = Ok s2 h1 /\
    valid s2 /\ content s2 = content example_type5 ++ bytes "bar" /\
    ni_string_len s2 = ni_string_len example_type5 + zlength (bytes "bar").
Proof.
  assert (Hv : valid example_type5) by (apply validb_valid; reflexivity).
  assert (Hd : 0 < zlength (bytes "bar")) by reflexivity.
  assert (Hf : fits (ni_string_len example_type5 + zlength (bytes "bar")))
    by (unfold fits; vm_compute; discriminate).
  split; [exact Hv|]. split; [exact Hd|]. split; [exact Hf|].
  exact (ni_string_make_room_write_incr_len example_type5 (bytes "bar") heap0 Hv Hd Hf).
Defined.

(** ** The header fields *)

Lemma type5_pack n :
  0 <= n ->
  to_u8 (Z.lor NI_STRING_TYPE_5 (Z.shiftl n NI_STRING_TYPE_BITS)) mod 8 = 0 /\
  to_u8 (Z.lor NI_STRING_TYPE_5 (Z.shiftl n NI_STRING_TYPE_BITS)) / 8
  = n mod 2 ^ 5.
Proof.
  intros Hn. unfold to_u8.
  rewrite Z.lor_0_l, shiftl3.
  change (2 ^ 8) with (8 * 2 ^ 5). change (2 ^ 5) with 32.
  rewrite (Z.mul_comm n 8), Z.mul_mod_distr_l by lia.
  split.
  - rewrite Z.mul_comm. apply Z.mod_mul. lia.
  - rewrite Z.mul_comm. apply Z.div_mul. lia.
Qed.

Lemma type5_packed s f :
  sds_type s = 0 -> f mod 8 = 0 ->
  sds_type (with_flags s f) = 0 /\
  ni_string_len (with_flags s f) = f / 8.
Proof.
  intros Ht Hf.
  assert (H0 : sds_type (with_flags s f) = 0)
    by (rewrite sds_type_mod; exact Hf).
  split; [exact H0|]. rewrite (len_type5 _ H0). reflexivity.
Qed.

(** A length stored with [ni_string_set_len] is read back by
    [ni_string_len] modulo the capacity of the length field of the header
    type (32 for type 5, the width of [len] otherwise), and so is the sum
    that [ni_string_inc_len] stores; neither changes the header type, the
    block or the bytes.  [ni_string_set_alloc] stores the capacity of a
    wider header the same way without touching the length, and does nothing
    at all to a type 5 string. *)
Theorem ni_string_hdr_fields_round_trip (s : ni_string) (n : Z) :
  valid s -> 0 <= n ->
  let m := len_modulus (sds_type s) in
  ni_string_len (ni_string_set_len s n) = n mod m /\
  ni_string_len (ni_string_inc_len s n) = (ni_string_len s + n) mod m /\
  sds_type (ni_string_set_len s n) = sds_type s /\
  sds_type (ni_string_inc_len s n) = sds_type s /\
  buf (ni_string_set_len s n) = buf s /\
  buf (ni_string_inc_len s n) = buf s /\
  (sds_type s <> 0 ->
   ni_string_alloc (ni_string_set_len s n) = ni_string_alloc s /\
   ni_string_alloc (ni_string_set_alloc s n) = n mod m /\
   ni_string_len (ni_string_set_alloc s n) = ni_string_len s) /\
  (sds_type s = 0 -> ni_string_set_alloc s n = s).
Proof.
  intros Hv Hn m.
  destruct (sds_type_cases s Hv) as [Ht|Ht].
  - (* type 5 *)
    assert (Hl : 0 <= ni_string_len s).
    { rewrite (len_type5 _ Ht). destruct Hv as (Hf & _).
      apply Z.div_pos; lia. }
    destruct (type5_pack n Hn) as (Hp1 & Hp2).
    assert (Hq : 0 <= to_u8 (NI_STRING_TYPE_5_LEN (flags s) + n))
      by (unfold to_u8; apply Z.mod_pos_bound; lia).
    destruct (type5_pack _ Hq) as (Hi1 & Hi2).
    destruct (type5_packed s _ Ht Hp1) as (Hs1 & Hs2).
    destruct (type5_packed s _ Ht Hi1) as (Hj1 & Hj2).
    subst m. unfold ni_string_set_len, ni_string_inc_len, ni_string_set_alloc.
    rewrite !Ht. cbv beta iota zeta. cbn [len_modulus].
    split; [rewrite Hs2; exact Hp2|].
    split; [|repeat split; try assumption; try reflexivity; congruence].
    rewrite Hj2, Hi2. rewrite (len_type5 _ Ht).
      unfold NI_STRING_TYPE_5_LEN. rewrite shiftr3. unfold to_u8.
      change (2 ^ 8) with (2 ^ 5 * 8).
    rewrite Z.mod_mod_divide; [reflexivity|].
    exists 8. lia.
  - (* the wider headers *)
    assert (Hw : 1 <= sds_type s <= 4) by lia.
    subst m. unfold ni_string_set_len, ni_string_inc_len, ni_string_set_alloc.
    rewrite (len_wide s Hw).
    destruct Ht as [Ht|[Ht|[Ht|Ht]]]; rewrite !Ht; cbn [len_modulus];
      (assert (Hk : forall x, sds_type (with_len s x) = sds_type s)
         by reflexivity);
      (assert (Hk' : forall x, sds_type (with_alloc s x) = sds_type s)
         by reflexivity);
      repeat split; try reflexivity; try (intros; lia);
      try (rewrite Hk; exact Ht);
      try (rewrite len_wide by (rewrite ?Hk, ?Hk'; lia); reflexivity);
      try (rewrite !alloc_wide by (rewrite ?Hk, ?Hk'; lia); reflexivity).
Qed.

Lemma ni_string_hdr_fields_round_trip_witness :
  ni_string_len (ni_string_set_len example_type5 35) = 3 /\
  ni_string_len (ni_string_inc_len example_type5 2) = 5 /\
  ni_string_set_alloc example_type5 9 = example_type5.
Proof.
  assert (Hv : valid example_type5) by (vm_compute; intuition congruence).
  assert (Hn : 0 <= 35) by lia.
  assert (Hn2 : 0 <= 2) by lia.
  assert (Hn9 : 0 <= 9) by lia.
  pose proof (ni_string_hdr_fields_round_trip example_type5 35 Hv Hn) as H1.
  pose proof (ni_string_hdr_fields_round_trip example_type5 2 Hv Hn2) as H2.
  pose proof (ni_string_hdr_fields_round_trip example_type5 9 Hv Hn9) as H3.
  cbv zeta in H1, H2, H3.
  destruct H1 as (H1 & _). destruct H2 as (_ & H2 & _).
  destruct H3 as (_ & _ & _ & _ & _ & _ & _ & H3).
  split; [exact H1|]. split; [exact H2|]. apply H3. reflexivity.
Defined.

(** [ni_string_req_type] picks the smallest header type whose
    length field can hold the size: the size is below the capacity of the
    chosen type and at or above that of every smaller type. *)
Theorem ni_string_req_type_smallest (size : Z) :
  0 <= size < 2 ^ 64 ->
  let t := ni_string_req_type size in
  0 <= t <= 4 /\
  size < len_modulus t /\
  forall t', 0 <= t' < t -> len_modulus t' <= size.
Proof.
  intros Hs t. subst t.
  destruct (req_type_cases size) as [ [E H] | [ [E H] | [ [E H] | [ [E H] | [E H] ] ] ] ]; rewrite E;
    (split; [lia|]); (split; [cbn [len_modulus]; lia|]);
    intros t' Ht';
    (assert (Hx : t' = 0 \/ t' = 1 \/ t' = 2 \/ t' = 3) by lia);
    destruct Hx as [ -> | [ -> | [ -> | -> ] ] ]; cbn [len_modulus]; lia.
Qed.

Lemma ni_string_req_type_smallest_witness :
  ni_string_req_type 300 = 2 /\ 300 < len_modulus 2 /\ len_modulus 1 <= 300.
Proof.
  assert (Hs : 0 <= 300 < 2 ^ 64) by lia.
  pose proof (ni_string_req_type_smallest 300 Hs) as H. cbv zeta in H.
  destruct H as (_ & H1 & H2).
  split; [reflexivity|]. split; [exact H1|]. apply (H2 1). 
  change (ni_string_req_type 300) with 2. lia.
Defined.

(** ** The statistics of the allocator *)

Lemma live_total_insert m b n :
  m !! b = None -> live_total (<[b := n]> m) = n + live_total m.
Proof.
  intros H. unfold live_total.
  rewrite map_fold_insert_L; [reflexivity| |exact H].
  intros. lia.
Qed.

Lemma live_total_delete m b n :
  m !! b = Some n -> live_total m = n + live_total (delete b m).
Proof.
  intros H. unfold live_total.
  rewrite (map_fold_delete_L _ _ b n m); [reflexivity| |exact H].
  intros. lia.
Qed.

Lemma to_size_add_l a b : to_size (to_size a + b) = to_size (a + b).
Proof. unfold to_size. apply Zplus_mod_idemp_l. Qed.

Lemma to_size_sub_l a b : to_size (to_size a - b) = to_size (a - b).
Proof. unfold to_size. apply Zminus_mod_idemp_l. Qed.


Lemma account_total usz e st st' :
  account usz e st = Some st' ->
  used_memory st = to_size (live_total (usable st)) ->
  used_memory st' = to_size (live_total (usable st')).
Proof.
  intros Ha Hs.
  destruct e as [b size|b size|b]; cbn in Ha;
    unfold ni_malloc_stat, ni_realloc_stat, ni_free_stat in Ha;
    destruct (usable st !! b) as [old|] eqn:Hb; try discriminate;
    injection Ha as <-; cbn [used_memory usable];
    unfold update_ni_malloc_stat_alloc, update_ni_malloc_stat_free;
    cbv zeta; rewrite Hs.
  - rewrite (live_total_insert _ _ _ Hb), to_size_add_l. f_equal. lia.
  - rewrite <- (insert_delete_eq (usable st)).
    rewrite live_total_insert by apply lookup_delete_eq.
    rewrite (live_total_delete _ _ _ Hb).
    rewrite to_size_sub_l, to_size_add_l. f_equal. lia.
  - rewrite (live_total_delete _ _ _ Hb), to_size_sub_l. f_equal. lia.
Qed.

Lemma replay_total usz evs st st' :
  replay usz evs st = Some st' ->
  used_memory st = to_size (live_total (usable st)) ->
  used_memory st' = to_size (live_total (usable st')).
Proof.
  revert st. induction evs as [|e evs IH]; intros st H Hs; cbn in H.
  - injection H as <-. exact Hs.
  - destruct (account usz e st) as [st1|] eqn:Ha; [|discriminate].
    apply (IH st1 H). exact (account_total usz e st st1 Ha Hs).
Qed.

(** Whatever the calls of [ni_malloc], [ni_realloc] and [ni_free]
    so far, [ni_malloc_used_memory] reports the usable sizes of the blocks
    that are allocated at that point, added up (as a [size_t]): the
    statistics never drift, and the rounding the update macros compute has
    no part in them. *)
Theorem ni_malloc_used_memory_is_live_total
  (malloc_usable_size : Z -> Z -> Z) (h : heap) (st : malloc_stat) :
  replay malloc_usable_size (events h) stat0 = Some st ->
  ni_malloc_used_memory malloc_usable_size h
  = Some (to_size (live_total (usable st))).
Proof.
  intros H. unfold ni_malloc_used_memory. rewrite H. cbn. f_equal.
  apply (replay_total _ _ _ _ H). reflexivity.
Qed.

Lemma ni_malloc_used_memory_is_live_total_witness :
  ni_malloc_used_memory (fun _ n => n)
    (Heap 3 [EvMalloc 1 123; EvRealloc 1 456; EvMalloc 2 10; EvFree 1]
       (fun _ => x00))
  = Some 10.
Proof.
  assert (H : replay (fun _ n => n)
                [EvMalloc 1 123; EvRealloc 1 456; EvMalloc 2 10; EvFree 1]
                stat0
              = Some (MallocStat 10 (<[2 := 10]> ∅))) by (vm_compute; reflexivity).
  exact (ni_malloc_used_memory_is_live_total (fun _ n => n)
           (Heap 3 [EvMalloc 1 123; EvRealloc 1 456; EvMalloc 2 10; EvFree 1]
              (fun _ => x00)) _ H).
Defined.







(** ** The doubly linked list *)

Lemma dlseg_frame m m' pv cur cells lst nx :
  (forall a, a ∈ cells.*1 -> m' !! a = m !! a) ->
  dlseg m pv cur cells lst nx -> dlseg m' pv cur cells lst nx.
Proof.
  revert pv cur. induction cells as [|[a v] rest IH]; intros pv cur Hf H.
  - exact H.
  - destruct H as (Hc & n & Hn & Hr). split; [exact Hc|].
    exists n. split.
    + rewrite Hf; [exact Hn|]. cbn. apply elem_of_cons. left. reflexivity.
    + apply IH; [|exact Hr]. intros b Hb. apply Hf. cbn.
      apply elem_of_cons. right. exact Hb.
Qed.

Lemma dlseg_app m pv cur c1 c2 lst nx :
  dlseg m pv cur (c1 ++ c2) lst nx <->
  exists l1 mid, dlseg m pv cur c1 l1 mid /\ dlseg m l1 mid c2 lst nx.
Proof.
  revert pv cur. induction c1 as [|[a v] c1 IH]; intros pv cur; cbn.
  - split.
    + intros H. exists pv, cur. split; [split; reflexivity|exact H].
    + intros (l1 & mid & (-> & ->) & H). exact H.
  - split.
    + intros (Hc & n & Hn & Hr). apply IH in Hr as (l1 & mid & H1 & H2).
      exists l1, mid. split; [|exact H2]. split; [exact Hc|].
      exists n. split; [exact Hn|exact H1].
    + intros (l1 & mid & (Hc & n & Hn & H1) & H2). split; [exact Hc|].
      exists n. split; [exact Hn|]. apply IH. exists l1, mid.
      split; [exact H1|exact H2].
Qed.

Lemma dlseg_snoc m pv cur c a v lst nx :
  dlseg m pv cur (c ++ [(a, v)]) lst nx <->
  lst = Some a /\
  exists l1, dlseg m pv cur c l1 (Some a) /\
             m !! a = Some (ListNode l1 nx v).
Proof.
  rewrite dlseg_app. cbn. split.
  - intros (l1 & mid & H1 & -> & n & Hn & -> & ->).
    split; [reflexivity|]. exists l1. split; [exact H1|exact Hn].
  - intros (-> & l1 & H1 & Hn). exists l1, (Some a). split; [exact H1|].
    split; [reflexivity|]. exists nx. split; [exact Hn|].
    split; reflexivity.
Qed.

Lemma dlseg_lookup m pv cur cells lst nx a v :
  dlseg m pv cur cells lst nx -> (a, v) ∈ cells ->
  exists p n, m !! a = Some (ListNode p n v).
Proof.
  revert pv cur. induction cells as [|[b w] rest IH]; intros pv cur H Hin.
  - inversion Hin.
  - destruct H as (_ & n & Hn & Hr). apply elem_of_cons in Hin as [E|Hin].
    + injection E as -> ->. exists pv, n. exact Hn.
    + exact (IH _ _ Hr Hin).
Qed.

Lemma dlseg_ends m pv cur cells lst nx :
  dlseg m pv cur cells lst nx ->
  cur = match cells with [] => nx | (a, _) :: _ => Some a end /\
  lst = match last cells with None => pv | Some (a, _) => Some a end.
Proof.
  revert pv cur. induction cells as [|[a v] rest IH]; intros pv cur H.
  - destruct H as (-> & ->). split; reflexivity.
  - destruct H as (-> & n & Hn & Hr). split; [reflexivity|].
    destruct (IH _ _ Hr) as (_ & Hl). rewrite Hl.
    destruct rest as [|c rest]; [reflexivity|].
    rewrite last_cons_cons. destruct (last (c :: rest)) as [[b w]|] eqn:E;
      [reflexivity|].
    apply last_None in E. discriminate.
Qed.

Lemma to_size_id n : 0 <= n < 2 ^ 64 -> to_size n = n.
Proof. intros H. unfold to_size. apply Z.mod_small. exact H. Qed.

Lemma zlength_cons_pos {A} (x : A) l : zlength (x :: l) = zlength l + 1.
Proof. unfold zlength. cbn [length]. lia. Qed.

Lemma zlength_snoc {A} (l : list A) x : zlength (l ++ [x]) = zlength l + 1.
Proof. unfold zlength. rewrite length_app. cbn [length]. lia. Qed.

Lemma is_list_allocated h l cells :
  is_list h l cells -> heap_ok h ->
  forall a, a ∈ cells.*1 -> a < next_node h.
Proof.
  intros (Hs & _ & _) Hok a Hin.
  apply list_elem_of_fmap in Hin as ([b v] & -> & Hin). cbn.
  destruct (dlseg_lookup _ _ _ _ _ _ _ _ Hs Hin) as (p & n & Hl).
  destruct (Z.lt_ge_cases b (next_node h)) as [?|Hge]; [assumption|].
  rewrite (Hok b Hge) in Hl. discriminate.
Qed.

Lemma heap_ok_alloc m f r n :
  heap_ok (ListHeap m f r) ->
  heap_ok (ListHeap (<[f := n]> m) (f + 1) r).
Proof.
  intros Hok a Ha. cbn in *. rewrite lookup_insert_ne by lia.
  apply Hok. cbn. lia.
Qed.

Lemma heap_ok_insert m f r a n :
  a < f -> heap_ok (ListHeap m f r) -> heap_ok (ListHeap (<[a := n]> m) f r).
Proof.
  intros Hlt Hok b Hb. cbn in *. rewrite lookup_insert_ne by lia.
  apply Hok. exact Hb.
Qed.

Lemma lbind_some {A B} (c : L A) (k : A -> L B) h a h' :
  c h = Some (a, h') -> lbind c k h = k a h'.
Proof. intros H. unfold lbind. rewrite H. reflexivity. Qed.

Lemma load_some m f r a n :
  m !! a = Some n -> load (Some a) (ListHeap m f r) = Some (n, ListHeap m f r).
Proof. intros H. unfold load. cbn. rewrite H. reflexivity. Qed.

Lemma store_some m f r a n0 n :
  m !! a = Some n0 ->
  store (Some a) n (ListHeap m f r) = Some (tt, ListHeap (<[a := n]> m) f r).
Proof. intros H. unfold store. cbn. rewrite H. reflexivity. Qed.

Lemma set_prev_some m f r a n v :
  m !! a = Some n ->
  set_prev (Some a) v (ListHeap m f r)
  = Some (tt, ListHeap (<[a := ListNode v (n_next n) (n_value n)]> m) f r).
Proof.
  intros H. unfold set_prev. rewrite (lbind_some _ _ _ _ _ (load_some _ _ _ _ _ H)).
  apply (store_some _ _ _ _ n). exact H.
Qed.

Lemma set_next_some m f r a n v :
  m !! a = Some n ->
  set_next (Some a) v (ListHeap m f r)
  = Some (tt, ListHeap (<[a := ListNode (n_prev n) v (n_value n)]> m) f r).
Proof.
  intros H. unfold set_next. rewrite (lbind_some _ _ _ _ _ (load_some _ _ _ _ _ H)).
  apply (store_some _ _ _ _ n). exact H.
Qed.

Lemma node_free_some m f r a n :
  m !! a = Some n ->
  node_free (Some a) (ListHeap m f r) = Some (tt, ListHeap (delete a m) f r).
Proof. intros H. unfold node_free. cbn. rewrite H. reflexivity. Qed.

Lemma call_free_some m f r v :
  call_free v (ListHeap m f r) = Some (tt, ListHeap m f (r ++ [v])).
Proof. reflexivity. Qed.

Lemma node_malloc_some m f r :
  node_malloc (ListHeap m f r)
  = Some (f, ListHeap (<[f := ListNode None None 0]> m) (f + 1) r).
Proof. reflexivity. Qed.

Lemma lbind_assoc {A B C} (c : L A) (f : A -> L B) (k : B -> L C) h :
  lbind (lbind c f) k h = lbind c (fun x => lbind (f x) k) h.
Proof. unfold lbind. destruct (c h) as [[a h']|]; reflexivity. Qed.

Lemma lbind_ret {A B} (a : A) (k : A -> L B) h : lbind (lret a) k h = k a h.
Proof. reflexivity. Qed.

Ltac len_tac :=
  unfold zlength; repeat (rewrite length_app || cbn [length app]); lia.

Ltac lookup_tac :=
  repeat first
    [ rewrite lookup_insert_eq
    | rewrite lookup_insert_ne by (congruence || lia)
    | rewrite lookup_delete_ne by (congruence || lia) ];
  first [ reflexivity | eassumption ].

(** One step of a computation in the node heap. *)
Ltac lstep :=
  rewrite ?lbind_assoc, ?lbind_ret;
  first
    [ rewrite (lbind_some _ _ _ _ _ (node_malloc_some _ _ _))
    | rewrite (lbind_some _ _ _ _ _ (call_free_some _ _ _ _))
    | erewrite lbind_some;
      [| first [ apply load_some | eapply store_some | apply set_prev_some
               | apply set_next_some | eapply node_free_some ];
         lookup_tac ] ];
  rewrite ?lbind_ret; cbn [n_prev n_next n_value].

(** Adding at the head. *)
Lemma add_node_head_ok lst cells val h :
  is_list h lst cells -> heap_ok h -> zlength cells + 1 < 2 ^ 64 ->
  exists lst' h',
    ni_list_add_node_head lst val h = Some (lst', h') /\
    is_list h' lst' ((next_node h, val) :: cells) /\
    heap_ok h' /\ next_node h' = next_node h + 1 /\
    released h' = released h /\ same_methods lst lst' /\
    same_outside (next_node h :: cells.*1) h h'.
Proof.
  intros Hl Hok Hlen.
  pose proof (is_list_allocated h lst cells Hl Hok) as Hal.
  destruct Hl as (Hs & (Hn & Hbnd) & Hnd). destruct h as [m f r].
  cbn [nodes next_node released] in *.
  assert (Hf : m !! f = None) by (apply (Hok f); cbn; lia).
  unfold ni_list_add_node_head. lstep. rewrite Hn.
  destruct cells as [|[hd v0] rest].
  - change (zlength [] =? 0) with true. cbv iota. lstep.
    eexists _, _. split; [reflexivity|].
    split; [|split; [|split; [reflexivity|split; [reflexivity|split]]]].
    + split; [|split].
      * cbn. split; [reflexivity|]. exists None.
        split; [lookup_tac|]. split; reflexivity.
      * split; [reflexivity|len_tac].
      * cbn. apply NoDup_singleton.
    + apply heap_ok_insert; [lia|]. apply heap_ok_alloc. exact Hok.
    + repeat split.
    + intros a Ha. cbn. apply not_elem_of_cons in Ha as (Ha & _).
      rewrite !lookup_insert_ne by congruence. reflexivity.
  - rewrite zlength_cons_pos in *.
    pose proof (zlength_nonneg rest) as Hr0.
    destruct (Z.eqb_spec (zlength rest + 1) 0) as [?|_]; [lia|].
    destruct Hs as (Hh & n & Hhd & Hrest). rewrite Hh.
    assert (Hne : hd <> f).
    { intros ->. rewrite Hf in Hhd. discriminate. }
    lstep. lstep.
    eexists _, _. split; [reflexivity|].
    apply NoDup_cons in Hnd as (Hnin & Hnd').
    assert (Hlt : forall a, a ∈ rest.*1 -> a < f /\ a <> hd).
    { intros a Ha. split.
      - apply Hal. cbn. apply elem_of_cons. right. exact Ha.
      - intros ->. exact (Hnin Ha). }
    split; [|split; [|split; [reflexivity|split; [reflexivity|split]]]].
    + split; [|split].
      * cbn [dlseg nodes l_head l_tail with_ends]. split; [reflexivity|].
        exists (Some hd). split; [lookup_tac|].
        split; [reflexivity|]. exists n. split; [lookup_tac|].
        apply (dlseg_frame m); [|exact Hrest].
        intros a Ha. destruct (Hlt a Ha).
        rewrite !lookup_insert_ne by lia. reflexivity.
      * cbn [l_len with_ends]. split; [|revert Hlen; len_tac]. rewrite !zlength_cons_pos.
        apply to_size_id. lia.
      * cbn. apply NoDup_cons. split.
        -- intros Hin. apply elem_of_cons in Hin as [E|Hin];
             [congruence|]. destruct (Hlt f Hin). lia.
        -- apply NoDup_cons. split; assumption.
    + assert (hd < f).
      { apply Hal. cbn. apply elem_of_cons. left. reflexivity. }
      apply heap_ok_insert; [lia|]. apply heap_ok_insert; [lia|].
      apply heap_ok_alloc. exact Hok.
    + repeat split.
    + intros a Ha. cbn [nodes].
      apply not_elem_of_cons in Ha as (Ha1 & Ha). cbn in Ha.
      apply not_elem_of_cons in Ha as (Ha2 & Ha).
      rewrite !lookup_insert_ne by congruence. reflexivity.
Qed.

Lemma snoc_case {A} (l : list A) : l = [] \/ exists l' x, l = l' ++ [x].
Proof.
  destruct l as [|x l] using rev_ind; [left; reflexivity|].
  right. exists l, x. reflexivity.
Qed.

Lemma fmap_fst_snoc (c : list (Z * Z)) a v : (c ++ [(a, v)]).*1 = (c.*1) ++ [a].
Proof. rewrite fmap_app. reflexivity. Qed.

Lemma NoDup_snoc (l : list Z) a : NoDup (l ++ [a]) <-> (a ∉ l) /\ NoDup l.
Proof.
  rewrite NoDup_app. split.
  - intros (Hl & Hd & _). split; [|exact Hl].
    intros Hin. apply (Hd a Hin). apply elem_of_cons. left. reflexivity.
  - intros (Hn & Hl). split; [exact Hl|]. split; [|apply NoDup_singleton].
    intros x Hx Hx'. apply elem_of_cons in Hx' as [->|Hx'];
      [exact (Hn Hx)|inversion Hx'].
Qed.

(** The first node of a segment gets another [prev]. *)
Lemma dlseg_relink_prev m m' pv pv' cur a v rest lst nx :
  dlseg m pv cur ((a, v) :: rest) lst nx ->
  (forall n, m !! a = Some (ListNode pv n v) ->
             m' !! a = Some (ListNode pv' n v)) ->
  (forall b, b ∈ rest.*1 -> m' !! b = m !! b) ->
  dlseg m' pv' cur ((a, v) :: rest) lst nx.
Proof.
  intros (Hc & n & Hn & Hr) Ha Hf. split; [exact Hc|].
  exists n. split; [exact (Ha n Hn)|].
  exact (dlseg_frame m m' _ _ _ _ _ Hf Hr).
Qed.

(** The last node of a segment gets another [next]. *)
Lemma dlseg_relink_next m m' pv cur c a v lst nx nx' :
  dlseg m pv cur (c ++ [(a, v)]) lst nx ->
  (forall p, m !! a = Some (ListNode p nx v) ->
             m' !! a = Some (ListNode p nx' v)) ->
  (forall b, b ∈ c.*1 -> m' !! b = m !! b) ->
  dlseg m' pv cur (c ++ [(a, v)]) lst nx'.
Proof.
  intros H Ha Hf. apply dlseg_snoc in H as (Hl & l1 & Hc & Hn).
  apply dlseg_snoc. split; [exact Hl|]. exists l1.
  split; [|exact (Ha l1 Hn)].
  exact (dlseg_frame m m' _ _ _ _ _ Hf Hc).
Qed.

(** Adding at the tail. *)
Lemma add_node_tail_ok lst cells val h :
  is_list h lst cells -> heap_ok h -> zlength cells + 1 < 2 ^ 64 ->
  exists lst' h',
    ni_list_add_node_tail lst val h = Some (lst', h') /\
    is_list h' lst' (cells ++ [(next_node h, val)]) /\
    heap_ok h' /\ next_node h' = next_node h + 1 /\
    released h' = released h /\ same_methods lst lst' /\
    same_outside (next_node h :: cells.*1) h h'.
Proof.
  intros Hl Hok Hlen.
  pose proof (is_list_allocated h lst cells Hl Hok) as Hal.
  destruct Hl as (Hs & (Hn & Hbnd) & Hnd). destruct h as [m f r].
  cbn [nodes next_node released] in *.
  assert (Hf : m !! f = None) by (apply (Hok f); cbn; lia).
  unfold ni_list_add_node_tail. lstep. rewrite Hn.
  destruct (snoc_case cells) as [->|(c & [t vt] & ->)].
  - change (zlength [] =? 0) with true. cbv iota. lstep.
    eexists _, _. split; [reflexivity|].
    split; [|split; [|split; [reflexivity|split; [reflexivity|split]]]].
    + split; [|split].
      * cbn. split; [reflexivity|]. exists None.
        split; [lookup_tac|]. split; reflexivity.
      * split; [reflexivity|len_tac].
      * cbn. apply NoDup_singleton.
    + apply heap_ok_insert; [lia|]. apply heap_ok_alloc. exact Hok.
    + repeat split.
    + intros a Ha. cbn. apply not_elem_of_cons in Ha as (Ha & _).
      rewrite !lookup_insert_ne by congruence. reflexivity.
  - rewrite zlength_snoc in *.
    pose proof (zlength_nonneg c) as Hr0.
    destruct (Z.eqb_spec (zlength c + 1) 0) as [?|_]; [lia|].
    pose proof Hs as Hs0.
    apply dlseg_snoc in Hs as (Ht & l1 & Hc & Htl). rewrite Ht.
    rewrite fmap_fst_snoc in Hnd, Hal.
    apply NoDup_snoc in Hnd as (Hnin & Hnd').
    assert (Hne : t <> f).
    { intros ->. rewrite Hf in Htl. discriminate. }
    assert (Hlt : forall a, a ∈ c.*1 -> a < f /\ a <> t).
    { intros a Ha. split.
      - apply Hal. apply elem_of_app. left. exact Ha.
      - intros ->. exact (Hnin Ha). }
    assert (Htf : t < f).
    { apply Hal. apply elem_of_app. right. apply elem_of_cons. left.
      reflexivity. }
    lstep. lstep.
    eexists _, _. split; [reflexivity|].
    split; [|split; [|split; [reflexivity|split; [reflexivity|split]]]].
    + split; [|split].
      * cbn [nodes l_head l_tail with_ends]. apply dlseg_snoc.
        split; [reflexivity|]. exists (Some t). split; [|lookup_tac].
        rewrite Ht in Hs0.
        apply (dlseg_relink_next m _ _ _ _ _ _ _ None); [exact Hs0| |].
        -- intros p Hp. rewrite Htl in Hp. injection Hp as <-.
           lookup_tac.
        -- intros b Hb. destruct (Hlt b Hb).
           rewrite !lookup_insert_ne by lia. reflexivity.
      * cbn [l_len with_ends]. split; [|revert Hlen; len_tac]. rewrite !zlength_snoc.
        apply to_size_id. lia.
      * rewrite !fmap_fst_snoc. apply NoDup_snoc. split.
        -- intros Hin. apply elem_of_app in Hin as [Hin|Hin].
           ++ destruct (Hlt f Hin). lia.
           ++ apply elem_of_cons in Hin as [E|Hin]; [lia|inversion Hin].
        -- apply NoDup_snoc. split; assumption.
    + apply heap_ok_insert; [lia|]. apply heap_ok_insert; [lia|].
      apply heap_ok_alloc. exact Hok.
    + repeat split.
    + intros a Ha. cbn [nodes].
      apply not_elem_of_cons in Ha as (Ha1 & Ha).
      rewrite fmap_fst_snoc in Ha.
      assert (a <> t).
      { intros ->. apply Ha. apply elem_of_app. right.
        apply elem_of_cons. left. reflexivity. }
      rewrite !lookup_insert_ne by congruence. reflexivity.
Qed.

Lemma dlseg_last_in m pv cur cells lst nx :
  dlseg m pv cur cells lst nx -> cells <> [] ->
  exists a, lst = Some a /\ a ∈ cells.*1.
Proof.
  intros H Hne. destruct (snoc_case cells) as [->|(c & [a v] & ->)];
    [congruence|].
  apply dlseg_snoc in H as (-> & _). exists a. split; [reflexivity|].
  rewrite fmap_fst_snoc. apply elem_of_app. right.
  apply elem_of_cons. left. reflexivity.
Qed.

Lemma NoDup_middle (l1 l2 : list Z) a :
  NoDup (l1 ++ a :: l2) <-> (a ∉ l1) /\ (a ∉ l2) /\ NoDup (l1 ++ l2).
Proof.
  rewrite <- Permutation_middle, NoDup_cons, not_elem_of_app. tauto.
Qed.

Lemma fmap_fst_middle (c1 c2 : list (Z * Z)) x :
  (c1 ++ x :: c2).*1 = (c1.*1) ++ x.1 :: (c2.*1).
Proof. rewrite fmap_app. reflexivity. Qed.

(** Inserting after or before a node of the list. *)
Lemma insert_node_ok lst c1 old vo c2 val after h :
  is_list h lst (c1 ++ (old, vo) :: c2) -> heap_ok h ->
  zlength (c1 ++ (old, vo) :: c2) + 1 < 2 ^ 64 ->
  exists lst' h',
    ni_list_insert_node lst old val after h = Some (lst', h') /\
    is_list h' lst'
      (c1 ++ (if after then [(old, vo); (next_node h, val)]
              else [(next_node h, val); (old, vo)]) ++ c2) /\
    heap_ok h' /\ next_node h' = next_node h + 1 /\
    released h' = released h /\ same_methods lst lst' /\
    same_outside (next_node h :: (c1 ++ (old, vo) :: c2).*1) h h'.
Proof.
  intros Hl Hok Hlen.
  pose proof (is_list_allocated h lst _ Hl Hok) as Hal.
  destruct Hl as (Hs & (Hn & Hbnd) & Hnd). destruct h as [m f r].
  cbn [nodes next_node released] in *.
  assert (Hf : m !! f = None) by (apply (Hok f); cbn; lia).
  apply dlseg_app in Hs as (l1 & mid & H1 & (-> & n & Hold & H2)).
  rewrite fmap_fst_middle in Hnd, Hal. rewrite fmap_fst_middle.
  cbn [fst] in Hnd, Hal |- *.
  apply NoDup_middle in Hnd as (Ho1 & Ho2 & Hnd).
  apply NoDup_app in Hnd as (Hnd1 & Hd12 & Hnd2).
  assert (Hof : old < f).
  { apply Hal. apply elem_of_app. right. apply elem_of_cons. left.
    reflexivity. }
  assert (Hlt1 : forall a, a ∈ c1.*1 -> a < f /\ a <> old).
  { intros a Ha. split.
    - apply Hal. apply elem_of_app. left. exact Ha.
    - intros ->. exact (Ho1 Ha). }
  assert (Hlt2 : forall a, a ∈ c2.*1 -> a < f /\ a <> old).
  { intros a Ha. split.
    - apply Hal. apply elem_of_app. right. apply elem_of_cons. right.
      exact Ha.
    - intros ->. exact (Ho2 Ha). }
  assert (Hlen' : l_len lst + 1 < 2 ^ 64) by (rewrite Hn; exact Hlen).
  assert (Hlen0 : 0 <= l_len lst) by (rewrite Hn; apply zlength_nonneg).
  assert (Hndr : NoDup ((c1.*1) ++ old :: f :: (c2.*1))).
  { apply NoDup_middle. split; [exact Ho1|]. split.
    - intros Hin. apply elem_of_cons in Hin as [E|Hin]; [lia|].
      exact (Ho2 Hin).
    - apply NoDup_middle. split; [|split].
      + intros Hin. destruct (Hlt1 f Hin). lia.
      + intros Hin. destruct (Hlt2 f Hin). lia.
      + apply NoDup_app. split; [exact Hnd1|]. split; assumption. }
  assert (Hout : forall m',
    (forall a, a <> f -> a ∉ (c1.*1) ++ old :: (c2.*1) -> m' !! a = m !! a) ->
    same_outside (f :: (c1.*1) ++ old :: (c2.*1))
      (ListHeap m f r) (ListHeap m' (f + 1) r)).
  { intros m' Hm a Ha. apply not_elem_of_cons in Ha as (Ha1 & Ha).
    cbn. apply Hm; assumption. }
  unfold ni_list_insert_node. lstep. lstep.
  destruct after.
  - (* after the node *)
    lstep. lstep. lstep. lstep.
    destruct c2 as [|[q vq] c2].
    + destruct H2 as (-> & Ht). cbv iota. rewrite lbind_ret. rewrite Ht.
      rewrite bool_decide_eq_true_2 by reflexivity.
      eexists _, _. split; [reflexivity|].
      split; [|split; [|split; [reflexivity|split; [reflexivity|split]]]].
      * split; [|split].
        -- cbn [nodes l_head l_tail with_ends]. apply dlseg_app.
           exists l1, (Some old). split.
           ++ apply (dlseg_frame m); [|exact H1]. intros a Ha.
              destruct (Hlt1 a Ha).
              rewrite !lookup_insert_ne by lia. reflexivity.
           ++ cbn. split; [reflexivity|]. exists (Some f).
              split; [lookup_tac|]. split; [reflexivity|].
              exists None. split; [lookup_tac|]. split; reflexivity.
        -- cbn [l_len with_ends]. split; [|revert Hlen; len_tac]. rewrite to_size_id by lia. rewrite Hn.
           len_tac.
        -- rewrite fmap_app. cbn. exact Hndr.
      * apply heap_ok_insert; [lia|]. apply heap_ok_insert; [lia|].
        apply heap_ok_alloc. exact Hok.
      * repeat split.
      * apply Hout. intros a Ha1 Ha.
        apply not_elem_of_app in Ha as (_ & Ha).
        apply not_elem_of_cons in Ha as (Ha & _).
        rewrite !lookup_insert_ne by congruence. reflexivity.
    + destruct (dlseg_last_in _ _ _ _ _ _ H2) as (tl & Htl & Hin);
        [discriminate|].
      pose proof H2 as H2'. destruct H2 as (-> & nq & Hq & H2).
      assert (Hq' : q < f /\ q <> old).
      { apply Hlt2. cbn. apply elem_of_cons. left. reflexivity. }
      destruct Hq' as (Hqf & Hqo).
      cbv iota. lstep. rewrite Htl.
      rewrite bool_decide_eq_false_2
        by (intros E; injection E as ->; exact (Ho2 Hin)).
      eexists _, _. split; [reflexivity|].
      split; [|split; [|split; [reflexivity|split; [reflexivity|split]]]].
      * split; [|split].
        -- cbn [nodes l_head l_tail with_ends]. apply dlseg_app.
           exists l1, (Some old). split.
           ++ apply (dlseg_frame m); [|exact H1]. intros a Ha.
              destruct (Hlt1 a Ha).
              assert (a <> q).
              { intros ->. apply (Hd12 q Ha). cbn. apply elem_of_cons.
                left. reflexivity. }
              rewrite !lookup_insert_ne by lia. reflexivity.
           ++ cbn [app dlseg]. split; [reflexivity|]. exists (Some f).
              split; [lookup_tac|]. split; [reflexivity|].
              exists (Some q). split; [lookup_tac|].
              apply (dlseg_relink_prev m _ (Some old)); [exact H2'| |].
              ** intros n' Hn'. rewrite Hq in Hn'. injection Hn' as <-.
                 lookup_tac.
              ** intros b Hb.
                 assert (b <> q).
                 { intros ->. cbn in Ho2, Hnd2.
                   apply NoDup_cons in Hnd2 as (Hx & _). exact (Hx Hb). }
                 assert (b < f /\ b <> old) as (? & ?).
                 { apply Hlt2. cbn. apply elem_of_cons. right. exact Hb. }
                 rewrite !lookup_insert_ne by lia. reflexivity.
        -- cbn [l_len with_ends]. split; [|revert Hlen; len_tac]. rewrite to_size_id by lia. rewrite Hn.
           len_tac.
        -- rewrite fmap_app. cbn. exact Hndr.
      * apply heap_ok_insert; [lia|]. apply heap_ok_insert; [lia|].
        apply heap_ok_insert; [lia|].
        apply heap_ok_alloc. exact Hok.
      * repeat split.
      * apply Hout. intros a Ha1 Ha.
        apply not_elem_of_app in Ha as (_ & Ha).
        apply not_elem_of_cons in Ha as (Ha & Ha2). cbn in Ha2.
        apply not_elem_of_cons in Ha2 as (Ha2 & _).
        rewrite !lookup_insert_ne by congruence. reflexivity.
  - (* before the node *)
    lstep. lstep.
    assert (Hndr' : NoDup ((c1.*1) ++ f :: old :: (c2.*1))).
    { apply NoDup_middle. split; [|split].
      - intros Hin. destruct (Hlt1 f Hin). lia.
      - intros Hin. apply elem_of_cons in Hin as [E|Hin]; [lia|].
        destruct (Hlt2 f Hin). lia.
      - apply NoDup_middle. split; [exact Ho1|]. split; [exact Ho2|].
        apply NoDup_app. split; [exact Hnd1|]. split; assumption. }
    destruct (snoc_case c1) as [->|(c & [p vp] & ->)].
    + destruct H1 as (Hh & ->). rewrite Hh.
      rewrite bool_decide_eq_true_2 by reflexivity.
      repeat lstep.
      eexists _, _. split; [reflexivity|].
      split; [|split; [|split; [reflexivity|split; [reflexivity|split]]]].
      * split; [|split].
        -- cbn [nodes l_head l_tail with_ends app dlseg].
           split; [reflexivity|]. exists (Some old).
           split; [lookup_tac|]. split; [reflexivity|].
           exists n. split; [lookup_tac|].
           apply (dlseg_frame m); [|exact H2]. intros a Ha.
           destruct (Hlt2 a Ha).
           rewrite !lookup_insert_ne by lia. reflexivity.
        -- cbn [l_len with_ends]. split; [|revert Hlen; len_tac]. rewrite to_size_id by lia. rewrite Hn.
           len_tac.
        -- cbn. cbn in Hndr'. exact Hndr'.
      * apply heap_ok_insert; [lia|]. apply heap_ok_insert; [lia|].
        apply heap_ok_alloc. exact Hok.
      * repeat split.
      * apply Hout. intros a Ha1 Ha.
        apply not_elem_of_app in Ha as (_ & Ha).
        apply not_elem_of_cons in Ha as (Ha & _).
        rewrite !lookup_insert_ne by congruence. reflexivity.
    + pose proof H1 as H1'.
      apply dlseg_snoc in H1 as (-> & l0 & Hc & Hp).
      assert (Hp' : p < f /\ p <> old).
      { apply Hlt1. rewrite fmap_fst_snoc. apply elem_of_app. right.
        apply elem_of_cons. left. reflexivity. }
      destruct Hp' as (Hpf & Hpo).
      assert (Hhd : l_head lst <> Some old).
      { intros E. destruct c as [|[a0 v0] c].
        - destruct Hc as (Hc & _). rewrite E in Hc. congruence.
        - destruct Hc as (Hc & _). rewrite E in Hc. injection Hc as <-.
          apply Ho1. cbn. apply elem_of_cons. left. reflexivity. }
      rewrite bool_decide_eq_false_2 by exact Hhd.
      repeat lstep.
      rewrite fmap_fst_snoc in Hnd1.
      apply NoDup_snoc in Hnd1 as (Hpc & Hndc).
      eexists _, _. split; [reflexivity|].
      split; [|split; [|split; [reflexivity|split; [reflexivity|split]]]].
      * split; [|split].
        -- cbn [nodes l_head l_tail with_ends]. apply dlseg_app.
           exists (Some p), (Some f). split.
           ++ apply (dlseg_relink_next m _ _ _ _ _ _ _ (Some old));
                [exact H1'| |].
              ** intros p' Hp''. rewrite Hp in Hp''. injection Hp'' as <-.
                 lookup_tac.
              ** intros b Hb.
                 assert (b <> p) by (intros ->; exact (Hpc Hb)).
                 assert (b < f /\ b <> old) as (? & ?).
                 { apply Hlt1. rewrite fmap_fst_snoc. apply elem_of_app.
                   left. exact Hb. }
                 rewrite !lookup_insert_ne by lia. reflexivity.
           ++ cbn [app dlseg]. split; [reflexivity|]. exists (Some old).
              split; [lookup_tac|]. split; [reflexivity|].
              exists n. split; [lookup_tac|].
              apply (dlseg_frame m); [|exact H2]. intros a Ha.
              destruct (Hlt2 a Ha).
              assert (a <> p).
              { intros ->. apply (Hd12 p); [|exact Ha].
                rewrite fmap_fst_snoc. apply elem_of_app. right.
                apply elem_of_cons. left. reflexivity. }
              rewrite !lookup_insert_ne by lia. reflexivity.
        -- cbn [l_len with_ends]. split; [|revert Hlen; len_tac]. rewrite to_size_id by lia. rewrite Hn.
           len_tac.
        -- rewrite fmap_app. cbn. exact Hndr'.
      * apply heap_ok_insert; [lia|]. apply heap_ok_insert; [lia|].
        apply heap_ok_insert; [lia|].
        apply heap_ok_alloc. exact Hok.
      * repeat split.
      * apply Hout. intros a Ha1 Ha.
        apply not_elem_of_app in Ha as (Ha0 & Ha).
        apply not_elem_of_cons in Ha as (Ha & _).
        rewrite fmap_fst_snoc in Ha0.
        apply not_elem_of_app in Ha0 as (_ & Ha0).
        apply not_elem_of_cons in Ha0 as (Ha0 & _).
        rewrite !lookup_insert_ne by congruence. reflexivity.
Qed.

(** Removing a node of the list. *)
Lemma del_node_ok lst c1 nd v c2 h :
  is_list h lst (c1 ++ (nd, v) :: c2) -> heap_ok h ->
  exists lst' h',
    ni_list_del_node lst nd h = Some (lst', h') /\
    is_list h' lst' (c1 ++ c2) /\
    heap_ok h' /\ next_node h' = next_node h /\
    released h' = released h ++ (if l_free lst then [v] else []) /\
    nodes h' !! nd = None /\ same_methods lst lst' /\
    same_outside (c1 ++ (nd, v) :: c2).*1 h h'.
Proof.
  intros Hl Hok.
  pose proof (is_list_allocated h lst _ Hl Hok) as Hal.
  destruct Hl as (Hs & (Hn & Hbnd) & Hnd). destruct h as [m f r].
  cbn [nodes next_node released] in *.
  apply dlseg_app in Hs as (l1 & mid & H1 & (-> & n & Hnode & H2)).
  rewrite fmap_fst_middle in Hnd, Hal. rewrite fmap_fst_middle.
  cbn [fst] in Hnd, Hal |- *.
  apply NoDup_middle in Hnd as (Ho1 & Ho2 & Hnd).
  pose proof Hnd as Hnd0.
  apply NoDup_app in Hnd0 as (Hnd1 & Hd12 & Hnd2).
  assert (Hlt1 : forall a, a ∈ c1.*1 -> a < f /\ a <> nd).
  { intros a Ha. split.
    - apply Hal. apply elem_of_app. left. exact Ha.
    - intros ->. exact (Ho1 Ha). }
  assert (Hlt2 : forall a, a ∈ c2.*1 -> a < f /\ a <> nd).
  { intros a Ha. split.
    - apply Hal. apply elem_of_app. right. apply elem_of_cons. right.
      exact Ha.
    - intros ->. exact (Ho2 Ha). }
  assert (Hlen : 1 <= l_len lst < 2 ^ 64).
  { rewrite Hn. revert Hbnd. len_tac. }
  assert (Hlen2 : l_len lst - 1 = zlength (c1 ++ c2)).
  { rewrite Hn. len_tac. }
  assert (Hfin : forall hd tl m' r',
    dlseg m' None hd (c1 ++ c2) tl None ->
    is_list (ListHeap m' f r')
      (with_ends (with_ends lst hd tl (l_len lst)) hd tl
         (to_size (l_len lst - 1))) (c1 ++ c2)).
  { intros hd tl m' r' Hd. split; [exact Hd|]. split; [|rewrite fmap_app; exact Hnd].
    cbn [l_len with_ends]. rewrite to_size_id by lia. split; [exact Hlen2|lia]. }
  assert (Hout : forall m',
    (forall a, a ∉ (c1.*1) ++ nd :: (c2.*1) -> m' !! a = m !! a) ->
    same_outside ((c1.*1) ++ nd :: (c2.*1))
      (ListHeap m f r) (ListHeap (delete nd m') f
         (r ++ (if l_free lst then [v] else [])))).
  { intros m' Hm a Ha. cbn. pose proof (Hm a Ha) as Hma.
    apply not_elem_of_app in Ha as (_ & Ha).
    apply not_elem_of_cons in Ha as (Ha & _).
    rewrite lookup_delete_ne by congruence. exact Hma. }
  assert (Hokd : forall m', heap_ok (ListHeap m' f r) ->
    heap_ok (ListHeap (delete nd m') f
               (r ++ (if l_free lst then [v] else [])))).
  { intros m' Hm a Ha. cbn in *.
    destruct (decide (a = nd)) as [->|Hne];
      [apply lookup_delete_eq|].
    rewrite lookup_delete_ne by congruence. apply Hm. exact Ha. }
  assert (Hfree : forall (lst0 : ni_list) m' n0 hd tl,
    l_free lst0 = l_free lst -> l_len lst0 = l_len lst ->
    l_head lst0 = hd -> l_tail lst0 = tl ->
    l_dup lst0 = l_dup lst -> l_match lst0 = l_match lst ->
    m' !! nd = Some (ListNode (n_prev n0) (n_next n0) v) ->
    (do* n := load (Some nd) in
     do* _ := if l_free lst0 then call_free (n_value n) else lret tt in
     do* _ := node_free (Some nd) in
     lret (with_ends lst0 (l_head lst0) (l_tail lst0)
             (to_size (l_len lst0 - 1)))) (ListHeap m' f r)
    = Some (with_ends (with_ends lst hd tl (l_len lst)) hd tl
              (to_size (l_len lst - 1)),
            ListHeap (delete nd m') f
              (r ++ (if l_free lst then [v] else [])))).
  { intros lst0 m' n0 hd tl E1 E2 E3 E4 E5 E6 Hm'. lstep.
    rewrite E1. unfold with_ends. rewrite E2, E3, E4, E5, E6, E1.
    destruct (l_free lst).
    - repeat lstep. reflexivity.
    - repeat lstep. rewrite app_nil_r. reflexivity. }
  unfold ni_list_del_node. lstep.
  destruct (snoc_case c1) as [->|(c & [p vp] & ->)].
  - (* the head *)
    destruct H1 as (Hh & ->). cbv iota. lstep.
    destruct c2 as [|[q vq] c2].
    + destruct H2 as (-> & Ht). cbv iota. rewrite lbind_ret.
      rewrite (Hfree _ m (ListNode None None v) None None);
        try reflexivity; [|exact Hnode].
      eexists _, _. split; [reflexivity|].
      split; [|split; [|split; [reflexivity|split; [reflexivity|split;
        [|split]]]]].
      * apply Hfin. cbn. split; reflexivity.
      * apply Hokd. exact Hok.
      * cbn. apply lookup_delete_eq.
      * repeat split.
      * apply Hout. intros a Ha. reflexivity.
    + destruct H2 as (-> & nq & Hq & H2).
      assert (q < f /\ q <> nd) as (Hqf & Hqn).
      { apply Hlt2. cbn. apply elem_of_cons. left. reflexivity. }
      cbv iota. lstep.
      rewrite (Hfree _ _ (ListNode None (Some q) v) (Some q) (l_tail lst));
        try reflexivity; [|lookup_tac].
      eexists _, _. split; [reflexivity|].
      split; [|split; [|split; [reflexivity|split; [reflexivity|split;
        [|split]]]]].
      * apply Hfin. cbn [app dlseg]. split; [reflexivity|].
        exists nq. split; [lookup_tac|].
        apply (dlseg_frame m); [|exact H2]. intros a Ha.
        assert (a <> q).
        { intros ->. cbn in Hnd2. apply NoDup_cons in Hnd2 as (Hx & _).
          exact (Hx Ha). }
        assert (a < f /\ a <> nd) as (? & ?).
        { apply Hlt2. cbn. apply elem_of_cons. right. exact Ha. }
        rewrite lookup_delete_ne by congruence.
        rewrite !lookup_insert_ne by congruence. reflexivity.
      * apply Hokd. apply heap_ok_insert; [lia|exact Hok].
      * cbn. apply lookup_delete_eq.
      * repeat split.
      * apply Hout. intros a Ha.
        apply not_elem_of_app in Ha as (_ & Ha).
        apply not_elem_of_cons in Ha as (_ & Ha). cbn in Ha.
        apply not_elem_of_cons in Ha as (Ha & _).
        rewrite !lookup_insert_ne by congruence. reflexivity.
  - (* a node after the head *)
    pose proof H1 as H1'.
    apply dlseg_snoc in H1 as (-> & l0 & Hc & Hp).
    assert (p < f /\ p <> nd) as (Hpf & Hpn).
    { apply Hlt1. rewrite fmap_fst_snoc. apply elem_of_app. right.
      apply elem_of_cons. left. reflexivity. }
    rewrite fmap_fst_snoc in Hnd1.
    apply NoDup_snoc in Hnd1 as (Hpc & Hndc).
    cbv iota. lstep. lstep.
    assert (Hc1 : forall m' nx',
      m' !! p = Some (ListNode l0 nx' vp) ->
      (forall b, b ∈ c.*1 -> m' !! b = m !! b) ->
      dlseg (delete nd m') None (l_head lst) (c ++ [(p, vp)]) (Some p) nx').
    { intros m' nx' Hp' Hm'.
      apply (dlseg_relink_next m _ _ _ _ _ _ _ (Some nd)); [exact H1'| |].
      - intros p' Hp''. rewrite Hp in Hp''. injection Hp'' as <-.
        rewrite lookup_delete_ne by congruence. exact Hp'.
      - intros b Hb.
        assert (b < f /\ b <> nd) as (? & ?).
        { apply Hlt1. rewrite fmap_fst_snoc. apply elem_of_app.
          left. exact Hb. }
        rewrite lookup_delete_ne by congruence. apply Hm'. exact Hb. }
    destruct c2 as [|[q vq] c2].
    + destruct H2 as (-> & Ht). cbv iota. rewrite lbind_ret.
      rewrite (Hfree _ _ (ListNode (Some p) None v) (l_head lst) (Some p));
        try reflexivity; [|lookup_tac].
      eexists _, _. split; [reflexivity|].
      split; [|split; [|split; [reflexivity|split; [reflexivity|split;
        [|split]]]]].
      * apply Hfin. rewrite app_nil_r. apply Hc1; [lookup_tac|].
        intros b Hb.
        assert (b <> p) by (intros ->; exact (Hpc Hb)).
        rewrite !lookup_insert_ne by congruence. reflexivity.
      * apply Hokd. apply heap_ok_insert; [lia|exact Hok].
      * cbn. apply lookup_delete_eq.
      * repeat split.
      * apply Hout. intros a Ha.
        apply not_elem_of_app in Ha as (Ha & _).
        rewrite fmap_fst_snoc in Ha.
        apply not_elem_of_app in Ha as (_ & Ha).
        apply not_elem_of_cons in Ha as (Ha & _).
        rewrite !lookup_insert_ne by congruence. reflexivity.
    + destruct H2 as (-> & nq & Hq & H2).
      assert (q < f /\ q <> nd) as (Hqf & Hqn).
      { apply Hlt2. cbn. apply elem_of_cons. left. reflexivity. }
      assert (Hpq : p <> q).
      { intros ->. apply (Hd12 q).
        - rewrite fmap_fst_snoc. apply elem_of_app. right.
          apply elem_of_cons. left. reflexivity.
        - cbn. apply elem_of_cons. left. reflexivity. }
      cbv iota. lstep.
      rewrite (Hfree _ _ (ListNode (Some p) (Some q) v)
                 (l_head lst) (l_tail lst));
        try reflexivity; [|lookup_tac].
      eexists _, _. split; [reflexivity|].
      split; [|split; [|split; [reflexivity|split; [reflexivity|split;
        [|split]]]]].
      * apply Hfin. apply dlseg_app. exists (Some p), (Some q). split.
        -- apply Hc1; [lookup_tac|].
           intros b Hb.
           assert (b <> p) by (intros ->; exact (Hpc Hb)).
           assert (b <> q).
           { intros ->. apply (Hd12 q).
             - rewrite fmap_fst_snoc. apply elem_of_app. left. exact Hb.
             - cbn. apply elem_of_cons. left. reflexivity. }
           rewrite !lookup_insert_ne by congruence. reflexivity.
        -- cbn [dlseg]. split; [reflexivity|]. exists nq.
           split; [lookup_tac|].
           apply (dlseg_frame m); [|exact H2]. intros a Ha.
           assert (a <> q).
           { intros ->. cbn in Hnd2. apply NoDup_cons in Hnd2 as (Hx & _).
             exact (Hx Ha). }
           assert (a < f /\ a <> nd) as (? & ?).
           { apply Hlt2. cbn. apply elem_of_cons. right. exact Ha. }
           assert (a <> p).
           { intros ->. apply (Hd12 p).
             - rewrite fmap_fst_snoc. apply elem_of_app. right.
               apply elem_of_cons. left. reflexivity.
             - cbn. apply elem_of_cons. right. exact Ha. }
           rewrite lookup_delete_ne by congruence.
           rewrite !lookup_insert_ne by congruence. reflexivity.
      * apply Hokd. apply heap_ok_insert; [lia|].
        apply heap_ok_insert; [lia|exact Hok].
      * cbn. apply lookup_delete_eq.
      * repeat split.
      * apply Hout. intros a Ha.
        apply not_elem_of_app in Ha as (Ha0 & Ha).
        rewrite fmap_fst_snoc in Ha0.
        apply not_elem_of_app in Ha0 as (_ & Ha0).
        apply not_elem_of_cons in Ha0 as (Ha0 & _).
        apply not_elem_of_cons in Ha as (_ & Ha). cbn in Ha.
        apply not_elem_of_cons in Ha as (Ha & _).
        rewrite !lookup_insert_ne by congruence. reflexivity.
Qed.

(** The node at a place of a segment. *)
Lemma dlseg_nth m pv cur cells lst nx i a v :
  dlseg m pv cur cells lst nx -> cells !! i = Some (a, v) ->
  m !! a = Some (ListNode
                   (match i with O => pv | S j => cells.*1 !! j end)
                   (match cells.*1 !! S i with Some b => Some b | None => nx end)
                   v).
Proof.
  revert pv cur i. induction cells as [|[b w] rest IH]; intros pv cur i H Hi.
  - discriminate.
  - destruct H as (_ & n & Hn & Hr). destruct i as [|i].
    + injection Hi as -> ->. rewrite Hn. f_equal. f_equal.
      destruct rest as [|[c u] rest]; cbn.
      * destruct Hr as (-> & _). reflexivity.
      * destruct Hr as (-> & _). reflexivity.
    + cbn in Hi. rewrite (IH _ _ _ Hr Hi).
      destruct i; reflexivity.
Qed.

Lemma dlseg_head m pv cur cells lst nx :
  dlseg m pv cur cells lst nx ->
  cur = match cells.*1 !! O with Some a => Some a | None => nx end.
Proof.
  destruct cells as [|[a v] rest]; cbn.
  - intros (-> & _). reflexivity.
  - intros (-> & _). reflexivity.
Qed.

Lemma dlseg_tail m pv cur cells lst nx :
  dlseg m pv cur cells lst nx ->
  lst = match cells with [] => pv | _ => cells.*1 !! (length cells - 1)%nat end.
Proof.
  intros H. destruct (snoc_case cells) as [->|(c & [a v] & ->)].
  - destruct H as (_ & ->). reflexivity.
  - apply dlseg_snoc in H as (-> & _).
    destruct (c ++ [(a, v)]) eqn:E; [destruct c; discriminate|].
    rewrite <- E. rewrite fmap_fst_snoc, length_app. cbn [length].
    rewrite lookup_app_r by (rewrite length_fmap; lia).
    rewrite length_fmap.
    replace (length c + 1 - 1 - length c)%nat with O by lia. reflexivity.
Qed.

(** [ni_list_next] at a place of the list. *)
Lemma next_ok h lst cells i :
  is_list h lst cells ->
  ni_list_next (ListIter (cells.*1 !! i) AL_START_HEAD) h
  = Some ((cells.*1 !! i, ListIter (cells.*1 !! S i) AL_START_HEAD), h) /\
  (forall d a, (d =? AL_START_HEAD) = false -> cells.*1 !! i = Some a ->
     ni_list_next (ListIter (Some a) d) h
     = Some ((Some a,
              ListIter (match i with O => None | S j => cells.*1 !! j end)
                       d), h)) /\
  (forall d, ni_list_next (ListIter None d) h
             = Some ((None, ListIter None d), h)).
Proof.
  intros (Hs & _ & _). destruct h as [m f r]. cbn [nodes] in *.
  unfold ni_list_next. cbn [it_next it_direction].
  split; [|split; [|reflexivity]].
  - destruct (cells.*1 !! i) as [a|] eqn:Ha.
    + apply list_lookup_fmap_Some in Ha as ([a' v] & E & Hc). cbn in E.
      subst a'.
      pose proof (dlseg_nth _ _ _ _ _ _ _ _ _ Hs Hc) as Hn.
      lstep. cbn. unfold lret. do 4 f_equal.
      destruct (cells.*1 !! S i); reflexivity.
    + unfold lret. do 4 f_equal. symmetry.
      apply lookup_ge_None. apply lookup_ge_None in Ha. lia.
  - intros d a Hd Ha.
    apply list_lookup_fmap_Some in Ha as ([a' v] & E & Hc). cbn in E.
    subst a'.
    pose proof (dlseg_nth _ _ _ _ _ _ _ _ _ Hs Hc) as Hn.
    lstep. rewrite Hd. cbn. unfold lret. reflexivity.
Qed.

Lemma index_loop_null n forward h : index_loop n forward None h = Some (None, h).
Proof. destruct n; reflexivity. Qed.

Lemma index_loop_fwd h lst cells n i :
  is_list h lst cells ->
  index_loop n true (cells.*1 !! i) h = Some (cells.*1 !! (i + n)%nat, h).
Proof.
  intros Hl. pose proof Hl as (Hs & _ & _). destruct h as [m f r].
  cbn [nodes] in *. revert i. induction n as [|n IH]; intros i.
  - rewrite Nat.add_0_r. reflexivity.
  - cbn [index_loop]. destruct (cells.*1 !! i) as [a|] eqn:Ha.
    + apply list_lookup_fmap_Some in Ha as ([a' v] & E & Hc). cbn in E.
      subst a'.
      pose proof (dlseg_nth _ _ _ _ _ _ _ _ _ Hs Hc) as Hn.
      lstep.
      replace (match cells.*1 !! S i with Some b => Some b | None => None end)
        with (cells.*1 !! S i) by (destruct (cells.*1 !! S i); reflexivity).
      rewrite IH. do 2 f_equal. f_equal. lia.
    + unfold lret. do 2 f_equal. symmetry.
      apply lookup_ge_None. apply lookup_ge_None in Ha. lia.
Qed.

Lemma index_loop_bwd h lst cells n i :
  is_list h lst cells -> (i < length cells)%nat ->
  index_loop n false (cells.*1 !! i) h
  = Some (if (n <=? i)%nat then cells.*1 !! (i - n)%nat else None, h).
Proof.
  intros Hl. pose proof Hl as (Hs & _ & _). destruct h as [m f r].
  cbn [nodes] in *. revert i. induction n as [|n IH]; intros i Hi.
  - rewrite Nat.sub_0_r. reflexivity.
  - cbn [index_loop].
    destruct (cells.*1 !! i) as [a|] eqn:Ha.
    2: { apply lookup_ge_None in Ha. rewrite length_fmap in Ha. lia. }
    apply list_lookup_fmap_Some in Ha as ([a' v] & E & Hc). cbn in E.
    subst a'.
    pose proof (dlseg_nth _ _ _ _ _ _ _ _ _ Hs Hc) as Hn.
    lstep. destruct i as [|j].
    + rewrite index_loop_null. reflexivity.
    + rewrite IH by lia. reflexivity.
Qed.

Lemma to_ssize_id z : - 2 ^ 63 <= z < 2 ^ 63 -> to_ssize z = z.
Proof. intros H. unfold to_ssize. rewrite Z.mod_small by lia. lia. Qed.

Lemma index_ok h lst cells idx :
  is_list h lst cells -> - 2 ^ 63 < idx < 2 ^ 63 ->
  ni_list_index lst idx h = Some (index_spec cells idx, h).
Proof.
  intros Hl Hidx. pose proof Hl as (Hs & (Hn & Hb) & _).
  unfold ni_list_index, index_spec.
  destruct (Z.ltb_spec idx 0) as [Hneg|Hpos].
  - rewrite (to_ssize_id (- idx)) by lia.
    rewrite (to_ssize_id (- idx - 1)) by lia.
    rewrite (dlseg_tail _ _ _ _ _ _ Hs).
    destruct cells as [|c cells].
    + rewrite index_loop_null. change (zlength []) with 0.
      destruct (Z.leb_spec (- idx) 0); [lia|reflexivity].
    + rewrite (index_loop_bwd _ _ _ _ _ Hl) by (cbn [length]; lia).
      do 2 f_equal. unfold zlength.
      destruct (Z.leb_spec (- idx) (Z.of_nat (length (c :: cells))));
        destruct (Nat.leb_spec (Z.to_nat (- idx - 1))
                    (length (c :: cells) - 1));
        cbn [length] in *; try lia; [|reflexivity].
      f_equal. lia.
  - rewrite (dlseg_head _ _ _ _ _ _ Hs).
    replace (match cells.*1 !! O with Some a => Some a | None => None end)
      with (cells.*1 !! O) by (destruct (cells.*1 !! O); reflexivity).
    rewrite (index_loop_fwd _ _ _ _ _ Hl). reflexivity.
Qed.

Lemma lookup_fst_head (cells : list (Z * Z)) :
  match cells.*1 !! O with Some a => Some a | None => None end
  = cells.*1 !! O.
Proof. destruct (cells.*1 !! O); reflexivity. Qed.

Lemma search_loop_ok h lst cells key fuel i :
  is_list h lst cells -> (length cells - i < fuel)%nat ->
  search_loop fuel lst key (ListIter (cells.*1 !! i) AL_START_HEAD) h
  = Some (first_match lst key (drop i cells), h).
Proof.
  intros Hl. pose proof Hl as (Hs & _ & _).
  revert i. induction fuel as [|fuel IH]; intros i Hi; [lia|].
  cbn [search_loop].
  destruct (next_ok h lst cells i Hl) as (Hnext & _).
  rewrite (lbind_some _ _ _ _ _ Hnext).
  destruct (cells.*1 !! i) as [a|] eqn:Ha.
  - apply list_lookup_fmap_Some in Ha as ([a' v] & E & Hc). cbn in E.
    subst a'.
    pose proof (dlseg_nth _ _ _ _ _ _ _ _ _ Hs Hc) as Hn.
    pose proof (lookup_lt_Some _ _ _ Hc) as Hlt.
    destruct h as [m f r]. cbn [nodes] in *. lstep.
    rewrite (drop_S _ _ _ Hc). cbn [first_match]. unfold matches_key.
    destruct (l_match lst) as [matches|].
    + destruct (matches v key); [reflexivity|]. apply IH. lia.
    + destruct (key =? v); [reflexivity|]. apply IH. lia.
  - apply lookup_ge_None in Ha. rewrite length_fmap in Ha.
    rewrite drop_ge by lia. reflexivity.
Qed.

Lemma search_key_ok h lst cells key fuel :
  is_list h lst cells -> (length cells < fuel)%nat ->
  ni_list_search_key fuel lst key h = Some (first_match lst key cells, h).
Proof.
  intros Hl Hf. pose proof Hl as (Hs & _ & _).
  unfold ni_list_search_key, ni_list_rewind.
  rewrite (dlseg_head _ _ _ _ _ _ Hs), lookup_fst_head.
  rewrite (search_loop_ok h lst cells key fuel 0 Hl) by lia.
  rewrite drop_0. reflexivity.
Qed.

Lemma dlseg_cons m pv cur a v rest lst nx :
  dlseg m pv cur ((a, v) :: rest) lst nx <->
  cur = Some a /\
  exists n, m !! a = Some (ListNode pv n v) /\ dlseg m (Some a) n rest lst nx.
Proof. reflexivity. Qed.

(** Rotating: the tail node becomes the head. *)
Lemma rotate_ok lst c x h :
  is_list h lst (c ++ [x]) -> heap_ok h ->
  exists lst' h',
    ni_list_rotate lst h = Some (lst', h') /\
    is_list h' lst' (x :: c) /\
    heap_ok h' /\ next_node h' = next_node h /\
    released h' = released h /\ same_methods lst lst' /\
    same_outside (c ++ [x]).*1 h h'.
Proof.
  intros Hl Hok. destruct x as [t vt].
  pose proof (is_list_allocated h lst _ Hl Hok) as Hal.
  destruct Hl as (Hs & (Hn & Hbnd) & Hnd). destruct h as [m f r].
  cbn [nodes next_node released] in *.
  rewrite fmap_fst_snoc in Hnd, Hal. rewrite fmap_fst_snoc.
  pose proof Hnd as Hnd0. apply NoDup_snoc in Hnd0 as (Htc & Hndc).
  assert (Htf : t < f).
  { apply Hal. apply elem_of_app. right. apply elem_of_cons. left.
    reflexivity. }
  assert (Hlt : forall a, a ∈ c.*1 -> a < f /\ a <> t).
  { intros a Ha. split.
    - apply Hal. apply elem_of_app. left. exact Ha.
    - intros ->. exact (Htc Ha). }
  assert (Hndr : NoDup (t :: c.*1)) by (apply NoDup_cons; split; assumption).
  assert (Hlenr : zlength (c ++ [(t, vt)]) = zlength ((t, vt) :: c)) by len_tac.
  unfold ni_list_rotate. rewrite Hn.
  destruct c as [|[hd vh] c].
  - (* one node *)
    change (zlength ([] ++ [(t, vt)]) <=? 1) with true. cbv iota.
    eexists _, _. split; [reflexivity|].
    split; [|split; [exact Hok|split; [reflexivity|split; [reflexivity|
      split; [repeat split|intros a _; reflexivity]]]]].
    split; [exact Hs|]. split; [|exact Hndr]. split; assumption.
  - assert (Hlen1 : (zlength (((hd, vh) :: c) ++ [(t, vt)]) <=? 1) = false).
    { apply Z.leb_gt. len_tac. }
    rewrite Hlen1. pose proof Hs as Hs0.
    apply dlseg_snoc in Hs as (Ht & l1 & Hc & Htl). rewrite Ht.
    assert (hd < f /\ hd <> t) as (Hhf & Hht).
    { apply Hlt. cbn. apply elem_of_cons. left. reflexivity. }
    pose proof Hc as (Hh & nh & Hhd & Hrest). rewrite Hh.
    lstep. cbn [l_head l_tail with_ends].
    destruct (snoc_case c) as [->|(c0 & [p vp] & ->)].
    + (* two nodes *)
      destruct Hrest as (-> & ->).
      repeat lstep.
      eexists _, _. split; [reflexivity|].
      split; [|split; [|split; [reflexivity|split; [reflexivity|split]]]].
      * split; [|split; [|exact Hndr]].
        -- cbn [nodes l_head l_tail with_ends dlseg].
           split; [reflexivity|]. exists (Some hd). split; [lookup_tac|].
           split; [reflexivity|]. exists None. split; [lookup_tac|].
           split; reflexivity.
        -- cbn [l_len with_ends]. split; [exact Hlenr|].
           rewrite <- Hlenr. exact Hbnd.
      * repeat (apply heap_ok_insert; [lia|]). exact Hok.
      * repeat split.
      * intros a Ha. cbn [nodes].
        apply not_elem_of_app in Ha as (Ha & Ha').
        cbn in Ha. apply not_elem_of_cons in Ha as (Ha & _).
        apply not_elem_of_cons in Ha' as (Ha' & _).
        rewrite !lookup_insert_ne by congruence. reflexivity.
    + (* more nodes *)
      change ((hd, vh) :: c0 ++ [(p, vp)])
        with (((hd, vh) :: c0) ++ [(p, vp)]) in Hc.
      pose proof Hc as Hc'.
      apply dlseg_snoc in Hc' as (-> & l0 & Hc0 & Hp).
      assert (Hin : p ∈ ((hd, vh) :: c0 ++ [(p, vp)]).*1).
      { cbn. apply elem_of_cons. right. rewrite fmap_fst_snoc.
        apply elem_of_app. right. apply elem_of_cons. left. reflexivity. }
      destruct (Hlt p Hin) as (Hpf & Hpt).
      assert (Hph : p <> hd).
      { intros ->. cbn in Hndc. apply NoDup_cons in Hndc as (Hx & _).
        apply Hx. rewrite fmap_fst_snoc. apply elem_of_app. right.
        apply elem_of_cons. left. reflexivity. }
      repeat lstep.
      eexists _, _. split; [reflexivity|].
      split; [|split; [|split; [reflexivity|split; [reflexivity|split]]]].
      * split; [|split; [|exact Hndr]].
        -- cbn [nodes l_head l_tail with_ends]. apply dlseg_cons.
           split; [reflexivity|]. exists (Some hd). split; [lookup_tac|].
           change ((hd, vh) :: c0 ++ [(p, vp)])
             with (((hd, vh) :: c0) ++ [(p, vp)]).
           apply (dlseg_relink_next
                    (<[hd := ListNode (Some t) nh vh]> m)
                    _ _ _ _ _ _ _ (Some t)).
           ++ change (((hd, vh) :: c0) ++ [(p, vp)])
                with ((hd, vh) :: c0 ++ [(p, vp)]).
              rewrite Hh in Hc.
              apply (dlseg_relink_prev m _ None); [exact Hc| |].
              ** intros n' Hn'. rewrite Hhd in Hn'. injection Hn' as <-.
                 lookup_tac.
              ** intros b Hb.
                 assert (b <> hd).
                 { intros ->. cbn in Hndc.
                   apply NoDup_cons in Hndc as (Hx & _). exact (Hx Hb). }
                 rewrite lookup_insert_ne by congruence. reflexivity.
           ++ intros p' Hp'. rewrite lookup_insert_ne in Hp' by congruence.
              rewrite Hp in Hp'. injection Hp' as <-. lookup_tac.
           ++ intros b Hb.
              assert (b ∈ ((hd, vh) :: c0 ++ [(p, vp)]).*1) as Hb'.
              { change ((hd, vh) :: c0 ++ [(p, vp)])
                  with (((hd, vh) :: c0) ++ [(p, vp)]).
                rewrite fmap_fst_snoc. apply elem_of_app. left. exact Hb. }
              destruct (Hlt b Hb').
              assert (b <> p).
              { intros ->.
                change ((hd, vh) :: c0 ++ [(p, vp)])
                  with (((hd, vh) :: c0) ++ [(p, vp)]) in Hndc.
                rewrite fmap_fst_snoc in Hndc.
                apply NoDup_snoc in Hndc as (Hx & _). exact (Hx Hb). }
              destruct (decide (b = hd)) as [->|Hbh].
              ** rewrite !lookup_insert_ne by congruence.
                 rewrite !lookup_insert_eq. reflexivity.
              ** rewrite !lookup_insert_ne by congruence. reflexivity.
        -- cbn [l_len with_ends]. split; [exact Hlenr|].
           rewrite <- Hlenr. exact Hbnd.
      * repeat (apply heap_ok_insert; [lia|]). exact Hok.
      * repeat split.
      * intros a Ha. cbn [nodes].
        apply not_elem_of_app in Ha as (Ha & Ha').
        apply not_elem_of_cons in Ha' as (Ha' & _).
        assert (a <> hd /\ a <> p) as (? & ?).
        { split; intros ->; apply Ha.
          - cbn. apply elem_of_cons. left. reflexivity.
          - exact Hin. }
        rewrite !lookup_insert_ne by congruence. reflexivity.
Qed.

Lemma is_list_frame h h' l cells :
  is_list h l cells ->
  (forall a, a ∈ cells.*1 -> nodes h' !! a = nodes h !! a) ->
  is_list h' l cells.
Proof.
  intros (Hs & Hn & Hnd) Hf. split; [|split; assumption].
  exact (dlseg_frame _ _ _ _ _ _ _ Hf Hs).
Qed.

(** Joining: the nodes of the second list go to the end of the first. *)
Lemma join_ok l o c1 c2 h :
  is_list h l c1 -> is_list h o c2 -> heap_ok h ->
  (forall a, a ∈ c1.*1 -> a ∉ c2.*1) ->
  zlength c1 + zlength c2 < 2 ^ 64 ->
  exists l' o' h',
    ni_list_join l o h = Some ((l', o'), h') /\
    is_list h' l' (c1 ++ c2) /\ is_list h' o' [] /\
    heap_ok h' /\ next_node h' = next_node h /\
    released h' = released h /\ same_methods l l' /\ same_methods o o' /\
    same_outside ((c1.*1) ++ (c2.*1)) h h'.
Proof.
  intros Hl Ho Hok Hdis Hlen.
  pose proof (is_list_allocated h l _ Hl Hok) as Hal1.
  pose proof (is_list_allocated h o _ Ho Hok) as Hal2.
  destruct Hl as (Hs1 & (Hn1 & Hb1) & Hnd1).
  destruct Ho as (Hs2 & (Hn2 & Hb2) & Hnd2).
  destruct h as [m f r]. cbn [nodes next_node released] in *.
  assert (Hndr : NoDup (c1 ++ c2).*1).
  { rewrite fmap_app. apply NoDup_app. split; [exact Hnd1|].
    split; assumption. }
  assert (Hlenr : to_size (l_len l + l_len o) = zlength (c1 ++ c2) /\
                  zlength (c1 ++ c2) < 2 ^ 64).
  { rewrite Hn1, Hn2. pose proof (zlength_nonneg c1).
    pose proof (zlength_nonneg c2).
    rewrite to_size_id by lia. revert Hlen. len_tac. }
  assert (He : forall m', is_list (ListHeap m' f r) (with_ends o None None 0) []).
  { intros m'. split; [split; reflexivity|]. split; [|apply NoDup_nil_2].
    split; [reflexivity|len_tac]. }
  unfold ni_list_join.
  destruct c2 as [|[q vq] c2].
  - (* nothing to add *)
    destruct Hs2 as (Hho & Hto). rewrite Hho, Hto. rewrite lbind_ret.
    rewrite app_nil_r in *.
    destruct (snoc_case c1) as [->|(c & [p vp] & ->)].
    + destruct Hs1 as (Hh1 & Ht1). rewrite Ht1. rewrite lbind_ret.
      eexists _, _, _. split; [reflexivity|].
      split; [|split; [apply He|split; [exact Hok|split; [reflexivity|
        split; [reflexivity|split; [repeat split|split; [repeat split|
        intros a _; reflexivity]]]]]]].
      split; [split; reflexivity|]. split; [exact Hlenr|exact Hndr].
    + pose proof Hs1 as Hs1'.
      apply dlseg_snoc in Hs1 as (Ht1 & l1 & Hc & Hp). rewrite Ht1.
      lstep.
      eexists _, _, _. split; [reflexivity|].
      split; [|split; [apply He|split; [|split; [reflexivity|
        split; [reflexivity|split; [repeat split|split; [repeat split|]]]]]]].
      * split; [|split; [exact Hlenr|exact Hndr]].
        cbn [nodes l_head l_tail with_ends]. rewrite ?Ht1.
        rewrite Ht1 in Hs1'.
        apply (dlseg_frame m); [|exact Hs1'].
        intros a Ha. destruct (decide (a = p)) as [->|Hap].
        -- rewrite lookup_insert_eq. symmetry. exact Hp.
        -- rewrite lookup_insert_ne by congruence. reflexivity.
      * apply heap_ok_insert; [|exact Hok]. apply Hal1.
        rewrite fmap_fst_snoc. apply elem_of_app. right.
        apply elem_of_cons. left. reflexivity.
      * intros a Ha. cbn [nodes]. rewrite fmap_fst_snoc in Ha.
        apply not_elem_of_app in Ha as (Ha & _).
        apply not_elem_of_app in Ha as (_ & Ha).
        apply not_elem_of_cons in Ha as (Ha & _).
        rewrite lookup_insert_ne by congruence. reflexivity.
  - (* some nodes to add *)
    destruct (dlseg_last_in _ _ _ _ _ _ Hs2) as (tl & Htl & Hin);
      [discriminate|].
    pose proof Hs2 as Hs2'. destruct Hs2 as (Hho & nq & Hq & H2).
    rewrite Hho, Htl.
    assert (Hqf : q < f).
    { apply Hal2. cbn. apply elem_of_cons. left. reflexivity. }
    pose proof Hnd2 as Hnd2'. cbn in Hnd2'.
    apply NoDup_cons in Hnd2' as (Hqc & _).
    lstep.
    destruct (snoc_case c1) as [->|(c & [p vp] & ->)].
    + destruct Hs1 as (Hh1 & Ht1). rewrite Ht1. rewrite lbind_ret.
      eexists _, _, _. split; [reflexivity|].
      split; [|split; [apply He|split; [|split; [reflexivity|
        split; [reflexivity|split; [repeat split|split; [repeat split|]]]]]]].
      * split; [|split; [exact Hlenr|exact Hndr]].
        cbn [nodes l_head l_tail with_ends app]. rewrite ?Hho, ?Htl, ?Ht1.
        rewrite Hho, Htl in Hs2'.
        apply (dlseg_frame m); [|exact Hs2'].
        intros a Ha. destruct (decide (a = q)) as [->|Haq].
        -- rewrite lookup_insert_eq. symmetry. exact Hq.
        -- rewrite lookup_insert_ne by congruence. reflexivity.
      * apply heap_ok_insert; [lia|exact Hok].
      * intros a Ha. cbn [nodes]. cbn in Ha.
        apply not_elem_of_cons in Ha as (Ha & _).
        rewrite lookup_insert_ne by congruence. reflexivity.
    + pose proof Hs1 as Hs1'.
      apply dlseg_snoc in Hs1 as (Ht1 & l1 & Hc & Hp). rewrite Ht1.
      assert (Hpin : p ∈ (c ++ [(p, vp)]).*1).
      { rewrite fmap_fst_snoc. apply elem_of_app. right.
        apply elem_of_cons. left. reflexivity. }
      assert (Hpq : p <> q).
      { intros ->. apply (Hdis q Hpin). cbn. apply elem_of_cons. left.
        reflexivity. }
      pose proof Hnd1 as Hnd1'. rewrite fmap_fst_snoc in Hnd1'.
      apply NoDup_snoc in Hnd1' as (Hpc & _).
      lstep.
      eexists _, _, _. split; [reflexivity|].
      split; [|split; [apply He|split; [|split; [reflexivity|
        split; [reflexivity|split; [repeat split|split; [repeat split|]]]]]]].
      * split; [|split; [exact Hlenr|exact Hndr]].
        cbn [nodes l_head l_tail with_ends]. rewrite ?Hho, ?Htl, ?Ht1.
        apply dlseg_app.
        exists (Some p), (Some q). split.
        -- rewrite Ht1 in Hs1'.
           apply (dlseg_relink_next m _ _ _ _ _ _ _ None); [exact Hs1'| |].
           ++ intros p' Hp'. rewrite Hp in Hp'. injection Hp' as <-.
              lookup_tac.
           ++ intros b Hb.
              assert (b <> p) by (intros ->; exact (Hpc Hb)).
              assert (b <> q).
              { intros ->. apply (Hdis q).
                - rewrite fmap_fst_snoc. apply elem_of_app. left. exact Hb.
                - cbn. apply elem_of_cons. left. reflexivity. }
              rewrite !lookup_insert_ne by congruence. reflexivity.
        -- rewrite Hho, Htl in Hs2'.
           apply (dlseg_relink_prev m _ None); [exact Hs2'| |].
           ++ intros n' Hn'. rewrite Hq in Hn'. injection Hn' as <-.
              lookup_tac.
           ++ intros b Hb.
              assert (b <> q) by (intros ->; exact (Hqc Hb)).
              assert (b <> p).
              { intros ->. apply (Hdis p Hpin). cbn. apply elem_of_cons.
                right. exact Hb. }
              rewrite !lookup_insert_ne by congruence. reflexivity.
      * apply heap_ok_insert; [exact (Hal1 p Hpin)|].
        apply heap_ok_insert; [lia|exact Hok].
      * intros a Ha. cbn [nodes].
        apply not_elem_of_app in Ha as (Ha & Ha').
        cbn in Ha'. apply not_elem_of_cons in Ha' as (Ha' & _).
        assert (a <> p) by (intros ->; exact (Ha Hpin)).
        rewrite !lookup_insert_ne by congruence. reflexivity.
Qed.

Lemma lookup_delete_all (l : list Z) (m : gmap Z ni_list_node) a :
  foldl (fun m a => delete a m) m l !! a
  = if bool_decide (a ∈ l) then None else m !! a.
Proof.
  revert m. induction l as [|b l IH]; intros m; cbn [foldl].
  - rewrite bool_decide_eq_false_2 by (intros H; inversion H). reflexivity.
  - rewrite IH. destruct (decide (a = b)) as [->|Hne].
    + rewrite lookup_delete_eq.
      rewrite (bool_decide_eq_true_2 (b ∈ b :: l))
        by (apply elem_of_cons; left; reflexivity).
      destruct (bool_decide (b ∈ l)); reflexivity.
    + rewrite lookup_delete_ne by congruence.
      destruct (decide (a ∈ l)) as [Hin|Hnin].
      * rewrite !bool_decide_eq_true_2;
          [reflexivity|apply elem_of_cons; right; exact Hin|exact Hin].
      * rewrite !bool_decide_eq_false_2; [reflexivity| |exact Hnin].
        intros Hin. apply elem_of_cons in Hin as [?|?]; [congruence|].
        exact (Hnin H).
Qed.

Lemma empty_loop_ok lst f cells m pv cur tl nx r :
  dlseg m pv cur cells tl nx -> NoDup cells.*1 ->
  empty_loop (length cells) lst cur (ListHeap m f r)
  = Some (tt, ListHeap (foldl (fun m a => delete a m) m cells.*1) f
                (r ++ (if l_free lst then cells.*2 else []))).
Proof.
  revert m pv cur r. induction cells as [|[a v] rest IH];
    intros m pv cur r Hs Hnd.
  - cbn. destruct (l_free lst); rewrite app_nil_r; reflexivity.
  - destruct Hs as (-> & n & Hn & Hr). cbn in Hnd.
    apply NoDup_cons in Hnd as (Hnin & Hnd).
    cbn [length empty_loop]. lstep.
    assert (Hr' : dlseg (delete a m) (Some a) n rest tl nx).
    { apply (dlseg_frame m); [|exact Hr]. intros b Hb.
      rewrite lookup_delete_ne; [reflexivity|].
      intros ->. exact (Hnin Hb). }
    destruct (l_free lst) eqn:Hfree.
    + repeat lstep. rewrite (IH _ _ _ _ Hr' Hnd). rewrite ?Hfree.
      cbn [fmap list_fmap foldl]. rewrite <- app_assoc. reflexivity.
    + repeat lstep. rewrite (IH _ _ _ _ Hr' Hnd). rewrite ?Hfree.
      reflexivity.
Qed.

(** Emptying: every node is freed, the [free] method being called with
    the values from the head on. *)
Lemma list_empty_ok lst cells h :
  is_list h lst cells -> heap_ok h ->
  exists lst' h',
    ni_list_empty lst h = Some (lst', h') /\
    is_list h' lst' [] /\
    heap_ok h' /\ next_node h' = next_node h /\
    released h' = released h ++ (if l_free lst then cells.*2 else []) /\
    (forall a, a ∈ cells.*1 -> nodes h' !! a = None) /\
    same_methods lst lst' /\ same_outside cells.*1 h h'.
Proof.
  intros (Hs & (Hn & Hbnd) & Hnd) Hok. destruct h as [m f r].
  cbn [nodes next_node released] in *.
  unfold ni_list_empty. rewrite Hn. unfold zlength. rewrite Nat2Z.id.
  rewrite (lbind_some _ _ _ _ _ (empty_loop_ok lst f _ _ _ _ _ _ r Hs Hnd)).
  eexists _, _. split; [reflexivity|].
  split; [|split; [|split; [reflexivity|split; [reflexivity|split;
    [|split; [repeat split|]]]]]].
  - split; [split; reflexivity|]. split; [|apply NoDup_nil_2].
    split; [reflexivity|len_tac].
  - intros a Ha. cbn in *. rewrite lookup_delete_all.
    destruct (bool_decide (a ∈ cells.*1)); [reflexivity|].
    apply Hok. exact Ha.
  - intros a Ha. cbn. rewrite lookup_delete_all.
    rewrite bool_decide_eq_true_2 by exact Ha. reflexivity.
  - intros a Ha. cbn. rewrite lookup_delete_all.
    rewrite bool_decide_eq_false_2 by exact Ha. reflexivity.
Qed.

Lemma copied_length lst a cells : length (copied lst a cells) = length cells.
Proof.
  revert a. induction cells as [|[b v] rest IH]; intros a; cbn;
    [reflexivity|]. rewrite IH. reflexivity.
Qed.

Lemma copied_ext l1 l2 a cells :
  l_dup l1 = l_dup l2 -> copied l1 a cells = copied l2 a cells.
Proof.
  intros E. revert a. induction cells as [|[b v] rest IH]; intros a; cbn;
    [reflexivity|].
  unfold dup_value. rewrite E, IH. reflexivity.
Qed.

Lemma dup_loop_ok org cells fuel :
  forall i copy ccells h,
  is_list h org cells -> is_list h copy ccells -> heap_ok h ->
  (forall a, a ∈ cells.*1 -> a ∉ ccells.*1) ->
  zlength ccells + Z.of_nat (length cells - i) < 2 ^ 64 ->
  (length cells - i < fuel)%nat ->
  Forall (fun c => is_Some (dup_value copy c.2)) (drop i cells) ->
  exists copy' h',
    dup_loop fuel copy (ListIter (cells.*1 !! i) AL_START_HEAD) h
    = Some (Some copy', h') /\
    is_list h' copy' (ccells ++ copied copy (next_node h) (drop i cells)) /\
    is_list h' org cells /\ heap_ok h' /\
    next_node h' = next_node h + Z.of_nat (length cells - i) /\
    released h' = released h /\ same_methods copy copy' /\
    (forall a, a < next_node h -> a ∉ ccells.*1 ->
               nodes h' !! a = nodes h !! a).
Proof.
  induction fuel as [|fuel IH];
    intros i copy ccells h Ho Hc Hok Hdis Hlen Hfuel Hdup; [lia|].
  cbn [dup_loop].
  destruct (next_ok h org cells i Ho) as (Hnext & _).
  rewrite (lbind_some _ _ _ _ _ Hnext).
  destruct (cells.*1 !! i) as [a|] eqn:Ha.
  - apply list_lookup_fmap_Some in Ha as ([a' v] & E & Hci). cbn in E.
    subst a'.
    pose proof (lookup_lt_Some _ _ _ Hci) as Hlt.
    pose proof Ho as (Hso & _ & _).
    pose proof (dlseg_nth _ _ _ _ _ _ _ _ _ Hso Hci) as Hn.
    rewrite (drop_S _ _ _ Hci) in Hdup |- *.
    apply Forall_cons in Hdup as (Hv & Hdup). cbn [snd] in Hv.
    destruct Hv as (v' & Hv').
    cbn [copied]. rewrite Hv'. cbn [default].
    destruct (add_node_tail_ok copy ccells v' h Hc Hok) as
      (copy1 & h1 & R1 & Hc1 & Hok1 & Hnx1 & Hrel1 & Hm1 & Hout1); [lia|].
    assert (Ho1 : is_list h1 org cells).
    { apply (is_list_frame h); [exact Ho|]. intros b Hb. apply Hout1.
      apply not_elem_of_cons. split; [|exact (Hdis b Hb)].
      pose proof (is_list_allocated h org cells Ho Hok b Hb). lia. }
    assert (Hdv : forall x, dup_value copy1 x = dup_value copy x).
    { intros x. unfold dup_value. destruct Hm1 as (-> & _). reflexivity. }
    destruct (IH (S i) copy1 (ccells ++ [(next_node h, v')]) h1 Ho1 Hc1 Hok1)
      as (copy' & h' & R & Hc' & Ho' & Hok' & Hnx' & Hrel' & Hm' & Hout').
    { intros b Hb. rewrite fmap_fst_snoc. apply not_elem_of_app.
      split; [exact (Hdis b Hb)|]. apply not_elem_of_cons.
      split; [|apply not_elem_of_nil].
      pose proof (is_list_allocated h org cells Ho Hok b Hb). lia. }
    { rewrite zlength_snoc. lia. }
    { lia. }
    { eapply Forall_impl; [exact Hdup|]. intros c Hc0. rewrite Hdv.
      exact Hc0. }
    exists copy', h'.
    destruct h as [m f r]. cbn [nodes next_node released] in *.
    unfold dup_value in Hv'.
    split.
    { lstep. destruct (l_dup copy) as [d|].
      - rewrite Hv'. rewrite (lbind_some _ _ _ _ _ R1). exact R.
      - injection Hv' as <-. rewrite (lbind_some _ _ _ _ _ R1). exact R. }
    split.
    { rewrite <- app_assoc in Hc'. cbn [app] in Hc'. rewrite Hnx1 in Hc'.
      rewrite (copied_ext copy copy1); [exact Hc'|].
      destruct Hm1 as (-> & _). reflexivity. }
    split; [exact Ho'|]. split; [exact Hok'|].
    split; [rewrite Hnx', Hnx1; lia|].
    split; [rewrite Hrel', Hrel1; reflexivity|].
    split.
    { destruct Hm1 as (E1 & E2 & E3), Hm' as (E1' & E2' & E3').
      repeat split; congruence. }
    intros b Hb Hbc. rewrite Hout'.
    + apply Hout1. apply not_elem_of_cons. split; [lia|exact Hbc].
    + rewrite Hnx1. lia.
    + rewrite fmap_fst_snoc. apply not_elem_of_app. split; [exact Hbc|].
      apply not_elem_of_cons. split; [lia|apply not_elem_of_nil].
  - apply lookup_ge_None in Ha. rewrite length_fmap in Ha.
    rewrite drop_ge by lia. cbn [copied]. rewrite app_nil_r.
    exists copy, h. split; [reflexivity|].
    split; [exact Hc|]. split; [exact Ho|]. split; [exact Hok|].
    split; [lia|]. split; [reflexivity|]. split; [repeat split|].
    intros; reflexivity.
Qed.

(** Copying a list. *)
Lemma dup_ok org cells fuel h :
  is_list h org cells -> heap_ok h -> (length cells < fuel)%nat ->
  Forall (fun c => is_Some (dup_value org c.2)) cells ->
  exists copy h',
    ni_list_dup fuel org h = Some (Some copy, h') /\
    is_list h' copy (copied org (next_node h) cells) /\
    is_list h' org cells /\ heap_ok h' /\
    next_node h' = next_node h + zlength cells /\
    released h' = released h /\ same_methods org copy /\
    (forall a, a < next_node h -> nodes h' !! a = nodes h !! a).
Proof.
  intros Ho Hok Hfuel Hdup.
  pose proof Ho as (Hs & (Hn & Hbnd) & Hnd).
  unfold ni_list_dup, ni_list_create. rewrite lbind_ret.
  cbn [l_head l_tail l_len]. unfold ni_list_rewind.
  rewrite (dlseg_head _ _ _ _ _ _ Hs), lookup_fst_head.
  set (copy0 := NiList None None (l_dup org) (l_free org) (l_match org) 0).
  assert (Hc0 : is_list h copy0 []).
  { split; [split; reflexivity|]. split; [|apply NoDup_nil_2].
    split; [reflexivity|len_tac]. }
  destruct (dup_loop_ok org cells fuel 0 copy0 [] h Ho Hc0 Hok)
    as (copy & h' & R & Hc & Ho' & Hok' & Hnx & Hrel & Hm & Hout).
  { intros a _. apply not_elem_of_nil. }
  { change (zlength []) with 0. revert Hbnd. unfold zlength. lia. }
  { lia. }
  { rewrite drop_0. exact Hdup. }
  exists copy, h'. split; [exact R|].
  rewrite drop_0 in Hc. cbn [app] in Hc.
  split.
  { rewrite (copied_ext org copy0); [exact Hc|reflexivity]. }
  split; [exact Ho'|]. split; [exact Hok'|].
  split; [rewrite Hnx; unfold zlength; lia|].
  split; [exact Hrel|]. split; [exact Hm|].
  intros a Ha. apply Hout; [exact Ha|apply not_elem_of_nil].
Qed.

Lemma dup_loop_fail org cells fuel :
  forall i copy ccells h k a v,
  is_list h org cells -> is_list h copy ccells -> heap_ok h ->
  (forall b, b ∈ cells.*1 -> b ∉ ccells.*1) ->
  zlength ccells + Z.of_nat (length cells - i) < 2 ^ 64 ->
  (length cells - i < fuel)%nat ->
  (i <= k)%nat -> cells !! k = Some (a, v) -> dup_value copy v = None ->
  Forall (fun c => is_Some (dup_value copy c.2))
    (take (k - i) (drop i cells)) ->
  exists h',
    dup_loop fuel copy (ListIter (cells.*1 !! i) AL_START_HEAD) h
    = Some (None, h') /\
    is_list h' org cells /\ heap_ok h' /\
    released h' =
      released h ++
      (if l_free copy
       then (ccells ++ copied copy (next_node h)
                         (take (k - i) (drop i cells))).*2
       else []) /\
    (forall b, b ∈ ccells.*1 -> nodes h' !! b = None) /\
    (forall b, next_node h <= b -> nodes h' !! b = None) /\
    (forall b, b < next_node h -> b ∉ ccells.*1 ->
               nodes h' !! b = nodes h !! b).
Proof.
  induction fuel as [|fuel IH];
    intros i copy ccells h k a v Ho Hc Hok Hdis Hlen Hfuel Hik Hk Hv Hdup;
    [lia|].
  cbn [dup_loop].
  destruct (next_ok h org cells i Ho) as (Hnext & _).
  rewrite (lbind_some _ _ _ _ _ Hnext).
  pose proof (lookup_lt_Some _ _ _ Hk) as Hklt.
  destruct (cells !! i) as [[ai vi]|] eqn:Hci.
  2: { apply lookup_ge_None in Hci. lia. }
  assert (Ha : cells.*1 !! i = Some ai).
  { rewrite list_lookup_fmap, Hci. reflexivity. }
  rewrite Ha.
  pose proof Ho as (Hso & _ & _).
  pose proof (dlseg_nth _ _ _ _ _ _ _ _ _ Hso Hci) as Hn.
  destruct (decide (i = k)) as [->|Hne].
  - (* the value that is not copied *)
    rewrite Hk in Hci. injection Hci as <- <-.
    destruct (list_empty_ok copy ccells h Hc Hok)
      as (copy' & h' & R & Hc' & Hok' & Hnx & Hrel & Hfreed & Hm & Hout).
    exists h'.
    unfold dup_value in Hv. destruct (l_dup copy) as [d|] eqn:Hd;
      [|discriminate].
    rewrite Nat.sub_diag. cbn [take copied]. rewrite app_nil_r.
    split.
    { destruct h as [m f r]. cbn [nodes] in *. lstep. rewrite Hv.
      unfold ni_list_release. rewrite lbind_assoc.
      rewrite (lbind_some _ _ _ _ _ R). reflexivity. }
    split.
    { apply (is_list_frame h); [exact Ho|]. intros b Hb. apply Hout.
      exact (Hdis b Hb). }
    split; [exact Hok'|]. split; [exact Hrel|]. split; [exact Hfreed|].
    split.
    { intros b Hb. apply Hok'. rewrite Hnx. exact Hb. }
    intros b _ Hb. apply Hout. exact Hb.
  - (* a value that is copied *)
    assert (Hlt : (i < k)%nat) by lia.
    rewrite (drop_S _ _ _ Hci) in Hdup |- *.
    replace (k - i)%nat with (S (k - S i)) in Hdup |- * by lia.
    cbn [take] in Hdup |- *.
    apply Forall_cons in Hdup as (Hvi & Hdup). cbn [snd] in Hvi.
    destruct Hvi as (v' & Hv').
    cbn [copied]. rewrite Hv'. cbn [default].
    destruct (add_node_tail_ok copy ccells v' h Hc Hok) as
      (copy1 & h1 & R1 & Hc1 & Hok1 & Hnx1 & Hrel1 & Hm1 & Hout1); [lia|].
    assert (Ho1 : is_list h1 org cells).
    { apply (is_list_frame h); [exact Ho|]. intros b Hb. apply Hout1.
      apply not_elem_of_cons. split; [|exact (Hdis b Hb)].
      pose proof (is_list_allocated h org cells Ho Hok b Hb). lia. }
    assert (Hdv : forall x, dup_value copy1 x = dup_value copy x).
    { intros x. unfold dup_value. destruct Hm1 as (-> & _). reflexivity. }
    destruct (IH (S i) copy1 (ccells ++ [(next_node h, v')]) h1 k a v
                Ho1 Hc1 Hok1)
      as (h' & R & Ho' & Hok' & Hrel' & Hfreed' & Hhigh' & Hout').
    { intros b Hb. rewrite fmap_fst_snoc. apply not_elem_of_app.
      split; [exact (Hdis b Hb)|]. apply not_elem_of_cons.
      split; [|apply not_elem_of_nil].
      pose proof (is_list_allocated h org cells Ho Hok b Hb). lia. }
    { rewrite zlength_snoc. lia. }
    { lia. }
    { lia. }
    { exact Hk. }
    { rewrite Hdv. exact Hv. }
    { eapply Forall_impl; [exact Hdup|]. intros c Hc0. rewrite Hdv.
      exact Hc0. }
    exists h'.
    split.
    { destruct h as [m f r]. cbn [nodes next_node released] in *.
      unfold dup_value in Hv'. lstep. destruct (l_dup copy) as [d|].
      - rewrite Hv'. rewrite (lbind_some _ _ _ _ _ R1). exact R.
      - injection Hv' as <-. rewrite (lbind_some _ _ _ _ _ R1). exact R. }
    split; [exact Ho'|]. split; [exact Hok'|].
    split.
    { rewrite Hrel', Hrel1. f_equal. destruct Hm1 as (E1 & E2 & E3).
      rewrite E2. rewrite <- app_assoc. cbn [app]. rewrite Hnx1.
      rewrite (copied_ext copy1 copy) by exact E1. reflexivity. }
    split.
    { intros b Hb. apply Hfreed'. rewrite fmap_fst_snoc.
      apply elem_of_app. left. exact Hb. }
    split.
    { intros b Hb. destruct (decide (b = next_node h)) as [->|Hbn].
      - apply Hfreed'. rewrite fmap_fst_snoc. apply elem_of_app. right.
        apply elem_of_cons. left. reflexivity.
      - apply Hhigh'. rewrite Hnx1. lia. }
    intros b Hb Hbc. rewrite Hout'.
    + apply Hout1. apply not_elem_of_cons. split; [lia|exact Hbc].
    + rewrite Hnx1. lia.
    + rewrite fmap_fst_snoc. apply not_elem_of_app. split; [exact Hbc|].
      apply not_elem_of_cons. split; [lia|apply not_elem_of_nil].
Qed.

(** A copy that stops at a value the [dup] method gives NULL for. *)
Lemma dup_fail org cells fuel h k a v :
  is_list h org cells -> heap_ok h -> (length cells < fuel)%nat ->
  cells !! k = Some (a, v) -> dup_value org v = None ->
  Forall (fun c => is_Some (dup_value org c.2)) (take k cells) ->
  exists h',
    ni_list_dup fuel org h = Some (None, h') /\
    is_list h' org cells /\ heap_ok h' /\
    released h' =
      released h ++
      (if l_free org then (copied org (next_node h) (take k cells)).*2
       else []) /\
    (forall b, next_node h <= b -> nodes h' !! b = None) /\
    (forall b, b < next_node h -> nodes h' !! b = nodes h !! b).
Proof.
  intros Ho Hok Hfuel Hk Hv Hdup.
  pose proof Ho as (Hs & (Hn & Hbnd) & Hnd).
  unfold ni_list_dup, ni_list_create. rewrite lbind_ret.
  cbn [l_head l_tail l_len]. unfold ni_list_rewind.
  rewrite (dlseg_head _ _ _ _ _ _ Hs), lookup_fst_head.
  set (copy0 := NiList None None (l_dup org) (l_free org) (l_match org) 0).
  assert (Hc0 : is_list h copy0 []).
  { split; [split; reflexivity|]. split; [|apply NoDup_nil_2].
    split; [reflexivity|len_tac]. }
  destruct (dup_loop_fail org cells fuel 0 copy0 [] h k a v Ho Hc0 Hok)
    as (h' & R & Ho' & Hok' & Hrel & _ & Hhigh & Hout).
  { intros b _. apply not_elem_of_nil. }
  { change (zlength []) with 0. revert Hbnd. unfold zlength. lia. }
  { lia. }
  { lia. }
  { exact Hk. }
  { exact Hv. }
  { rewrite drop_0, Nat.sub_0_r. exact Hdup. }
  exists h'. split; [exact R|]. split; [exact Ho'|]. split; [exact Hok'|].
  split.
  { rewrite Hrel. rewrite drop_0, Nat.sub_0_r. cbn [app].
    rewrite (copied_ext copy0 org) by reflexivity. reflexivity. }
  split; [exact Hhigh|].
  intros b Hb. apply Hout; [exact Hb|apply not_elem_of_nil].
Qed.

Lemma visit_local_fwd h lst cells fuel i :
  is_list h lst cells -> (length cells - i < fuel)%nat ->
  visit_local fuel (ListIter (cells.*1 !! i) AL_START_HEAD) h
  = Some ((drop i cells).*2, h).
Proof.
  intros Hl. pose proof Hl as (Hs & _ & _).
  revert i. induction fuel as [|fuel IH]; intros i Hi; [lia|].
  cbn [visit_local].
  destruct (next_ok h lst cells i Hl) as (Hnext & _).
  rewrite (lbind_some _ _ _ _ _ Hnext).
  destruct (cells.*1 !! i) as [a|] eqn:Ha.
  - apply list_lookup_fmap_Some in Ha as ([a' v] & E & Hc). cbn in E.
    subst a'.
    pose proof (dlseg_nth _ _ _ _ _ _ _ _ _ Hs Hc) as Hn.
    pose proof (lookup_lt_Some _ _ _ Hc) as Hlt.
    destruct h as [m f r]. cbn [nodes] in *. lstep.
    rewrite (lbind_some _ _ _ _ _ (IH (S i) ltac:(lia))).
    rewrite (drop_S _ _ _ Hc). reflexivity.
  - apply lookup_ge_None in Ha. rewrite length_fmap in Ha.
    rewrite drop_ge by lia. reflexivity.
Qed.

Lemma visit_local_bwd h lst cells fuel i :
  is_list h lst cells -> (i < length cells)%nat -> (i + 1 < fuel)%nat ->
  visit_local fuel (ListIter (cells.*1 !! i) AL_START_TAIL) h
  = Some (reverse (take (S i) cells).*2, h).
Proof.
  intros Hl. pose proof Hl as (Hs & _ & _).
  revert i. induction fuel as [|fuel IH]; intros i Hi Hf; [lia|].
  cbn [visit_local].
  destruct (cells.*1 !! i) as [a|] eqn:Ha.
  2: { apply lookup_ge_None in Ha. rewrite length_fmap in Ha. lia. }
  destruct (next_ok h lst cells i Hl) as (_ & Hnext & Hnull).
  rewrite (lbind_some _ _ _ _ _ (Hnext AL_START_TAIL a eq_refl Ha)).
  apply list_lookup_fmap_Some in Ha as ([a' v] & E & Hc). cbn in E.
  subst a'.
  pose proof (dlseg_nth _ _ _ _ _ _ _ _ _ Hs Hc) as Hn.
  rewrite (take_S_r _ _ _ Hc), fmap_app, reverse_app. cbn [fmap list_fmap snd].
  destruct i as [|j].
  - destruct fuel as [|fuel]; [lia|].
    destruct h as [m f r]. cbn [nodes] in *. lstep.
    rewrite (lbind_some _ _ _ [] _ eq_refl). reflexivity.
  - pose proof (IH j ltac:(lia) ltac:(lia)) as Hj.
    destruct h as [m f r]. cbn [nodes] in *. lstep.
    rewrite (lbind_some _ _ _ _ _ Hj). reflexivity.
Qed.

Lemma ibind_some {A B} (c : LI A) (k : A -> LI B) h a h' :
  c h = Some (a, h') -> ibind c k h = k a h'.
Proof. intros H. unfold ibind. rewrite H. reflexivity. Qed.

Lemma lift_some {A} (c : L A) lh its a lh' :
  c lh = Some (a, lh') ->
  lift c (IterHeap lh its) = Some (a, IterHeap lh' its).
Proof. intros H. unfold lift. cbn [lheap iters]. rewrite H. reflexivity. Qed.

Lemma at_iter_some {A} p (f : ni_list_iter -> L (A * ni_list_iter))
  lh its it a it' lh' :
  its !! p = Some it -> f it lh = Some ((a, it'), lh') ->
  at_iter (Some p) f (IterHeap lh its)
  = Some (a, IterHeap lh' (<[p := it']> its)).
Proof.
  intros Hp Hf. unfold at_iter, ibind, iter_load, lift, iter_store, iret.
  cbn [iters lheap]. rewrite Hp. cbn [iters lheap]. rewrite Hf.
  cbn [iters lheap]. rewrite Hp. reflexivity.
Qed.

(** The loop over an allocated iterator that goes to the tail. *)
Lemma visit_fwd h lst cells fuel i p its :
  is_list h lst cells -> (length cells - i < fuel)%nat ->
  its !! p = Some (ListIter (cells.*1 !! i) AL_START_HEAD) ->
  visit fuel (Some p) (IterHeap h its)
  = Some ((drop i cells).*2,
          IterHeap h (<[p := ListIter None AL_START_HEAD]> its)).
Proof.
  intros Hl. pose proof Hl as (Hs & _ & _).
  revert i its. induction fuel as [|fuel IH]; intros i its Hi Hp; [lia|].
  cbn [visit].
  destruct (next_ok h lst cells i Hl) as (Hnext & _).
  rewrite (ibind_some _ _ _ _ _ (at_iter_some _ _ _ _ _ _ _ _ Hp Hnext)).
  destruct (cells.*1 !! i) as [a|] eqn:Ha.
  - apply list_lookup_fmap_Some in Ha as ([a' v] & E & Hc). cbn in E.
    subst a'.
    pose proof (dlseg_nth _ _ _ _ _ _ _ _ _ Hs Hc) as Hn.
    pose proof (lookup_lt_Some _ _ _ Hc) as Hlt.
    assert (Hld : exists n, load (Some a) h = Some (n, h) /\ n_value n = v).
    { eexists. split;
        [destruct h as [m f r]; cbn [nodes] in *; apply load_some; exact Hn
        |reflexivity]. }
    destruct Hld as (n & Hld & Hv).
    rewrite (ibind_some _ _ _ _ _ (lift_some _ _ _ _ _ Hld)), Hv.
    rewrite (ibind_some _ _ _ _ _
               (IH (S i) _ ltac:(lia) (lookup_insert_eq _ _ _))).
    rewrite insert_insert_eq, (drop_S _ _ _ Hc). reflexivity.
  - apply lookup_ge_None in Ha. rewrite length_fmap in Ha.
    rewrite drop_ge by lia.
    assert (E : cells.*1 !! S i = None)
      by (apply lookup_ge_None; rewrite length_fmap; lia).
    rewrite E. reflexivity.
Qed.

(** The loop over an allocated iterator that goes to the head: any
    direction but [AL_START_HEAD]. *)
Lemma visit_bwd h lst cells fuel i p its d :
  is_list h lst cells -> (i < length cells)%nat -> (i + 1 < fuel)%nat ->
  (d =? AL_START_HEAD) = false ->
  its !! p = Some (ListIter (cells.*1 !! i) d) ->
  visit fuel (Some p) (IterHeap h its)
  = Some (reverse (take (S i) cells).*2,
          IterHeap h (<[p := ListIter None d]> its)).
Proof.
  intros Hl. pose proof Hl as (Hs & _ & _).
  revert i its. induction fuel as [|fuel IH]; intros i its Hi Hf Hd Hp; [lia|].
  cbn [visit].
  destruct (cells.*1 !! i) as [a|] eqn:Ha.
  2: { apply lookup_ge_None in Ha. rewrite length_fmap in Ha. lia. }
  destruct (next_ok h lst cells i Hl) as (_ & Hnext & Hnull).
  rewrite (ibind_some _ _ _ _ _
             (at_iter_some _ _ _ _ _ _ _ _ Hp (Hnext d a Hd Ha))).
  apply list_lookup_fmap_Some in Ha as ([a' v] & E & Hc). cbn in E.
  subst a'.
  pose proof (dlseg_nth _ _ _ _ _ _ _ _ _ Hs Hc) as Hn.
  assert (Hld : exists n, load (Some a) h = Some (n, h) /\ n_value n = v).
  { eexists. split;
      [destruct h as [m f r]; cbn [nodes] in *; apply load_some; exact Hn
      |reflexivity]. }
  destruct Hld as (n & Hld & Hv).
  rewrite (ibind_some _ _ _ _ _ (lift_some _ _ _ _ _ Hld)), Hv.
  rewrite (take_S_r _ _ _ Hc), fmap_app, reverse_app. cbn [fmap list_fmap snd].
  destruct i as [|j].
  - destruct fuel as [|fuel]; [lia|].
    assert (H0 : visit (S fuel) (Some p)
                   (IterHeap h (<[p := ListIter None d]> its))
                 = Some ([], IterHeap h (<[p := ListIter None d]> its))).
    { cbn [visit].
      rewrite (ibind_some _ _ _ _ _
                 (at_iter_some _ _ _ _ _ _ _ _ (lookup_insert_eq _ _ _)
                    (Hnull d))).
      rewrite insert_insert_eq. reflexivity. }
    rewrite (ibind_some _ _ _ _ _ H0). reflexivity.
  - rewrite (ibind_some _ _ _ _ _
               (IH j _ ltac:(lia) ltac:(lia) Hd (lookup_insert_eq _ _ _))).
    rewrite insert_insert_eq. reflexivity.
Qed.

(** [ni_list_get_iterator] takes a new block and sets it at an end of the
    list. *)
Lemma get_iterator_ok lst direction h its :
  ni_list_get_iterator lst direction (IterHeap h its)
  = Some (Some (next_node h),
          IterHeap (ListHeap (nodes h) (next_node h + 1) (released h))
            (<[next_node h :=
                 ListIter (if direction =? AL_START_HEAD then l_head lst
                           else l_tail lst) direction]> its)).
Proof.
  unfold ni_list_get_iterator, ibind, iter_malloc. cbn [lheap iters].
  destruct (direction =? AL_START_HEAD);
    unfold iter_set_next, iter_set_direction, ibind, iter_load, iter_store,
      iret; cbn [lheap iters it_next it_direction];
    repeat (progress (rewrite ?lookup_insert_eq, ?insert_insert_eq;
                      cbn [lheap iters it_next it_direction]));
    reflexivity.
Qed.

Lemma returns_list_intro r h lst lst' h' cells' calls freed touched :
  r = Some (lst', h') -> is_list h' lst' cells' -> heap_ok h' ->
  released h' = released h ++ calls ->
  (forall a, a ∈ freed -> nodes h' !! a = None) ->
  same_methods lst lst' -> same_outside touched h h' ->
  returns_list r h lst cells' calls freed touched.
Proof.
  intros. exists lst', h'.
  do 6 (split; [assumption|]). assumption.
Qed.

(** [ni_list_add_node_head], [ni_list_add_node_tail] and
    [ni_list_insert_node] on a list of fewer than [ULONG_MAX] nodes: the
    call returns the list with one node more, a new one with the value,
    at the head, at the tail, or next to the node given, on the side
    asked for; the other nodes keep their order and their values, [len]
    counts the nodes, no method is called, and no node of another list is
    written to. *)
Theorem ni_list_add_node_inserts h lst cells val :
  is_list h lst cells -> heap_ok h -> zlength cells + 1 < 2 ^ 64 ->
  let node := next_node h in
  returns_list (ni_list_add_node_head lst val h) h lst
    ((node, val) :: cells) [] [] (node :: cells.*1) /\
  returns_list (ni_list_add_node_tail lst val h) h lst
    (cells ++ [(node, val)]) [] [] (node :: cells.*1) /\
  forall c1 old vo c2,
    cells = c1 ++ (old, vo) :: c2 ->
    returns_list (ni_list_insert_node lst old val true h) h lst
      (c1 ++ (old, vo) :: (node, val) :: c2) [] [] (node :: cells.*1) /\
    returns_list (ni_list_insert_node lst old val false h) h lst
      (c1 ++ (node, val) :: (old, vo) :: c2) [] [] (node :: cells.*1).
Proof.
  intros Hl Hok Hlen node. subst node.
  assert (Hnil : forall a, a ∈ @nil Z -> forall h' : list_heap,
                   nodes h' !! a = None).
  { intros a Ha. inversion Ha. }
  split; [|split].
  - destruct (add_node_head_ok lst cells val h Hl Hok Hlen)
      as (lst' & h' & R & Hl' & Hok' & _ & Hrel & Hm & Hout).
    apply (returns_list_intro _ _ _ lst' h'); try assumption.
    + rewrite app_nil_r. exact Hrel.
    + intros a Ha. exact (Hnil a Ha h').
  - destruct (add_node_tail_ok lst cells val h Hl Hok Hlen)
      as (lst' & h' & R & Hl' & Hok' & _ & Hrel & Hm & Hout).
    apply (returns_list_intro _ _ _ lst' h'); try assumption.
    + rewrite app_nil_r. exact Hrel.
    + intros a Ha. exact (Hnil a Ha h').
  - intros c1 old vo c2 ->. split.
    + destruct (insert_node_ok lst c1 old vo c2 val true h Hl Hok Hlen)
        as (lst' & h' & R & Hl' & Hok' & _ & Hrel & Hm & Hout).
      apply (returns_list_intro _ _ _ lst' h'); try assumption.
      * rewrite app_nil_r. exact Hrel.
      * intros a Ha. exact (Hnil a Ha h').
    + destruct (insert_node_ok lst c1 old vo c2 val false h Hl Hok Hlen)
        as (lst' & h' & R & Hl' & Hok' & _ & Hrel & Hm & Hout).
      apply (returns_list_intro _ _ _ lst' h'); try assumption.
      * rewrite app_nil_r. exact Hrel.
      * intros a Ha. exact (Hnil a Ha h').
Qed.

Lemma example_list_ok :
  is_list example_nodes example_list [(1, 10); (2, 20)] /\
  heap_ok example_nodes.
Proof.
  split; [split; [|split]|].
  - cbn. split; [reflexivity|]. exists (Some 2). split; [reflexivity|].
    split; [reflexivity|]. exists None. split; [reflexivity|].
    split; reflexivity.
  - split; [reflexivity|]. vm_compute. reflexivity.
  - apply (bool_decide_unpack _). vm_compute. reflexivity.
  - intros a Ha. cbn in *. rewrite !lookup_insert_ne by lia.
    apply lookup_empty.
Qed.

Lemma ni_list_add_node_inserts_witness :
  returns_list (ni_list_add_node_head example_list 30 example_nodes)
    example_nodes example_list [(3, 30); (1, 10); (2, 20)] [] [] [3; 1; 2] /\
  returns_list (ni_list_insert_node example_list 1 30 true example_nodes)
    example_nodes example_list [(1, 10); (3, 30); (2, 20)] [] [] [3; 1; 2].
Proof.
  destruct example_list_ok as (Hl & Hok).
  assert (Hlen : zlength [(1, 10); (2, 20)] + 1 < 2 ^ 64)
    by (vm_compute; reflexivity).
  pose proof (ni_list_add_node_inserts example_nodes example_list
                [(1, 10); (2, 20)] 30 Hl Hok Hlen) as H.
  cbv zeta in H. destruct H as (H1 & _ & H3).
  split; [exact H1|].
  exact (proj1 (H3 [] 1 10 [(2, 20)] eq_refl)).
Defined.

(** [ni_list_del_node] takes the node given out of the list and frees
    it: the other nodes keep their order, [len] counts them, and the
    [free] method, when the list has one, is called once, with the value
    of the node.  [ni_list_empty] frees every node, calling the method
    with the values from the head to the tail, and leaves the list empty
    with its methods; [ni_list_release] does the same to the nodes.  No
    node of another list is written to. *)
Theorem ni_list_del_node_removes h lst cells :
  is_list h lst cells -> heap_ok h ->
  (forall c1 nd v c2,
     cells = c1 ++ (nd, v) :: c2 ->
     returns_list (ni_list_del_node lst nd h) h lst (c1 ++ c2)
       (if l_free lst then [v] else []) [nd] cells.*1) /\
  returns_list (ni_list_empty lst h) h lst []
    (if l_free lst then cells.*2 else []) cells.*1 cells.*1 /\
  exists lst' h',
    ni_list_empty lst h = Some (lst', h') /\
    ni_list_release lst h = Some (tt, h').
Proof.
  intros Hl Hok.
  destruct (list_empty_ok lst cells h Hl Hok)
    as (lst' & h' & R & Hl' & Hok' & _ & Hrel & Hfreed & Hm & Hout).
  split; [|split].
  - intros c1 nd v c2 ->.
    destruct (del_node_ok lst c1 nd v c2 h Hl Hok)
      as (lst1 & h1 & R1 & Hl1 & Hok1 & _ & Hrel1 & Hfreed1 & Hm1 & Hout1).
    apply (returns_list_intro _ _ _ lst1 h1); try assumption.
    intros a Ha. apply elem_of_cons in Ha as [->|Ha];
      [exact Hfreed1|inversion Ha].
  - apply (returns_list_intro _ _ _ lst' h'); assumption.
  - exists lst', h'. split; [exact R|].
    unfold ni_list_release. rewrite (lbind_some _ _ _ _ _ R). reflexivity.
Qed.

Lemma ni_list_del_node_removes_witness :
  returns_list (ni_list_del_node example_list 1 example_nodes)
    example_nodes example_list [(2, 20)] [10] [1] [1; 2] /\
  returns_list (ni_list_empty example_list example_nodes)
    example_nodes example_list [] [10; 20] [1; 2] [1; 2].
Proof.
  destruct example_list_ok as (Hl & Hok).
  pose proof (ni_list_del_node_removes example_nodes example_list
                [(1, 10); (2, 20)] Hl Hok) as (H1 & H2 & _).
  split; [|exact H2].
  exact (H1 [] 1 10 [(2, 20)] eq_refl).
Defined.

(** On a list, [ni_list_index] returns the node at the index, counted
    from the head for 0 and above and from the tail for a negative one
    (-1 is the last node), and NULL when the list has no such node;
    [ni_list_search_key] returns the first node from the head whose value
    the [match] method accepts for the key (whose value is the key, for a
    list without the method), and NULL when there is none.  Neither
    allocates, and neither writes to a node: the heap is left as it was.
    The loop over [ni_list_next] meets every node once, in the order of
    the list for an iterator from the head and in the reverse order for
    one of another direction.  For an iterator that is a local variable,
    set by [ni_list_rewind] or [ni_list_rewind_tail], the loop leaves the
    heap as it was.  [ni_list_get_iterator] allocates one block, at the
    address the allocator hands out next, and writes the end of the list
    and the direction to it; the loop writes every step to that block and
    leaves NULL in it, and nothing to a node; [ni_list_release_iterator]
    frees the block. *)
Theorem ni_list_index_search_visit h lst cells :
  is_list h lst cells ->
  (forall idx, - 2 ^ 63 < idx < 2 ^ 63 ->
     ni_list_index lst idx h = Some (index_spec cells idx, h)) /\
  (forall key fuel, (length cells < fuel)%nat ->
     ni_list_search_key fuel lst key h
     = Some (first_match lst key cells, h)) /\
  (forall fuel, (length cells + 1 < fuel)%nat ->
     visit_local fuel (ni_list_rewind lst) h = Some (cells.*2, h) /\
     visit_local fuel (ni_list_rewind_tail lst) h
     = Some (reverse cells.*2, h)) /\
  (forall its direction fuel, (length cells + 1 < fuel)%nat ->
     let p := next_node h in
     let h1 := ListHeap (nodes h) (p + 1) (released h) in
     let start := if direction =? AL_START_HEAD then l_head lst
                  else l_tail lst in
     ni_list_get_iterator lst direction (IterHeap h its)
     = Some (Some p, IterHeap h1 (<[p := ListIter start direction]> its)) /\
     visit fuel (Some p)
       (IterHeap h1 (<[p := ListIter start direction]> its))
     = Some (if direction =? AL_START_HEAD then cells.*2
             else reverse cells.*2,
             IterHeap h1 (<[p := ListIter None direction]> its)) /\
     ni_list_release_iterator (Some p)
       (IterHeap h1 (<[p := ListIter None direction]> its))
     = Some (tt, IterHeap h1 (delete p its))).
Proof.
  intros Hl. pose proof Hl as (Hs & _ & _).
  split; [|split; [|split]].
  - intros idx Hidx. exact (index_ok h lst cells idx Hl Hidx).
  - intros key fuel Hf. exact (search_key_ok h lst cells key fuel Hl Hf).
  - intros fuel Hf. unfold ni_list_rewind, ni_list_rewind_tail. split.
    + rewrite (dlseg_head _ _ _ _ _ _ Hs), lookup_fst_head.
      rewrite (visit_local_fwd h lst cells fuel 0 Hl) by lia.
      rewrite drop_0. reflexivity.
    + rewrite (dlseg_tail _ _ _ _ _ _ Hs).
      destruct cells as [|c cells].
      * destruct fuel; [lia|]. reflexivity.
      * rewrite (visit_local_bwd h lst _ fuel _ Hl)
          by (cbn [length] in *; lia).
        rewrite take_ge by (cbn [length]; lia). reflexivity.
  - intros its direction fuel Hf p h1 start.
    assert (Hl1 : is_list h1 lst cells) by exact Hl.
    split; [apply get_iterator_ok|]. split.
    + subst start. destruct (direction =? AL_START_HEAD) eqn:Hd.
      * apply Z.eqb_eq in Hd. subst direction.
        rewrite (visit_fwd h1 lst cells fuel 0 p _ Hl1 ltac:(lia)).
        -- rewrite insert_insert_eq, drop_0. reflexivity.
        -- rewrite lookup_insert_eq, (dlseg_head _ _ _ _ _ _ Hs),
             lookup_fst_head. reflexivity.
      * destruct cells as [|c cells].
        -- destruct fuel; [lia|]. cbn [visit].
           assert (Ht : l_tail lst = None) by (destruct Hs; assumption).
           rewrite Ht.
           rewrite (ibind_some _ _ _ _ _
                      (at_iter_some _ _ _ _ _ _ _ _ (lookup_insert_eq _ _ _)
                         (proj2 (proj2 (next_ok h1 lst [] 0 Hl1)) direction))).
           rewrite insert_insert_eq. reflexivity.
        -- rewrite (visit_bwd h1 lst (c :: cells) fuel (length cells) p _
                      direction Hl1 ltac:(cbn [length]; lia)
                      ltac:(cbn [length] in *; lia) Hd).
           ++ rewrite insert_insert_eq, take_ge by (cbn [length]; lia).
              reflexivity.
           ++ rewrite lookup_insert_eq, (dlseg_tail _ _ _ _ _ _ Hs).
              replace (length (c :: cells) - 1)%nat with (length cells)
                by (cbn [length]; lia).
              reflexivity.
    + unfold ni_list_release_iterator. cbn [iters lheap].
      rewrite lookup_insert_eq, delete_insert_eq. reflexivity.
Qed.

Lemma ni_list_index_search_visit_witness :
  ni_list_index example_list (- 1) example_nodes
  = Some (Some 2, example_nodes) /\
  ni_list_search_key 3 example_list 20 example_nodes
  = Some (Some 2, example_nodes) /\
  visit_local 4 (ni_list_rewind example_list) example_nodes
  = Some ([10; 20], example_nodes) /\
  let h1 := ListHeap (nodes example_nodes) 4 [] in
  ni_list_get_iterator example_list AL_START_TAIL (IterHeap example_nodes ∅)
  = Some (Some 3, IterHeap h1 (<[3 := ListIter (Some 2) AL_START_TAIL]> ∅)) /\
  visit 4 (Some 3) (IterHeap h1 (<[3 := ListIter (Some 2) AL_START_TAIL]> ∅))
  = Some ([20; 10], IterHeap h1 (<[3 := ListIter None AL_START_TAIL]> ∅)) /\
  ni_list_release_iterator (Some 3)
    (IterHeap h1 (<[3 := ListIter None AL_START_TAIL]> ∅))
  = Some (tt, IterHeap h1 (delete 3 ∅)).
Proof.
  destruct example_list_ok as (Hl & _).
  pose proof (ni_list_index_search_visit example_nodes example_list
                [(1, 10); (2, 20)] Hl) as (H1 & H2 & H3 & H4).
  split; [exact (H1 (- 1) ltac:(lia))|].
  split; [exact (H2 20 3%nat ltac:(cbn; lia))|].
  split; [exact (proj1 (H3 4%nat ltac:(cbn; lia)))|].
  exact (H4 ∅ AL_START_TAIL 4%nat ltac:(cbn; lia)).
Defined.

(** [ni_list_rotate] makes the tail node the head and keeps the order of
    the others (a list without nodes is left alone); [ni_list_join] moves
    the nodes of a second list, in their order, to the end of the first
    and leaves the second empty with its methods.  [len] counts the
    nodes, no node is allocated or freed, no method is called, and no
    node of another list is written to. *)
Theorem ni_list_rotate_join h lst cells :
  is_list h lst cells -> heap_ok h ->
  (forall c x, cells = c ++ [x] ->
     returns_list (ni_list_rotate lst h) h lst (x :: c) [] [] cells.*1) /\
  (cells = [] -> ni_list_rotate lst h = Some (lst, h)) /\
  (forall o c2,
     is_list h o c2 -> (forall a, a ∈ cells.*1 -> a ∉ c2.*1) ->
     zlength cells + zlength c2 < 2 ^ 64 ->
     exists l' o' h',
       ni_list_join lst o h = Some ((l', o'), h') /\
       is_list h' l' (cells ++ c2) /\ is_list h' o' [] /\
       heap_ok h' /\ next_node h' = next_node h /\
       released h' = released h /\
       same_methods lst l' /\ same_methods o o' /\
       same_outside ((cells.*1) ++ (c2.*1)) h h').
Proof.
  intros Hl Hok. split; [|split].
  - intros c x ->.
    destruct (rotate_ok lst c x h Hl Hok)
      as (lst' & h' & R & Hl' & Hok' & _ & Hrel & Hm & Hout).
    apply (returns_list_intro _ _ _ lst' h'); try assumption.
    + rewrite app_nil_r. exact Hrel.
    + intros a Ha. inversion Ha.
  - intros ->. destruct Hl as (_ & (Hn & _) & _).
    unfold ni_list_rotate. rewrite Hn. reflexivity.
  - intros o c2 Ho Hdis Hlen.
    destruct (join_ok lst o cells c2 h Hl Ho Hok Hdis Hlen)
      as (l' & o' & h' & R & Hl' & Ho' & Hok' & Hnx & Hrel & Hm & Hm' & Hout).
    exists l', o', h'. repeat (split; [assumption|]). assumption.
Qed.

Lemma ni_list_rotate_join_witness :
  returns_list (ni_list_rotate example_list example_nodes)
    example_nodes example_list [(2, 20); (1, 10)] [] [] [1; 2] /\
  exists l' o' h',
    ni_list_join example_list (NiList None None None false None 0)
      example_nodes = Some ((l', o'), h') /\
    is_list h' l' [(1, 10); (2, 20)] /\ is_list h' o' [].
Proof.
  destruct example_list_ok as (Hl & Hok).
  pose proof (ni_list_rotate_join example_nodes example_list
                [(1, 10); (2, 20)] Hl Hok) as (H1 & _ & H3).
  split; [exact (H1 [(1, 10)] (2, 20) eq_refl)|].
  assert (Ho : is_list example_nodes (NiList None None None false None 0) []).
  { split; [split; reflexivity|]. split; [|apply NoDup_nil_2].
    split; [reflexivity|vm_compute; reflexivity]. }
  destruct (H3 (NiList None None None false None 0) [] Ho)
    as (l' & o' & h' & R & Hl' & Ho' & _).
  { intros a _. apply not_elem_of_nil. }
  { vm_compute. reflexivity. }
  exists l', o', h'. split; [exact R|]. split; [exact Hl'|exact Ho'].
Defined.

(** [ni_list_dup] leaves the original as it was.  When the [dup] method
    returns a value for every value (or the list has no such method), it
    returns a list of new nodes with the values the method gives (the
    same values without it), in the order of the original and with its
    methods, and no [free] method is called.  When the method returns
    NULL for a value, [ni_list_dup] returns NULL, every node it has
    allocated is freed again, and the [free] method, when there is one,
    is called with the copies made so far. *)
Theorem ni_list_dup_copies h lst cells fuel :
  is_list h lst cells -> heap_ok h -> (length cells < fuel)%nat ->
  (Forall (fun c => is_Some (dup_value lst c.2)) cells ->
   exists copy h',
     ni_list_dup fuel lst h = Some (Some copy, h') /\
     is_list h' copy (copied lst (next_node h) cells) /\
     is_list h' lst cells /\ heap_ok h' /\
     released h' = released h /\ same_methods lst copy /\
     (forall a, a < next_node h -> nodes h' !! a = nodes h !! a)) /\
  (forall k a v,
     cells !! k = Some (a, v) -> dup_value lst v = None ->
     Forall (fun c => is_Some (dup_value lst c.2)) (take k cells) ->
     exists h',
       ni_list_dup fuel lst h = Some (None, h') /\
       is_list h' lst cells /\ heap_ok h' /\
       released h' =
         released h ++
         (if l_free lst then (copied lst (next_node h) (take k cells)).*2
          else []) /\
       (forall b, next_node h <= b -> nodes h' !! b = None) /\
       (forall b, b < next_node h -> nodes h' !! b = nodes h !! b)).
Proof.
  intros Hl Hok Hf. split.
  - intros Hdup.
    destruct (dup_ok lst cells fuel h Hl Hok Hf Hdup)
      as (copy & h' & R & Hc & Hl' & Hok' & _ & Hrel & Hm & Hout).
    exists copy, h'. repeat (split; [assumption|]). assumption.
  - intros k a v Hk Hv Hdup.
    exact (dup_fail lst cells fuel h k a v Hl Hok Hf Hk Hv Hdup).
Qed.

Lemma ni_list_dup_copies_witness :
  (exists copy h',
     ni_list_dup 3 example_list example_nodes = Some (Some copy, h') /\
     is_list h' copy [(3, 10); (4, 20)] /\
     is_list h' example_list [(1, 10); (2, 20)]) /\
  (exists h',
     ni_list_dup 3 example_dup_list example_nodes = Some (None, h') /\
     released h' = [110] /\ nodes h' !! 3 = None).
Proof.
  destruct example_list_ok as (Hl & Hok).
  assert (Hf : (length [(1, 10); (2, 20)] < 3)%nat) by (cbn; lia).
  split.
  - pose proof (ni_list_dup_copies example_nodes example_list
                  [(1, 10); (2, 20)] 3 Hl Hok Hf) as (H1 & _).
    assert (Hd : Forall (fun c => is_Some (dup_value example_list c.2))
                   [(1, 10); (2, 20)]).
    { repeat constructor; eexists; reflexivity. }
    destruct (H1 Hd) as (copy & h' & R & Hc & Hl' & _).
    exists copy, h'. split; [exact R|]. split; [exact Hc|exact Hl'].
  - assert (Hl2 : is_list example_nodes example_dup_list [(1, 10); (2, 20)]).
    { destruct Hl as (Hs & Hn & Hnd). split; [exact Hs|].
      split; [exact Hn|exact Hnd]. }
    pose proof (ni_list_dup_copies example_nodes example_dup_list
                  [(1, 10); (2, 20)] 3 Hl2 Hok Hf) as (_ & H2).
    assert (Hd : Forall (fun c => is_Some (dup_value example_dup_list c.2))
                   (take 1 [(1, 10); (2, 20)])).
    { repeat constructor; eexists; reflexivity. }
    destruct (H2 1%nat 2 20 eq_refl eq_refl Hd)
      as (h' & R & _ & _ & Hrel & Hhigh & _).
    exists h'. split; [exact R|]. split; [exact Hrel|].
    apply Hhigh. cbn. lia.
Defined.
